(* ===== verification/_CoqProject ===== *)
-Q . S2P
Prelude.v
GoRuntime.v
Model.v
StoreDB.v
StoreQueue.v
StoreDefs.v
StoreHistory.v
StoreInv.v
Schedule.v
ScheduleFacts.v
ScheduleCatchUp.v
Scheduler.v
SchedulerFacts.v
Supervisor.v
SupervisorFacts.v
SupervisorReset.v
History.v
HistoryFacts.v
HistoryRel.v
Heap.v
Executor.v
ExecLoops.v
ExecInv.v
ExecLoopInv.v
ExecFacts.v
ExecDemo.v
ReadGate.v
ReadGateFacts.v
Alerts.v
AlertFacts.v
AlertPipe.v
AlertStore.v
AlertStoreFacts.v
Config.v
Wiring.v
ConfigFacts.v
LogFrame.v
LogFrameFacts.v
LogPipe.v
LogPipeFacts.v
LogWriter.v
LogArchive.v
LogWriterCore.v
LogWriterInv.v
LogWriterOps.v
LogWriterRun.v
LogArchiveFacts.v
LogWriterFacts.v
LogHistory.v
LogRead.v
LogReadFacts.v
LogOrphan.v
LogCrash.v
LogOrphanFacts.v
LogSystemCrash.v
LogRecovery.v
LogOwner.v
LogOwnerSafe.v
LogOwnerInv.v
LogOwnerFacts.v
LogOwnerDelete.v
LogOwnerDemo.v
