(* ===== verification/Prelude.v ===== *)
(** * Verification of minicrond

    minicrond is a cron daemon and worker supervisor written in Go
    (src/cmd/minicrond, src/internal).  It fires jobs on cron and interval
    schedules, keeps long-running workers alive, queues what it cannot start,
    records every run in SQLite, captures the output of its children in
    compressed chunk files and sends alerts.  This library models that logic as
    executable definitions and proves what makes it correct.

    ** Parts and how they interact

    - Prelude, GoRuntime: notations, record update, results, hints, the loop
      combinator [for_loop], counting and sums over maps; Go's 64-bit integers,
      [time.Time] (nanoseconds since year 1) and [time.Duration].
    - Model (model/*.go, scheduler/definition.go): definitions, runs, alert
      channels and their validation, the comparison a reload uses.
    - StoreDB, StoreQueue, StoreDefs, StoreHistory (store/store.go, queue.go,
      worker_state.go): the database as a record of tables; every statement is
      one function of the database, atomic as its SQL transaction is.  StoreInv:
      the queue invariant and the life cycle of a run over all statements.
    - Schedule, ScheduleFacts, ScheduleCatchUp (scheduler/scheduler.go): the
      next fire, daylight-saving folds, the search for missed occurrences.  The
      cron library and the zone database are parameters.
    - Scheduler, SchedulerFacts: the loop of one job: position, catch-up, firing,
      watermark, back-off, reload and stop.
    - Supervisor, SupervisorFacts, SupervisorReset (supervisor/*.go): the loops
      of the workers, their restart budget, exhaustion and reset, stop and
      shutdown; SupervisorReset is about resets that race with a loop recording
      its exhaustion.  [Stop] sets the hold and asks the executor in one step
      (nothing the supervisor does reads that request).
    - History, HistoryFacts, HistoryRel (executor/executor.go, finalizer.go,
      persistlag.go): what the executor owes the database when a write fails.
    - Heap, Executor, ExecLoops, ExecInv, ExecLoopInv, ExecFacts, ExecDemo
      (executor/executor.go, queue.go, retries.go, storage.go): admission, the
      queue goroutine, retries (container/heap included) and shutdown, on top of
      the store and history models.  Requests of others happen between the steps
      of an operation ([runEnv]); shutdown may begin there too.  Two fields are
      history only: the runs launched, and [x_late], those registered while
      closing.  The database the service started from is the instance [Origin].
    - ReadGate, ReadGateFacts (api/readlimit.go): admission of expensive reads
      and the shared metrics scan.
    - Alerts, AlertFacts, AlertPipe (alerts/alerts.go), AlertStore,
      AlertStoreFacts (store/alerts.go, daemon/alert_park.go): the dispatcher,
      its drop ring, the delivery rows and the park that holds them back.  A call
      of Notify is a producer of its own, step by step between the counter, the
      channel and the drop ring.
    - Config, Wiring, ConfigFacts (config/config.go, daemon/daemon.go): defaults,
      validation, import, the editable form of a definition, the limits derived
      from it.
    - LogFrame, LogFrameFacts, LogPipe, LogPipeFacts, LogWriter, LogArchive,
      LogRead (logstore/logstore.go, logstore/archive.go, logdb/logdb.go): the
      frame format, the line splitter, the writer of one run, the checkpoint
      into the archive and the paged reads, in a state monad with an oracle for
      system calls.  LogWriterCore (weakest preconditions and the abstraction
      [Core]), LogWriterInv, LogWriterOps, LogWriterRun (the writer's invariant
      [WI] and what each call keeps), LogArchiveFacts (what a checkpoint keeps,
      [AI] and [Moved]), LogWriterFacts (the log as one list of frames),
      LogHistory (any sequence of calls) and LogReadFacts (reads).
    - LogOrphan, LogCrash, LogOrphanFacts, LogSystemCrash, LogRecovery
      (logstore/archive.go): the sweep that archives a buffer left by a crash;
      what a crash leaves of a run ([LogCrash]), what one sweep keeps, the damage
      a system crash may do (each chunk of the buffer keeps its file, loses its
      end, or is lost, and the index may be lost; a chunk with a committed row was
      synced before the commit and keeps its file until it is removed), and the
      whole run of a log with a crash and any number of sweeps.
    - LogOwner, LogOwnerSafe, LogOwnerInv, LogOwnerFacts, LogOwnerDelete,
      LogOwnerDemo (logstore/logstore.go, coordination.go, archive.go,
      budget.go): who may touch a run's files when - claims, run locks, archive
      slots, the archiver's queue and workers, deletion, sweeps, shutdown.
      [LogOwner] has the programs and their steps, [LogOwnerSafe] the discipline
      they obey, [LogOwnerInv] what every step keeps, [LogOwnerFacts] and
      [LogOwnerDelete] the theorems, [LogOwnerDemo] an executable scheduler and
      concrete executions.

    The executor calls the store and the log writer, the scheduler and the
    supervisor call the executor, and everyone who finishes a run notifies the
    dispatcher.  The models are composed the same way: the executor's state
    contains the database of StoreDB and the history of History.

    ** How concurrency and failure are modelled

    A goroutine is a step function; an execution is a list of events, each a
    critical section of the code (what it does under one lock), so every
    interleaving of critical sections is an execution.  What the environment
    decides - the outcome of a database write, of a system call, a clock value,
    a child's exit - is an argument of the step or an oracle in the state (a list
    of outcomes read in order), and theorems quantify over it.  Errors are values.

    The ownership of logs spans many critical sections of one goroutine, so there
    a goroutine is a program: a free monad over operations, each one critical
    section of [Store.mu], one lock or channel operation or one piece of I/O.
    [LogOwner.step] interleaves any number of them; a goroutine that cannot go on
    has no step, and waiting on a condition variable or announcing oneself on a
    read-write lock is a step of its own.  [LogOwnerSafe.safe] follows a program
    through what it holds (claims, locks, slots, queue entries) for any result of
    each operation; every call of the store obeys it, and the invariant of the
    shared state is proved from it once for all programs.

    ** What the theorems show

    - Store: the queue rows are exactly the queued runs and respect every limit;
      terminal statuses are final.
    - Scheduler: each occurrence is handled at most once, never early, and a
      failed pass keeps it; the backward search equals plain enumeration; fires
      advance and never repeat in a fold.
    - Supervisor: one loop per worker, a held run is stopped, the restart budget
      holds, a reset waits for a write in progress and makes every other claim of
      exhaustion stale, shutdown drains.
    - Executor: capacity and overlap limits, each launch once, the database moves
      only by steps of the store, the drain serves least-served first, no run is
      registered once shutdown began, retries are bounded and accounted for.
    - History: no stage of a run is lost between memory and database, the spool
      is bounded and drained.
    - Alerts: every accepted delivery is finished, pending, or abandoned by a
      canceled dispatcher; the newest row wins; parked rows are flushed.
    - Reads: the gate's limits hold, a freed slot wakes a waiter, one metrics
      scan at a time.
    - Configuration: what validation accepts satisfies every check and the limits
      the other components assume; reading a definition and writing it back is the
      identity, unless it emptied a list or map that the defaults fill in.
    - Logs: frames survive encoding and any cut; lines do not depend on read
      boundaries; under any pattern of I/O failures a run that is not marked
      truncated (and whose direct writes succeeded, [LogHistory.writesOk]) reads
      back exactly what its callers were told is stored, the
      buffer stays within its limit, a checkpoint ends and keeps every chunk's
      content, and a page is the next part of the log.
    - Crash recovery: after a crash and any sweeps, each stopped anywhere by
      failing system calls, every chunk has exactly the frames the crash left of
      it; a sweep that succeeds leaves no buffer, and after a crash that spared
      the chunk files the download is complete.
    - Ownership: in every interleaving no two goroutines touch one run's files at
      once, the buffer of a run with a writer is never archived or deleted, the
      archiver's queue is bounded, and in a state in which nobody can move all
      calls have returned: no deadlock and no lost wake-up.  Three fields are
      history only: [due] (accepted and without an outcome), [spilled] (left to a
      sweep by a full queue) and [refused] (released with a deferral after a
      stop); [late] says that a stop ran out of time.

    ** Bounds

    Loops that are not structural run on fuel: [for_loop] takes a positive,
    and each use is proved to end within it ([for_loop_total]); the salvage and
    pipe loops consume at least one byte per turn, so the length of the input is
    enough; an archive checkpoint removes a chunk of the index per turn, the
    archive scan moves its cursor past a row per turn and a download writes a
    frame per turn.  The programs of LogOwner need no fuel: their loops are
    unrolled by steps ([step_loop]).
    Integers are [Z]; where a Go value can wrap ([Duration] arithmetic, the
    header fields) the wrap is written out, and counters that would need 2^63
    increments are left unbounded.

    ** Not modelled

    Operating-system work (spawning, signals, /proc, trusted paths), HTTP and
    JSON, SQLite itself, TOML decoding, the Telegram request, service
    installation and the command line: they are I/O around the modelled
    decisions.  Of the log store: directory listings for diagnostics, the purge
    of the quarantine, and the grouping of fsyncs. *)

From stdpp Require Export base tactics list gmap strings sorting.
From Stdlib Require Export ZArith Lia.

(** * Record update

    [r <| f := v |>] is Go's [r.f = v] on a value.  A record type declares its
    eta expansion once as an [Eta] instance; updaters are derived from it. *)

Class Eta (R : Type) := eta : R -> R.
Class Updater {R T : Type} (proj : R -> T) := upd : (T -> T) -> R -> R.
Arguments upd {R T} proj {_} f r /.
Arguments eta {R _} r /.

Ltac build_updater R T p :=
  exact (fun (f : T -> T) (r : R) =>
    ltac:(let e := constr:(@eta R _ r) in
          let e := eval hnf in e in
          let e := eval cbv beta in e in
          let g := eval pattern (p r) in e in
          lazymatch g with
          | ?h _ => let res := eval cbv beta in (h (f (p r))) in exact res
          end)).

#[global] Hint Extern 1 (@Updater ?R ?T ?p) => build_updater R T p : typeclass_instances.

Declare Scope update_scope.
Delimit Scope update_scope with upd.
Open Scope update_scope.
Notation "r <| p := v |>" := (upd p (fun _ => v) r)
  (at level 1, left associativity, p at level 9) : update_scope.
Notation "r <| p ::= f |>" := (upd p f r)
  (at level 1, left associativity, p at level 9) : update_scope.

(** * Results

    A Go function returning [(T, error)] is a [Result E T]; [E] is the
    component's own error type. *)

Inductive Result (E A : Type) : Type :=
| Ok (a : A)
| Err (e : E).
Arguments Ok {E A} a.
Arguments Err {E A} e.

Definition is_ok {E A} (r : Result E A) : bool :=
  match r with Ok _ => true | Err _ => false end.

Declare Scope result_scope.
Delimit Scope result_scope with result.
Notation "'let!' x := m 'in' k" :=
  (match m with Ok x => k | Err e => Err e end)
  (at level 10, x pattern, m at level 100, k at level 200) : result_scope.
Open Scope result_scope.

(** * Automation *)

Create HintDb minicrond.
Create Rewrite HintDb minicrond.

(** Split the boolean tests of a guard chain into their propositions. *)
Ltac bools :=
  repeat match goal with
  | H : (_ && _)%bool = true |- _ => apply andb_true_iff in H; destruct H
  | H : (_ || _)%bool = false |- _ => apply orb_false_iff in H; destruct H
  | H : negb _ = true |- _ => apply negb_true_iff in H
  | H : negb _ = false |- _ => apply negb_false_iff in H
  | H : (_ <? _)%Z = true |- _ => apply Z.ltb_lt in H
  | H : (_ <? _)%Z = false |- _ => apply Z.ltb_ge in H
  | H : (_ <=? _)%Z = true |- _ => apply Z.leb_le in H
  | H : (_ <=? _)%Z = false |- _ => apply Z.leb_gt in H
  | H : (_ =? _)%Z = true |- _ => apply Z.eqb_eq in H
  | H : (_ =? _)%Z = false |- _ => apply Z.eqb_neq in H
  | H : bool_decide _ = true |- _ => apply bool_decide_eq_true_1 in H
  | H : bool_decide _ = false |- _ => apply bool_decide_eq_false_1 in H
  end.

(** Case analysis on the scrutinee of a [match] or [if], in hypotheses or goal. *)
Ltac split_match :=
  match goal with
  | H : context [match ?x with _ => _ end] |- _ =>
      lazymatch x with context [match _ with _ => _ end] => fail | _ => destruct x eqn:? end
  | |- context [match ?x with _ => _ end] =>
      lazymatch x with context [match _ with _ => _ end] => fail | _ => destruct x eqn:? end
  end.

(** Walk every branch of a handler. *)
Ltac branches := repeat (split_match; simplify_eq/=); bools.

(** * Generic lemmas *)

Lemma existsb_eqb_elem (x : string) (l : list string) :
  existsb (String.eqb x) l = true <-> x ∈ l.
Proof.
  rewrite existsb_exists, list_elem_of_In. split.
  - intros (y & Hy & ->%String.eqb_eq). done.
  - intros Hx. exists x. split; [done | apply String.eqb_refl].
Qed.

#[export] Hint Rewrite existsb_eqb_elem : minicrond.

(** ** Boolean filters of lists *)

Lemma fmap_filter_sublist {A B} (f : A -> B) (p : A -> bool) l :
  sublist (f <$> List.filter p l) (f <$> l).
Proof.
  induction l as [|x l IH]; simpl; [constructor|]. destruct (p x); simpl; by constructor.
Qed.

Lemma elem_of_filter_list {A} (p : A -> bool) (x : A) l :
  x ∈ List.filter p l <-> x ∈ l /\ p x = true.
Proof. rewrite !list_elem_of_In. apply filter_In. Qed.

Lemma length_filter_le {A} (p : A -> bool) l : (length (List.filter p l) <= length l)%nat.
Proof. induction l as [|x l IH]; simpl; [lia|]. destruct (p x); simpl; lia. Qed.

Lemma filter_filter_comm {A} (p r : A -> bool) l :
  List.filter p (List.filter r l) = List.filter r (List.filter p l).
Proof.
  induction l as [|x l IH]; simpl; [done|].
  destruct (p x) eqn:Ep, (r x) eqn:Er; simpl; rewrite ?Ep, ?Er, IH; done.
Qed.

(** ** Counting

    [cnt p l] is the number of entries of [l] in the class [p]; a list is
    conserved when every class is. *)

Definition cnt {A} (p : A -> bool) (l : list A) : Z := Z.of_nat (length (List.filter p l)).

Lemma cnt_nil {A} (p : A -> bool) : cnt p [] = 0%Z.
Proof. done. Qed.

Lemma cnt_cons {A} (p : A -> bool) x l : cnt p (x :: l) = ((if p x then 1 else 0) + cnt p l)%Z.
Proof. unfold cnt. simpl. destruct (p x); simpl; lia. Qed.

Lemma cnt_app {A} (p : A -> bool) l k : cnt p (l ++ k) = (cnt p l + cnt p k)%Z.
Proof. unfold cnt. rewrite List.filter_app, length_app. lia. Qed.

Lemma cnt_nonneg {A} (p : A -> bool) l : (0 <= cnt p l)%Z.
Proof. unfold cnt. lia. Qed.

Lemma cnt_all {A} (l : list A) : cnt (fun _ => true) l = Z.of_nat (length l).
Proof. unfold cnt. f_equal. f_equal. induction l as [|x l IH]; simpl; congruence. Qed.

Lemma cnt_map {A B} (f : A -> B) p l : cnt p (f <$> l) = cnt (fun x => p (f x)) l.
Proof.
  induction l as [|x l IH]; [done|]. cbn [fmap list_fmap]. by rewrite !cnt_cons, IH.
Qed.

#[export] Hint Rewrite @cnt_nil @cnt_cons @cnt_app : minicrond.

(** ** Sums over finite maps

    Counters that several threads maintain are sums over the threads. *)

Section map_sums.
Context `{Countable K} {A : Type}.
Implicit Types (m : gmap K A) (f g : A -> Z).

Definition msum f m : Z := map_fold (fun _ x acc => f x + acc)%Z 0%Z m.

Lemma msum_empty f : msum f ∅ = 0%Z.
Proof. apply map_fold_empty. Qed.

Lemma msum_new f m i x : m !! i = None -> msum f (<[i := x]> m) = (f x + msum f m)%Z.
Proof. intros Hi. unfold msum. rewrite map_fold_insert_L; [done | intros; lia | done]. Qed.

(** Replacing one entry changes the sum by the difference. *)
Lemma msum_update f m i x y :
  m !! i = Some x -> msum f (<[i := y]> m) = (msum f m - f x + f y)%Z.
Proof.
  intros Hi. rewrite <- (insert_delete_id m i x Hi) at 2. rewrite <- (insert_delete_eq m i y).
  rewrite !msum_new by apply lookup_delete_eq. lia.
Qed.

Lemma msum_le f g m :
  (forall i x, m !! i = Some x -> f x <= g x)%Z -> (msum f m <= msum g m)%Z.
Proof.
  induction m as [|i x m Hi IH] using map_ind; intros Hle; [by rewrite !msum_empty|].
  rewrite !msum_new by done.
  pose proof (Hle i x (lookup_insert_eq _ _ _)).
  enough (msum f m <= msum g m)%Z by lia. apply IH. intros j y Hj. apply (Hle j).
  rewrite lookup_insert_ne; [done | congruence].
Qed.

Lemma msum_scale f k m : msum (fun x => k * f x)%Z m = (k * msum f m)%Z.
Proof.
  induction m as [|i x m Hi IH] using map_ind; [rewrite !msum_empty; lia|].
  rewrite !msum_new, IH by done. lia.
Qed.

Lemma msum_zero m : msum (fun _ => 0)%Z m = 0%Z.
Proof. apply (msum_scale (fun _ => 0)%Z 0 m). Qed.

Lemma msum_nonneg f m : (forall i x, m !! i = Some x -> 0 <= f x)%Z -> (0 <= msum f m)%Z.
Proof. intros Hf. rewrite <- (msum_zero m). by apply msum_le. Qed.

Lemma msum_delete f m i x : m !! i = Some x -> msum f (delete i m) = (msum f m - f x)%Z.
Proof.
  intros Hi. rewrite <- (insert_delete_id m i x Hi) at 2.
  rewrite msum_new by apply lookup_delete_eq. lia.
Qed.

(** A sum of list counts is the count of the concatenated lists. *)
Lemma msum_concat {B} (items : A -> list B) p m :
  msum (fun x => cnt p (items x)) m =
  cnt p (concat ((fun kx => items kx.2) <$> map_to_list m)).
Proof.
  unfold msum. rewrite map_fold_foldr. unfold compose.
  induction (map_to_list m) as [|[k x] l IH]; [done|]. simpl. rewrite cnt_app.
  unfold uncurry in *. simpl. rewrite IH. done.
Qed.

(** One entry is part of a sum of non-negative terms. *)
Lemma msum_elem f m i x :
  (forall i x, m !! i = Some x -> 0 <= f x)%Z -> m !! i = Some x -> (f x <= msum f m)%Z.
Proof.
  intros Hf Hi. rewrite <- (insert_delete_id m i x Hi), msum_new by apply lookup_delete_eq.
  enough (0 <= msum f (delete i m))%Z by lia. apply msum_nonneg.
  intros j y [_ Hj]%lookup_delete_Some. by apply (Hf j).
Qed.

(** A positive sum has a positive term. *)
Lemma msum_pos f m : (0 < msum f m)%Z -> exists i x, m !! i = Some x /\ (0 < f x)%Z.
Proof.
  induction m as [|i x m Hi IH] using map_ind; [by rewrite msum_empty|].
  rewrite msum_new by done. intros Hs. destruct (Z.lt_ge_cases 0 (f x)) as [|Hx].
  { exists i, x. by rewrite lookup_insert_eq. }
  destruct IH as (j & y & Hj & Hy); [lia|]. exists j, y.
  rewrite lookup_insert_ne; [done | congruence].
Qed.
End map_sums.

(** * Loops

    A Go [for] loop is a step function [S -> S + R]: [inl] continues with the
    next loop state, [inr] leaves the loop with a result.  The fuel is a binary
    [positive], so a bound as large as an interval of nanoseconds costs nothing
    when the loop leaves early. *)

Section loops.
Context {S R : Type} (body : S -> S + R).

Fixpoint iter_pos (p : positive) (s : S) : S + R :=
  match p with
  | xH => body s
  | xO p => match iter_pos p s with inl s => iter_pos p s | r => r end
  | xI p => match body s with
            | inl s => match iter_pos p s with inl s => iter_pos p s | r => r end
            | r => r
            end
  end.

Fixpoint iter_nat (n : nat) (s : S) : S + R :=
  match n with
  | O => inl s
  | Datatypes.S n => match body s with inl s => iter_nat n s | r => r end
  end.

Definition for_loop (fuel : positive) (s : S) : option R :=
  match iter_pos fuel s with inr r => Some r | inl _ => None end.

Lemma iter_nat_add n m s :
  iter_nat (n + m) s = match iter_nat n s with inl s => iter_nat m s | r => r end.
Proof.
  revert s. induction n as [|n IH]; intros s; simpl; [done|].
  destruct (body s); [apply IH | done].
Qed.

Lemma iter_pos_nat p s : iter_pos p s = iter_nat (Pos.to_nat p) s.
Proof.
  revert s. induction p as [p IH|p IH|]; intros s; cbn [iter_pos].
  - rewrite Pos2Nat.inj_xI. cbn [iter_nat]. destruct (body s) as [s'|]; [|done].
    replace (2 * Pos.to_nat p)%nat with (Pos.to_nat p + Pos.to_nat p)%nat by lia.
    rewrite iter_nat_add, IH. destruct (iter_nat _ s'); [apply IH | done].
  - rewrite Pos2Nat.inj_xO.
    replace (2 * Pos.to_nat p)%nat with (Pos.to_nat p + Pos.to_nat p)%nat by lia.
    rewrite iter_nat_add, IH. destruct (iter_nat _ s); [apply IH | done].
  - simpl. by destruct (body s).
Qed.

(** Partial correctness by a loop invariant. *)
Lemma for_loop_inv (I : S -> Prop) (Q : R -> Prop) fuel s r :
  (forall s s', I s -> body s = inl s' -> I s') ->
  (forall s r, I s -> body s = inr r -> Q r) ->
  I s -> for_loop fuel s = Some r -> Q r.
Proof.
  intros Hstep Hout Hs. unfold for_loop. rewrite iter_pos_nat. revert s Hs.
  induction (Pos.to_nat fuel) as [|n IH]; intros s Hs; simpl; [done|].
  destruct (body s) as [s'|r'] eqn:E; [by apply IH, (Hstep s)|].
  intros [= ->]. by apply (Hout s).
Qed.

(** Termination: a measure that every continuing step decreases bounds the
    number of steps. *)
Lemma for_loop_total (I : S -> Prop) (m : S -> Z) fuel s :
  (forall s s', I s -> body s = inl s' -> I s' /\ (0 <= m s' < m s)%Z) ->
  I s -> (m s < Zpos fuel)%Z -> exists r, for_loop fuel s = Some r.
Proof.
  intros Hdec Hs Hm. unfold for_loop. rewrite iter_pos_nat.
  assert (m s < Z.of_nat (Pos.to_nat fuel))%Z as Hn by lia. clear Hm. revert s Hs Hn.
  assert (0 < Pos.to_nat fuel)%nat as Hpos by lia.
  revert Hpos. induction (Pos.to_nat fuel) as [|n IH]; intros Hpos s Hs Hn; simpl; [lia|].
  destruct (body s) as [s'|r] eqn:E; [|eauto].
  destruct (Hdec s s' Hs E) as [Hs' Hlt].
  destruct n as [|n]; [lia|]. apply IH; [lia|done|lia].
Qed.

End loops.

Section loop_runs.
Context {S R : Type} (body : S -> S + R).

(** A run of [n] steps that leaves the loop is found with any fuel of at least [n]. *)
Lemma for_loop_run n fuel s r :
  iter_nat body n s = inr r -> (Z.of_nat n <= Zpos fuel)%Z -> for_loop body fuel s = Some r.
Proof.
  intros Hn Hle. unfold for_loop. rewrite iter_pos_nat.
  replace (Pos.to_nat fuel) with (n + (Pos.to_nat fuel - n))%nat by lia.
  by rewrite iter_nat_add, Hn.
Qed.

End loop_runs.
