(* ===== verification/GoRuntime.v ===== *)
(** Go's fixed-width integers, [time.Duration] and [time.Time].

    [int64] and [int] (64-bit targets) are [Z] with the wrap-around written
    out.  A [time.Time] is the number of nanoseconds since Go's zero time,
    January 1 of year 1, UTC, so [IsZero] is equality with 0.  The 64-bit
    seconds field of [time.Time] spans 292 billion years and is left unbounded;
    [Sub] saturates as in Go.  Only the wall clock is modelled, not the
    monotonic reading. *)

From S2P Require Import Prelude.
Open Scope Z_scope.

(** * int64 *)

Definition maxInt64 : Z := 2 ^ 63 - 1.
Definition minInt64 : Z := - 2 ^ 63.

(** Two's-complement wrap-around of an int64 result. *)
Definition wrap64 (z : Z) : Z := (z + 2 ^ 63) mod 2 ^ 64 - 2 ^ 63.

(** Saturation, as in [time.Time.Sub]. *)
Definition sat64 (z : Z) : Z := Z.max minInt64 (Z.min maxInt64 z).

Definition in64 (z : Z) : Prop := minInt64 <= z <= maxInt64.

Lemma wrap64_id z : in64 z -> wrap64 z = z.
Proof.
  unfold in64, minInt64, maxInt64, wrap64. intros H.
  rewrite Z.mod_small; lia.
Qed.

Lemma sat64_id z : in64 z -> sat64 z = z.
Proof. unfold in64, sat64. lia. Qed.

Lemma sat64_in64 z : in64 (sat64 z).
Proof. unfold in64, sat64, minInt64, maxInt64. lia. Qed.

#[export] Hint Resolve wrap64_id sat64_id sat64_in64 : minicrond.

(** * Durations *)

Abbreviation Duration := Z (only parsing).
Definition Microsecond : Duration := 1000.
Definition Millisecond : Duration := 1000000.
Definition Second : Duration := 1000000000.
Definition Minute : Duration := 60 * Second.
Definition Hour : Duration := 3600 * Second.

(** * time.Time *)

Abbreviation Time := Z (only parsing).
Definition zeroTime : Time := 0.
Definition IsZero (t : Time) : bool := t =? 0.
Definition Before (t u : Time) : bool := t <? u.
Definition After (t u : Time) : bool := u <? t.
Definition TEqual (t u : Time) : bool := t =? u.
Definition Add (t : Time) (d : Duration) : Time := t + d.
Definition Sub (t u : Time) : Duration := sat64 (t - u).

(** Seconds from Go's zero time to the Unix epoch. *)
Definition unixToInternal : Z := 62135596800.
Definition UnixMicro_of (t : Time) : Z := (t - unixToInternal * Second) / Microsecond.
Definition of_UnixMicro (us : Z) : Time := unixToInternal * Second + us * Microsecond.

(** A stored microsecond instant reads back as itself. *)
Lemma UnixMicro_roundtrip us : UnixMicro_of (of_UnixMicro us) = us.
Proof.
  unfold UnixMicro_of, of_UnixMicro, Microsecond.
  replace (unixToInternal * Second + us * 1000 - unixToInternal * Second) with (us * 1000) by lia.
  apply Z.div_mul. lia.
Qed.

(** Storing an instant drops its sub-microsecond part and nothing else. *)
Lemma of_UnixMicro_floor t :
  of_UnixMicro (UnixMicro_of t) <= t < of_UnixMicro (UnixMicro_of t) + Microsecond.
Proof.
  unfold UnixMicro_of, of_UnixMicro, Microsecond.
  pose proof (Z.div_mod (t - unixToInternal * Second) 1000 ltac:(lia)).
  pose proof (Z.mod_pos_bound (t - unixToInternal * Second) 1000 ltac:(lia)). lia.
Qed.

#[export] Hint Unfold IsZero Before After TEqual Add Sub zeroTime : minicrond.
#[export] Hint Rewrite UnixMicro_roundtrip : minicrond.

(** Rewrite the time predicates to [Z] comparisons and finish by [lia]. *)
Ltac time_lia :=
  unfold IsZero, Before, After, TEqual, Add, zeroTime in *; bools; try lia.
