(* ===== verification/Model.v ===== *)
(** internal/model: definitions, runs, run statuses and alert channels, and the
    scheduler's definition comparison (internal/scheduler/definition.go). *)

From S2P Require Import Prelude GoRuntime.
From Stdlib Require Import Ascii.
Open Scope Z_scope.

(** * Definitions

    A nil slice or map is [None]; pointers to optional values are [option].
    Because Rocq values are immutable, [Definition.Clone] is the identity. *)

Definition KindJob : string := "job".
Definition KindWorker : string := "worker".

Record Definition_ := mkDefinition {
  d_ID : Z;
  d_Name : string;
  d_Kind : string;
  d_Revision : Z;
  d_Source : string;
  d_Enabled : option bool;
  d_Command : string;
  d_Argv : option (list string);
  d_Shell : string;
  d_Schedule : string;
  d_Timezone : string;
  d_CatchUp : string;
  d_OnOverlap : string;
  d_OnHistoryUnavailable : string;
  d_Retries : Z;
  d_RetryDelay : Z;
  d_RunOnStart : bool;
  d_RunAs : string;
  d_WorkingDir : string;
  d_EnvBase : string;
  d_Env : option (gmap string string);
  d_SecretEnv : option (gmap string string);
  d_EnvFile : string;
  d_Timeout : Z;
  d_Grace : Z;
  d_StopSignal : string;
  d_SuccessCodes : option (list Z);
  d_KeepRuns : Z;
  d_KeepFor : Z;
  d_LogMax : Z;
  d_LogOnFull : string;
  d_Labels : option (gmap string string);
  d_Alerts : option (list string);
  d_Autostart : option bool;
  d_Restart : string;
  d_RestartDelay : Z;
  d_MaxRestartAttempts : Z;
  d_RestartBackoffMax : Z;
  d_HealthyAfter : Z;
  d_Priority : Z;
  d_NextFireAt : option Time
}.

#[export] Instance Definition_eta : Eta Definition_ := fun d => mkDefinition
  (d_ID d) (d_Name d) (d_Kind d) (d_Revision d) (d_Source d)
  (d_Enabled d) (d_Command d) (d_Argv d) (d_Shell d) (d_Schedule d)
  (d_Timezone d) (d_CatchUp d) (d_OnOverlap d) (d_OnHistoryUnavailable d) (d_Retries d)
  (d_RetryDelay d) (d_RunOnStart d) (d_RunAs d) (d_WorkingDir d) (d_EnvBase d)
  (d_Env d) (d_SecretEnv d) (d_EnvFile d) (d_Timeout d) (d_Grace d)
  (d_StopSignal d) (d_SuccessCodes d) (d_KeepRuns d) (d_KeepFor d) (d_LogMax d)
  (d_LogOnFull d) (d_Labels d) (d_Alerts d) (d_Autostart d) (d_Restart d)
  (d_RestartDelay d) (d_MaxRestartAttempts d) (d_RestartBackoffMax d) (d_HealthyAfter d) (d_Priority d)
  (d_NextFireAt d).

(** Go's zero value of the struct. *)
Definition zeroDefinition : Definition_ := mkDefinition
  0 "" "" 0 "" None "" None "" ""
  "" "" "" "" 0 0 false "" "" ""
  None None "" 0 0 "" None 0 0 0
  "" None None None "" 0 0 0 0 0
  None.

Definition IsEnabled (d : Definition_) : bool :=
  match d_Enabled d with None => true | Some b => b end.

Definition DoesAutostart (d : Definition_) : bool :=
  match d_Autostart d with None => true | Some b => b end.

(** * Runs *)

Record ResourceUsage := mkResourceUsage {
  UserCPUUS : Z;
  SystemCPUUS : Z;
  PeakRSSBytes : Z
}.

Record Run := mkRun {
  r_ID : string;
  r_DefinitionID : Z;
  r_Job : string;
  r_Kind : string;
  r_Revision : Z;
  r_DefinitionHash : string;
  r_Status : string;
  r_EndReason : string;
  r_Trigger : string;
  r_Attempt : Z;
  r_ParentRunID : string;
  r_ScheduledFor : option Time;
  r_MissedCount : Z;
  r_BootID : string;
  r_PID : Z;
  r_PGID : Z;
  r_ProcessStartID : string;
  r_ExitCode : option Z;
  r_Signal : string;
  r_QueuedAt : Time;
  r_StartedAt : option Time;
  r_EndedAt : option Time;
  r_LogRef : string;
  r_LogBytes : Z;
  r_LogTruncated : bool;
  r_ResourceUsage : option ResourceUsage
}.

#[export] Instance Run_eta : Eta Run := fun r => mkRun
  (r_ID r) (r_DefinitionID r) (r_Job r) (r_Kind r) (r_Revision r)
  (r_DefinitionHash r) (r_Status r) (r_EndReason r) (r_Trigger r) (r_Attempt r)
  (r_ParentRunID r) (r_ScheduledFor r) (r_MissedCount r) (r_BootID r) (r_PID r)
  (r_PGID r) (r_ProcessStartID r) (r_ExitCode r) (r_Signal r) (r_QueuedAt r)
  (r_StartedAt r) (r_EndedAt r) (r_LogRef r) (r_LogBytes r) (r_LogTruncated r)
  (r_ResourceUsage r).

(** Go's zero value of the struct. *)
Definition zeroRun : Run := mkRun
  "" 0 "" "" 0 "" "" "" "" 0
  "" None 0 "" 0 0 "" None "" zeroTime
  None None "" 0 false None.

Definition TerminalStatuses : list string :=
  ["succeeded"; "failed"; "timeout"; "stopped"; "interrupted"; "skipped"; "missed"].

Definition Terminal (status : string) : bool :=
  existsb (String.eqb status) TerminalStatuses.
#[global] Arguments Terminal : simpl never.

(** WorkerExhaustion is a supervision outcome, not a run status. *)
Record WorkerExhaustion := mkWorkerExhaustion {
  we_Reason : string;
  we_LastRunID : string;
  we_Attempts : Z;
  we_Revision : Z;
  we_At : Time
}.

(** * Definition comparison (internal/scheduler/definition.go) *)

Definition sameBool (a b : option bool) : bool :=
  match a, b with
  | None, None => true
  | Some x, Some y => Bool.eqb x y
  | _, _ => false
  end.

(** [(a == nil) == (b == nil) && slices.Equal(a, b)]: [slices.Equal] reads a
    nil slice as empty. *)
Definition sameSlice {A} `{EqDecision A} (a b : option (list A)) : bool :=
  Bool.eqb (bool_decide (a = None)) (bool_decide (b = None)) &&
  bool_decide (default [] a = default [] b).

(** [(a == nil) == (b == nil) && maps.Equal(a, b)]. *)
Definition sameMap (a b : option (gmap string string)) : bool :=
  Bool.eqb (bool_decide (a = None)) (bool_decide (b = None)) &&
  bool_decide (default ∅ a = default ∅ b).

Definition sameNextFire (a b : Definition_) : bool :=
  match d_NextFireAt a, d_NextFireAt b with
  | None, None => true
  | Some x, Some y => TEqual x y
  | _, _ => false
  end.

Definition sameDefinition (a b : Definition_) : bool :=
  (d_ID a =? d_ID b) && String.eqb (d_Name a) (d_Name b) &&
  String.eqb (d_Kind a) (d_Kind b) && (d_Revision a =? d_Revision b) &&
  String.eqb (d_Source a) (d_Source b) && sameBool (d_Enabled a) (d_Enabled b) &&
  String.eqb (d_Command a) (d_Command b) && String.eqb (d_Shell a) (d_Shell b) &&
  String.eqb (d_Schedule a) (d_Schedule b) && String.eqb (d_Timezone a) (d_Timezone b) &&
  String.eqb (d_CatchUp a) (d_CatchUp b) && String.eqb (d_OnOverlap a) (d_OnOverlap b) &&
  String.eqb (d_OnHistoryUnavailable a) (d_OnHistoryUnavailable b) && (d_Retries a =? d_Retries b) &&
  (d_RetryDelay a =? d_RetryDelay b) && Bool.eqb (d_RunOnStart a) (d_RunOnStart b) &&
  String.eqb (d_RunAs a) (d_RunAs b) && String.eqb (d_WorkingDir a) (d_WorkingDir b) &&
  String.eqb (d_EnvBase a) (d_EnvBase b) && String.eqb (d_EnvFile a) (d_EnvFile b) &&
  (d_Timeout a =? d_Timeout b) && (d_Grace a =? d_Grace b) &&
  String.eqb (d_StopSignal a) (d_StopSignal b) && (d_KeepRuns a =? d_KeepRuns b) &&
  (d_KeepFor a =? d_KeepFor b) && (d_LogMax a =? d_LogMax b) &&
  String.eqb (d_LogOnFull a) (d_LogOnFull b) && sameBool (d_Autostart a) (d_Autostart b) &&
  String.eqb (d_Restart a) (d_Restart b) && (d_RestartDelay a =? d_RestartDelay b) &&
  (d_MaxRestartAttempts a =? d_MaxRestartAttempts b) && (d_RestartBackoffMax a =? d_RestartBackoffMax b) &&
  (d_HealthyAfter a =? d_HealthyAfter b) && (d_Priority a =? d_Priority b) &&
  sameSlice (d_Argv a) (d_Argv b) && sameSlice (d_SuccessCodes a) (d_SuccessCodes b) &&
  sameSlice (d_Alerts a) (d_Alerts b) && sameMap (d_Env a) (d_Env b) &&
  sameMap (d_SecretEnv a) (d_SecretEnv b) && sameMap (d_Labels a) (d_Labels b) &&
  sameNextFire a b.

Lemma sameBool_true a b : sameBool a b = true <-> a = b.
Proof. destruct a as [[]|], b as [[]|]; simpl; naive_solver. Qed.

Lemma sameSlice_true {A} `{EqDecision A} (a b : option (list A)) :
  sameSlice a b = true <-> a = b.
Proof.
  unfold sameSlice. split; [|intros ->; rewrite Bool.eqb_reflx; by apply bool_decide_eq_true].
  intros H. bools. destruct a, b; simpl in *; naive_solver.
Qed.

Lemma sameMap_true a b : sameMap a b = true <-> a = b.
Proof.
  unfold sameMap. split; [|intros ->; rewrite Bool.eqb_reflx; by apply bool_decide_eq_true].
  intros H. bools. destruct a, b; simpl in *; naive_solver.
Qed.

Lemma sameNextFire_true a b : sameNextFire a b = true <-> d_NextFireAt a = d_NextFireAt b.
Proof.
  unfold sameNextFire, TEqual. destruct (d_NextFireAt a), (d_NextFireAt b); try naive_solver.
  rewrite Z.eqb_eq. naive_solver.
Qed.

Lemma Terminal_elem s : Terminal s = true <-> s ∈ TerminalStatuses.
Proof. apply existsb_eqb_elem. Qed.

(** * Alert channels (internal/model/alert_channel.go) *)

Module AlertChannels.

Record AlertChannel := mkAlertChannel {
  ac_Name : string;
  ac_Type : string;
  ac_BotToken : string;
  ac_HasBotToken : bool;
  ac_ChatID : string;
  ac_DisableNotification : bool;
  ac_BatchWindow : Z;
  ac_NotifyOn : list string
}.

#[export] Instance AlertChannel_eta : Eta AlertChannel := fun c => mkAlertChannel
  (ac_Name c) (ac_Type c) (ac_BotToken c) (ac_HasBotToken c) (ac_ChatID c)
  (ac_DisableNotification c) (ac_BatchWindow c) (ac_NotifyOn c).

Definition AlertStatuses : list string :=
  ["succeeded"; "failed"; "timeout"; "skipped"; "missed"; "exhausted"].

Definition DefaultNotifyOn : list string := ["failed"; "timeout"; "exhausted"].

Definition MaxAlertChannels : Z := 100.

(** The reasons [Normalize] wraps [ErrInvalidAlertChannel] with. *)
Inductive ChannelError :=
| InvalidName | UnsupportedType | BadNotifyOn | BadBatchWindow | BadChatID
| TokenRequired | InvalidToken.

Definition char_between (lo hi c : ascii) : bool :=
  (N.leb (N_of_ascii lo) (N_of_ascii c) && N.leb (N_of_ascii c) (N_of_ascii hi))%N.

Definition is_digit (c : ascii) : bool := char_between "0"%char "9"%char c.
Definition is_lower (c : ascii) : bool := char_between "a"%char "z"%char c.
Definition is_upper (c : ascii) : bool := char_between "A"%char "Z"%char c.

Fixpoint string_forallb (p : ascii -> bool) (s : string) : bool :=
  match s with
  | EmptyString => true
  | String c s => p c && string_forallb p s
  end.

(** [^[a-z0-9][a-z0-9_.-]{0,99}$], on byte strings. *)
Definition alertNamePattern (s : string) : bool :=
  match s with
  | EmptyString => false
  | String c rest =>
      (is_lower c || is_digit c) &&
      string_forallb (fun c => is_lower c || is_digit c || Ascii.eqb c "_"%char
                               || Ascii.eqb c "."%char || Ascii.eqb c "-"%char) rest &&
      (Z.of_nat (String.length rest) <=? 99)
  end.

(** [strings.Cut(s, ":")]. *)
Fixpoint cut_colon (s : string) : option (string * string) :=
  match s with
  | EmptyString => None
  | String c rest =>
      if Ascii.eqb c ":"%char then Some ("", rest)
      else match cut_colon rest with
           | None => None
           | Some (id, secret) => Some (String c id, secret)
           end
  end.

Definition contains (x : string) (l : list string) : bool := existsb (String.eqb x) l.

(** [strings.ContainsAny(s, "\r\n")]: some byte is a carriage return or a line feed. *)
Definition has_newline (s : string) : bool :=
  negb (string_forallb (fun c => negb (Ascii.eqb c "013"%char || Ascii.eqb c "010"%char)) s).

Definition token_char (c : ascii) : bool :=
  is_lower c || is_upper c || is_digit c || Ascii.eqb c "_"%char || Ascii.eqb c "-"%char.

Definition Redacted (c : AlertChannel) : AlertChannel :=
  c <| ac_HasBotToken := negb (String.eqb (ac_BotToken c) "") |> <| ac_BotToken := "" |>.

(** [Normalize] mutates the channel only on the paths it reaches; callers
    discard the channel on error, so the error carries no channel. *)
Definition Normalize (c : AlertChannel) : Result ChannelError AlertChannel :=
  if negb (alertNamePattern (ac_Name c)) then Err InvalidName else
  if negb (String.eqb (ac_Type c) "telegram") then Err UnsupportedType else
  let c := if ac_BatchWindow c =? 0 then c <| ac_BatchWindow := 10 |> else c in
  let c := match ac_NotifyOn c with [] => c <| ac_NotifyOn := DefaultNotifyOn |> | _ => c end in
  let notify := List.filter (fun status => contains status (ac_NotifyOn c)) AlertStatuses in
  if negb (forallb (fun status => contains status AlertStatuses) (ac_NotifyOn c))
  then Err BadNotifyOn else
  let c := c <| ac_NotifyOn := notify |> in
  if (ac_BatchWindow c <? 1) || (3600 <? ac_BatchWindow c) then Err BadBatchWindow else
  if String.eqb (ac_ChatID c) "" || (256 <? Z.of_nat (String.length (ac_ChatID c)))
     || has_newline (ac_ChatID c) then Err BadChatID else
  match cut_colon (ac_BotToken c) with
  | None => Err TokenRequired
  | Some (id, secret) =>
      if String.eqb id "" || String.eqb secret "" || (256 <? Z.of_nat (String.length (ac_BotToken c)))
      then Err TokenRequired else
      if negb (string_forallb is_digit id) then Err InvalidToken else
      if negb (string_forallb token_char secret) then Err InvalidToken else
      Ok (c <| ac_HasBotToken := false |>)
  end.

End AlertChannels.

Lemma sameDefinition_eq a b : sameDefinition a b = true <-> a = b.
Proof.
  split.
  - unfold sameDefinition. intros H. bools.
    repeat match goal with
    | H : String.eqb _ _ = true |- _ => apply String.eqb_eq in H
    | H : Bool.eqb _ _ = true |- _ => apply Bool.eqb_prop in H
    | H : sameBool _ _ = true |- _ => apply sameBool_true in H
    | H : sameSlice _ _ = true |- _ => apply sameSlice_true in H
    | H : sameMap _ _ = true |- _ => apply sameMap_true in H
    | H : sameNextFire _ _ = true |- _ => apply sameNextFire_true in H
    end.
    destruct a, b; simpl in *; subst; reflexivity.
  - intros ->. unfold sameDefinition.
    rewrite !String.eqb_refl, !Z.eqb_refl, !Bool.eqb_reflx.
    rewrite !(proj2 (sameBool_true _ _) eq_refl), !(proj2 (sameSlice_true _ _) eq_refl).
    rewrite !(proj2 (sameMap_true _ _) eq_refl), (proj2 (sameNextFire_true b b) eq_refl).
    reflexivity.
Qed.

Module AlertChannelFacts.
Import AlertChannels.

Lemma contains_true x l : contains x l = true <-> x ∈ l.
Proof. apply existsb_eqb_elem. Qed.

(** Filtering the display order by a status list that is itself such a filter
    changes nothing. *)
Lemma notify_filter_idem (l : list string) :
  let n := List.filter (fun s => contains s l) AlertStatuses in
  List.filter (fun s => contains s n) AlertStatuses = n.
Proof.
  cbv zeta. apply List.filter_ext_in. intros s Hs.
  apply eq_true_iff_eq. rewrite !contains_true, !list_elem_of_In, filter_In, contains_true,
    list_elem_of_In. tauto.
Qed.

Lemma notify_filter_known (l : list string) :
  forallb (fun s => contains s AlertStatuses)
    (List.filter (fun s => contains s l) AlertStatuses) = true.
Proof.
  apply forallb_forall. intros s [Hs _]%filter_In.
  apply contains_true, list_elem_of_In, Hs.
Qed.

(** A non-empty list of known statuses keeps at least one of them. *)
Lemma notify_filter_nonempty (l : list string) :
  l <> [] -> forallb (fun s => contains s AlertStatuses) l = true ->
  List.filter (fun s => contains s l) AlertStatuses <> [].
Proof.
  intros Hne Hall Hnil. destruct l as [|x l]; [done|]. simpl in Hall. bools.
  assert (In x (List.filter (fun s => contains s (x :: l)) AlertStatuses)) as Hin.
  { apply filter_In. split.
    - apply list_elem_of_In, contains_true. done.
    - apply contains_true. left. }
  rewrite Hnil in Hin. destruct Hin.
Qed.

(** A channel that passes every check and is already in normal form. *)
Lemma Normalize_fixed c id secret :
  alertNamePattern (ac_Name c) = true -> ac_Type c = "telegram" ->
  1 <= ac_BatchWindow c <= 3600 -> ac_NotifyOn c <> [] ->
  forallb (fun s => contains s AlertStatuses) (ac_NotifyOn c) = true ->
  List.filter (fun s => contains s (ac_NotifyOn c)) AlertStatuses = ac_NotifyOn c ->
  String.eqb (ac_ChatID c) "" || (256 <? Z.of_nat (String.length (ac_ChatID c)))
     || has_newline (ac_ChatID c) = false ->
  cut_colon (ac_BotToken c) = Some (id, secret) ->
  String.eqb id "" || String.eqb secret "" ||
    (256 <? Z.of_nat (String.length (ac_BotToken c))) = false ->
  string_forallb is_digit id = true -> string_forallb token_char secret = true ->
  ac_HasBotToken c = false ->
  Normalize c = Ok c.
Proof.
  destruct c as [name type tok has chat dis bw no].
  cbn [ac_Name ac_Type ac_BatchWindow ac_NotifyOn ac_ChatID ac_BotToken ac_HasBotToken].
  intros Hname -> Hbw Hne Hall Hfilter Hchat Hcut Htok Hid Hsec ->.
  unfold Normalize.
  cbn [ac_Name ac_Type ac_BatchWindow ac_NotifyOn ac_ChatID ac_BotToken ac_HasBotToken].
  rewrite Hname, String.eqb_refl. cbv [negb].
  replace (bw =? 0) with false by (symmetry; apply Z.eqb_neq; lia).
  cbn [ac_Name ac_Type ac_BatchWindow ac_NotifyOn ac_ChatID ac_BotToken ac_HasBotToken].
  destruct no as [|n0 ns]; [done|].
  cbn [ac_Name ac_Type ac_BatchWindow ac_NotifyOn ac_ChatID ac_BotToken ac_HasBotToken upd].
  rewrite Hall, Hfilter, Hchat, Hcut, Htok, Hid, Hsec.
  replace (bw <? 1) with false by (symmetry; apply Z.ltb_ge; lia).
  replace (3600 <? bw) with false by (symmetry; apply Z.ltb_ge; lia).
  reflexivity.
Qed.

(** A channel [Normalize] accepts keeps its name, type, credentials and
    chat, has a batch window of 1 to 3600 seconds, delivers a non-empty set of
    known statuses in display order, and is a fixed point: normalizing the
    stored channel again changes nothing. *)
Lemma Normalize_accepts c c' :
  Normalize c = Ok c' ->
  (ac_Name c' = ac_Name c /\ ac_Type c' = "telegram" /\ ac_BotToken c' = ac_BotToken c /\
   ac_ChatID c' = ac_ChatID c /\ ac_HasBotToken c' = false) /\
  1 <= ac_BatchWindow c' <= 3600 /\
  ac_NotifyOn c' <> [] /\
  List.filter (fun s => contains s (ac_NotifyOn c')) AlertStatuses = ac_NotifyOn c' /\
  Normalize c' = Ok c'.
Proof.
  unfold Normalize at 1.
  set (bw := if ac_BatchWindow c =? 0 then c <| ac_BatchWindow := 10 |> else c).
  set (no := match ac_NotifyOn bw with [] => bw <| ac_NotifyOn := DefaultNotifyOn |> | _ => bw end).
  assert (ac_NotifyOn no <> []) as Hne by (subst no; destruct (ac_NotifyOn bw) eqn:E; [discriminate | congruence]).
  assert (ac_Name no = ac_Name c /\ ac_Type no = ac_Type c /\ ac_BotToken no = ac_BotToken c /\
          ac_ChatID no = ac_ChatID c) as (Hn & Ht & Hb & Hc).
  { subst no bw. repeat case_match; cbn; auto. }
  clearbody no. clear bw. cbv zeta. cbn [upd ac_NotifyOn ac_BatchWindow ac_ChatID ac_BotToken].
  pose proof (notify_filter_idem (ac_NotifyOn no)) as Hidem. cbv zeta in Hidem.
  pose proof (notify_filter_known (ac_NotifyOn no)) as Hknown.
  pose proof (notify_filter_nonempty _ Hne) as Hne'.
  destruct (alertNamePattern (ac_Name c)) eqn:Ename; [|done].
  destruct (String.eqb (ac_Type c) "telegram") eqn:Etype; [|done]. apply String.eqb_eq in Etype.
  destruct (forallb _ (ac_NotifyOn no)) eqn:Eall; [|done]. specialize (Hne' eq_refl).
  generalize dependent (List.filter (fun s => contains s (ac_NotifyOn no)) AlertStatuses).
  intros nn Hidem Hknown Hne'. cbv [negb].
  destruct ((ac_BatchWindow no <? 1) || (3600 <? ac_BatchWindow no)) eqn:Ebw; [done|].
  destruct (String.eqb (ac_ChatID no) "" || _ || _) eqn:Echat; [done|].
  destruct (cut_colon (ac_BotToken no)) as [[id secret]|] eqn:Ecut; [|done].
  destruct (String.eqb id "" || _ || _) eqn:Etok; [done|].
  destruct (string_forallb is_digit id) eqn:Eid; [|done].
  destruct (string_forallb token_char secret) eqn:Esec; [|done].
  intros H. injection H as <-.
  cbn [ac_Name ac_Type ac_BatchWindow ac_NotifyOn ac_ChatID ac_BotToken ac_HasBotToken upd].
  apply orb_false_iff in Ebw as [Ebw1 Ebw2]. apply Z.ltb_ge in Ebw1, Ebw2.
  split; [split; [done|]; split; [congruence|]; done|].
  split; [lia|]. split; [done|]. split; [done|].
  apply (Normalize_fixed _ id secret);
    cbn [ac_Name ac_Type ac_BatchWindow ac_NotifyOn ac_ChatID ac_BotToken ac_HasBotToken];
    try congruence; try lia.
Qed.

Example Normalize_example :
  exists c', Normalize (mkAlertChannel "ops" "telegram" "12:ab-C" true "7" false 0
                          ["timeout"; "failed"; "failed"]) = Ok c' /\
             ac_NotifyOn c' = ["failed"; "timeout"] /\ Normalize c' = Ok c'.
Proof.
  eexists. split; [vm_compute; reflexivity|]. split; [reflexivity|].
  refine (proj2 (proj2 (proj2 (proj2 (Normalize_accepts
    (mkAlertChannel "ops" "telegram" "12:ab-C" true "7" false 0 ["timeout"; "failed"; "failed"])
    _ _))))). vm_compute. reflexivity.
Qed.

End AlertChannelFacts.
