(* ===== verification/StoreDB.v ===== *)
(** internal/store/store.go: the metadata database and the run table.

    The SQLite file is a value of type [DB].  Every method is a function from
    the database (and the clock reading it takes) to the database and its
    result; SQL statements are written out as updates of the tables, with the
    schema's constraints as error results.  A transaction that returns an error
    before its commit leaves the database as it was. *)

From S2P Require Import Prelude GoRuntime Model.
Open Scope Z_scope.

(** * Tables *)

Record RunRow := mkRunRow {
  rr_run_id : string;
  rr_definition_id : Z;
  rr_job : string;
  rr_kind : string;
  rr_revision : Z;
  rr_definition_hash : string;
  rr_status : string;
  rr_end_reason : option string;
  rr_trigger : string;
  rr_attempt : Z;
  rr_parent_run_id : option string;
  rr_scheduled_for_us : option Z;
  rr_missed_count : Z;
  rr_boot_id : option string;
  rr_pid : option Z;
  rr_pgid : option Z;
  rr_process_start_id : option string;
  rr_exit_code : option Z;
  rr_signal : option string;
  rr_queued_us : Z;
  rr_started_us : option Z;
  rr_ended_us : option Z;
  rr_log_ref : option string;
  rr_log_bytes : Z;
  rr_log_truncated : bool;
  rr_user_cpu_us : option Z;
  rr_system_cpu_us : option Z;
  rr_peak_rss_bytes : option Z
}.

#[export] Instance RunRow_eta : Eta RunRow := fun r => mkRunRow
  (rr_run_id r) (rr_definition_id r) (rr_job r) (rr_kind r) (rr_revision r)
  (rr_definition_hash r) (rr_status r) (rr_end_reason r) (rr_trigger r) (rr_attempt r)
  (rr_parent_run_id r) (rr_scheduled_for_us r) (rr_missed_count r) (rr_boot_id r) (rr_pid r)
  (rr_pgid r) (rr_process_start_id r) (rr_exit_code r) (rr_signal r) (rr_queued_us r)
  (rr_started_us r) (rr_ended_us r) (rr_log_ref r) (rr_log_bytes r) (rr_log_truncated r)
  (rr_user_cpu_us r) (rr_system_cpu_us r) (rr_peak_rss_bytes r).

Record QueueRow := mkQueueRow {
  q_seq : Z;
  q_run_id : string;
  q_definition_id : Z;
  q_enqueued_us : Z;
  q_expires_us : Z;
  q_payload_bytes : Z
}.

#[export] Instance QueueRow_eta : Eta QueueRow := fun r => mkQueueRow
  (q_seq r) (q_run_id r) (q_definition_id r) (q_enqueued_us r) (q_expires_us r)
  (q_payload_bytes r).

Record IdemRow := mkIdemRow {
  i_request_hash : string;
  i_run_id : string;
  i_created_us : Z
}.

#[export] Instance IdemRow_eta : Eta IdemRow := fun r => mkIdemRow
  (i_request_hash r) (i_run_id r) (i_created_us r).

Record DefRow := mkDefRow {
  dr_definition_id : Z;
  dr_kind : string;
  dr_spec : string;
  dr_spec_hash : string;
  dr_revision : Z;
  dr_enabled : bool;
  dr_source : string;
  dr_created_us : Z;
  dr_updated_us : Z;
  dr_deleted_us : option Z
}.

#[export] Instance DefRow_eta : Eta DefRow := fun r => mkDefRow
  (dr_definition_id r) (dr_kind r) (dr_spec r) (dr_spec_hash r) (dr_revision r)
  (dr_enabled r) (dr_source r) (dr_created_us r) (dr_updated_us r) (dr_deleted_us r).

Record RevRow := mkRevRow {
  rv_spec : string;
  rv_spec_hash : string;
  rv_actor : string;
  rv_at_us : Z
}.

#[export] Instance RevRow_eta : Eta RevRow := fun r => mkRevRow
  (rv_spec r) (rv_spec_hash r) (rv_actor r) (rv_at_us r).

Record AuditRow := mkAuditRow {
  au_id : Z;
  au_at_us : Z;
  au_actor : string;
  au_action : string;
  au_target : string;
  au_before : option string;
  au_after : option string
}.

#[export] Instance AuditRow_eta : Eta AuditRow := fun r => mkAuditRow
  (au_id r) (au_at_us r) (au_actor r) (au_action r) (au_target r)
  (au_before r) (au_after r).

Record SchedRow := mkSchedRow {
  s_schedule_hash : string;
  s_anchor_us : Z;
  s_last_fire_us : option Z;
  s_next_fire_us : option Z
}.

#[export] Instance SchedRow_eta : Eta SchedRow := fun r => mkSchedRow
  (s_schedule_hash r) (s_anchor_us r) (s_last_fire_us r) (s_next_fire_us r).

(** The database.  [exec_queue] is kept in [seq] order; [queue_seq] is SQLite's
    AUTOINCREMENT counter.  [definitions] is keyed by its UNIQUE name,
    [idempotency] by (principal, operation, key), [revisions] by
    (definition_id, revision); [audit] is in id order. *)
Record DB := mkDB {
  runs : gmap string RunRow;
  exec_queue : list QueueRow;
  queue_seq : Z;
  idempotency : gmap (string * string * string) IdemRow;
  definitions : gmap string DefRow;
  revisions : gmap (Z * Z) RevRow;
  audit : list AuditRow;
  schedule_state : gmap Z SchedRow;
  meta : gmap string string;
  alert_channels : gset string
}.

#[export] Instance DB_eta : Eta DB := fun r => mkDB
  (runs r) (exec_queue r) (queue_seq r) (idempotency r) (definitions r)
  (revisions r) (audit r) (schedule_state r) (meta r) (alert_channels r).

Definition emptyDB : DB := mkDB ∅ [] 0 ∅ ∅ ∅ [] ∅ ∅ ∅.

Inductive StoreError :=
| ErrConstraint            (** an SQLite constraint violation *)
| ErrNoRows                (** sql.ErrNoRows *)
| ErrInvalidTransition
| ErrQueueFull
| ErrQueueDuplicate
| ErrIdempotencyConflict
| ErrIdempotencyKeyExists
| ErrRevisionConflict
| ErrReadOnly
| ErrUnknownAlertChannel
| ErrConfigConflict        (** a config definition clashes with a registry one *)
| ErrCanonical             (** config.Canonical failed *)
| ErrPageLimit.            (** a retention page limit that is not positive *)

#[export] Instance StoreError_eq_dec : EqDecision StoreError.
Proof. solve_decision. Defined.

(** * Run rows *)

(** [nullString] and [timePtrUS]. *)
Definition nullString (v : string) : option string :=
  if String.eqb v "" then None else Some v.

Definition timePtrUS (v : option Time) : option Z := UnixMicro_of <$> v.

(** The columns [createRunSQL] inserts; the others take their schema defaults. *)
Definition runArgs (r : Run) : RunRow :=
  mkRunRow (r_ID r) (r_DefinitionID r) (r_Job r) (r_Kind r) (r_Revision r) (r_DefinitionHash r)
    (r_Status r) (nullString (r_EndReason r)) (r_Trigger r) (r_Attempt r)
    (nullString (r_ParentRunID r)) (timePtrUS (r_ScheduledFor r)) (r_MissedCount r)
    (Some (r_BootID r)) None None None None None (UnixMicro_of (r_QueuedAt r)) None
    (timePtrUS (r_EndedAt r)) (Some (r_LogRef r)) 0 false None None None.

(** A row as [scanRun] reads it, through the COALESCEs of the query. *)
Definition scanRun (w : RunRow) : Run :=
  mkRun (rr_run_id w) (rr_definition_id w) (rr_job w) (rr_kind w) (rr_revision w)
    (rr_definition_hash w) (rr_status w) (default "" (rr_end_reason w)) (rr_trigger w)
    (rr_attempt w) (default "" (rr_parent_run_id w)) (of_UnixMicro <$> rr_scheduled_for_us w)
    (rr_missed_count w) (default "" (rr_boot_id w)) (default 0 (rr_pid w)) (default 0 (rr_pgid w))
    (default "" (rr_process_start_id w)) (rr_exit_code w) (default "" (rr_signal w))
    (of_UnixMicro (rr_queued_us w)) (of_UnixMicro <$> rr_started_us w)
    (of_UnixMicro <$> rr_ended_us w) (default "" (rr_log_ref w)) (rr_log_bytes w)
    (rr_log_truncated w)
    (match rr_user_cpu_us w, rr_system_cpu_us w, rr_peak_rss_bytes w with
     | Some u, Some s, Some m => Some (mkResourceUsage u s m)
     | _, _, _ => None
     end).

Definition has_definition (db : DB) (id : Z) : bool :=
  existsb (fun kd => dr_definition_id kd.2 =? id) (map_to_list (definitions db)).

(** The partial unique index idx_runs_schedule_occurrence. *)
Definition same_occurrence (a b : RunRow) : bool :=
  (rr_definition_id a =? rr_definition_id b) &&
  String.eqb (rr_trigger a) "schedule" && String.eqb (rr_trigger b) "schedule" &&
  match rr_scheduled_for_us a, rr_scheduled_for_us b with
  | Some x, Some y => x =? y
  | _, _ => false
  end.

Definition occurrence_taken (db : DB) (w : RunRow) : bool :=
  existsb (fun kw => same_occurrence kw.2 w) (map_to_list (runs db)).

(** [INSERT INTO runs]: the primary key, the foreign key to definitions and the
    occurrence index. *)
Definition insert_run (db : DB) (w : RunRow) : Result StoreError DB :=
  if bool_decide (is_Some (runs db !! rr_run_id w)) || negb (has_definition db (rr_definition_id w))
     || occurrence_taken db w
  then Err ErrConstraint
  else Ok (db <| runs ::= insert (rr_run_id w) w |>).

Definition CreateRun (db : DB) (r : Run) : DB * Result StoreError unit :=
  match insert_run db (runArgs r) with
  | Ok db' => (db', Ok tt)
  | Err e => (db, Err e)
  end.

(** [UPDATE runs SET ... WHERE run_id=id AND guard] and its affected row count
    checked to be 1. *)
Definition update_run (db : DB) (id : string) (guard : RunRow -> bool) (f : RunRow -> RunRow)
  : DB * Result StoreError unit :=
  match runs db !! id with
  | Some w => if guard w then (db <| runs ::= insert id (f w) |>, Ok tt)
              else (db, Err ErrInvalidTransition)
  | None => (db, Err ErrInvalidTransition)
  end.

Definition status_in (l : list string) (w : RunRow) : bool :=
  existsb (String.eqb (rr_status w)) l.
#[global] Arguments status_in : simpl never.

Definition StartRun (db : DB) (id : string) (pid pgid : Z) (startID : string) (at_ : Time)
  : DB * Result StoreError unit :=
  update_run db id (status_in ["pending"])
    (fun w => w <| rr_status := "running" |> <| rr_pid := Some pid |> <| rr_pgid := Some pgid |>
                <| rr_process_start_id := Some startID |> <| rr_started_us := Some (UnixMicro_of at_) |>).

Definition FinishRunWithUsage (db : DB) (id status reason : string) (code : option Z)
    (signal : string) (at_ : Time) (bytes : Z) (truncated : bool) (usage : option ResourceUsage)
  : DB * Result StoreError unit :=
  update_run db id
    (fun w => status_in ["pending"; "running"] w || String.eqb (rr_status w) status)
    (fun w => w <| rr_status := status |> <| rr_end_reason := Some reason |>
                <| rr_exit_code := code |> <| rr_signal := nullString signal |>
                <| rr_ended_us := Some (UnixMicro_of at_) |> <| rr_log_bytes := bytes |>
                <| rr_log_truncated := truncated |>
                <| rr_user_cpu_us := UserCPUUS <$> usage |>
                <| rr_system_cpu_us := SystemCPUUS <$> usage |>
                <| rr_peak_rss_bytes := PeakRSSBytes <$> usage |>).

Definition FinishRun (db : DB) (id status reason : string) (code : option Z)
    (signal : string) (at_ : Time) (bytes : Z) (truncated : bool) : DB * Result StoreError unit :=
  FinishRunWithUsage db id status reason code signal at_ bytes truncated None.

Definition Recoverable (db : DB) : list RunRow :=
  List.filter (status_in ["pending"; "running"]) (map_to_list (runs db)).*2.

Definition queue_run_ids (db : DB) : list string := q_run_id <$> exec_queue db.

(** [Recover]: nonterminal runs of the previous process, and queued runs that
    lost their queue row, become interrupted. *)
Definition Recover (db : DB) (now : Time) : DB :=
  db <| runs ::= fmap (fun w =>
    if status_in ["pending"; "running"] w
       || (status_in ["queued"] w && negb (existsb (String.eqb (rr_run_id w)) (queue_run_ids db)))
    then w <| rr_status := "interrupted" |> <| rr_end_reason := Some "crash_recovery" |>
           <| rr_ended_us := Some (UnixMicro_of now) |>
    else w) |>.

Definition Run_ (db : DB) (id : string) : Result StoreError Run :=
  match runs db !! id with Some w => Ok (scanRun w) | None => Err ErrNoRows end.

Definition ScheduledRun (db : DB) (definitionID : Z) (scheduled : Time) : Result StoreError Run :=
  match List.find (fun w => (rr_definition_id w =? definitionID) &&
                       bool_decide (rr_scheduled_for_us w = Some (UnixMicro_of scheduled)) &&
                       String.eqb (rr_trigger w) "schedule")
             (map_to_list (runs db)).*2 with
  | Some w => Ok (scanRun w)
  | None => Err ErrNoRows
  end.

(** * Idempotency keys *)

Definition Day : Duration := 24 * Hour.

(** A reservation is live while it is younger than 24 hours. *)
Definition idem_live (now : Time) (i : IdemRow) : bool :=
  UnixMicro_of (now - Day) <? i_created_us i.

Definition IdempotentRun (db : DB) (now : Time) (k : string * string * string) (requestHash : string)
  : Result StoreError string :=
  match idempotency db !! k with
  | Some i =>
      if idem_live now i
      then if String.eqb (i_request_hash i) requestHash then Ok (i_run_id i)
           else Err ErrIdempotencyConflict
      else Err ErrNoRows
  | None => Err ErrNoRows
  end.

Definition SaveIdempotency (db : DB) (now : Time) (k : string * string * string)
    (requestHash runID : string) : DB * Result StoreError unit :=
  let fresh := db <| idempotency ::= insert k (mkIdemRow requestHash runID (UnixMicro_of now)) |> in
  match idempotency db !! k with
  | None => (fresh, Ok tt)
  | Some i => if i_created_us i <=? UnixMicro_of (now - Day) then (fresh, Ok tt)
              else (db, Err ErrIdempotencyKeyExists)
  end.

(** [reserveIdempotency] inside a transaction: [Ok (replay, db')], with a
    non-empty [replay] when a live key already owns a run. *)
Definition reserveIdempotency (db : DB) (now : Time) (k : string * string * string)
    (requestHash : string) : Result StoreError (string * DB) :=
  match idempotency db !! k with
  | Some i =>
      if idem_live now i
      then if negb (String.eqb (i_request_hash i) requestHash) then Err ErrIdempotencyConflict
           else Ok (i_run_id i, db)
      else Ok ("", db <| idempotency ::= delete k |>)
  | None => Ok ("", db)
  end.

(** [INSERT INTO idempotency]: the primary key. *)
Definition insert_idem (db : DB) (k : string * string * string) (i : IdemRow) : Result StoreError DB :=
  if bool_decide (is_Some (idempotency db !! k)) then Err ErrConstraint
  else Ok (db <| idempotency ::= insert k i |>).

(** [now0] is the clock read by [reserveIdempotency], [now] the one stored. *)
Definition AdmitIdempotentRun (db : DB) (now0 now : Time) (r : Run) (k : string * string * string)
    (requestHash : string) : DB * Result StoreError string :=
  match (let! (existingID, tx) := reserveIdempotency db now0 k requestHash in
         if negb (String.eqb existingID "") then Ok (existingID, db) else
         let! tx := insert_run tx (runArgs r) in
         let! tx := insert_idem tx k (mkIdemRow requestHash (r_ID r) (UnixMicro_of now)) in
         Ok ("", tx)) with
  | Ok (replay, db') => (db', Ok replay)
  | Err e => (db, Err e)
  end.
