(* ===== verification/StoreQueue.v ===== *)
(** internal/store/queue.go: the durable execution queue.  Each [exec_queue] row
    belongs to a run in status "queued"; both are written and removed in one
    transaction. *)

From S2P Require Import Prelude GoRuntime Model StoreDB.
Open Scope Z_scope.

(** * Data *)

Record QueueLimits := mkQueueLimits {
  lim_MaxItems : Z;
  lim_MaxPerJob : Z;
  lim_MaxBytes : Z;
  lim_MaxAge : Duration
}.

Record Idempotency := mkIdempotency {
  id_Principal : string;
  id_Operation : string;
  id_Key : string;
  id_RequestHash : string
}.

Definition idem_key (i : Idempotency) : string * string * string :=
  (id_Principal i, id_Operation i, id_Key i).

Record QueueStats := mkQueueStats {
  qs_Depth : Z;
  qs_Bytes : Z;
  qs_OldestUS : Z
}.

Definition queuePayloadOverhead : Z := 128.

Definition strlen (s : string) : Z := Z.of_nat (String.length s).

Definition QueuePayloadBytes (r : Run) (idem : option Idempotency) : Z :=
  let n := queuePayloadOverhead + strlen (r_ID r) + strlen (r_Job r) + strlen (r_DefinitionHash r)
           + strlen (r_ParentRunID r) + strlen (r_Trigger r) + strlen (r_BootID r) in
  match idem with
  | Some i => n + strlen (id_Principal i) + strlen (id_Operation i) + strlen (id_Key i)
                + strlen (id_RequestHash i)
  | None => n
  end.

(** * Queries *)

Definition sumZ (l : list Z) : Z := foldr Z.add 0 l.
Definition minZ (l : list Z) : option Z :=
  match l with [] => None | x :: l => Some (foldr Z.min x l) end.

Definition queue_depth (db : DB) : Z := Z.of_nat (length (exec_queue db)).
Definition queue_bytes (db : DB) : Z := sumZ (q_payload_bytes <$> exec_queue db).
Definition of_definition (d : Z) (q : QueueRow) : bool := q_definition_id q =? d.
Definition queue_per_job (db : DB) (definitionID : Z) : Z :=
  Z.of_nat (length (List.filter (of_definition definitionID) (exec_queue db))).

Definition QueueStats_ (db : DB) : QueueStats :=
  mkQueueStats (queue_depth db) (queue_bytes db) (default 0 (minZ (q_enqueued_us <$> exec_queue db))).

Definition NextQueueExpiry (db : DB) : option Time :=
  of_UnixMicro <$> minZ (q_expires_us <$> exec_queue db).

(** [q.seq = (SELECT MIN(seq) FROM exec_queue WHERE definition_id = q.definition_id)]. *)
Definition is_head (db : DB) (q : QueueRow) : bool :=
  bool_decide (minZ (q_seq <$> List.filter (of_definition (q_definition_id q)) (exec_queue db))
               = Some (q_seq q)).

Definition QueueHeads (db : DB) (limit : nat) : list QueueRow :=
  take limit (List.filter (is_head db) (exec_queue db)).

(** * Transactions *)

(** [INSERT INTO exec_queue]: AUTOINCREMENT, run_id UNIQUE and its foreign key. *)
Definition insert_queue (db : DB) (runID : string) (definitionID enq exp size : Z)
  : Result StoreError DB :=
  if existsb (String.eqb runID) (queue_run_ids db) || negb (bool_decide (is_Some (runs db !! runID)))
  then Err ErrConstraint
  else Ok (db <| queue_seq ::= Z.succ |>
              <| exec_queue ::= fun l => l ++ [mkQueueRow (queue_seq db + 1) runID definitionID enq exp size] |>).

Definition has_key (idem : option Idempotency) : option Idempotency :=
  match idem with
  | Some i => if String.eqb (id_Key i) "" then None else Some i
  | None => None
  end.

(** [now0] is the clock read by [reserveIdempotency], [now] the enqueue time. *)
Definition EnqueueRun (db : DB) (now0 now : Time) (r : Run) (idem : option Idempotency)
    (lim : QueueLimits) (unique : bool) : DB * Result StoreError string :=
  match (let! (replay, tx) := match has_key idem with
                              | Some i => reserveIdempotency db now0 (idem_key i) (id_RequestHash i)
                              | None => Ok ("", db)
                              end in
         if negb (String.eqb replay "") then Ok (replay, db) else
         let depth := queue_depth tx in
         let bytes := queue_bytes tx in
         let perJob := queue_per_job tx (r_DefinitionID r) in
         let size := QueuePayloadBytes r idem in
         if unique && (0 <? perJob) then Err ErrQueueDuplicate else
         if lim_MaxItems lim <=? depth then Err ErrQueueFull else
         if lim_MaxPerJob lim <=? perJob then Err ErrQueueFull else
         if lim_MaxBytes lim <? bytes + size then Err ErrQueueFull else
         let r := r <| r_Status := "queued" |> in
         let! tx := insert_run tx (runArgs r) in
         let! tx := insert_queue tx (r_ID r) (r_DefinitionID r) (UnixMicro_of now)
                      (UnixMicro_of (now + lim_MaxAge lim)) size in
         let! tx := match has_key idem with
                    | Some i => insert_idem tx (idem_key i)
                                  (mkIdemRow (id_RequestHash i) (r_ID r) (UnixMicro_of now))
                    | None => Ok tx
                    end in
         Ok ("", tx)) with
  | Ok (replay, db') => (db', Ok replay)
  | Err e => (db, Err e)
  end.

(** [DELETE FROM exec_queue] of the rows selected by [p]. *)
Definition delete_queue (p : QueueRow -> bool) (db : DB) : DB :=
  db <| exec_queue ::= List.filter (fun q => negb (p q)) |>.

(** [UPDATE runs SET status=.., end_reason=.., ended_us=.. WHERE status='queued' AND p]. *)
Definition end_queued_runs (p : RunRow -> bool) (status reason : string) (us : Z) (db : DB) : DB :=
  db <| runs ::= fmap (fun w =>
    if status_in ["queued"] w && p w
    then w <| rr_status := status |> <| rr_end_reason := Some reason |> <| rr_ended_us := Some us |>
    else w) |>.

(** The order of idx_exec_queue_expiry: by expiry, then by row. *)
Definition expiry_le (a b : QueueRow) : Prop :=
  q_expires_us a < q_expires_us b \/ (q_expires_us a = q_expires_us b /\ q_seq a <= q_seq b).

#[export] Instance expiry_le_dec : RelDecision expiry_le.
Proof. intros a b. unfold expiry_le. apply _. Defined.

Definition expired_rows (db : DB) (now : Time) (limit : nat) : list QueueRow :=
  take limit (merge_sort expiry_le
    (List.filter (fun q => q_expires_us q <=? UnixMicro_of now) (exec_queue db))).

Definition ExpireQueued (db : DB) (now : Time) (limit : nat) : DB * list string :=
  let ids := q_run_id <$> expired_rows db now limit in
  match ids with
  | [] => (db, [])
  | _ => (delete_queue (fun q => existsb (String.eqb (q_run_id q)) ids)
            (end_queued_runs (fun w => existsb (String.eqb (rr_run_id w)) ids)
               "skipped" "queue_expired" (UnixMicro_of now) db),
          ids)
  end.

(** [endQueued] commits the removal of the queue row even when the run was no
    longer queued, and then reports [ErrInvalidTransition]. *)
Definition endQueued (db : DB) (runID status reason : string) (now : Time)
  : DB * Result StoreError unit :=
  let '(tx, res) := update_run db runID (status_in ["queued"])
    (fun w => w <| rr_status := status |> <| rr_end_reason := Some reason |>
                <| rr_ended_us := Some (UnixMicro_of now) |>) in
  (delete_queue (fun q => String.eqb (q_run_id q) runID) tx, res).

Definition DropQueued (db : DB) (runID reason : string) (now : Time) :=
  endQueued db runID "skipped" reason now.

Definition CancelQueued (db : DB) (runID : string) (now : Time) :=
  endQueued db runID "stopped" "queue_cancelled" now.

(** Inside the transactions of DeleteDefinition and SetEnabled. *)
Definition dropDefinitionQueued (db : DB) (definitionID : Z) (reason : string) (now : Time) : DB :=
  let ids := q_run_id <$> List.filter (of_definition definitionID) (exec_queue db) in
  delete_queue (of_definition definitionID)
    (end_queued_runs (fun w => existsb (String.eqb (rr_run_id w)) ids)
       "skipped" reason (UnixMicro_of now) db).

Definition DequeueRun (db : DB) (runID : string) (revision : Z) (hash bootID : string)
  : DB * Result StoreError unit :=
  match update_run db runID (status_in ["queued"])
          (fun w => w <| rr_status := "pending" |> <| rr_revision := revision |>
                      <| rr_definition_hash := hash |> <| rr_boot_id := Some bootID |>) with
  | (tx, Ok _) => (delete_queue (fun q => String.eqb (q_run_id q) runID) tx, Ok tt)
  | (_, Err e) => (db, Err e)
  end.
