(* ===== verification/StoreDefs.v ===== *)
(** internal/store/store.go: the definition registry.  API-owned definitions use
    optimistic concurrency on their revision; config-owned ones are mirrored from
    the main config and read-only to the API.

    [Canonical] (internal/config) marshals a definition without its identity and
    hashes the bytes; encoding/json and crypto/sha256 are the [Codec] interface. *)

From S2P Require Import Prelude GoRuntime Model StoreDB StoreQueue.
From Stdlib Require Ascii.
Open Scope Z_scope.

Class Codec := {
  encode_definition : Definition_ -> string;
  decode_definition : string -> option Definition_;
  sha256_hex : string -> string;
}.

Section registry.
Context `{Codec}.

Definition Canonical (d : Definition_) : string * string :=
  let b := encode_definition (d <| d_ID := 0 |> <| d_Revision := 0 |>) in
  (b, sha256_hex b).

(** * Statements *)

Fixpoint maxZ (l : list Z) : Z := match l with [] => 0 | x :: l => Z.max x (maxZ l) end.

(** SQLite assigns one more than the largest rowid. *)
Definition next_definition_id (db : DB) : Z :=
  1 + maxZ (dr_definition_id <$> (map_to_list (definitions db)).*2).
Definition next_audit_id (db : DB) : Z := 1 + maxZ (au_id <$> audit db).

(** CHECK(kind IN ('job','worker')). *)
Definition kind_ok (kind : string) : bool :=
  String.eqb kind "job" || String.eqb kind "worker".

Definition insert_definition (db : DB) (d : Definition_) (source : string) (now : Z)
  : Result StoreError (Z * DB) :=
  let '(b, hash) := Canonical d in
  let id := next_definition_id db in
  if negb (kind_ok (d_Kind d)) || bool_decide (is_Some (definitions db !! d_Name d))
  then Err ErrConstraint
  else Ok (id, db <| definitions ::=
             insert (d_Name d) (mkDefRow id (d_Kind d) b hash 1 (IsEnabled d) source now now None) |>).

(** [UPDATE definitions SET kind=..,spec=..,...,deleted_us=NULL]. *)
Definition update_definition (db : DB) (d : Definition_) (rev now : Z) : Result StoreError DB :=
  let '(b, hash) := Canonical d in
  if negb (kind_ok (d_Kind d)) then Err ErrConstraint else
  Ok (db <| definitions ::= alter (fun w =>
        w <| dr_kind := d_Kind d |> <| dr_spec := b |> <| dr_spec_hash := hash |>
          <| dr_revision := rev |> <| dr_enabled := IsEnabled d |> <| dr_updated_us := now |>
          <| dr_deleted_us := None |>) (d_Name d) |>).

Definition insert_revision (db : DB) (id rev : Z) (spec hash actor : string) (now : Z)
  : Result StoreError DB :=
  if bool_decide (is_Some (revisions db !! (id, rev))) then Err ErrConstraint
  else Ok (db <| revisions ::= insert (id, rev) (mkRevRow spec hash actor now) |>).

Definition insert_audit (db : DB) (now : Z) (actor action target : string)
    (before after : option string) : DB :=
  db <| audit ::= fun l => l ++ [mkAuditRow (next_audit_id db) now actor action target before after] |>.

Definition alerts_of (d : Definition_) : list string := default [] (d_Alerts d).

(** No unknown channel and no duplicate in [alerts]. *)
Fixpoint validate_alerts (db : DB) (seen : list string) (l : list string) : bool :=
  match l with
  | [] => true
  | name :: l => negb (existsb (String.eqb name) seen) && bool_decide (name ∈ alert_channels db)
                 && validate_alerts db (name :: seen) l
  end.

Definition validateAlertReferencesTx (db : DB) (d : Definition_) : Result StoreError unit :=
  if validate_alerts db [] (alerts_of d) then Ok tt else Err ErrUnknownAlertChannel.

(** * API-owned definitions *)

Definition putDefinition (db : DB) (now : Time) (d : Definition_) (expected : Z) (actor : string)
    (createOnly : bool) : DB * Result StoreError Definition_ :=
  let us := UnixMicro_of now in
  let d := d <| d_Source := "" |> in
  let '(b, hash) := Canonical d in
  match (let! _ := validateAlertReferencesTx db d in
         let! (id, rev, before, tx) :=
           match definitions db !! d_Name d with
           | None => let! (id, tx) := insert_definition db d "" us in Ok (id, 1, "", tx)
           | Some w =>
               if String.eqb (dr_source w) "config" then Err ErrReadOnly else
               if createOnly then Err ErrRevisionConflict else
               if bool_decide (dr_deleted_us w = None) && negb (expected =? 0)
                  && negb (expected =? dr_revision w) then Err ErrRevisionConflict else
               if negb (bool_decide (dr_deleted_us w = None)) && negb (expected =? 0)
               then Err ErrRevisionConflict else
               let rev := dr_revision w + 1 in
               let! tx := update_definition db d rev us in
               Ok (dr_definition_id w, rev, dr_spec w, tx)
           end in
         let! tx := insert_revision tx id rev b hash actor us in
         let tx := insert_audit tx us actor "update" (d_Name d) (Some before) (Some b) in
         Ok (d <| d_ID := id |> <| d_Revision := rev |>, tx)) with
  | Ok (d', db') => (db', Ok d')
  | Err e => (db, Err e)
  end.

Definition PutDefinition db now d expected actor := putDefinition db now d expected actor false.
Definition CreateDefinition db now d actor := putDefinition db now d 0 actor true.

(** One definition of an import bundle. *)
Definition import_one (actor : string) (us : Z) (tx : DB) (d : Definition_) : Result StoreError DB :=
  let! _ := validateAlertReferencesTx tx d in
  let d := d <| d_Source := "" |> in
  let '(b, hash) := Canonical d in
  let! (id, rev, before, tx) :=
    match definitions tx !! d_Name d with
    | None => let! (id, tx) := insert_definition tx d "" us in Ok (id, 1, "", tx)
    | Some w =>
        if String.eqb (dr_source w) "config" then Err ErrReadOnly else
        let rev := dr_revision w + 1 in
        let! tx := update_definition tx d rev us in
        Ok (dr_definition_id w, rev, dr_spec w, tx)
    end in
  let! tx := insert_revision tx id rev b hash actor us in
  Ok (insert_audit tx us actor "import" (d_Name d) (Some before) (Some b)).

(** A fold over the bundle that stops at the first error. *)
Fixpoint fold_result {A} (f : DB -> A -> Result StoreError DB) (db : DB) (l : list A)
  : Result StoreError DB :=
  match l with
  | [] => Ok db
  | x :: l => let! db := f db x in fold_result f db l
  end.

Definition commit (db : DB) (r : Result StoreError DB) : DB * Result StoreError unit :=
  match r with Ok db' => (db', Ok tt) | Err e => (db, Err e) end.

Definition ImportDefinitions (db : DB) (now : Time) (defs : list Definition_) (actor : string) :=
  commit db (fold_result (import_one actor (UnixMicro_of now)) db defs).

Definition DeleteDefinition (db : DB) (now : Time) (name actor : string) : DB * Result StoreError unit :=
  let us := UnixMicro_of now in
  commit db
    (match definitions db !! name with
     | Some w =>
         if negb (bool_decide (dr_deleted_us w = None)) then Err ErrNoRows else
         if String.eqb (dr_source w) "config" then Err ErrReadOnly else
         let tx := db <| definitions ::= alter (fun w =>
           w <| dr_deleted_us := Some us |> <| dr_enabled := false |> <| dr_updated_us := us |>) name |> in
         let tx := insert_audit tx us actor "delete" name (Some (dr_spec w)) None in
         Ok (dropDefinitionQueued tx (dr_definition_id w) "definition_removed" (of_UnixMicro us))
     | None => Err ErrNoRows
     end).

(** [fmt.Sprintf] of the enabled flag as a JSON object; 34 is the quote character. *)
Definition enabled_json (enabled : bool) : string :=
  let quote := String (Ascii.ascii_of_nat 34) "" in
  "{" +:+ quote +:+ "enabled" +:+ quote +:+ ":" +:+ (if enabled then "true" else "false") +:+ "}".

Definition SetEnabled (db : DB) (now : Time) (name : string) (enabled : bool)
  : DB * Result StoreError unit :=
  let us := UnixMicro_of now in
  commit db
    (match definitions db !! name with
     | Some w =>
         if negb (bool_decide (dr_deleted_us w = None)) then Err ErrNoRows else
         if String.eqb (dr_source w) "config" then Err ErrReadOnly else
         let rev := dr_revision w + 1 in
         let tx := db <| definitions ::= alter (fun w =>
           w <| dr_enabled := enabled |> <| dr_revision := rev |> <| dr_updated_us := us |>) name |> in
         let! tx := insert_revision tx (dr_definition_id w) rev (dr_spec w) (dr_spec_hash w) "api" us in
         let tx := insert_audit tx us "api" "set_enabled" name None (Some (enabled_json enabled)) in
         Ok (if enabled then tx
             else dropDefinitionQueued tx (dr_definition_id w) "definition_disabled" (of_UnixMicro us))
     | None => Err ErrNoRows
     end).

(** * Config-owned definitions *)

Definition sync_one (us : Z) (tx : DB) (d : Definition_) : Result StoreError DB :=
  let! _ := validateAlertReferencesTx tx d in
  let d := d <| d_Source := "config" |> in
  let '(b, hash) := Canonical d in
  match definitions tx !! d_Name d with
  | None =>
      let! (id, tx) := insert_definition tx d "config" us in
      let! tx := insert_revision tx id 1 b hash "config" us in
      Ok (insert_audit tx us "config" "sync" (d_Name d) (Some "") (Some b))
  | Some w =>
      if negb (String.eqb (dr_source w) "config") then Err ErrConfigConflict else
      if String.eqb (dr_spec_hash w) hash && bool_decide (dr_deleted_us w = None) then Ok tx else
      let rev := dr_revision w + 1 in
      let! tx := update_definition tx d rev us in
      let! tx := insert_revision tx (dr_definition_id w) rev b hash "config" us in
      Ok (insert_audit tx us "config" "sync" (d_Name d) (Some (dr_spec w)) (Some b))
  end.

(** Live config-owned names that the config no longer has, in name order of the scan. *)
Definition removed_names (tx : DB) (seen : list string) : list string :=
  (List.filter (fun kd => String.eqb (dr_source kd.2) "config" &&
                          bool_decide (dr_deleted_us kd.2 = None) &&
                          negb (existsb (String.eqb kd.1) seen))
     (map_to_list (definitions tx))).*1.

Definition remove_one (us : Z) (tx : DB) (name : string) : DB :=
  insert_audit (tx <| definitions ::= alter (fun w =>
      w <| dr_deleted_us := Some us |> <| dr_enabled := false |> <| dr_updated_us := us |>) name |>)
    us "config" "remove" name None None.

Definition SyncConfigDefinitions (db : DB) (now : Time) (defs : list Definition_)
  : DB * Result StoreError unit :=
  let us := UnixMicro_of now in
  commit db
    (let! tx := fold_result (sync_one us) db defs in
     Ok (foldl (remove_one us) tx (removed_names tx (d_Name <$> defs)))).

(** * Reads *)

(** The columns override what the stored spec says about identity and state. *)
Definition row_definition (w : DefRow) (d : Definition_) : Definition_ :=
  d <| d_ID := dr_definition_id w |> <| d_Revision := dr_revision w |>
    <| d_Source := dr_source w |> <| d_Enabled := Some (dr_enabled w) |>.

(** [json.Unmarshal] into a struct whose identity fields are already set keeps
    them: the canonical spec omits both. *)
Definition Definition_of (db : DB) (name : string) : Result StoreError (Definition_ * string) :=
  match definitions db !! name with
  | Some w =>
      if negb (bool_decide (dr_deleted_us w = None)) then Err ErrNoRows else
      match decode_definition (dr_spec w) with
      | Some d => Ok (row_definition w d, dr_spec_hash w)
      | None => Err ErrCanonical
      end
  | None => Err ErrNoRows
  end.

End registry.
