(* ===== verification/StoreHistory.v ===== *)
(** internal/store/store.go: run listings, retention, schedule state and metadata
    pruning. *)

From S2P Require Import Prelude GoRuntime Model StoreDB.
Open Scope Z_scope.

(** * Newest-first order of run rows

    [ORDER BY key DESC, run_id DESC]; run ids compare as byte strings. *)

Definition newer (key : RunRow -> Z) (a b : RunRow) : Prop :=
  key b < key a \/ (key a = key b /\ String.le (rr_run_id b) (rr_run_id a)).

#[export] Instance newer_dec key : RelDecision (newer key).
Proof. intros a b. unfold newer. apply _. Defined.

(** Strictly after a cursor position: [key < us OR (key = us AND run_id < id)]. *)
Definition after_cursor (key : RunRow -> Z) (us : Z) (id : string) (w : RunRow) : bool :=
  (key w <? us) ||
  ((key w =? us) && bool_decide (String.le (rr_run_id w) id) && negb (String.eqb (rr_run_id w) id)).

Definition all_rows (db : DB) : list RunRow := (map_to_list (runs db)).*2.

(** * Listings *)

(** The conditions of [RunsPage]'s filter argument; an unknown filter adds none. *)
Definition runs_filter (filter : string) (w : RunRow) : bool :=
  if String.eqb filter "failed" then status_in ["failed"; "timeout"; "interrupted"] w else
  if String.eqb filter "scheduled" then String.eqb (rr_trigger w) "schedule" else
  if String.eqb filter "manual" then String.eqb (rr_trigger w) "manual" else
  if String.eqb filter "active" then status_in ["queued"; "pending"; "running"] w else
  true.

Definition RunsPage (db : DB) (job : string) (limit : Z) (before filter : string)
  : Result StoreError (list Run) :=
  let limit := Z.min (Z.max limit 1) 501 in
  let matches w := (String.eqb job "" || String.eqb (rr_job w) job) && runs_filter filter w in
  let page keep := scanRun <$> take (Z.to_nat limit)
    (merge_sort (newer rr_queued_us) (List.filter keep (all_rows db))) in
  if String.eqb before "" then Ok (page matches) else
  match runs db !! before with
  | None => Err ErrNoRows
  | Some b => Ok (page (fun w => matches w && after_cursor rr_queued_us (rr_queued_us b) before w))
  end.

Definition Runs (db : DB) (job : string) (limit : Z) : Result StoreError (list Run) :=
  RunsPage db job (Z.min (Z.max limit 1) 500) "" "".

(** * Retention *)

Record RetentionCandidate := mkRetentionCandidate {
  rc_ID : string;
  rc_SortUS : Z
}.

(** [COALESCE(ended_us, queued_us)]. *)
Definition sort_us (w : RunRow) : Z := default (rr_queued_us w) (rr_ended_us w).

(** A live idempotency key protects its run for 24 hours. *)
Definition idem_protected (db : DB) (now : Time) (id : string) : bool :=
  existsb (fun ki => String.eqb (i_run_id ki.2) id && idem_live now ki.2)
    (map_to_list (idempotency db)).

Definition terminal_of (definitionID : Z) (w : RunRow) : bool :=
  (rr_definition_id w =? definitionID) && Terminal (rr_status w).

(** The terminal runs of a definition, newest first. *)
Definition terminal_history (db : DB) (definitionID : Z) : list RunRow :=
  merge_sort (newer sort_us) (List.filter (terminal_of definitionID) (all_rows db)).

(** The boundary row is strictly newer than [w]. *)
Definition beyond (boundary : option RunRow) (w : RunRow) : bool :=
  match boundary with
  | Some b => after_cursor sort_us (sort_us b) (rr_run_id b) w
  | None => false
  end.

Definition retention_eligible (db : DB) (now : Time) (definitionID keep : Z) (olderThan : Time)
    (w : RunRow) : bool :=
  let history := terminal_history db definitionID in
  let boundary := history !! Z.to_nat (Z.max keep 1 - 1) in
  terminal_of definitionID w &&
  negb (bool_decide ((rr_run_id <$> head history) = Some (rr_run_id w))) &&
  (((0 <? keep) && beyond boundary w) ||
   (negb (IsZero olderThan) &&
    match rr_ended_us w with Some us => us <? UnixMicro_of olderThan | None => false end)) &&
  negb (idem_protected db now (rr_run_id w)).

Definition RetentionCandidates (db : DB) (now : Time) (definitionID keep : Z) (olderThan : Time)
    (cursor : option RetentionCandidate) (limit : Z) : Result StoreError (list RetentionCandidate) :=
  if limit <=? 0 then Err ErrPageLimit else
  let after w := match cursor with
                 | Some c => after_cursor sort_us (rc_SortUS c) (rc_ID c) w
                 | None => true
                 end in
  Ok ((fun w => mkRetentionCandidate (rr_run_id w) (sort_us w)) <$>
      take (Z.to_nat limit) (merge_sort (newer sort_us)
        (List.filter (fun w => retention_eligible db now definitionID keep olderThan w && after w)
           (all_rows db)))).

(** [DELETE FROM runs WHERE ...] with the cascade to the queue. *)
Definition DeleteRuns (db : DB) (now : Time) (ids : list string) : DB :=
  let gone w := existsb (String.eqb (rr_run_id w)) ids &&
                negb (status_in ["pending"; "running"; "queued"] w) &&
                negb (idem_protected db now (rr_run_id w)) in
  let keep_queue q := match runs db !! q_run_id q with Some w => negb (gone w) | None => true end in
  db <| runs := filter (fun kw => gone kw.2 = false) (runs db) |>
     <| exec_queue := List.filter keep_queue (exec_queue db) |>.

Definition DeleteRun (db : DB) (now : Time) (id : string) : DB := DeleteRuns db now [id].

(** * Schedule state *)

Definition ScheduleState (db : DB) (definitionID : Z)
  : Result StoreError (Time * Time * Time * string) :=
  match schedule_state db !! definitionID with
  | Some s => Ok (of_UnixMicro (s_anchor_us s), default zeroTime (of_UnixMicro <$> s_last_fire_us s),
                  default zeroTime (of_UnixMicro <$> s_next_fire_us s), s_schedule_hash s)
  | None => Err ErrNoRows
  end.

Definition maxOption (l : list Z) : option Z :=
  match l with [] => None | x :: l => Some (foldr Z.max x l) end.

Definition LastScheduledFire (db : DB) (definitionID : Z) : Time :=
  default zeroTime (of_UnixMicro <$> maxOption (omap rr_scheduled_for_us
    (List.filter (fun w => (rr_definition_id w =? definitionID) &&
                           String.eqb (rr_trigger w) "schedule") (all_rows db)))).

Definition ScheduleNext (db : DB) (definitionID : Z) : Result StoreError Time :=
  match schedule_state db !! definitionID with
  | Some s => Ok (default zeroTime (of_UnixMicro <$> s_next_fire_us s))
  | None => Err ErrNoRows
  end.

Definition ScheduleNextBatch (db : DB) : gmap Z Time :=
  omap (fun s => of_UnixMicro <$> s_next_fire_us s) (schedule_state db).

Definition timeUS (t : Time) : option Z := if IsZero t then None else Some (UnixMicro_of t).

Definition setScheduleState (db : DB) (definitionID : Z) (hash : string) (anchor last next : Time)
  : DB * Result StoreError unit :=
  if negb (has_definition db definitionID) then (db, Err ErrConstraint) else
  (db <| schedule_state ::= insert definitionID
           (mkSchedRow hash (UnixMicro_of anchor) (timeUS last) (timeUS next)) |>, Ok tt).

Definition SetScheduleState db definitionID hash anchor last :=
  setScheduleState db definitionID hash anchor last zeroTime.
Definition SetScheduleStateWithNext db definitionID hash anchor last next :=
  setScheduleState db definitionID hash anchor last next.

(** * Metadata pruning *)

(** [ROW_NUMBER() OVER (PARTITION BY definition_id ORDER BY revision DESC)]. *)
Definition revision_rank (db : DB) (id rev : Z) : Z :=
  Z.of_nat (length (List.filter (fun kr => (kr.1.1 =? id) && (rev <=? kr.1.2))
    (map_to_list (revisions db)))).

Definition PruneMetadata (db : DB) (now : Time) (auditKeep : nat) : DB :=
  let db := db <| idempotency := filter (fun ki => UnixMicro_of (now - Day) < i_created_us ki.2)
                                   (idempotency db) |> in
  let db := db <| audit := match rev (audit db) !! auditKeep with
                           | Some cut => List.filter (fun a => au_id cut <? au_id a) (audit db)
                           | None => audit db
                           end |> in
  db <| revisions := filter (fun kr => revision_rank db kr.1.1 kr.1.2 <= 100) (revisions db) |>.
