(* ===== verification/StoreInv.v ===== *)
(** The store as a state machine: every method that changes the database as an
    operation, the well-formedness invariant of the run and queue tables, the run
    lifecycle and the queue limits, over every sequence of operations. *)

From S2P Require Import Prelude GoRuntime Model StoreDB StoreQueue StoreDefs StoreHistory.
Open Scope Z_scope.

(** * Well-formedness

    Rows are keyed by their run id, queue rows are in strict [seq] order, and the
    queue rows are exactly the runs in status "queued". *)

Record wf (db : DB) : Prop := mkWf {
  wf_keyed : forall id w, runs db !! id = Some w -> rr_run_id w = id;
  wf_seq : StronglySorted Z.lt (q_seq <$> exec_queue db);
  wf_seq_le : forall q, q ∈ exec_queue db -> q_seq q <= queue_seq db;
  wf_queue_run : forall q, q ∈ exec_queue db ->
    exists w, runs db !! q_run_id q = Some w /\ rr_status w = "queued" /\
              rr_definition_id w = q_definition_id q;
  wf_run_queue : forall id w, runs db !! id = Some w -> rr_status w = "queued" ->
    id ∈ queue_run_ids db;
  wf_nodup : NoDup (queue_run_ids db);
  wf_payload : forall q, q ∈ exec_queue db -> 0 <= q_payload_bytes q
}.

(** The limits hold for the whole queue and for each definition. *)
Record bounded (lim : QueueLimits) (db : DB) : Prop := mkBounded {
  b_items : queue_depth db <= lim_MaxItems lim;
  b_per_job : forall d, queue_per_job db d <= lim_MaxPerJob lim;
  b_bytes : queue_bytes db <= lim_MaxBytes lim
}.

(** The transitions of a stored run's status. *)
Inductive lifecycle : string -> string -> Prop :=
| lc_same s : lifecycle s s
| lc_dequeue : lifecycle "queued" "pending"
| lc_start : lifecycle "pending" "running"
| lc_queue_end s : s ∈ ["skipped"; "stopped"; "interrupted"] -> lifecycle "queued" s
| lc_end old s : old ∈ ["pending"; "running"] -> Terminal s = true -> lifecycle old s.

(** * Operations *)

Section machine.
Context `{Codec}.

Inductive Op :=
| OpCreateRun (r : Run)
| OpStartRun (id : string) (pid pgid : Z) (startID : string) (at_ : Time)
| OpFinishRun (id status reason : string) (code : option Z) (signal : string) (at_ : Time)
    (bytes : Z) (truncated : bool) (usage : option ResourceUsage)
| OpRecover (now : Time)
| OpAdmit (now0 now : Time) (r : Run) (k : string * string * string) (h : string)
| OpSaveIdempotency (now : Time) (k : string * string * string) (h id : string)
| OpEnqueue (now0 now : Time) (r : Run) (idem : option Idempotency) (unique : bool)
| OpExpire (now : Time) (limit : nat)
| OpDrop (id reason : string) (now : Time)
| OpCancel (id : string) (now : Time)
| OpDequeue (id : string) (revision : Z) (hash bootID : string)
| OpDeleteRuns (now : Time) (ids : list string)
| OpSetSchedule (definitionID : Z) (hash : string) (anchor last next : Time)
| OpPrune (now : Time) (keep : nat)
| OpPut (now : Time) (d : Definition_) (expected : Z) (actor : string) (createOnly : bool)
| OpImport (now : Time) (defs : list Definition_) (actor : string)
| OpDeleteDefinition (now : Time) (name actor : string)
| OpSetEnabled (now : Time) (name : string) (enabled : bool)
| OpSync (now : Time) (defs : list Definition_).

Definition apply_op (lim : QueueLimits) (op : Op) (db : DB) : DB :=
  match op with
  | OpCreateRun r => fst (CreateRun db r)
  | OpStartRun id pid pgid sid t => fst (StartRun db id pid pgid sid t)
  | OpFinishRun id st re c sg t b tr u => fst (FinishRunWithUsage db id st re c sg t b tr u)
  | OpRecover now => Recover db now
  | OpAdmit now0 now r k h => fst (AdmitIdempotentRun db now0 now r k h)
  | OpSaveIdempotency now k h id => fst (SaveIdempotency db now k h id)
  | OpEnqueue now0 now r idem u => fst (EnqueueRun db now0 now r idem lim u)
  | OpExpire now n => fst (ExpireQueued db now n)
  | OpDrop id re now => fst (DropQueued db id re now)
  | OpCancel id now => fst (CancelQueued db id now)
  | OpDequeue id rev h b => fst (DequeueRun db id rev h b)
  | OpDeleteRuns now ids => DeleteRuns db now ids
  | OpSetSchedule d h a l n => fst (setScheduleState db d h a l n)
  | OpPrune now k => PruneMetadata db now k
  | OpPut now d e a c => fst (putDefinition db now d e a c)
  | OpImport now ds a => fst (ImportDefinitions db now ds a)
  | OpDeleteDefinition now n a => fst (DeleteDefinition db now n a)
  | OpSetEnabled now n e => fst (SetEnabled db now n e)
  | OpSync now ds => fst (SyncConfigDefinitions db now ds)
  end.

(** What the callers guarantee: a run row is created "queued" only by
    [EnqueueRun], and a run is finished with a terminal status. *)
Definition op_ok (op : Op) : Prop :=
  match op with
  | OpCreateRun r => r_Status r <> "queued"
  | OpAdmit _ _ r _ _ => r_Status r <> "queued"
  | OpFinishRun _ st _ _ _ _ _ _ _ => Terminal st = true
  | _ => True
  end.

Definition step (lim : QueueLimits) (db db' : DB) : Prop :=
  exists op, op_ok op /\ db' = apply_op lim op db.

(** * Lemmas on the statements *)

Implicit Types db tx : DB.

Lemma wf_empty : wf emptyDB.
Proof.
  split; try set_solver.
  - apply SSorted_nil.
  - apply NoDup_nil_2.
Qed.

(** Changing other tables does not matter. *)
Lemma wf_frame db db' :
  runs db' = runs db -> exec_queue db' = exec_queue db -> queue_seq db' = queue_seq db ->
  wf db -> wf db'.
Proof.
  intros Hr Hq Hs [].
  split; unfold queue_run_ids in *; rewrite ?Hr, ?Hq, ?Hs; eauto.
Qed.

Lemma bounded_frame lim db db' :
  exec_queue db' = exec_queue db -> bounded lim db -> bounded lim db'.
Proof.
  intros Hq []. split; unfold queue_depth, queue_per_job, queue_bytes in *; rewrite ?Hq; eauto.
Qed.

(** Sub-queues: filtering keeps order, uniqueness and the limits. *)
Lemma seq_filter (p : QueueRow -> bool) l :
  StronglySorted Z.lt (q_seq <$> l) -> StronglySorted Z.lt (q_seq <$> List.filter p l).
Proof.
  induction l as [|q l IH]; simpl; [done|]. intros Hs. inversion Hs as [|? ? Hl Hq]; subst.
  destruct (p q); simpl; [|auto]. constructor; [auto|].
  rewrite Forall_forall in Hq |- *. intros z Hz. apply Hq.
  apply list_elem_of_fmap in Hz as (q' & -> & Hq'). apply list_elem_of_fmap_2.
  by apply elem_of_filter_list in Hq' as [? _].
Qed.

Lemma sumZ_filter_le (f : QueueRow -> Z) (p : QueueRow -> bool) l :
  (forall q, q ∈ l -> 0 <= f q) -> sumZ (f <$> List.filter p l) <= sumZ (f <$> l).
Proof.
  unfold sumZ. induction l as [|x l IH]; intros Hpos; csimpl; [lia|].
  assert (0 <= f x) by (apply Hpos; left).
  assert (forall q, q ∈ l -> 0 <= f q) as Hl by (intros; apply Hpos; by right).
  specialize (IH Hl). destruct (p x); csimpl; lia.
Qed.

(** The shape of every operation that does not insert a run: rows survive with
    their identity, a row in status "queued" was queued before and is kept in the
    queue, and the queue keeps exactly the runs selected by [keep]. *)
Record shrinks (keep : string -> bool) (db db' : DB) : Prop := mkShrinks {
  sh_seq : queue_seq db' = queue_seq db;
  sh_queue : exec_queue db' = List.filter (fun q => keep (q_run_id q)) (exec_queue db);
  sh_runs : forall id w', runs db' !! id = Some w' ->
    exists w, runs db !! id = Some w /\ rr_run_id w' = rr_run_id w /\
      rr_definition_id w' = rr_definition_id w /\
      (rr_status w' = "queued" -> rr_status w = "queued" /\ keep id = true);
  sh_kept : forall id w, runs db !! id = Some w -> rr_status w = "queued" -> keep id = true ->
    exists w', runs db' !! id = Some w' /\ rr_status w' = "queued"
}.

Lemma shrinks_wf keep db db' : shrinks keep db db' -> wf db -> wf db'.
Proof.
  intros [Hseq Hq Hr Hk] Hwf. pose proof Hwf as [Wk Ws Wle Wqr Wrq Wnd Wp].
  split; unfold queue_run_ids in *; rewrite ?Hseq, ?Hq.
  - intros id w' (w & Hw & -> & _)%Hr. eauto.
  - by apply seq_filter.
  - intros q [Hin _]%elem_of_filter_list. auto.
  - intros q [Hin Hkeep]%elem_of_filter_list.
    destruct (Wqr q Hin) as (w & Hw & Hst & Hd).
    destruct (Hk _ _ Hw Hst Hkeep) as (w' & Hw' & Hst').
    exists w'. destruct (Hr _ _ Hw') as (w0 & Hw0 & _ & Hd' & _).
    rewrite Hw in Hw0. injection Hw0 as <-. rewrite Hd'. done.
  - intros id w' Hw' Hst'. destruct (Hr _ _ Hw') as (w & Hw & _ & _ & Himp).
    destruct (Himp Hst') as [Hst Hkeep].
    pose proof (Wrq _ _ Hw Hst) as (q & -> & Hin)%list_elem_of_fmap.
    apply list_elem_of_fmap_2, elem_of_filter_list. done.
  - eapply sublist_NoDup; [apply Wnd|]. apply fmap_filter_sublist.
  - intros q [Hin _]%elem_of_filter_list. auto.
Qed.

Lemma shrinks_bounded lim keep db db' : shrinks keep db db' -> wf db -> bounded lim db -> bounded lim db'.
Proof.
  intros [_ Hq _ _] Hwf [Bi Bj Bb].
  split; unfold queue_depth, queue_per_job, queue_bytes in *; rewrite Hq.
  - pose proof (length_filter_le (fun q => keep (q_run_id q)) (exec_queue db)). lia.
  - intros d. rewrite filter_filter_comm. specialize (Bj d).
    pose proof (length_filter_le (fun q => keep (q_run_id q))
                  (List.filter (of_definition d) (exec_queue db))). lia.
  - pose proof (sumZ_filter_le q_payload_bytes (fun q => keep (q_run_id q)) (exec_queue db)
                  (wf_payload db Hwf)). lia.
Qed.

Lemma filter_true {A} (p : A -> bool) l : (forall x, x ∈ l -> p x = true) -> List.filter p l = l.
Proof.
  induction l as [|x l IH]; intros Hp; simpl; [done|].
  rewrite Hp by left. f_equal. apply IH. intros y Hy. apply Hp. by right.
Qed.

(** No queue row is touched, and no run leaves or enters status "queued". *)
Lemma shrinks_runs_only db db' :
  queue_seq db' = queue_seq db -> exec_queue db' = exec_queue db ->
  (forall id w', runs db' !! id = Some w' -> exists w, runs db !! id = Some w /\
     rr_run_id w' = rr_run_id w /\ rr_definition_id w' = rr_definition_id w /\
     (rr_status w' = "queued" -> rr_status w = "queued")) ->
  (forall id w, runs db !! id = Some w -> rr_status w = "queued" ->
     exists w', runs db' !! id = Some w' /\ rr_status w' = "queued") ->
  shrinks (fun _ => true) db db'.
Proof.
  intros Hs Hq H1 H2. split; [done| rewrite filter_true by done; done | | eauto].
  intros id w' Hw'. destruct (H1 _ _ Hw') as (w & ? & ? & ? & ?). exists w. auto 10.
Qed.

Lemma shrinks_frame db db' :
  runs db' = runs db -> exec_queue db' = exec_queue db -> queue_seq db' = queue_seq db ->
  shrinks (fun _ => true) db db'.
Proof.
  intros Hr Hq Hs. apply shrinks_runs_only; try done; rewrite Hr; eauto 10.
Qed.

Lemma status_in_elem l w : status_in l w = true <-> rr_status w ∈ l.
Proof. apply existsb_eqb_elem. Qed.

Lemma status_in_neq l w s :
  status_in l w = true -> existsb (String.eqb s) l = false -> rr_status w <> s.
Proof. unfold status_in. intros H1 H2 Heq. rewrite Heq in H1. congruence. Qed.

(** [update_run] outside the queue: neither the old nor the new status is "queued". *)
Lemma update_run_shrinks db id guard f :
  (forall w, guard w = true -> rr_status w <> "queued") ->
  (forall w, rr_run_id (f w) = rr_run_id w /\ rr_definition_id (f w) = rr_definition_id w /\
             rr_status (f w) <> "queued") ->
  shrinks (fun _ => true) db (fst (update_run db id guard f)).
Proof.
  intros Hg Hf. unfold update_run.
  destruct (runs db !! id) as [w|] eqn:Hw; [|by apply shrinks_frame].
  destruct (guard w) eqn:Ew; [|by apply shrinks_frame].
  apply shrinks_runs_only; try done; simpl.
  - intros i w' Hw'. destruct (decide (i = id)) as [->|Hne]; simplify_map_eq; [|eauto].
    exists w. destruct (Hf w) as (-> & -> & ?). done.
  - intros i w0 Hw0 Hst. destruct (decide (i = id)) as [->|Hne]; simplify_map_eq; [|eauto].
    by destruct (Hg w Ew).
Qed.

(** Runs picked by [sel] leave the queue with a status other than "queued". *)
Lemma shrinks_take_off db db' (sel : string -> bool) (f : RunRow -> RunRow) :
  wf db ->
  queue_seq db' = queue_seq db ->
  exec_queue db' = List.filter (fun q => negb (sel (q_run_id q))) (exec_queue db) ->
  (forall id, runs db' !! id =
     (fun w => if status_in ["queued"] w && sel id then f w else w) <$> runs db !! id) ->
  (forall w, rr_run_id (f w) = rr_run_id w /\ rr_definition_id (f w) = rr_definition_id w /\
             rr_status (f w) <> "queued") ->
  shrinks (fun id => negb (sel id)) db db'.
Proof.
  intros Hwf Hs Hq Hr Hf. split; [done..| |].
  - intros id w' Hw'. rewrite Hr in Hw'.
    destruct (runs db !! id) as [w|]; [|done]. injection Hw' as <-. exists w. split; [done|].
    destruct (Hf w) as (Hid & Hdef & Hne). destruct (sel id) eqn:Esel; simpl.
    + destruct (status_in ["queued"] w) eqn:Est; simpl; [done|].
      split; [done|]. split; [done|]. intros Hst. exfalso.
      assert (status_in ["queued"] w = true); [|congruence].
      apply status_in_elem. rewrite Hst. left.
    + rewrite andb_false_r. done.
  - intros id w Hw Hst Hsel. exists w. rewrite Hr, Hw. simpl.
    apply negb_true_iff in Hsel. rewrite Hsel, andb_false_r. done.
Qed.

Lemma endQueued_shrinks db id status reason now :
  wf db -> status <> "queued" ->
  shrinks (fun i => negb (String.eqb i id)) db (fst (endQueued db id status reason now)).
Proof.
  intros Hwf Hst. unfold endQueued, update_run.
  eapply (shrinks_take_off _ _ (fun i => String.eqb i id) (fun w =>
    w <| rr_status := status |> <| rr_end_reason := Some reason |>
      <| rr_ended_us := Some (UnixMicro_of now) |>)); [done|..].
  - by repeat case_match; simplify_eq.
  - by repeat case_match; simplify_eq.
  - intros i. destruct (runs db !! id) as [w|] eqn:Hw; simpl.
    + destruct (status_in ["queued"] w) eqn:Est; simpl.
      * destruct (decide (i = id)) as [->|Hne].
        { by rewrite lookup_insert_eq, Hw, String.eqb_refl; simpl; rewrite Est. }
        rewrite lookup_insert_ne by done. apply String.eqb_neq in Hne. rewrite Hne.
        destruct (runs db !! i); simpl; [by rewrite andb_false_r | done].
      * destruct (decide (i = id)) as [->|Hne].
        { rewrite Hw. simpl. by rewrite Est. }
        apply String.eqb_neq in Hne. rewrite Hne.
        destruct (runs db !! i); simpl; [by rewrite andb_false_r | done].
    + destruct (decide (i = id)) as [->|Hne]; [by rewrite Hw|].
      apply String.eqb_neq in Hne. rewrite Hne.
      destruct (runs db !! i); simpl; [by rewrite andb_false_r | done].
  - done.
Qed.

Lemma DequeueRun_shrinks db id rev hash boot :
  wf db -> exists keep, shrinks keep db (fst (DequeueRun db id rev hash boot)).
Proof.
  intros Hwf. unfold DequeueRun, update_run.
  destruct (runs db !! id) as [w|] eqn:Hw; [|by eexists; apply shrinks_frame].
  destruct (status_in ["queued"] w) eqn:Est; [|by eexists; apply shrinks_frame].
  eexists. eapply (shrinks_take_off _ _ (fun i => String.eqb i id)
    (fun w => w <| rr_status := "pending" |> <| rr_revision := rev |>
                <| rr_definition_hash := hash |> <| rr_boot_id := Some boot |>)); try done.
  intros i. simpl. destruct (decide (i = id)) as [->|Hne].
  { by rewrite lookup_insert_eq, Hw, String.eqb_refl; simpl; rewrite Est. }
  rewrite lookup_insert_ne by done. apply String.eqb_neq in Hne. rewrite Hne.
  destruct (runs db !! i); simpl; [by rewrite andb_false_r | done].
Qed.

(** Ending a set of queued runs and deleting their queue rows. *)
Lemma end_delete_shrinks db ids status reason us :
  wf db -> status <> "queued" ->
  shrinks (fun i => negb (existsb (String.eqb i) ids)) db
    (delete_queue (fun q => existsb (String.eqb (q_run_id q)) ids)
       (end_queued_runs (fun w => existsb (String.eqb (rr_run_id w)) ids) status reason us db)).
Proof.
  intros Hwf Hst. eapply (shrinks_take_off _ _ (fun i => existsb (String.eqb i) ids)
    (fun w => w <| rr_status := status |> <| rr_end_reason := Some reason |>
                <| rr_ended_us := Some us |>)); try done.
  intros i. simpl. rewrite lookup_fmap.
  destruct (runs db !! i) as [w|] eqn:Hw; simpl; [|done].
  by rewrite (wf_keyed db Hwf _ _ Hw).
Qed.

Lemma ExpireQueued_shrinks db now limit :
  wf db -> exists keep, shrinks keep db (fst (ExpireQueued db now limit)).
Proof.
  intros Hwf. unfold ExpireQueued.
  destruct (q_run_id <$> expired_rows db now limit) as [|i ids]; eexists.
  - by apply shrinks_frame.
  - by apply end_delete_shrinks.
Qed.

(** Selecting queue rows by definition or by their run ids is the same. *)
Lemma of_definition_ids db d q :
  wf db -> q ∈ exec_queue db ->
  of_definition d q =
  existsb (String.eqb (q_run_id q)) (q_run_id <$> List.filter (of_definition d) (exec_queue db)).
Proof.
  intros Hwf Hq. apply eq_true_iff_eq. rewrite existsb_eqb_elem, list_elem_of_fmap.
  split; [intros; exists q; by rewrite elem_of_filter_list|].
  intros (q' & Heq & [Hin Hd]%elem_of_filter_list).
  destruct (wf_queue_run db Hwf _ Hq) as (w & Hw & _ & Hdw).
  destruct (wf_queue_run db Hwf _ Hin) as (w' & Hw' & _ & Hd').
  rewrite <- Heq, Hw in Hw'. injection Hw' as <-.
  unfold of_definition in *. congruence.
Qed.

Lemma dropDefinitionQueued_shrinks db d reason now :
  wf db -> exists keep, shrinks keep db (dropDefinitionQueued db d reason now).
Proof.
  intros Hwf. unfold dropDefinitionQueued.
  set (ids := q_run_id <$> List.filter (of_definition d) (exec_queue db)).
  exists (fun i => negb (existsb (String.eqb i) ids)).
  pose proof (end_delete_shrinks db ids "skipped" reason (UnixMicro_of now) Hwf ltac:(done)) as [].
  split; try done. rewrite <- sh_queue0. apply List.filter_ext_in.
  intros q Hq%list_elem_of_In. f_equal. by apply of_definition_ids.
Qed.

Lemma Recover_shrinks db now : wf db -> shrinks (fun _ => true) db (Recover db now).
Proof.
  intros Hwf. apply shrinks_runs_only; try done; simpl.
  - intros id w'. rewrite lookup_fmap. intros (w & Hw & ->)%fmap_Some_1. exists w.
    split; [done|]. case_match; simpl; [done|]. auto.
  - intros id w Hw Hst. exists w. rewrite lookup_fmap, Hw. simpl. split; [|done]. f_equal.
    pose proof (wf_run_queue db Hwf _ _ Hw Hst) as Hin.
    rewrite (wf_keyed db Hwf _ _ Hw), (proj2 (existsb_eqb_elem _ _) Hin).
    replace (status_in ["pending"; "running"] w) with false; [by rewrite andb_false_r|].
    unfold status_in. rewrite Hst. done.
Qed.

Lemma DeleteRuns_shrinks db now ids : wf db -> shrinks (fun _ => true) db (DeleteRuns db now ids).
Proof.
  intros Hwf. apply shrinks_runs_only; simpl; [done|..].
  - apply filter_true. intros q Hq. destruct (wf_queue_run db Hwf _ Hq) as (w & -> & Hst & _).
    unfold status_in. rewrite Hst. simpl. by rewrite andb_false_r.
  - intros id w' [Hw' _]%map_lookup_filter_Some. eauto 10.
  - intros id w Hw Hst. exists w. split; [|done]. apply map_lookup_filter_Some.
    split; [done|]. unfold status_in. simpl. rewrite Hst. simpl. by rewrite andb_false_r.
Qed.

(** * The invariant of every operation *)

Definition Inv (lim : QueueLimits) (db : DB) : Prop := wf db /\ bounded lim db.

Lemma Inv_shrinks lim keep db db' : shrinks keep db db' -> Inv lim db -> Inv lim db'.
Proof.
  intros Hs [Hwf Hb]. split; [by eapply shrinks_wf | by eapply shrinks_bounded].
Qed.

Lemma Inv_frame lim db db' :
  runs db' = runs db -> exec_queue db' = exec_queue db -> queue_seq db' = queue_seq db ->
  Inv lim db -> Inv lim db'.
Proof. intros. eapply Inv_shrinks; [by apply shrinks_frame | done]. Qed.

Lemma insert_run_fresh db w db' :
  insert_run db w = Ok db' ->
  runs db !! rr_run_id w = None /\ db' = db <| runs ::= insert (rr_run_id w) w |>.
Proof.
  unfold insert_run. case_match; [done|]. intros [= <-]. bools. split; [|done].
  by apply eq_None_not_Some.
Qed.

Lemma Inv_insert_run lim db w db' :
  insert_run db w = Ok db' -> rr_status w <> "queued" -> Inv lim db -> Inv lim db'.
Proof.
  intros [Hfresh ->]%insert_run_fresh Hst [[Wk Ws Wle Wqr Wrq Wnd Wp] Hb].
  split; [|by eapply bounded_frame; [|done]].
  split; simpl; try done.
  - intros id w' [[<- <-]|[Hne Hw']]%lookup_insert_Some; eauto.
  - intros q Hq. destruct (Wqr q Hq) as (w0 & Hw0 & ?). exists w0.
    rewrite lookup_insert_ne; [done|]. intros Heq. congruence.
  - intros id w' [[<- <-]|[Hne Hw']]%lookup_insert_Some Hst'; [done|]. by eapply Wrq.
Qed.

Lemma QueuePayloadBytes_nonneg r idem : 0 <= QueuePayloadBytes r idem.
Proof. unfold QueuePayloadBytes, queuePayloadOverhead, strlen. destruct idem; lia. Qed.

Lemma sumZ_app l k : sumZ (l ++ k) = sumZ l + sumZ k.
Proof. unfold sumZ. induction l as [|x l IH]; simpl; [lia|]. rewrite IH. lia. Qed.

(** What a successful [INSERT INTO exec_queue] appends. *)
Lemma insert_queue_ok db id d enq exp size db' :
  insert_queue db id d enq exp size = Ok db' ->
  (id ∉ queue_run_ids db) /\ runs db' = runs db /\ queue_seq db' = queue_seq db + 1 /\
  exec_queue db' = exec_queue db ++ [mkQueueRow (queue_seq db + 1) id d enq exp size].
Proof.
  unfold insert_queue. case_match; [done|]. intros [= <-]. bools.
  split; [|simpl; split; [done|]; split; [lia|done]].
  intros Hin. apply (proj2 (existsb_eqb_elem _ _)) in Hin. congruence.
Qed.

(** The two inserts of an enqueue keep the tables well formed ... *)
Lemma wf_enqueue db w db1 db2 enq exp size :
  wf db -> rr_status w = "queued" -> 0 <= size -> insert_run db w = Ok db1 ->
  insert_queue db1 (rr_run_id w) (rr_definition_id w) enq exp size = Ok db2 -> wf db2.
Proof.
  intros [Wk Ws Wle Wqr Wrq Wnd Wp] Hst Hsize [Hfresh ->]%insert_run_fresh
    (Hnotin & Hr & Hs & Hq)%insert_queue_ok. simpl in *.
  split; unfold queue_run_ids in *; rewrite ?Hr, ?Hs, ?Hq; simpl in *.
  - intros id w' [[<- <-]|[Hne Hw']]%lookup_insert_Some; eauto.
  - rewrite fmap_app. simpl. apply StronglySorted_app_2; [|done|repeat constructor].
    intros x y (q & -> & Hin)%list_elem_of_fmap ->%list_elem_of_singleton. specialize (Wle q Hin). lia.
  - intros q [Hin| ->%list_elem_of_singleton]%elem_of_app; simpl; [specialize (Wle q Hin)|]; lia.
  - intros q [Hin| ->%list_elem_of_singleton]%elem_of_app; simpl.
    + destruct (Wqr q Hin) as (w0 & Hw0 & ?). exists w0. rewrite lookup_insert_ne; [done|].
      intros Heq. congruence.
    + exists w. by rewrite lookup_insert_eq.
  - intros id w' [[<- <-]|[Hne Hw']]%lookup_insert_Some Hst'; rewrite fmap_app, elem_of_app.
    + right. simpl. by left.
    + left. by eapply Wrq.
  - rewrite fmap_app. apply NoDup_app. split; [done|]. split; [|apply NoDup_singleton].
    intros x Hx ->%list_elem_of_singleton. done.
  - intros q [Hin| ->%list_elem_of_singleton]%elem_of_app; simpl; auto.
Qed.

(** ... and, after the checks of the transaction, within the limits. *)
Lemma bounded_enqueue lim db w db1 db2 enq exp size :
  bounded lim db ->
  queue_depth db < lim_MaxItems lim ->
  queue_per_job db (rr_definition_id w) < lim_MaxPerJob lim ->
  queue_bytes db + size <= lim_MaxBytes lim ->
  insert_run db w = Ok db1 ->
  insert_queue db1 (rr_run_id w) (rr_definition_id w) enq exp size = Ok db2 -> bounded lim db2.
Proof.
  intros [Bi Bj Bb] Hd Hj Hb [_ ->]%insert_run_fresh (_ & _ & _ & Hq)%insert_queue_ok.
  split; unfold queue_depth, queue_per_job, queue_bytes in *; rewrite Hq; simpl in *.
  - rewrite length_app. simpl. lia.
  - intros d. rewrite List.filter_app, length_app. simpl. unfold of_definition at 2. simpl.
    specialize (Bj d). destruct (rr_definition_id w =? d) eqn:E; simpl; bools; subst; lia.
  - rewrite fmap_app, sumZ_app. unfold sumZ at 2. simpl. lia.
Qed.

(** The transaction of [EnqueueRun]: either it fails or replays and nothing
    changed, or the limits had room and both rows were inserted. *)
Lemma EnqueueRun_inv lim db now0 now r idem unique :
  Inv lim db -> Inv lim (fst (EnqueueRun db now0 now r idem lim unique)).
Proof.
  intros Hinv. unfold EnqueueRun.
  destruct (match has_key idem with Some _ => _ | None => _ end) as [[replay tx]|e] eqn:Etx; [|done].
  assert (Inv lim tx) as Htx.
  { revert Etx. unfold reserveIdempotency. repeat case_match; intros [= <- <-];
      (done || by eapply Inv_frame; [..|exact Hinv]). }
  destruct (negb (String.eqb replay "")); [done|].
  destruct (unique && _); [done|]. destruct (lim_MaxItems lim <=? _) eqn:E1; [done|].
  destruct (lim_MaxPerJob lim <=? _) eqn:E2; [done|]. destruct (lim_MaxBytes lim <? _) eqn:E3; [done|].
  destruct (insert_run tx _) as [t1|e] eqn:Er; [|done].
  destruct (insert_queue t1 _ _ _ _ _) as [t2|e] eqn:Eq; [|done].
  assert (Inv lim t2) as H2.
  { bools. destruct Htx as [Hw Hb]. pose proof (QueuePayloadBytes_nonneg r idem).
    split.
    - by apply (wf_enqueue tx (runArgs (r <| r_Status := "queued" |>)) t1 t2
        (UnixMicro_of now) (UnixMicro_of (now + lim_MaxAge lim)) (QueuePayloadBytes r idem)).
    - apply (bounded_enqueue lim tx (runArgs (r <| r_Status := "queued" |>)) t1 t2
        (UnixMicro_of now) (UnixMicro_of (now + lim_MaxAge lim)) (QueuePayloadBytes r idem));
        simpl; try done; lia. }
  destruct (has_key idem) as [i|]; [|done]. unfold insert_idem.
  destruct (bool_decide (is_Some (idempotency t2 !! idem_key i))); simpl;
    [exact Hinv | by eapply Inv_frame; [..|exact H2]].
Qed.

(** The registry's statements leave the run and queue tables alone. *)
Definition same_tables (db db' : DB) : Prop :=
  runs db' = runs db /\ exec_queue db' = exec_queue db /\ queue_seq db' = queue_seq db.

Lemma same_tables_Inv lim db db' : same_tables db db' -> Inv lim db -> Inv lim db'.
Proof. intros (? & ? & ?). by apply Inv_frame. Qed.

#[export] Instance same_tables_preorder : PreOrder same_tables.
Proof. unfold same_tables. split; [done|]. intros a b c (?&?&?) (?&?&?). repeat split; congruence. Qed.

Lemma insert_definition_tables db d src now id db' :
  insert_definition db d src now = Ok (id, db') -> same_tables db db'.
Proof. unfold insert_definition. repeat case_match; intros [= _ <-]; done. Qed.

Lemma update_definition_tables db d rev now db' :
  update_definition db d rev now = Ok db' -> same_tables db db'.
Proof. unfold update_definition. repeat case_match; intros [= <-]; done. Qed.

Lemma insert_revision_tables db id rev spec hash actor now db' :
  insert_revision db id rev spec hash actor now = Ok db' -> same_tables db db'.
Proof. unfold insert_revision. case_match; intros [= <-]; done. Qed.

Lemma fold_result_tables {A} (f : DB -> A -> Result StoreError DB) l db db' :
  (forall x t t', f t x = Ok t' -> same_tables t t') ->
  fold_result f db l = Ok db' -> same_tables db db'.
Proof.
  intros Hf. revert db. induction l as [|x l IH]; simpl; intros db; [by intros [= <-]|].
  destruct (f db x) as [t|] eqn:E; [|done]. intros Ht. etrans; eauto.
Qed.

(** Follow the statements of a registry transaction. *)
Ltac tables :=
  repeat match goal with
  | H : insert_definition _ _ _ _ = Ok _ |- _ => apply insert_definition_tables in H
  | H : update_definition _ _ _ _ = Ok _ |- _ => apply update_definition_tables in H
  | H : insert_revision _ _ _ _ _ _ _ = Ok _ |- _ => apply insert_revision_tables in H
  end.

Lemma import_one_tables actor us tx d tx' : import_one actor us tx d = Ok tx' -> same_tables tx tx'.
Proof.
  unfold import_one. intros Hi. repeat (case_match; simplify_eq/=); tables; by etrans; eauto.
Qed.

Lemma sync_one_tables us tx d tx' : sync_one us tx d = Ok tx' -> same_tables tx tx'.
Proof.
  unfold sync_one. intros Hi. repeat (case_match; simplify_eq/=); tables; try done; by etrans; eauto.
Qed.

Lemma putDefinition_tables db now d e a c : same_tables db (fst (putDefinition db now d e a c)).
Proof.
  unfold putDefinition. repeat (case_match; simplify_eq/=); tables; try done; by etrans; eauto.
Qed.

Lemma remove_fold_tables us l db : same_tables db (foldl (remove_one us) db l).
Proof. revert db. induction l as [|n l IH]; intros db; [done|]. simpl. by rewrite <- IH. Qed.

Lemma SyncConfigDefinitions_tables db now defs :
  same_tables db (fst (SyncConfigDefinitions db now defs)).
Proof.
  unfold SyncConfigDefinitions, commit.
  destruct (fold_result _ db defs) as [tx|] eqn:E; [|done]. simpl.
  etrans; [|apply remove_fold_tables]. eapply fold_result_tables; [|done].
  intros. by eapply sync_one_tables.
Qed.

Lemma ImportDefinitions_tables db now defs actor :
  same_tables db (fst (ImportDefinitions db now defs actor)).
Proof.
  unfold ImportDefinitions, commit. destruct (fold_result _ db defs) as [tx|] eqn:E; [|done].
  eapply fold_result_tables; [|done]. intros. by eapply import_one_tables.
Qed.

Lemma drop_Inv lim db tx d reason now :
  same_tables db tx -> Inv lim db -> Inv lim (dropDefinitionQueued tx d reason now).
Proof.
  intros Ht Hinv. apply (same_tables_Inv _ _ _ Ht) in Hinv.
  destruct (dropDefinitionQueued_shrinks tx d reason now (proj1 Hinv)) as [k Hk].
  by eapply Inv_shrinks.
Qed.

Lemma DeleteDefinition_Inv lim db now name actor :
  Inv lim db -> Inv lim (fst (DeleteDefinition db now name actor)).
Proof.
  intros Hinv. unfold DeleteDefinition, commit. repeat (case_match; simplify_eq/=); try done.
  by apply (drop_Inv lim db).
Qed.

Lemma SetEnabled_Inv lim db now name enabled :
  Inv lim db -> Inv lim (fst (SetEnabled db now name enabled)).
Proof.
  intros Hinv. unfold SetEnabled, commit. repeat (case_match; simplify_eq/=); tables; try done.
  - by apply (same_tables_Inv lim db).
  - by apply (drop_Inv lim db).
Qed.

Lemma CreateRun_Inv lim db r :
  r_Status r <> "queued" -> Inv lim db -> Inv lim (fst (CreateRun db r)).
Proof.
  intros Hst Hinv. unfold CreateRun. destruct (insert_run db (runArgs r)) eqn:E; [|done].
  by eapply Inv_insert_run.
Qed.

Lemma AdmitIdempotentRun_Inv lim db now0 now r k h :
  r_Status r <> "queued" -> Inv lim db -> Inv lim (fst (AdmitIdempotentRun db now0 now r k h)).
Proof.
  intros Hst Hinv. unfold AdmitIdempotentRun.
  destruct (reserveIdempotency db now0 k h) as [[replay tx]|] eqn:Etx; [|done].
  assert (Inv lim tx) as Htx.
  { revert Etx. unfold reserveIdempotency. repeat case_match; intros [= <- <-];
      (done || by eapply Inv_frame; [..|exact Hinv]). }
  destruct (negb (String.eqb replay "")); [done|].
  destruct (insert_run tx _) as [t1|e] eqn:Er; [|done].
  assert (Inv lim t1) as H1 by (eapply Inv_insert_run; [exact Er | done | done]).
  unfold insert_idem. destruct (bool_decide (is_Some (idempotency t1 !! k))); simpl;
    [exact Hinv | by eapply Inv_frame; [..|exact H1]].
Qed.

Lemma Terminal_not_queued s : Terminal s = true -> s <> "queued".
Proof. intros Ht ->. done. Qed.

(** Every operation keeps the invariant. *)
Lemma apply_op_Inv lim op db : op_ok op -> Inv lim db -> Inv lim (apply_op lim op db).
Proof.
  intros Hok Hinv. pose proof (proj1 Hinv) as Hwf.
  destruct op; simpl in Hok |- *.
  - by apply CreateRun_Inv.
  - eapply Inv_shrinks; [apply update_run_shrinks|done]; [|done].
    intros w Hw. by eapply status_in_neq.
  - eapply Inv_shrinks; [apply update_run_shrinks|done].
    + intros w [Hw| ->%String.eqb_eq]%orb_true_iff; [by eapply status_in_neq|].
      by apply Terminal_not_queued.
    + intros w. simpl. split; [done|]. split; [done|]. by apply Terminal_not_queued.
  - by eapply Inv_shrinks; [apply Recover_shrinks|].
  - by apply AdmitIdempotentRun_Inv.
  - unfold SaveIdempotency. repeat case_match; try done; by eapply Inv_frame; [..|exact Hinv].
  - by apply EnqueueRun_inv.
  - destruct (ExpireQueued_shrinks db now limit Hwf) as [? Hs]. by eapply Inv_shrinks.
  - eapply Inv_shrinks; [by apply endQueued_shrinks | done].
  - eapply Inv_shrinks; [by apply endQueued_shrinks | done].
  - destruct (DequeueRun_shrinks db id revision hash bootID Hwf) as [? Hs]. by eapply Inv_shrinks.
  - by eapply Inv_shrinks; [apply DeleteRuns_shrinks|].
  - unfold setScheduleState. case_match; [done|]. by eapply Inv_frame; [..|exact Hinv].
  - unfold PruneMetadata. by eapply Inv_frame; [..|exact Hinv].
  - eapply same_tables_Inv; [apply putDefinition_tables | done].
  - eapply same_tables_Inv; [apply ImportDefinitions_tables | done].
  - by apply DeleteDefinition_Inv.
  - by apply SetEnabled_Inv.
  - eapply same_tables_Inv; [apply SyncConfigDefinitions_tables | done].
Qed.

(** * The run lifecycle *)

(** [db'] is a successor of [db] in which no stored run made a forbidden move. *)
Definition lc_step (db db' : DB) : Prop :=
  forall id w w', runs db !! id = Some w -> runs db' !! id = Some w' ->
  lifecycle (rr_status w) (rr_status w').

Lemma lc_step_same db db' : runs db' = runs db -> lc_step db db'.
Proof. intros Hr id w w' Hw Hw'. rewrite Hr, Hw in Hw'. injection Hw' as <-. constructor. Qed.

Lemma lc_step_update db id guard f :
  (forall w, guard w = true -> lifecycle (rr_status w) (rr_status (f w))) ->
  lc_step db (fst (update_run db id guard f)).
Proof.
  intros Hg. unfold update_run. destruct (runs db !! id) as [w0|] eqn:Hw0; [|by apply lc_step_same].
  destruct (guard w0) eqn:E; [|by apply lc_step_same].
  intros i w w' Hw. simpl. intros [[<- <-]|[_ Hw']]%lookup_insert_Some.
  - rewrite Hw0 in Hw. injection Hw as <-. auto.
  - rewrite Hw in Hw'. injection Hw' as <-. constructor.
Qed.

Lemma lc_step_fmap db db' f :
  runs db' = f <$> runs db -> (forall w, lifecycle (rr_status w) (rr_status (f w))) -> lc_step db db'.
Proof.
  intros Hr Hf id w w' Hw. rewrite Hr, lookup_fmap, Hw. intros [= <-]. apply Hf.
Qed.

Lemma lc_step_insert_run db w0 db' : insert_run db w0 = Ok db' -> lc_step db db'.
Proof.
  intros [Hfresh ->]%insert_run_fresh i w w' Hw. simpl.
  intros [[<- <-]|[_ Hw']]%lookup_insert_Some; [congruence|].
  rewrite Hw in Hw'. injection Hw' as <-. constructor.
Qed.

Lemma lc_step_eq db db1 db' : runs db1 = runs db -> lc_step db1 db' -> lc_step db db'.
Proof. intros Hr Hl id w w'. rewrite <- Hr. apply Hl. Qed.

Lemma lc_step_tables db db1 db' : same_tables db db1 -> lc_step db1 db' -> lc_step db db'.
Proof. intros (Hr & _). by apply lc_step_eq. Qed.

Lemma end_queued_lifecycle (p : RunRow -> bool) status reason us w :
  status ∈ ["skipped"; "stopped"; "interrupted"] ->
  lifecycle (rr_status w)
    (rr_status (if status_in ["queued"] w && p w
                then w <| rr_status := status |> <| rr_end_reason := Some reason |>
                       <| rr_ended_us := Some us |> else w)).
Proof.
  intros Hs. destruct (status_in ["queued"] w) eqn:E; simpl; [|constructor].
  destruct (p w); simpl; [|constructor].
  apply status_in_elem, list_elem_of_singleton in E. rewrite E. by constructor.
Qed.

Lemma lc_step_drop db tx d reason now :
  runs tx = runs db -> lc_step db (dropDefinitionQueued tx d reason now).
Proof.
  intros Hr. eapply lc_step_eq; [exact Hr|]. eapply lc_step_fmap; [done|].
  intros w. apply end_queued_lifecycle. apply list_elem_of_In; simpl; auto.
Qed.

Lemma lc_step_enqueue db now0 now r idem lim unique :
  lc_step db (fst (EnqueueRun db now0 now r idem lim unique)).
Proof.
  unfold EnqueueRun.
  destruct (match has_key idem with Some _ => _ | None => _ end) as [[replay tx]|e] eqn:Etx;
    [|by apply lc_step_same].
  assert (runs tx = runs db) as Htx.
  { revert Etx. unfold reserveIdempotency. repeat case_match; intros [= <- <-]; done. }
  destruct (negb (String.eqb replay "")); [by apply lc_step_same|].
  destruct (unique && _); [by apply lc_step_same|].
  destruct (lim_MaxItems lim <=? _); [by apply lc_step_same|].
  destruct (lim_MaxPerJob lim <=? _); [by apply lc_step_same|].
  destruct (lim_MaxBytes lim <? _); [by apply lc_step_same|].
  destruct (insert_run tx _) as [t1|e] eqn:Er; [|by apply lc_step_same].
  destruct (insert_queue t1 _ _ _ _ _) as [t2|e] eqn:Eq; [|by apply lc_step_same].
  apply insert_queue_ok in Eq as (_ & Hr2 & _).
  assert (lc_step db t2) as Hlc.
  { intros i w w'. rewrite Hr2, <- Htx. by eapply lc_step_insert_run. }
  destruct (has_key idem) as [i|]; [|done]. unfold insert_idem.
  by destruct (bool_decide (is_Some (idempotency t2 !! idem_key i))); [apply lc_step_same|].
Qed.

Lemma lc_step_admit db now0 now r k h : lc_step db (fst (AdmitIdempotentRun db now0 now r k h)).
Proof.
  unfold AdmitIdempotentRun.
  destruct (reserveIdempotency db now0 k h) as [[replay tx]|] eqn:Etx; [|by apply lc_step_same].
  assert (runs tx = runs db) as Htx.
  { revert Etx. unfold reserveIdempotency. repeat case_match; intros [= <- <-]; done. }
  destruct (negb (String.eqb replay "")); [by apply lc_step_same|].
  destruct (insert_run tx _) as [t1|e] eqn:Er; [|by apply lc_step_same].
  unfold insert_idem. destruct (bool_decide (is_Some (idempotency t1 !! k))); [by apply lc_step_same|].
  eapply lc_step_eq; [exact Htx|]. by apply (lc_step_insert_run _ _ _ Er).
Qed.

Lemma lc_step_endQueued db id status reason now :
  status ∈ ["skipped"; "stopped"; "interrupted"] -> lc_step db (fst (endQueued db id status reason now)).
Proof.
  intros Hs. unfold endQueued.
  pose proof (lc_step_update db id (status_in ["queued"]) (fun w =>
    w <| rr_status := status |> <| rr_end_reason := Some reason |>
      <| rr_ended_us := Some (UnixMicro_of now) |>)) as Hu.
  destruct (update_run _ _ _ _) as [tx res]. apply Hu.
  intros w ->%status_in_elem%list_elem_of_singleton. by constructor.
Qed.

Lemma apply_op_lifecycle lim op db : op_ok op -> lc_step db (apply_op lim op db).
Proof.
  intros Hok. destruct op; simpl in Hok |- *.
  - unfold CreateRun. destruct (insert_run db (runArgs r)) eqn:E; [|by apply lc_step_same].
    by eapply lc_step_insert_run.
  - apply lc_step_update. intros w ->%status_in_elem%list_elem_of_singleton. constructor.
  - apply lc_step_update. intros w [Hw%status_in_elem|Hw%String.eqb_eq]%orb_true_iff.
    + by apply lc_end.
    + rewrite Hw. constructor.
  - eapply lc_step_fmap; [done|]. intros w. cbv beta. destruct (_ || _) eqn:E; [|constructor].
    apply orb_true_iff in E as [E%status_in_elem|[E%status_in_elem _]%andb_true_iff].
    + by apply lc_end.
    + apply list_elem_of_singleton in E. rewrite E. constructor. apply list_elem_of_In; simpl; auto.
  - apply lc_step_admit.
  - apply lc_step_same. unfold SaveIdempotency. by repeat case_match.
  - apply lc_step_enqueue.
  - unfold ExpireQueued. case_match; [by apply lc_step_same|].
    eapply lc_step_fmap; [done|]. intros w. apply end_queued_lifecycle. apply list_elem_of_In; simpl; auto.
  - apply lc_step_endQueued. apply list_elem_of_In; simpl; auto.
  - apply lc_step_endQueued. apply list_elem_of_In; simpl; auto.
  - unfold DequeueRun. pose proof (lc_step_update db id (status_in ["queued"]) (fun w =>
      w <| rr_status := "pending" |> <| rr_revision := revision |>
        <| rr_definition_hash := hash |> <| rr_boot_id := Some bootID |>)) as Hu.
    destruct (update_run _ _ _ _) as [tx [|]]; [|by apply lc_step_same]. apply Hu.
    intros w ->%status_in_elem%list_elem_of_singleton. constructor.
  - intros i w w' Hw [Hw' _]%map_lookup_filter_Some. simplify_eq. constructor.
  - apply lc_step_same. unfold setScheduleState. by case_match.
  - by apply lc_step_same.
  - apply lc_step_same, putDefinition_tables.
  - apply lc_step_same, ImportDefinitions_tables.
  - unfold DeleteDefinition, commit. repeat (case_match; simplify_eq/=); try by apply lc_step_same.
    by apply lc_step_drop.
  - unfold SetEnabled, commit. repeat (case_match; simplify_eq/=); tables; try by apply lc_step_same.
    + apply lc_step_same. match goal with Ht : same_tables _ _ |- _ => apply Ht end.
    + apply lc_step_drop. match goal with Ht : same_tables _ _ |- _ => apply Ht end.
  - apply lc_step_same, SyncConfigDefinitions_tables.
Qed.

(** * Theorems *)

Lemma steps_Inv lim db db' : rtc (step lim) db db' -> Inv lim db -> Inv lim db'.
Proof. induction 1 as [|x y z (op & Hok & ->) _ IH]; [done|]. intros. apply IH. by apply apply_op_Inv. Qed.

(** C2: in every database reachable from the empty one by the store's operations,
    the queue rows are exactly the queued runs (each once, in strict sequence
    order, with the run's definition), and the configured limits on items, items
    per definition and payload bytes hold. *)
Theorem queue_invariant lim db :
  0 <= lim_MaxItems lim -> 0 <= lim_MaxPerJob lim -> 0 <= lim_MaxBytes lim ->
  rtc (step lim) emptyDB db -> wf db /\ bounded lim db.
Proof.
  intros H1 H2 H3 Hr. eapply steps_Inv; [done|]. split; [apply wf_empty|].
  by split; unfold queue_depth, queue_per_job, queue_bytes; simpl; try lia; intros d; simpl; lia.
Qed.

(** C4: no operation of the store moves a run along a forbidden transition: a
    terminal status is final, a queued run only becomes pending or ends, a
    pending run only starts or ends, and no run ever becomes queued again. *)
Theorem run_lifecycle lim op db id w w' :
  op_ok op -> runs db !! id = Some w -> runs (apply_op lim op db) !! id = Some w' ->
  lifecycle (rr_status w) (rr_status w') /\
  (Terminal (rr_status w) = true -> rr_status w' = rr_status w) /\
  (rr_status w' = "queued" -> rr_status w = "queued").
Proof.
  intros Hok Hw Hw'. pose proof (apply_op_lifecycle lim op db Hok id w w' Hw Hw') as Hlc.
  split; [done|]. destruct Hlc as [s| | |s Hs|old s Hold Ht]; [done..| |].
  - by split.
  - split; intros Hx.
    + rewrite list_elem_of_In in Hold. by destruct Hold as [<-|[<-|[]]].
    + subst s. by apply Terminal_not_queued in Ht.
Qed.

End machine.

(** * Witnesses

    A codec that stores the definition's name only. *)

Module StoreDemo.

#[local] Instance demo_codec : Codec := {|
  encode_definition d := d_Name d;
  decode_definition s := Some (zeroDefinition <| d_Name := s |> <| d_Kind := KindJob |>);
  sha256_hex s := s
|}.

Definition demo_lim : QueueLimits := mkQueueLimits 2 1 4096 (15 * Minute).
Definition demo_now : Time := of_UnixMicro 1000000.
Definition demo_job : Definition_ := zeroDefinition <| d_Name := "backup" |> <| d_Kind := KindJob |>.
Definition demo_run : Run :=
  zeroRun <| r_ID := "r1" |> <| r_DefinitionID := 1 |> <| r_Job := "backup" |>
          <| r_Trigger := "manual" |> <| r_QueuedAt := demo_now |>.
Definition demo_db0 : DB := apply_op demo_lim (OpPut demo_now demo_job 0 "api" false) emptyDB.
Definition demo_db1 : DB := apply_op demo_lim (OpEnqueue demo_now demo_now demo_run None false) demo_db0.

Lemma queue_invariant_witness :
  queue_run_ids demo_db1 = ["r1"] /\ wf demo_db1 /\ bounded demo_lim demo_db1.
Proof.
  split; [vm_compute; reflexivity|].
  apply (queue_invariant demo_lim demo_db1); [done..|].
  eapply rtc_l; [exists (OpPut demo_now demo_job 0 "api" false); done|].
  eapply rtc_l; [exists (OpEnqueue demo_now demo_now demo_run None false); done|].
  apply rtc_refl.
Defined.

Definition demo_db2 : DB := apply_op demo_lim (OpDequeue "r1" 1 "backup" "boot") demo_db1.

Lemma run_lifecycle_witness :
  exists w w', runs demo_db1 !! "r1" = Some w /\ runs demo_db2 !! "r1" = Some w' /\
  rr_status w' = "pending" /\ lifecycle (rr_status w) (rr_status w').
Proof.
  eexists _, _. split; [vm_compute; reflexivity|]. split; [vm_compute; reflexivity|].
  split; [reflexivity|].
  eapply (run_lifecycle demo_lim (OpDequeue "r1" 1 "backup" "boot") demo_db1 "r1");
    [done | vm_compute; reflexivity | vm_compute; reflexivity].
Defined.

End StoreDemo.
