(* ===== verification/Schedule.v ===== *)
(** internal/scheduler/scheduler.go: compiled schedules — fixed intervals and
    cron expressions in a time zone, the next fire, and the occurrences missed
    during downtime.

    A [Location] is what Go's time zone database answers for an instant: the
    offset in force and the bounds of the period it is in force for.  robfig/cron
    is a parameter: [cron_next loc t] is [Schedule.Next] of [t] carrying [loc],
    the zero time when there is no further activation. *)

From S2P Require Import Prelude GoRuntime Model.
Open Scope Z_scope.

(** * Locations *)

(** Offsets are in seconds east of UTC. *)
Record Zone := mkZone {
  z_start : option Time;
  z_end : option Time;
  z_offset : Z
}.

Definition Location : Type := Time -> Zone.

(** [t.In(loc).Zone()] and [t.In(loc).ZoneBounds()]: a bound at the beginning or
    end of time is the zero time. *)
Definition zoneOffset (loc : Location) (t : Time) : Z := z_offset (loc t).
Definition ZoneBounds (loc : Location) (t : Time) : Time * Time :=
  (default zeroTime (z_start (loc t)), default zeroTime (z_end (loc t))).

Definition FixedZone (offset : Z) : Location := fun _ => mkZone None None offset.
Definition UTC : Location := FixedZone 0.

(** Wall-clock seconds, and the day, hour and minute [Date], [Hour] and [Minute]
    read from them (a date determines its day number and conversely). *)
Definition wallSeconds (loc : Location) (t : Time) : Z := t / Second + zoneOffset loc t.
Definition wallDay (s : Z) : Z := s / 86400.
Definition wallHour (s : Z) : Z := s mod 86400 / 3600.
Definition wallMinute (s : Z) : Z := s mod 3600 / 60.

(** * Compiled schedules *)

Record compiledSchedule := mkCompiled {
  c_raw : string;
  c_interval : Duration;
  c_loc : Location;
  c_cron : Location -> Time -> Time
}.

Inductive ScheduleError :=
| ErrParse               (** duration, time zone or cron expression *)
| ErrIntervalNotPositive
| ErrIntervalRange       (** schedule interval exceeds supported time range *)
| ErrNoAdvance           (** schedule does not advance beyond current time *)
| ErrNoFuture            (** schedule has no future occurrence *)
| ErrWindow              (** too many occurrences in a window *)
| ErrCanceled.

(** The parsers [compileSchedule] calls: time.ParseDuration, time.LoadLocation and
    the robfig/cron parser. *)
Class ScheduleParsers := {
  ParseDuration : string -> option Duration;
  LoadLocation : string -> option Location;
  ParseCron : string -> option (Location -> Time -> Time)
}.

(** [strings.CutPrefix(s, "@every ")]. *)
Fixpoint cutPrefix (prefix s : string) : option string :=
  match prefix, s with
  | EmptyString, _ => Some s
  | String a p, String b t => if Ascii.eqb a b then cutPrefix p t else None
  | _, EmptyString => None
  end.

Definition compileSchedule `{ScheduleParsers} (d : Definition_) : Result ScheduleError compiledSchedule :=
  match cutPrefix "@every " (d_Schedule d) with
  | Some raw =>
      match ParseDuration raw with
      | None => Err ErrParse
      | Some interval =>
          if interval <=? 0 then Err ErrIntervalNotPositive
          else Ok (mkCompiled (d_Schedule d) interval UTC (fun _ _ => zeroTime))
      end
  | None =>
      match LoadLocation (d_Timezone d) with
      | None => Err ErrParse
      | Some loc =>
          match ParseCron (d_Schedule d) with
          | None => Err ErrParse
          | Some cron => Ok (mkCompiled (d_Schedule d) 0 loc cron)
          end
      end
  end.

(** * Daylight-saving folds and gaps *)

(** The end of the second copy of a repeated wall-clock interval, when [t] lies
    in it. *)
Definition secondFoldEnd (loc : Location) (t : Time) : option Time :=
  let '(start, _) := ZoneBounds loc t in
  if IsZero start then None else
  let offset := zoneOffset loc t in
  let previous := zoneOffset loc (Add start (- Second)) in
  if previous <=? offset then None else
  let end_ := Add start ((previous - offset) * Second) in
  if Before t end_ then Some end_ else None.

Definition sameWallMinute (loc : Location) (a b : Time) : bool :=
  let x := wallSeconds loc a in
  let y := wallSeconds loc b in
  (wallDay x =? wallDay y) && (wallHour x =? wallHour y) && (wallMinute x =? wallMinute y).

(** One round of the loop of [forwardTransition]: the state is the cursor and the
    offset before it. *)
Definition forwardStep (loc : Location) (end_ : Time) (s : Time * Z) : (Time * Z) + option (Time * Z * Z) :=
  let '(cursor, previous) := s in
  if negb (Before cursor end_) then inr None else
  let '(_, next) := ZoneBounds loc cursor in
  if IsZero next || After next end_ || negb (After next cursor) then inr None else
  let offset := zoneOffset loc next in
  if previous <? offset then inr (Some (next, previous, offset)) else inl (next, offset).

(** Every round advances the cursor by at least a nanosecond towards [end_]. *)
Definition forwardTransition (loc : Location) (start end_ : Time) : option (Time * Z * Z) :=
  if negb (After end_ start) then None else
  default None (for_loop (forwardStep loc end_) (Z.to_pos (end_ - start + 1))
                  (start, zoneOffset loc start)).

(** * Next fire *)

(** The loop [for range 4] that skips candidates in the second copy of a fold. *)
Fixpoint suppressFolds (c : compiledSchedule) (n : nat) (candidate : Time) : Result ScheduleError Time :=
  match n with
  | O => Ok candidate
  | S n =>
      match secondFoldEnd (c_loc c) candidate with
      | None => Ok candidate
      | Some foldEnd =>
          let candidate := c_cron c (c_loc c) (Add foldEnd (- Second)) in
          if IsZero candidate then Err ErrNoFuture else suppressFolds c n candidate
      end
  end.

(** [t.In(fixed).Truncate(time.Minute)] rounds down on the absolute time line. *)
Definition truncateMinute (t : Time) : Time := t - t mod Minute.

Definition nextFire (c : compiledSchedule) (after anchor : Time) : Result ScheduleError Time :=
  if 0 <? c_interval c then
    if Before after anchor then Ok (Add anchor (c_interval c)) else
    let periods := Sub after anchor ÷ c_interval c in
    if maxInt64 ÷ c_interval c <=? periods then Err ErrIntervalRange else
    let candidate := Add anchor (wrap64 (wrap64 (periods + 1) * c_interval c)) in
    if negb (After candidate after) then Err ErrNoAdvance else Ok candidate
  else
  let from := match secondFoldEnd (c_loc c) after with
              | Some foldEnd => Add foldEnd (- Second)
              | None => after
              end in
  let candidate := c_cron c (c_loc c) from in
  if IsZero candidate then Err ErrNoFuture else
  let! candidate := suppressFolds c 4 candidate in
  match forwardTransition (c_loc c) after candidate with
  | Some (transition, oldOffset, newOffset) =>
      let gapStart := truncateMinute transition in
      let gapEnd := Add gapStart ((newOffset - oldOffset) * Second) in
      let firstInGap := c_cron c (FixedZone oldOffset) (Add gapStart (- Minute)) in
      if negb (IsZero firstInGap) && Before firstInGap gapEnd then Ok transition else Ok candidate
  | None => Ok candidate
  end.

Definition nextFireDistinct (c : compiledSchedule) (after anchor last : Time) : Result ScheduleError Time :=
  let! candidate := nextFire c after anchor in
  if IsZero last || (0 <? c_interval c) then Ok candidate else
  if sameWallMinute (c_loc c) last candidate then nextFire c candidate anchor
  else Ok candidate.

Definition maxTime (a b : Time) : Time := if After a b then a else b.

(** * Missed occurrences *)

Definition maxCatchUpCount : Z := 100000.
Definition maxCatchUpWindow : Z := 100000.

Record overdueFires := mkOverdue {
  o_first : Time;
  o_latest : Time;
  o_count : Z;
  o_exact : bool
}.

Definition noOverdue : overdueFires := mkOverdue zeroTime zeroTime 0 false.

(** Whether the context has ended when it is polled: by [latestFire] at a step of
    a window, by the count at a number of occurrences. *)
Record Ctx := mkCtx {
  ctx_window : Duration -> Z -> bool;
  ctx_count : Z -> bool
}.

(** One step of the scan of a window: the state is (steps, cursor, best). *)
Definition windowStep (c : compiledSchedule) (ctx : Ctx) (anchor last now : Time) (window : Duration)
    (s : Z * Time * Time) : (Z * Time * Time) + Result ScheduleError Time :=
  let '(steps, cursor, best) := s in
  if maxCatchUpWindow <=? steps then inr (Err ErrWindow) else
  if (Z.land steps 4095 =? 4095) && ctx_window ctx window steps then inr (Err ErrCanceled) else
  match nextFireDistinct c cursor anchor last with
  | Err e => inr (Err e)
  | Ok next => if After next now then inr (Ok best) else inl (steps + 1, next, next)
  end.

(** The backward search of [latestFire]: the state is the window. *)
Definition searchStep (c : compiledSchedule) (ctx : Ctx) (first anchor last now : Time)
    (window : Duration) : Duration + Result ScheduleError Time :=
  let span := Sub now first in
  let '(start, best) :=
    if (span <=? window) || (maxInt64 ÷ 8 <? window) then (first, first)
    else (Add now (- window), zeroTime) in
  match for_loop (windowStep c ctx anchor last now window) (Z.to_pos (maxCatchUpWindow + 1))
          (0, start, best) with
  | Some (Err e) => inr (Err e)
  | Some (Ok best) => if negb (IsZero best) then inr (Ok best) else inl (wrap64 (window * 8))
  | None => inr (Err ErrWindow)
  end.

(** Nine windows reach past an eighth of the largest duration. *)
Definition latestFire (c : compiledSchedule) (ctx : Ctx) (first anchor last now : Time)
  : Result ScheduleError Time :=
  default (Err ErrWindow) (for_loop (searchStep c ctx first anchor last now) 9%positive Hour).

(** One step of the count of missed fires: the state is (count, cursor). *)
Definition countStep (c : compiledSchedule) (ctx : Ctx) (anchor last now latest : Time)
    (s : Z * Time) : (Z * Time) + Result ScheduleError (Z * bool) :=
  let '(count, cursor) := s in
  if After cursor now then inr (Ok (count, true)) else
  if count =? maxCatchUpCount then inr (Ok (count, false)) else
  if (Z.land count 4095 =? 0) && ctx_count ctx count then inr (Err ErrCanceled) else
  let count := count + 1 in
  if TEqual cursor latest then inr (Ok (count, true)) else
  match nextFireDistinct c cursor anchor last with
  | Err e => inr (Err e)
  | Ok cursor => inl (count, cursor)
  end.

Definition countMissed (c : compiledSchedule) (ctx : Ctx) (first anchor last now latest : Time)
  : Result ScheduleError (Z * bool) :=
  default (Err ErrWindow)
    (for_loop (countStep c ctx anchor last now latest) (Z.to_pos (maxCatchUpCount + 2)) (0, first)).

Definition overdue (c : compiledSchedule) (ctx : Ctx) (anchor last now : Time) (wantCount : bool)
  : Result ScheduleError overdueFires :=
  let base := if IsZero last then anchor else last in
  match nextFireDistinct c base anchor last with
  | Err e => Err e
  | Ok first =>
      if negb (Before first now) then Ok noOverdue else
      if 0 <? c_interval c then
        let steps := Sub now first ÷ c_interval c in
        Ok (mkOverdue first (Add first (wrap64 (steps * c_interval c)))
              (if maxInt64 <=? steps then maxInt64 else steps + 1) true)
      else
      let! latest := latestFire c ctx first anchor last now in
      if TEqual latest first then Ok (mkOverdue first latest 1 true) else
      if negb wantCount then Ok (mkOverdue first latest 2 false) else
      let! (count, exact) := countMissed c ctx first anchor last now latest in
      Ok (mkOverdue first latest count exact)
  end.
