(* ===== verification/ScheduleFacts.v ===== *)
(** Correctness of compiled schedules: intervals, daylight-saving transitions and
    the catch-up search. *)

From S2P Require Import Prelude GoRuntime Model Schedule.
Open Scope Z_scope.

(** * Interval schedules *)

Module Interval.

(** The occurrences of an interval schedule: whole periods after the anchor. *)
Definition occurrence (c : compiledSchedule) (anchor t : Time) : Prop :=
  anchor < t /\ (c_interval c | t - anchor).

Lemma quot_div a b : 0 <= a -> 0 < b -> a ÷ b = a / b.
Proof. intros. apply Z.quot_div_nonneg; lia. Qed.

Lemma occurrence_ge c anchor t u k :
  0 < c_interval c -> occurrence c anchor u -> anchor + k * c_interval c < u ->
  t = anchor + (k + 1) * c_interval c -> t <= u.
Proof.
  intros Hi [_ [j Hj]] Hlt ->.
  assert (k * c_interval c < j * c_interval c) as Hkj by lia.
  apply Z.mul_lt_mono_pos_r in Hkj; [|done].
  assert ((k + 1) * c_interval c <= j * c_interval c) by (apply Z.mul_le_mono_nonneg_r; lia). lia.
Qed.

Lemma nextFire_interval_spec c after anchor :
  0 < c_interval c <= maxInt64 ->
  match nextFire c after anchor with
  | Ok t => after < t /\ occurrence c anchor t /\
            (forall u, occurrence c anchor u -> after < u -> t <= u)
  | Err e => e = ErrIntervalRange /\ maxInt64 / c_interval c * c_interval c <= after - anchor
  end.
Proof.
  intros [Hi Hmax]. unfold nextFire. rewrite (proj2 (Z.ltb_lt _ _) Hi).
  unfold Before, After, Add, Sub. destruct (after <? anchor) eqn:Eb; bools.
  - split; [lia|]. split; [split; [lia|exists 1; lia]|].
    intros u Hu _. apply (occurrence_ge c anchor _ u 0); [done..| destruct Hu; lia | lia].
  - set (i := c_interval c) in *. set (d := after - anchor).
    assert (0 <= sat64 d <= maxInt64) as Hs by (unfold sat64, minInt64, maxInt64 in *; lia).
    rewrite !quot_div by lia.
    destruct (maxInt64 / i <=? sat64 d / i) eqn:Er; bools.
    + split; [done|].
      assert (maxInt64 / i * i <= sat64 d).
      { pose proof (Z.mul_div_le (sat64 d) i Hi). nia. }
      unfold sat64, minInt64 in *. lia.
    + assert (sat64 d = d) as Hd.
      { unfold sat64, minInt64. destruct (Z.le_gt_cases maxInt64 d); [|unfold d in *; lia].
        replace (sat64 d) with maxInt64 in Er by (unfold sat64, minInt64, maxInt64 in *; lia). lia. }
      rewrite Hd in *.
      pose proof (Z.mul_div_le d i Hi) as H1. pose proof (Z.mul_succ_div_gt d i Hi) as H2.
      assert ((d / i + 1) * i <= maxInt64) as H3.
      { pose proof (Z.mul_div_le maxInt64 i Hi). nia. }
      assert (0 <= d / i) as H4 by (apply Z.div_pos; lia).
      rewrite (wrap64_id (d / i + 1)) by (unfold in64, minInt64, maxInt64 in *; nia).
      rewrite wrap64_id by (unfold in64, minInt64 in *; nia).
      replace (after <? anchor + (d / i + 1) * i) with true by (symmetry; apply Z.ltb_lt; lia).
      split; [lia|]. split; [split; [nia|exists (d / i + 1); fold i; lia]|].
      intros u Hu Hlt. apply (occurrence_ge c anchor _ u (d / i)); fold i; try done; lia.
Qed.

(** The next fire of an interval schedule is the first whole period after
    [after], computed without overflow; the only error is an instant so far from
    the anchor that the next period does not fit a duration, so the "does not
    advance" error of the code is unreachable. *)
Theorem nextFire_interval c after anchor :
  0 < c_interval c <= maxInt64 ->
  match nextFire c after anchor with
  | Ok t => after < t /\ occurrence c anchor t /\
            (forall u, occurrence c anchor u -> after < u -> t <= u)
  | Err e => e = ErrIntervalRange /\ maxInt64 / c_interval c * c_interval c <= after - anchor
  end.
Proof. apply nextFire_interval_spec. Qed.

Definition demo : compiledSchedule := mkCompiled "@every 90s" (90 * Second) UTC (fun _ _ => 0).

Lemma nextFire_interval_witness :
  nextFire demo 1000 400 = Ok (400 + 90 * Second) /\
  (forall u, occurrence demo 400 u -> 1000 < u -> 400 + 90 * Second <= u).
Proof.
  pose proof (nextFire_interval demo 1000 400 ltac:(vm_compute; split; congruence)) as Hn.
  assert (nextFire demo 1000 400 = Ok (400 + 90 * Second)) as E by (vm_compute; reflexivity).
  rewrite E in Hn. destruct Hn as (_ & _ & Hn). exact (conj E Hn).
Defined.

(** The number of occurrences in [first, now], for an occurrence [first] <= [now]. *)
Definition elapsed (c : compiledSchedule) (first now : Time) : Z := (now - first) / c_interval c + 1.

(** After downtime, the catch-up of an interval schedule reports the first and
    the latest missed occurrence exactly and counts every occurrence between them
    (saturating at the largest int), provided the downtime fits a duration. *)
Theorem overdue_interval c ctx anchor last now want o :
  0 < c_interval c <= maxInt64 ->
  overdue c ctx anchor last now want = Ok o -> o_count o <> 0 ->
  now - o_first o <= maxInt64 ->
  occurrence c anchor (o_first o) /\ occurrence c anchor (o_latest o) /\
  o_first o <= o_latest o <= now /\ now < o_latest o + c_interval c /\
  o_count o = Z.min maxInt64 (elapsed c (o_first o) now) /\ o_exact o = true.
Proof.
  intros Hi. unfold overdue.
  set (base := if IsZero last then anchor else last).
  pose proof (nextFire_interval_spec c base anchor Hi) as Hn.
  unfold nextFireDistinct. rewrite (proj2 (Z.ltb_lt _ _) (proj1 Hi)), orb_true_r.
  destruct (nextFire c base anchor) as [first|e]; [|done]. destruct Hn as (_ & Hocc & _).
  unfold Before, Add, Sub, elapsed. destruct (first <? now) eqn:Ef; simpl; [|by intros [= <-]]. bools.
  intros [= <-]. simpl. intros _ Hspan.
  set (i := c_interval c) in *. set (d := now - first) in *.
  rewrite (sat64_id d) by (unfold in64, minInt64, d in *; lia).
  rewrite quot_div by lia.
  pose proof (Z.mul_div_le d i ltac:(lia)) as H1. pose proof (Z.mul_succ_div_gt d i ltac:(lia)) as H2.
  assert (0 <= d / i) as H3 by (apply Z.div_pos; lia).
  rewrite wrap64_id by (unfold in64, minInt64 in *; nia).
  split; [done|]. split.
  { destruct Hocc as [Hlt [k Hk]]. split; [nia|]. exists (k + d / i). fold i. fold i in Hk. lia. }
  split; [lia|]. split; [lia|]. split; [|done].
  destruct (maxInt64 <=? d / i) eqn:E; bools; lia.
Qed.

Definition demo_ctx : Ctx := mkCtx (fun _ _ => false) (fun _ => false).

Lemma overdue_interval_witness :
  exists o, overdue demo demo_ctx 400 0 (400 + 1000 * Second) true = Ok o /\
  o_count o = 11 /\ o_latest o <= 400 + 1000 * Second < o_latest o + 90 * Second.
Proof.
  eexists. split; [vm_compute; reflexivity|]. split; [reflexivity|].
  pose proof (overdue_interval demo demo_ctx 400 0 (400 + 1000 * Second) true
    (mkOverdue (400 + 90 * Second) (400 + 990 * Second) 11 true)
    ltac:(vm_compute; split; congruence) ltac:(vm_compute; reflexivity) ltac:(done)
    ltac:(vm_compute; congruence)) as (_ & _ & H1 & H2 & _).
  exact (conj (proj2 H1) H2).
Defined.

End Interval.

(** * Laws of the parameters *)

(** What the schedule relies on of Go's locations: the answer for an instant
    covers it, is the answer for every instant of its period, and periods are
    delimited at whole seconds. *)
Class LocationLaws (loc : Location) : Prop := {
  loc_start : forall t s, z_start (loc t) = Some s -> s <> 0 /\ s <= t /\ (Second | s);
  loc_end : forall t e, z_end (loc t) = Some e -> e <> 0 /\ t < e /\ (Second | e);
  loc_period : forall t u,
    (forall s, z_start (loc t) = Some s -> s <= u) ->
    (forall e, z_end (loc t) = Some e -> u < e) -> loc u = loc t;
  loc_next : forall t e, z_end (loc t) = Some e -> z_start (loc e) = Some e
}.

(** What it relies on of robfig/cron: [Next] is later than its argument (or the
    zero time), on a whole second. *)
Class CronLaws (cron : Location -> Time -> Time) : Prop := {
  cron_after : forall loc t, cron loc t = 0 \/ t < cron loc t;
  cron_second : forall loc t, (Second | cron loc t)
}.

#[export] Instance FixedZone_laws off : LocationLaws (FixedZone off).
Proof. split; unfold FixedZone; simpl; intros; try done. Qed.

Section cron.
Context (c : compiledSchedule) `{!LocationLaws (c_loc c)} `{!CronLaws (c_cron c)}.
#[local] Abbreviation loc := (c_loc c).

(** Whole seconds: nothing lies strictly between [s - 1s] and [s]. *)
Lemma whole_second_gap s t : (Second | s) -> (Second | t) -> s - Second < t -> s <= t.
Proof. unfold Second. intros [a ->] [b ->] Hlt. lia. Qed.

Lemma secondFoldEnd_spec t e :
  secondFoldEnd loc t = Some e -> t < e /\ (Second | e) /\
  exists s, z_start (loc t) = Some s /\ zoneOffset loc t < zoneOffset loc (s - Second) /\
            e = s + (zoneOffset loc (s - Second) - zoneOffset loc t) * Second.
Proof.
  unfold secondFoldEnd, ZoneBounds, IsZero, Add, Before.
  destruct (z_start (loc t)) as [s|] eqn:Es; simpl; [|done].
  destruct (loc_start t s Es) as (_ & _ & Hs).
  repeat case_match; try done. intros [= <-]. bools.
  split; [lia|]. split; [|exists s; split; [done|]; split; [|done]; by rewrite Z.add_opp_r in *].
  apply Z.divide_add_r; [done|]. apply Z.divide_factor_r.
Qed.

(** A cron search resumed one second before the end of a fold lands at or after it. *)
Lemma cron_past_fold t e :
  secondFoldEnd loc t = Some e -> c_cron c loc (Add e (- Second)) <> 0 ->
  t < e <= c_cron c loc (Add e (- Second)).
Proof.
  intros (Hlt & Hdiv & _)%secondFoldEnd_spec Hnz. split; [done|].
  destruct (cron_after loc (Add e (- Second))) as [|Ha]; [done|].
  apply whole_second_gap; [done|apply cron_second|]. unfold Add in *. lia.
Qed.

Lemma suppressFolds_ge n t t' : suppressFolds c n t = Ok t' -> t <= t'.
Proof.
  revert t. induction n as [|n IH]; intros t; simpl; [by intros [= <-]|].
  destruct (secondFoldEnd loc t) as [e|] eqn:Ee; [|by intros [= <-]].
  destruct (IsZero _) eqn:Ez; [done|]. unfold IsZero in Ez. bools.
  intros Ht%IH. pose proof (cron_past_fold t e Ee Ez). lia.
Qed.

(** The transition found lies after the start, and ends a period whose offset was
    smaller. *)
Lemma forwardTransition_spec start end_ tr old new :
  forwardTransition loc start end_ = Some (tr, old, new) ->
  start < tr <= end_ /\ old < new /\ new = zoneOffset loc tr /\
  exists cur, start <= cur /\ z_end (loc cur) = Some tr /\ old = zoneOffset loc cur.
Proof.
  unfold forwardTransition. destruct (negb (After end_ start)); [done|].
  destruct (for_loop _ _ _) as [r|] eqn:E; simpl; [|done]. intros ->.
  refine (for_loop_inv _ (fun s => start <= s.1 /\ s.2 = zoneOffset loc s.1)
    (fun r => r = Some (tr, old, new) -> _) _ _ _ _ _ _ E eq_refl).
  - intros [cur prev] [cur' prev'] [H1 H2]. unfold forwardStep, ZoneBounds, IsZero, Before, After.
    simpl in *. repeat case_match; try done. intros [= <- <-]. simpl. bools. split; [lia|done].
  - intros [cur prev] r [H1 H2]. unfold forwardStep, ZoneBounds, IsZero, Before, After. simpl in *.
    destruct (z_end (loc cur)) as [e|] eqn:Ee; simpl.
    + repeat case_match; intros [= <-]; try done. intros [= <- <- <-]. bools.
      split; [lia|]. split; [lia|]. split; [done|]. exists cur. subst prev. done.
    + repeat case_match; intros [= <-]; done.
  - by split.
Qed.

Lemma nextFire_cron_after after anchor t :
  c_interval c <= 0 -> nextFire c after anchor = Ok t -> after < t.
Proof.
  intros Hi. unfold nextFire. rewrite (proj2 (Z.ltb_ge _ _) Hi).
  set (from := match secondFoldEnd loc after with Some _ => _ | None => _ end).
  destruct (IsZero (c_cron c loc from)) eqn:Ez; [done|]. unfold IsZero in Ez. bools.
  assert (after < c_cron c loc from) as Hc.
  { subst from. destruct (secondFoldEnd loc after) as [e|] eqn:Ee.
    - pose proof (cron_past_fold after e Ee Ez). lia.
    - destruct (cron_after loc after); [done|lia]. }
  destruct (suppressFolds c 4 _) as [cand|] eqn:Es; [|done]. apply suppressFolds_ge in Es.
  destruct (forwardTransition loc after cand) as [[[tr old] new]|] eqn:Et; [|intros [= <-]; lia].
  apply forwardTransition_spec in Et as [? _].
  case_match; intros [= <-]; lia.
Qed.

(** C35: a schedule strictly advances: whatever daylight-saving folds and gaps its
    time zone has, the next fire after an instant is later than that instant,
    so the watermark of a job can never stall or go back. *)
Theorem nextFire_advances after anchor t :
  c_interval c <= 0 -> nextFire c after anchor = Ok t -> after < t.
Proof. apply nextFire_cron_after. Qed.

(** The instant of a forward transition is not in the second copy of a fold. *)
Lemma transition_not_fold cur tr :
  z_end (loc cur) = Some tr -> zoneOffset loc cur < zoneOffset loc tr -> secondFoldEnd loc tr = None.
Proof.
  intros He Hlt. destruct (loc_end cur tr He) as (Hnz & Hcur & Hdiv).
  assert (loc (tr - Second) = loc cur) as Hprev.
  { apply loc_period.
    - intros s Hs. destruct (loc_start cur s Hs) as (_ & Hle & Hsdiv).
      destruct Hdiv as [a ->], Hsdiv as [b ->]. unfold Second in *. lia.
    - intros e He'. rewrite He in He'. injection He' as <-. unfold Second. lia. }
  unfold secondFoldEnd, ZoneBounds. rewrite (loc_next cur tr He). simpl.
  unfold IsZero, Add. rewrite (proj2 (Z.eqb_neq _ _) Hnz), Z.add_opp_r.
  unfold zoneOffset in *. rewrite Hprev.
  by replace (z_offset (loc cur) <=? z_offset (loc tr)) with true by (symmetry; apply Z.leb_le; lia).
Qed.

(** Folds are separated: the first activation at or after the end of one is not
    in the second copy of another. *)
Definition folds_separated : Prop :=
  forall t e, secondFoldEnd loc t = Some e ->
  secondFoldEnd loc (c_cron c loc (Add e (- Second))) = None.

Lemma suppressFolds_free n t t' :
  folds_separated -> suppressFolds c (S n) t = Ok t' -> secondFoldEnd loc t' = None.
Proof.
  intros Hsep. simpl. destruct (secondFoldEnd loc t) as [e|] eqn:Ee; [|by intros [= <-]].
  destruct (IsZero _); [done|]. pose proof (Hsep t e Ee) as Hnone.
  destruct n as [|n]; simpl; [|rewrite Hnone]; by intros [= <-].
Qed.

(** A fire never falls in the second copy of a repeated wall-clock interval, so
    a wall minute repeated by a clock change fires on its first occurrence only;
    a fire moved to a forward transition does not either. *)
Theorem nextFire_fold_free after anchor t :
  c_interval c <= 0 -> folds_separated ->
  nextFire c after anchor = Ok t -> secondFoldEnd loc t = None.
Proof.
  intros Hi Hsep. unfold nextFire. rewrite (proj2 (Z.ltb_ge _ _) Hi).
  set (from := match secondFoldEnd loc after with Some _ => _ | None => _ end).
  destruct (IsZero (c_cron c loc from)); [done|].
  destruct (suppressFolds c 4 _) as [cand|] eqn:Es; [|done].
  apply suppressFolds_free in Es; [|done].
  destruct (forwardTransition loc after cand) as [[[tr old] new]|] eqn:Et; [|by intros [= <-]].
  apply forwardTransition_spec in Et as (_ & Hlt & -> & cur & _ & Hcur & ->).
  case_match; intros [= <-]; [|done]. by eapply transition_not_fold.
Qed.

End cron.

(** * A location with both kinds of transition, and a minutely cron *)

Module Demo.

Definition spring : Time := 1000000 * Second.
Definition autumn : Time := 9000000 * Second.
Definition two_season (s a : Time) : Location := fun t =>
  if t <? s then mkZone None (Some s) (-18000)
  else if t <? a then mkZone (Some s) (Some a) (-14400)
  else mkZone (Some a) None (-18000).
Definition city : Location := two_season spring autumn.
Definition minutely : Location -> Time -> Time := fun _ t => (t / Minute + 1) * Minute.
Definition every_minute : compiledSchedule := mkCompiled "* * * * *" 0 city minutely.

Lemma two_season_laws s a :
  s < a -> s <> 0 -> a <> 0 -> (Second | s) -> (Second | a) -> LocationLaws (two_season s a).
Proof.
  intros Hsa Hs Ha Hds Hda. unfold two_season.
  split; intros t; [intros x | intros x | intros u | intros x];
    destruct (t <? s) eqn:E1; try destruct (t <? a) eqn:E2; simpl; bools; intros; simplify_eq;
    repeat match goal with
    | H : forall s, Some _ = Some s -> _ |- _ => specialize (H _ eq_refl)
    end; repeat split; try done; try lia.
  all: repeat case_match; bools; try done; lia.
Qed.

#[export] Instance city_laws : LocationLaws city.
Proof. by apply two_season_laws; try apply Z.divide_factor_r. Qed.

#[export] Instance minutely_laws : CronLaws minutely.
Proof.
  split; intros loc t; unfold minutely.
  - right. unfold Minute, Second. pose proof (Z.mul_succ_div_gt t (60 * 1000000000) ltac:(lia)). lia.
  - exists ((t / Minute + 1) * 60). unfold Minute. lia.
Qed.

Lemma nextFire_advances_witness :
  exists t, nextFire every_minute (autumn + 5 * Second) 0 = Ok t /\
  autumn + 5 * Second < t /\ t = autumn + Hour.
Proof.
  assert (nextFire every_minute (autumn + 5 * Second) 0 = Ok (autumn + Hour)) as E
    by (vm_compute; reflexivity).
  exists (autumn + Hour). split; [exact E|]. split; [|reflexivity].
  refine (nextFire_advances every_minute (autumn + 5 * Second) 0 _ _ E). vm_compute. congruence.
Defined.

Lemma city_folds_separated : folds_separated every_minute.
Proof.
  intros t e He. unfold folds_separated in *.
  assert (e = autumn + Hour) as ->.
  { revert He. unfold secondFoldEnd, ZoneBounds, zoneOffset, every_minute, city, two_season. simpl.
    destruct (t <? spring) eqn:E1; [done|]. destruct (t <? autumn) eqn:E2; simpl; [done|].
    destruct (Before t _) eqn:E3; [|done]. by intros [= <-]. }
  vm_compute. reflexivity.
Qed.

Lemma nextFire_fold_free_witness :
  exists t, nextFire every_minute (autumn - 30 * Second) 0 = Ok t /\ secondFoldEnd city t = None.
Proof.
  assert (exists t, nextFire every_minute (autumn - 30 * Second) 0 = Ok t) as [t E]
    by (eexists; vm_compute; reflexivity).
  exists t. split; [exact E|].
  refine (nextFire_fold_free every_minute (autumn - 30 * Second) 0 t _ city_folds_separated E).
  vm_compute. congruence.
Defined.

End Demo.
