(* ===== verification/ScheduleCatchUp.v ===== *)
(** The catch-up search of cron schedules: the windowed backward search and the
    count agree with the plain enumeration of the missed occurrences. *)

From S2P Require Import Prelude GoRuntime Model Schedule ScheduleFacts.
Open Scope Z_scope.

(** * Reference: the occurrences in (t, now] *)

Section reference.
Context (c : compiledSchedule) (anchor last now : Time).

Inductive chain : Time -> list Time -> Prop :=
| chain_nil t n : nextFireDistinct c t anchor last = Ok n -> now < n -> chain t []
| chain_cons t n l : nextFireDistinct c t anchor last = Ok n -> n <= now -> chain n l ->
    chain t (n :: l).

(** From [lo] on, a fire is the next one of every instant up to it. *)
Definition next_law (lo : Time) : Prop :=
  forall t n, lo <= t -> nextFireDistinct c t anchor last = Ok n ->
  t < n /\ forall u, t <= u < n -> nextFireDistinct c u anchor last = Ok n.

Context (ctx : Ctx).
Definition not_canceled : Prop :=
  (forall w s, ctx_window ctx w s = false) /\ (forall n, ctx_count ctx n = false).

Lemma last_cons_default (n : Time) k d : List.last (n :: k) d = List.last k n.
Proof.
  destruct k as [|x k]; [done|]. change (List.last (x :: k) d = List.last (x :: k) n).
  revert x. induction k as [|y k IH]; intros x; [done|]. apply IH.
Qed.

Lemma last_app_nonempty (l1 l2 : list Time) d d' :
  l2 <> [] -> List.last (l1 ++ l2) d = List.last l2 d'.
Proof.
  intros Hne. destruct (exists_last Hne) as (l & x & ->).
  by rewrite app_assoc, !List.last_last.
Qed.

Lemma last_elem_of (l : list Time) d : l <> [] -> List.last l d ∈ l.
Proof.
  intros Hne. destruct (exists_last Hne) as (l' & x & ->). rewrite List.last_last.
  apply elem_of_app. right. left.
Qed.

Lemma window_scan window t l steps best :
  not_canceled -> chain t l -> 0 <= steps -> steps + Z.of_nat (length l) < maxCatchUpWindow ->
  iter_nat (windowStep c ctx anchor last now window) (S (length l)) (steps, t, best)
  = inr (Ok (List.last l best)).
Proof.
  intros [Hc _] Hl. revert steps best.
  induction Hl as [t n Hn Hnow|t n l Hn Hnow Hl IH]; intros steps best Hs Hlen; simpl in Hlen |- *.
  - rewrite (proj2 (Z.leb_gt _ _)) by lia. rewrite Hc, andb_false_r, Hn. unfold After.
    by rewrite (proj2 (Z.ltb_lt _ _) Hnow).
  - rewrite (proj2 (Z.leb_gt _ _)) by lia. rewrite Hc, andb_false_r, Hn. unfold After.
    rewrite (proj2 (Z.ltb_ge _ _) Hnow).
    change (iter_nat (windowStep c ctx anchor last now window) (S (length l)) (steps + 1, n, n) =
            inr (Ok (List.last (n :: l) best))).
    rewrite IH by lia. by rewrite last_cons_default.
Qed.

Lemma chain_gt lo t l x : next_law lo -> lo <= t -> chain t l -> x ∈ l -> t < x.
Proof.
  intros Hlaw Hlo Hl. revert Hlo. induction Hl as [t n Hn ?|t n l Hn ? ? IH]; intros Hlo Hx; [set_solver|].
  destruct (Hlaw t n Hlo Hn) as [Htn _].
  apply elem_of_cons in Hx as [->|Hx]; [done|]. specialize (IH ltac:(lia) Hx). lia.
Qed.

Lemma chain_last_ge lo t l : next_law lo -> lo <= t -> chain t l -> t <= List.last l t.
Proof.
  intros Hlaw Hlo Hl. destruct (decide (l = [])) as [->|Hne]; [done|].
  pose proof (chain_gt lo t l _ Hlaw Hlo Hl (last_elem_of l t Hne)). lia.
Qed.

(** The occurrences after a later instant are a suffix. *)
Lemma chain_suffix lo t l u :
  next_law lo -> lo <= t -> chain t l -> t <= u <= now ->
  exists l1 l2, l = l1 ++ l2 /\ chain u l2.
Proof.
  intros Hlaw Hlo Hl. revert Hlo. induction Hl as [t n Hn Hnow|t n l Hn Hnow Hl IH]; intros Hlo Hu.
  - exists [], []. split; [done|].
    apply (chain_nil u n); [|done]. apply (Hlaw t n Hlo Hn). lia.
  - destruct (Hlaw t n Hlo Hn) as [Htn Hsame]. destruct (Z.le_gt_cases n u) as [Hle|Hgt].
    + destruct IH as (l1 & l2 & -> & ?); [lia..|]. by exists (n :: l1), l2.
    + exists [], (n :: l). split; [done|]. apply (chain_cons u n); [apply Hsame; lia|done|done].
Qed.

Context (first : Time) (l : list Time).
Context (Hlaw : next_law first) (Hfirst : 0 < first < now) (Hchain : chain first l).
Context (Hlen : Z.of_nat (length l) < maxCatchUpWindow) (Hctx : not_canceled).

Lemma window_run window start best l2 :
  chain start l2 -> (length l2 <= length l)%nat ->
  for_loop (windowStep c ctx anchor last now window) (Z.to_pos (maxCatchUpWindow + 1)) (0, start, best)
  = Some (Ok (List.last l2 best)).
Proof.
  intros Hl2 Hle. eapply for_loop_run; [apply window_scan; [done|done|lia|lia]|].
  rewrite Z2Pos.id by done. unfold maxCatchUpWindow in *. lia.
Qed.

(** A window either finds the latest occurrence or is empty and grows eightfold. *)
Lemma searchStep_spec window :
  0 < window ->
  searchStep c ctx first anchor last now window = inr (Ok (List.last l first)) \/
  (searchStep c ctx first anchor last now window = inl (wrap64 (window * 8)) /\
   window <= maxInt64 ÷ 8).
Proof.
  intros Hw. unfold searchStep. destruct ((_ <=? window) || _) eqn:E.
  - left. rewrite (window_run _ _ _ l) by done.
    pose proof (chain_last_ge first first l Hlaw ltac:(lia) Hchain).
    unfold IsZero. by rewrite (proj2 (Z.eqb_neq _ _)) by lia.
  - apply orb_false_iff in E as [E1 E2]. bools. unfold Sub, sat64, minInt64 in E1.
    destruct (chain_suffix first first l (Add now (- window)) Hlaw ltac:(lia) Hchain)
      as (l1 & l2 & Heq & Hl2); [unfold Add, maxInt64 in *; lia|].
    rewrite (window_run _ _ _ l2) by (done || rewrite Heq, length_app; lia).
    destruct (decide (l2 = [])) as [->|Hne]; simpl; [right; split; [done|lia]|left].
    pose proof (chain_gt first (Add now (- window)) l2 _ Hlaw ltac:(unfold Add, maxInt64 in *; lia) Hl2
      (last_elem_of l2 zeroTime Hne)). unfold IsZero, Add in *.
    rewrite (proj2 (Z.eqb_neq _ _)) by (unfold maxInt64 in *; lia). simpl.
    do 2 f_equal. rewrite Heq. symmetry. by apply last_app_nonempty.
Qed.

Lemma search_iter j window :
  0 < window -> maxInt64 ÷ 8 < window * 8 ^ Z.of_nat j ->
  iter_nat (searchStep c ctx first anchor last now) (S j) window = inr (Ok (List.last l first)).
Proof.
  revert window. induction j as [|j IH]; intros window Hw Hbig.
  - simpl. destruct (searchStep_spec window Hw) as [->|[_ Hle]]; [done|]. lia.
  - cbn [iter_nat]. destruct (searchStep_spec window Hw) as [->|[-> Hle]]; [done|].
    assert (maxInt64 ÷ 8 = 1152921504606846975) as Hq by reflexivity.
    rewrite wrap64_id by (unfold in64, minInt64, maxInt64; lia).
    apply IH; [lia|]. rewrite Nat2Z.inj_succ, Z.pow_succ_r in Hbig by lia. lia.
Qed.

Lemma latestFire_reference :
  latestFire c ctx first anchor last now = Ok (List.last l first).
Proof.
  unfold latestFire. rewrite (for_loop_run _ 8 9 Hour (Ok (List.last l first))); [done| |lia].
  apply search_iter; [done|]. vm_compute. reflexivity.
Qed.

Lemma count_scan t k count :
  chain t k -> first <= t <= now -> 0 <= count -> count + Z.of_nat (length k) < maxCatchUpCount ->
  iter_nat (countStep c ctx anchor last now (List.last k t)) (S (length k)) (count, t)
  = inr (Ok (count + 1 + Z.of_nat (length k), true)).
Proof.
  intros Hk. revert count. induction Hk as [t n Hn Hnow|t n k Hn Hnow Hk IH];
    intros count Ht Hc Hb; cbn [iter_nat length] in *; unfold countStep at 1, After, TEqual.
  - rewrite (proj2 (Z.ltb_ge _ _)) by lia. rewrite (proj2 (Z.eqb_neq count _)) by lia.
    rewrite (proj2 Hctx), andb_false_r. simpl. rewrite Z.eqb_refl. do 3 f_equal. lia.
  - rewrite (proj2 (Z.ltb_ge _ _)) by lia. rewrite (proj2 (Z.eqb_neq count _)) by lia.
    rewrite (proj2 Hctx), andb_false_r.
    destruct (Hlaw t n ltac:(lia) Hn) as [Htn _].
    rewrite last_cons_default.
    pose proof (chain_last_ge first n k Hlaw ltac:(lia) Hk).
    rewrite (proj2 (Z.eqb_neq t _)) by lia. rewrite Hn, IH by lia. do 3 f_equal. lia.
Qed.

Lemma countMissed_reference :
  Z.of_nat (length l) < maxCatchUpCount ->
  countMissed c ctx first anchor last now (List.last l first) =
  Ok (1 + Z.of_nat (length l), true).
Proof.
  intros Hcnt. unfold countMissed.
  rewrite (for_loop_run _ (S (length l)) _ _ (Ok (0 + 1 + Z.of_nat (length l), true))).
  - simpl. by rewrite Z.add_0_l.
  - apply count_scan; [done|lia|lia|lia].
  - rewrite Z2Pos.id by done. unfold maxCatchUpCount in *. lia.
Qed.

End reference.

(** * Dense calendars

    [k] successive occurrences from [t] on, all of them past. *)
Section dense.
Context (c : compiledSchedule) (ctx : Ctx) (anchor last now : Time) (fire : nat -> Time).
Context (Hctx : not_canceled ctx).
Context (Hfire : forall k, Z.of_nat k < maxCatchUpWindow ->
  nextFireDistinct c (fire k) anchor last = Ok (fire (S k)) /\ fire (S k) <= now).

Lemma dense_scan window k best :
  Z.of_nat k <= maxCatchUpWindow ->
  exists best', iter_nat (windowStep c ctx anchor last now window) k (0, fire 0%nat, best) =
  inl (Z.of_nat k, fire k, best').
Proof.
  induction k as [|k IH]; intros Hk; [by exists best|]. destruct IH as [b Hb]; [lia|].
  exists (fire (S k)). replace (S k) with (k + 1)%nat at 1 by lia. rewrite iter_nat_add, Hb.
  destruct (Hfire k ltac:(lia)) as [Hn Hle]. simpl.
  rewrite (proj2 (Z.leb_gt _ _)) by lia. rewrite (proj1 Hctx), andb_false_r, Hn. unfold After.
  rewrite (proj2 (Z.ltb_ge _ _) Hle). do 3 f_equal. lia.
Qed.

Lemma dense_window window best :
  for_loop (windowStep c ctx anchor last now window) (Z.to_pos (maxCatchUpWindow + 1))
    (0, fire 0%nat, best) = Some (Err ErrWindow).
Proof.
  apply (for_loop_run _ (Z.to_nat maxCatchUpWindow + 1)).
  - destruct (dense_scan window (Z.to_nat maxCatchUpWindow) best) as [b Hb];
      [by rewrite Z2Nat.id|].
    rewrite iter_nat_add, Hb, Z2Nat.id by done. reflexivity.
  - rewrite Nat2Z.inj_add, Z2Nat.id by done. reflexivity.
Qed.

Lemma searchStep_dense window :
  Sub now (fire 0%nat) <= window ->
  searchStep c ctx (fire 0%nat) anchor last now window = inr (Err ErrWindow).
Proof.
  intros Hw. unfold searchStep. rewrite (proj2 (Z.leb_le _ _) Hw), orb_true_l. cbv iota.
  by rewrite dense_window.
Qed.

End dense.

(** * Fixed-offset time zones

    What the search relies on of a five-field cron expression in a zone without
    transitions: [Next] is the next activation of every instant up to it, and
    activations are at second 0 of a wall minute. *)
Class CronCalendar (cron : Location -> Time -> Time) (loc : Location) : Prop := {
  cron_activation : forall t u, t <= u -> u < cron loc t -> cron loc u = cron loc t;
  cron_minute : forall t, cron loc t <> 0 -> wallSeconds loc (cron loc t) mod 60 = 0
}.

Section fixed.
Context (c : compiledSchedule) (off : Z) (Hloc : c_loc c = FixedZone off) (Hcron : c_interval c <= 0).
Context `{!CronLaws (c_cron c)} `{!CronCalendar (c_cron c) (FixedZone off)}.
#[local] Abbreviation next t := (c_cron c (FixedZone off) t).

Lemma fixed_no_transition start end_ : forwardTransition (FixedZone off) start end_ = None.
Proof.
  unfold forwardTransition. case_match; [done|].
  rewrite (for_loop_run _ 1 _ _ None); [done| |lia]. simpl. by destruct (Before start end_).
Qed.

Lemma nextFire_fixed t anchor :
  nextFire c t anchor = if IsZero (next t) then Err ErrNoFuture else Ok (next t).
Proof.
  unfold nextFire. rewrite (proj2 (Z.ltb_ge _ _) Hcron), Hloc. simpl.
  destruct (IsZero (next t)); [done|]. rewrite Hloc. simpl. by rewrite fixed_no_transition.
Qed.

(** An activation later than [last] is in a later wall minute. *)
Lemma later_minute last t :
  last < next t -> next t <> 0 -> sameWallMinute (FixedZone off) last (next t) = false.
Proof.
  intros Hlt Hnz. pose proof (cron_minute t Hnz) as Hmin. pose proof (cron_second (FixedZone off) t) as [k Hk].
  unfold sameWallMinute, wallSeconds, wallDay, wallHour, wallMinute, zoneOffset in *. simpl in *.
  rewrite Hk in *. rewrite Z.div_mul in * by done.
  assert (last / Second < k) as Hd by (apply Z.div_lt_upper_bound; [done|lia]).
  revert Hmin Hd. generalize (last / Second) as x. intros x Hmin Hd.
  apply not_true_iff_false. intros Heq. bools. clear Hk Hlt Hnz.
  Z.div_mod_to_equations. lia.
Qed.

Lemma nextFireDistinct_fixed t anchor last :
  last <= t -> nextFireDistinct c t anchor last = if IsZero (next t) then Err ErrNoFuture else Ok (next t).
Proof.
  intros Hle. unfold nextFireDistinct. rewrite nextFire_fixed.
  destruct (IsZero (next t)) eqn:Ez; [done|]. unfold IsZero in Ez |- *. bools.
  destruct ((last =? 0) || (0 <? c_interval c)); [done|]. rewrite Hloc.
  destruct (cron_after (FixedZone off) t) as [|Ha]; [done|].
  by rewrite later_minute by (done || lia).
Qed.

Lemma fixed_next_law anchor last lo : last <= lo -> next_law c anchor last lo.
Proof.
  intros Hlo t n Ht. rewrite nextFireDistinct_fixed by lia.
  destruct (IsZero (next t)) eqn:Ez; [done|]. intros [= <-].
  pose proof Ez as Ez'. unfold IsZero in Ez'. bools.
  destruct (cron_after (FixedZone off) t) as [|Ha]; [done|]. split; [done|].
  intros u Hu. rewrite nextFireDistinct_fixed by lia.
  rewrite (cron_activation t u) by lia. by rewrite Ez.
Qed.

(** C22: after downtime in a zone of fixed offset, while the context is not canceled,
    the windowed backward search and the count of a cron schedule agree with the
    plain enumeration [first :: l] of the missed occurrences: the latest is the last
    one, and all are counted, whenever fewer than 100000 were missed after the
    first. *)
Theorem overdue_cron ctx anchor last now first l :
  not_canceled ctx -> 0 < first < now ->
  nextFireDistinct c (if IsZero last then anchor else last) anchor last = Ok first ->
  (last <= anchor \/ last <> 0) ->
  chain c anchor last now first l -> Z.of_nat (length l) < maxCatchUpWindow ->
  overdue c ctx anchor last now true =
    Ok (mkOverdue first (List.last l first) (1 + Z.of_nat (length l)) true).
Proof.
  intros Hctx Hf Hbase Hlast Hch Hlen. unfold overdue. rewrite Hbase.
  unfold Before, TEqual. rewrite (proj2 (Z.ltb_lt _ _)) by lia. rewrite (proj2 (Z.ltb_ge _ _) Hcron).
  cbv [negb].
  assert (last <= first) as Hle.
  { revert Hbase. unfold IsZero. destruct (last =? 0) eqn:E; bools; [lia|].
    rewrite nextFireDistinct_fixed by lia. destruct (IsZero (next last)) eqn:Ez; [done|].
    intros [= <-]. unfold IsZero in Ez. bools. destruct (cron_after (FixedZone off) last); lia. }
  pose proof (fixed_next_law anchor last first Hle) as Hlaw.
  rewrite (latestFire_reference c anchor last now ctx first l) by done.
  destruct (List.last l first =? first) eqn:E; bools.
  - destruct (decide (l = [])) as [->|Hne]; [done|].
    pose proof (chain_gt c anchor last now first first l _ Hlaw ltac:(lia) Hch (last_elem_of l first Hne)).
    lia.
  - by rewrite (countMissed_reference c anchor last now ctx first l).
Qed.

End fixed.

(** * A calendar *)

Module CatchUpDemo.

Definition every_minute : compiledSchedule := mkCompiled "* * * * *" 0 UTC Demo.minutely.

#[export] Instance minutely_calendar : CronCalendar Demo.minutely UTC.
Proof.
  split; unfold Demo.minutely.
  - intros t u Htu Hu. f_equal. f_equal. unfold Minute, Second in *.
    Z.div_mod_to_equations. lia.
  - intros t _. unfold wallSeconds, UTC, zoneOffset, FixedZone, Minute. simpl.
    replace ((t / (60 * Second) + 1) * (60 * Second)) with ((t / (60 * Second) + 1) * 60 * Second) by lia.
    rewrite Z.div_mul by done. rewrite Z.add_0_r. apply Z.mod_mul. lia.
Qed.

#[export] Instance every_minute_laws : CronLaws (c_cron every_minute) := Demo.minutely_laws.
#[export] Instance every_minute_calendar : CronCalendar (c_cron every_minute) (FixedZone 0) :=
  minutely_calendar.

Definition ctx : Ctx := mkCtx (fun _ _ => false) (fun _ => false).

(** Down from minute 10 to three minutes and a half later. *)
Lemma overdue_cron_witness :
  overdue every_minute ctx Second (10 * Minute) (13 * Minute + 30 * Second) true =
  Ok (mkOverdue (11 * Minute) (13 * Minute) 3 true).
Proof.
  assert (chain every_minute Second (10 * Minute) (13 * Minute + 30 * Second) (11 * Minute)
            [12 * Minute; 13 * Minute]) as Hch.
  { apply (chain_cons _ _ _ _ _ (12 * Minute)); [vm_compute; reflexivity|vm_compute; congruence|].
    apply (chain_cons _ _ _ _ _ (13 * Minute)); [vm_compute; reflexivity|vm_compute; congruence|].
    apply (chain_nil _ _ _ _ _ (14 * Minute)); vm_compute; reflexivity. }
  assert (nextFireDistinct every_minute (10 * Minute) Second (10 * Minute) = Ok (11 * Minute)) as Hf
    by (vm_compute; reflexivity).
  assert (0 < 11 * Minute < 13 * Minute + 30 * Second) as Hb by (vm_compute; split; reflexivity).
  assert (10 * Minute <> 0) as Hz by (vm_compute; congruence).
  assert (Z.of_nat 2 < maxCatchUpWindow) as Hl by (vm_compute; reflexivity).
  rewrite (overdue_cron every_minute 0 eq_refl (Z.le_refl 0) ctx Second (10 * Minute)
    (13 * Minute + 30 * Second) (11 * Minute) [12 * Minute; 13 * Minute]
    (conj (fun _ _ => eq_refl) (fun _ => eq_refl)) Hb Hf (or_intror Hz) Hch Hl).
  reflexivity.
Defined.

(** Every minute of the first 90 days of a year of 365 days: the shape of
    [* * * 1-3 *]. *)
Definition year : Z := 365 * 1440.
Definition season : Z := 90 * 1440.
Definition winterly : Location -> Time -> Time := fun _ t =>
  let m := t / Minute + 1 in
  let r := m mod year in
  if r <? season then m * Minute else (m - r + year) * Minute.
Definition winter : compiledSchedule := mkCompiled "* * * 1-3 *" 0 UTC winterly.

#[export] Instance winterly_laws : CronLaws winterly.
Proof.
  split; intros loc t; unfold winterly, Minute, Second.
  - right. pose proof (Z.mul_succ_div_gt t (60 * 1000000000) ltac:(lia)).
    pose proof (Z.mod_pos_bound (t / (60 * 1000000000) + 1) year ltac:(done)). unfold year in *.
    case_match; lia.
  - case_match; apply Z.divide_mul_r; by exists 60.
Qed.

#[export] Instance winterly_calendar : CronCalendar winterly UTC.
Proof.
  split; unfold winterly.
  - intros t u Htu Hu. set (m := t / Minute + 1) in *.
    assert (t / Minute <= u / Minute) as Hle by (apply Z.div_le_mono; [done|lia]).
    set (n := u / Minute + 1) in *.
    pose proof (Z.mul_div_le u Minute ltac:(done)) as Hun.
    pose proof (Z.mod_pos_bound m year ltac:(done)) as Hmb.
    pose proof (Z.div_mod m year ltac:(done)) as Hm. pose proof (Z.div_mod n year ltac:(done)) as Hn.
    pose proof (Z.mod_pos_bound n year ltac:(done)) as Hnb.
    unfold Minute, Second, year, season in *.
    destruct (m mod (365 * 1440) <? 90 * 1440) eqn:E1; bools.
    + assert (n = m) as -> by lia. by rewrite (proj2 (Z.ltb_lt _ _) E1).
    + assert (n <= m - m mod (365 * 1440) + 365 * 1440) as Hnm by (subst n; lia).
      assert (m <= n) as Hmn by (subst n m; lia). clearbody m n. clear Hu Hun Hle Htu.
      destruct (n mod (365 * 1440) <? 90 * 1440) eqn:E2; bools; [|lia].
      replace n with (m - m mod (365 * 1440) + 365 * 1440) by lia. done.
  - intros t _. unfold wallSeconds, UTC, zoneOffset, FixedZone, Minute. simpl.
    match goal with |- context [if ?b then ?x * (60 * Second) else ?y * (60 * Second)] =>
      replace (if b then x * (60 * Second) else y * (60 * Second))
        with ((if b then x else y) * 60 * Second) by (destruct b; lia) end.
    rewrite Z.div_mul by done. rewrite Z.add_0_r. apply Z.mod_mul. lia.
Qed.

#[export] Instance winter_laws : CronLaws (c_cron winter) := winterly_laws.
#[export] Instance winter_calendar : CronCalendar (c_cron winter) (FixedZone 0) := winterly_calendar.

Lemma winter_next last t n :
  last <= t -> winterly UTC t = n -> n <> 0 -> nextFireDistinct winter t last last = Ok n.
Proof.
  intros Hle Hn Hnz. rewrite (nextFireDistinct_fixed winter 0 eq_refl (Z.le_refl 0)) by done.
  change (c_cron winter (FixedZone 0) t) with (winterly UTC t). rewrite Hn. unfold IsZero.
  by rewrite (proj2 (Z.eqb_neq _ _) Hnz).
Qed.

Definition winter_last : Time := year * Minute.
Definition winter_now : Time := (year + 300 * 1440) * Minute.
Definition winter_fire (k : nat) : Time := (year + 1 + Z.of_nat k) * Minute.

Lemma winter_fires k :
  Z.of_nat k < maxCatchUpWindow ->
  nextFireDistinct winter (winter_fire k) winter_last winter_last = Ok (winter_fire (S k)) /\
  winter_fire (S k) <= winter_now.
Proof.
  unfold maxCatchUpWindow, winter_fire. intros Hk. split.
  - apply winter_next; unfold winterly, winter_last, Minute, Second, year, season.
    + lia.
    + rewrite Z.div_mul by lia.
      replace (365 * 1440 + 1 + Z.of_nat k + 1) with (Z.of_nat k + 2 + 1 * (365 * 1440)) by lia.
      rewrite Z.mod_add by lia. rewrite Z.mod_small by lia.
      rewrite (proj2 (Z.ltb_lt _ _)) by lia. lia.
    + lia.
  - unfold winter_now, year, Minute, Second. lia.
Qed.

(** Windows of up to 4096 hours reach back into the empty summer only. *)
Lemma winter_empty_window window :
  0 < window <= 4096 * Hour ->
  searchStep winter ctx (winter_fire 0) winter_last winter_last winter_now window =
  inl (wrap64 (window * 8)).
Proof.
  intros Hw. unfold searchStep.
  replace (Sub winter_now (winter_fire 0)) with ((300 * 1440 - 1) * Minute) by (vm_compute; reflexivity).
  rewrite (proj2 (Z.leb_gt _ _)) by (unfold Hour, Minute, Second in *; lia).
  rewrite (proj2 (Z.ltb_ge _ _)) by (change (maxInt64 ÷ 8) with 1152921504606846975; unfold Hour, Second in *; lia).
  rewrite orb_false_l. cbv iota.
  rewrite (for_loop_run _ 1 _ _ (Ok zeroTime)); [reflexivity| |vm_compute; congruence].
  cbn [iter_nat]. unfold windowStep.
  rewrite (winter_next winter_last (Add winter_now (- window)) ((year + year) * Minute)).
  - vm_compute. reflexivity.
  - unfold winter_last, Add, winter_now, year, Hour, Minute, Second in *. lia.
  - unfold winterly, Add.
    assert (year + 129 * 1440 <= (winter_now + - window) / Minute + 1 < year + year) as Hd.
    { unfold winter_now, year, Hour, Minute, Second in *. Z.div_mod_to_equations. lia. }
    revert Hd. generalize ((winter_now + - window) / Minute + 1) as m. intros m Hd.
    assert (m mod year = m - year) as ->.
    { replace m with ((m - year) + 1 * year) at 1 by lia.
      rewrite Z.mod_add by done. apply Z.mod_small. unfold year in *. lia. }
    rewrite (proj2 (Z.ltb_ge _ _)) by (unfold season, year in *; lia). f_equal. lia.
  - vm_compute. congruence.
Qed.

Lemma winter_search :
  latestFire winter ctx (winter_fire 0) winter_last winter_last winter_now = Err ErrWindow.
Proof.
  unfold latestFire. apply (f_equal (default (Err ErrWindow)) (y := Some (Err ErrWindow))).
  apply (for_loop_run _ 6); [|lia].
  do 5 (cbn [iter_nat]; rewrite winter_empty_window by (vm_compute; split; congruence);
        rewrite wrap64_id by (vm_compute; split; congruence)).
  cbn [iter_nat]. rewrite (searchStep_dense winter ctx winter_last winter_last winter_now winter_fire).
  - reflexivity.
  - split; reflexivity.
  - apply winter_fires.
  - vm_compute. congruence.
Qed.

(** The occurrence at the end of the season, the only one a catch-up run needs. *)
Definition winter_latest : Time := (year + season - 1) * Minute.

Lemma winter_latest_is_latest :
  nextFireDistinct winter (winter_latest - Minute) winter_last winter_last = Ok winter_latest /\
  exists n, nextFireDistinct winter winter_latest winter_last winter_last = Ok n /\ winter_now < n.
Proof.
  split; [apply winter_next; vm_compute; congruence|].
  exists ((year + year) * Minute). split; [apply winter_next; vm_compute; congruence|done].
Qed.

(** The latest missed occurrence is not always found: with a minutely season of
    90 days behind it and an empty summer before [now], the last window of the
    search holds more than 100000 occurrences and the catch-up fails, although
    the latest occurrence exists. *)
Theorem overdue_dense_season :
  overdue winter ctx winter_last winter_last winter_now false = Err ErrWindow /\
  winter_latest < winter_now /\
  nextFireDistinct winter (winter_latest - Minute) winter_last winter_last = Ok winter_latest /\
  exists n, nextFireDistinct winter winter_latest winter_last winter_last = Ok n /\ winter_now < n.
Proof.
  split; [|split; [done|apply winter_latest_is_latest]].
  unfold overdue. replace (IsZero winter_last) with false by (vm_compute; reflexivity).
  rewrite (winter_next winter_last winter_last (winter_fire 0)) by (vm_compute; congruence).
  replace (Before (winter_fire 0) winter_now) with true by (vm_compute; reflexivity).
  simpl negb. replace (0 <? c_interval winter) with false by reflexivity. cbv iota.
  by rewrite winter_search.
Qed.

End CatchUpDemo.
