(* ===== verification/Scheduler.v ===== *)
(** internal/scheduler/scheduler.go: the scheduling loop of a job — the pass that
    loads the schedule position, catches up and fires, its retry with backoff —
    and the set of loops ([Reload], [Stop]).

    A pass talks to the clock, its context, the database and the executor.  Each
    such interaction takes the next index of a [World], which says what the
    clock reads, whether the context has ended, whether the storage fails and
    whether the executor accepts; the database itself is the store's [DB].
    A pass runs until cancelled, so its loops take a number of rounds: running
    out of them leaves [Running], a pass observed while it is still going on. *)

From S2P Require Import Prelude GoRuntime Model StoreDB StoreQueue StoreDefs StoreHistory Schedule.
Open Scope Z_scope.

(** * The world of a pass *)

(** What the executor promises the scheduler: admitting an occurrence may store a
    run, and touches neither definitions nor schedule state. *)
Class Executor := {
  (** [Trigger(ctx, d, hash, "schedule", &t)] of the n-th interaction: the
      database and whether the run was admitted. *)
  exec_Trigger : nat -> DB -> Definition_ -> string -> Time -> DB * bool;
  exec_RecordMissed : nat -> DB -> Definition_ -> string -> Z -> Time -> DB * bool;
  exec_StorageDegraded : nat -> bool
}.

Record World := mkWorld {
  w_now : nat -> Time;       (** time.Now().UTC() *)
  w_done : nat -> bool;      (** ctx.Err() != nil, or <-ctx.Done() taken *)
  w_fails : nat -> bool;     (** the statement fails; the database is unchanged *)
  w_poll : nat -> Ctx        (** the context as polled by a catch-up search *)
}.

Inductive Event :=
| Fired (t : Time)                    (** Trigger admitted the occurrence *)
| FireRefused (t : Time)              (** Trigger returned an error *)
| Missed (count : Z) (t : Time)       (** RecordMissed stored the missed run *)
| MissedRefused (t : Time)
| PersistFailing                      (** an episode of failed writes begins *)
| PersistRecovered.

Record scheduleMemory := mkMemory {
  m_known : bool;
  m_hash : string;
  m_anchor : Time;
  m_last : Time;
  m_persistFailing : bool
}.

#[export] Instance scheduleMemory_eta : Eta scheduleMemory := fun m => mkMemory
  (m_known m) (m_hash m) (m_anchor m) (m_last m) (m_persistFailing m).

Definition zeroMemory : scheduleMemory := mkMemory false "" zeroTime zeroTime false.

(** The local variables of [runPass] and what it shares: the memory, the database
    and the log of what it did (newest first). *)
Record PassState := mkPassState {
  p_n : nat;
  p_db : DB;
  p_mem : scheduleMemory;
  p_log : list Event;
  p_anchor : Time;
  p_last : Time;
  p_persistedLast : Time;
  p_persistedNext : Time;
  p_hasPersisted : bool
}.

#[export] Instance PassState_eta : Eta PassState := fun p => mkPassState
  (p_n p) (p_db p) (p_mem p) (p_log p) (p_anchor p) (p_last p) (p_persistedLast p)
  (p_persistedNext p) (p_hasPersisted p).

Inductive PassResult :=
| ReturnNil       (** the loop stops for good *)
| ReturnErr       (** a retry may succeed *)
| Running.        (** still going on *)

(** A step of a pass either continues with a value or leaves the pass. *)
Definition Pass (A : Type) : Type := PassState -> (A + PassResult) * PassState.

Definition pret {A} (a : A) : Pass A := fun s => (inl a, s).
Definition pexit {A} (r : PassResult) : Pass A := fun s => (inr r, s).
Definition pbind {A B} (m : Pass A) (k : A -> Pass B) : Pass B := fun s =>
  match m s with
  | (inl a, s) => k a s
  | (inr r, s) => (inr r, s)
  end.
Declare Scope pass_scope.
Delimit Scope pass_scope with pass.
Notation "'do!' x := m 'in' k" := (pbind m (fun x => k))
  (at level 10, x pattern, m at level 100, k at level 200) : pass_scope.
Notation "'run!' m 'in' k" := (pbind m (fun _ => k))
  (at level 10, m at level 100, k at level 200) : pass_scope.
Open Scope pass_scope.

Definition get : Pass PassState := fun s => (inl s, s).
Definition modify (f : PassState -> PassState) : Pass unit := fun s => (inl tt, f s).
Definition tick {A} (f : nat -> A) : Pass A := fun s => (inl (f (p_n s)), s <| p_n ::= S |>).
Definition emit (e : Event) : Pass unit := modify (fun s => s <| p_log ::= cons e |>).

Section pass.
Context `{Codec} `{ScheduleParsers} `{Executor} (w : World).

Definition Now : Pass Time := tick (w_now w).
Definition ctxDone : Pass bool := tick (w_done w).

(** One statement on the database: [None] when storage fails. *)
Definition onDB {A} (f : DB -> DB * A) : Pass (option A) := fun s =>
  let s' := s <| p_n ::= S |> in
  if w_fails w (p_n s) then (inl None, s')
  else let '(db, a) := f (p_db s) in (inl (Some a), s' <| p_db := db |>).

Definition query {A} (f : DB -> A) : Pass (option A) := onDB (fun db => (db, f db)).

(** The error of a write: a storage failure or a constraint. *)
Definition wrote (r : option (Result StoreError unit)) : bool :=
  match r with Some (Ok _) => true | _ => false end.

(** [s.writeState(write)], true when the write succeeded. *)
Definition writeState (write : DB -> DB * Result StoreError unit) : Pass bool :=
  do! degraded := tick exec_StorageDegraded in
  if (degraded : bool) then pret false else
  do! r := onDB write in pret (wrote r).

(** [mem.persistResult(job, err)]: [ok] is [err == nil]. *)
Definition persistResult (ok : bool) : Pass unit :=
  do! s := get in
  if negb ok && negb (m_persistFailing (p_mem s)) then
    run! modify (fun s => s <| p_mem ::= fun m => m <| m_persistFailing := true |> |>) in
    emit PersistFailing
  else if ok && m_persistFailing (p_mem s) then
    run! modify (fun s => s <| p_mem ::= fun m => m <| m_persistFailing := false |> |>) in
    emit PersistRecovered
  else pret tt.

Definition setPersisted (last next : Time) (s : PassState) : PassState :=
  s <| p_persistedLast := last |> <| p_persistedNext := next |> <| p_hasPersisted := true |>.

Definition persistNext (d : Definition_) (hash : string) (next : Time) : Pass unit :=
  do! s := get in
  if p_hasPersisted s && TEqual (p_persistedLast s) (p_last s) && TEqual (p_persistedNext s) next
  then pret tt else
  do! ok := writeState (fun db =>
    SetScheduleStateWithNext db (d_ID d) hash (p_anchor s) (p_last s) next) in
  run! persistResult ok in
  if (ok : bool) then modify (setPersisted (p_last s) next) else pret tt.

Definition advance (to_ : Time) : Pass unit :=
  modify (fun s => s <| p_last := to_ |> <| p_mem ::= fun m => m <| m_last := to_ |> |>).

(** [s.exec.Trigger]: false is an error. *)
Definition trigger (d : Definition_) (defHash : string) (t : Time) : Pass bool := fun s =>
  let '(db, ok) := exec_Trigger (p_n s) (p_db s) d defHash t in
  (inl ok, s <| p_n ::= S |> <| p_db := db |>
             <| p_log ::= cons (if ok : bool then Fired t else FireRefused t) |>).

Definition recordMissed (d : Definition_) (defHash : string) (count : Z) (t : Time) : Pass bool := fun s =>
  let '(db, ok) := exec_RecordMissed (p_n s) (p_db s) d defHash count t in
  (inl ok, s <| p_n ::= S |> <| p_db := db |>
             <| p_log ::= cons (if ok : bool then Missed count t else MissedRefused t) |>).

Definition setPosition (anchor last : Time) : Pass unit :=
  modify (fun s => s <| p_anchor := anchor |> <| p_last := last |>).

(** A schedule without a stored position starts now. *)
Definition freshPosition (d : Definition_) (hash : string) (now : Time) : Pass unit :=
  run! setPosition now zeroTime in
  do! r := onDB (fun db => SetScheduleState db (d_ID d) hash now zeroTime) in
  do! gone := ctxDone in
  if (gone : bool) then pexit ReturnNil else
  run! persistResult (wrote r) in
  if wrote r then modify (setPersisted zeroTime zeroTime) else pret tt.

(** The first part of a pass: the schedule position, from memory or from the
    database. *)
Definition loadPosition (d : Definition_) (hash : string) (now : Time) : Pass unit :=
  do! s := get in
  if m_known (p_mem s) && String.eqb (m_hash (p_mem s)) hash
  then setPosition (m_anchor (p_mem s)) (m_last (p_mem s)) else
  do! stored := query (fun db => ScheduleState db (d_ID d)) in
  do! gone := ctxDone in
  if (gone : bool) then pexit ReturnNil else
  run! match stored with
      | Some (Ok (storedAnchor, storedLast, storedNext, storedHash)) =>
          if String.eqb storedHash hash then
            run! setPosition storedAnchor storedLast in
            run! modify (setPersisted storedLast storedNext) in
            do! fired := query (fun db => LastScheduledFire db (d_ID d)) in
            do! gone := ctxDone in
            if (gone : bool) then pexit ReturnNil else
            match fired with
            | None => pret tt
            | Some fired =>
                if After fired storedLast
                then modify (fun s => s <| p_last := fired |> <| p_hasPersisted := false |>)
                else pret tt
            end
          else freshPosition d hash now
      | Some (Err ErrNoRows) => freshPosition d hash now
      | _ => setPosition now zeroTime
      end in
  modify (fun s => s <| p_mem ::= fun m =>
    m <| m_known := true |> <| m_hash := hash |> <| m_anchor := p_anchor s |> <| m_last := p_last s |> |>).

(** The catch-up of the occurrences missed up to [now]. *)
Definition catchUp (schedule : compiledSchedule) (d : Definition_) (defHash hash : string) (now : Time)
  : Pass unit :=
  do! s := get in
  if negb (Before (p_last s) now) then pret tt else
  do! ctx := tick (w_poll w) in
  match overdue schedule ctx (p_anchor s) (p_last s) now (negb (String.eqb (d_CatchUp d) "latest")) with
  | Err _ => pexit ReturnNil
  | Ok o =>
      if o_count o <=? 0 then pret tt else
      do! ok := (if String.eqb (d_CatchUp d) "latest" then trigger d defHash (o_latest o)
                 else recordMissed d defHash (o_count o) (o_latest o)) in
      if negb ok then
        do! gone := ctxDone in
        if (gone : bool) then pexit ReturnNil else pexit ReturnErr
      else
        run! advance (o_latest o) in
        do! wok := writeState (fun db => SetScheduleState db (d_ID d) hash (p_anchor s) (o_latest o)) in
        run! persistResult wok in
        if (wok : bool) then modify (setPersisted (o_latest o) zeroTime)
        else modify (fun s => s <| p_hasPersisted := false |>)
  end.

Definition nextFromNow (schedule : compiledSchedule) : Pass (Result ScheduleError Time) :=
  do! now := Now in
  do! s := get in
  pret (nextFireDistinct schedule (maxTime (p_last s) now) (p_anchor s) (p_last s)).

(** [for time.Now().Before(next) { ... }]: the occurrence waited for. *)
Fixpoint waitLoop (schedule : compiledSchedule) (d : Definition_) (hash : string) (rounds : nat)
    (next : Time) : Pass Time :=
  match rounds with
  | O => pexit Running
  | S rounds =>
      do! t := Now in
      if negb (Before t next) then pret next else
      (* the timer, or the end of the context *)
      do! gone := ctxDone in
      if (gone : bool) then pexit ReturnNil else
      do! now := Now in
      if negb (Before now next) then pret next else
      do! s := get in
      match nextFireDistinct schedule (maxTime (p_last s) now) (p_anchor s) (p_last s) with
      | Err _ => pexit ReturnNil
      | Ok recomputed =>
          run! persistNext d hash recomputed in
          waitLoop schedule d hash rounds recomputed
      end
  end.

(** One round of [for ctx.Err() == nil { ... }]. *)
Definition fireRound (schedule : compiledSchedule) (d : Definition_) (defHash hash : string) (rounds : nat)
  : Pass unit :=
  do! next := nextFromNow schedule in
  match next with
  | Err _ => pexit ReturnNil
  | Ok next =>
      run! persistNext d hash next in
      do! next := waitLoop schedule d hash rounds next in
      do! ok := trigger d defHash next in
      if negb ok then
        do! gone := ctxDone in
        if (gone : bool) then pexit ReturnNil else pexit ReturnErr
      else
        run! advance next in
        do! following := nextFromNow schedule in
        match following with
        | Err _ =>
            do! s := get in
            do! ok := writeState (fun db => SetScheduleState db (d_ID d) hash (p_anchor s) (p_last s)) in
            run! persistResult ok in
            pexit ReturnNil
        | Ok following => persistNext d hash following
        end
  end.

Fixpoint fireLoop (schedule : compiledSchedule) (d : Definition_) (defHash hash : string) (rounds : nat)
    (n : nat) : Pass unit :=
  match n with
  | O => pexit Running
  | S n =>
      do! gone := ctxDone in
      if (gone : bool) then pexit ReturnNil else
      run! fireRound schedule d defHash hash rounds in
      fireLoop schedule d defHash hash rounds n
  end.

Definition scheduleHash (d : Definition_) : string :=
  sha256_hex (d_Schedule d ++ String (Ascii.ascii_of_nat 0) (d_Timezone d)).

Definition runPass (d : Definition_) (rounds : nat) : Pass unit :=
  do! gone := ctxDone in
  if (gone : bool) then pexit ReturnNil else
  let defHash := (Canonical d).2 in
  match compileSchedule d with
  | Err _ => pexit ReturnNil
  | Ok schedule =>
      let hash := scheduleHash d in
      do! now := Now in
      (* the variables of this pass *)
      run! modify (fun s => s <| p_anchor := zeroTime |> <| p_last := zeroTime |>
                             <| p_persistedLast := zeroTime |> <| p_persistedNext := zeroTime |>
                             <| p_hasPersisted := false |>) in
      run! loadPosition d hash now in
      do! gone := ctxDone in
      if (gone : bool) then pexit ReturnNil else
      run! catchUp schedule d defHash hash now in
      fireLoop schedule d defHash hash rounds rounds
  end.

(** * The loop of a job *)

Definition maxBackoff : Duration := Minute.

(** [loop]: passes with capped exponential backoff, [n] of them at most; the
    backoffs waited for are returned newest first. *)
Fixpoint loop (d : Definition_) (rounds n : nat) (backoff : Duration) (waited : list Duration)
    (s : PassState) : list Duration * PassState :=
  match n with
  | O => (waited, s)
  | S n =>
      let started := w_now w (p_n s) in
      match runPass d rounds (s <| p_n ::= S |>) with
      | (inr ReturnErr, s) =>
          let gone := w_done w (p_n s) in
          let since := Sub (w_now w (S (p_n s))) started in
          let s := s <| p_n ::= fun n => S (S n) |> in
          if (gone : bool) then (waited, s) else
          let backoff := if maxBackoff <? since then Second else backoff in
          (* the timer, or the end of the context *)
          let stop := w_done w (p_n s) in
          let s := s <| p_n ::= S |> in
          if (stop : bool) then (backoff :: waited, s)
          else loop d rounds n (Z.min (backoff * 2) maxBackoff) (backoff :: waited) s
      | (_, s) => (waited, s)
      end
  end.

End pass.

(** * The set of loops *)

(** [l_id] identifies the goroutine, [l_done] is a closed [done] channel. *)
Record scheduledLoop := mkLoop {
  l_id : nat;
  l_def : Definition_;
  l_done : bool
}.

Record Scheduler := mkScheduler {
  sc_running : gmap string scheduledLoop;
  sc_stopped : bool;
  sc_started : nat            (** loops ever started *)
}.

#[export] Instance Scheduler_eta : Eta Scheduler := fun s => mkScheduler
  (sc_running s) (sc_stopped s) (sc_started s).

Definition New : Scheduler := mkScheduler ∅ false 0.

Inductive ReloadError := ErrContext | ErrStopped.

(** A definition the scheduler runs a loop for. *)
Definition scheduled (d : Definition_) : bool :=
  String.eqb (d_Kind d) KindJob && IsEnabled d && negb (String.eqb (d_Schedule d) "").

(** The index map [wanted]: a later definition of the same name replaces an
    earlier one. *)
Definition wanted (defs : list Definition_) : gmap string Definition_ :=
  foldl (fun m d => if scheduled d then <[d_Name d := d]> m else m) ∅ defs.

(** The loops a reload keeps: still running the wanted definition. *)
Definition kept (defs : list Definition_) (name : string) (old : scheduledLoop) : bool :=
  match wanted defs !! name with
  | Some d => sameDefinition (l_def old) d && negb (l_done old)
  | None => false
  end.

(** One round of the start loop of [Reload]. *)
Definition startOne (want : gmap string Definition_) (s : Scheduler) (d : Definition_) : Scheduler :=
  match want !! d_Name d with
  | None => s
  | Some d' =>
      if bool_decide (is_Some (sc_running s !! d_Name d')) then s else
      s <| sc_running ::= insert (d_Name d') (mkLoop (sc_started s) d' false) |>
        <| sc_started ::= S |>
  end.

Definition Reload (s : Scheduler) (ctxErr : bool) (defs : list Definition_)
  : Scheduler * Result ReloadError unit :=
  if ctxErr then (s, Err ErrContext) else
  if sc_stopped s then (s, Err ErrStopped) else
  let s := s <| sc_running := filter (fun nl => kept defs nl.1 nl.2 = true) (sc_running s) |> in
  (foldl (startOne (wanted defs)) s defs, Ok tt).

Definition Stop (s : Scheduler) : Scheduler :=
  s <| sc_stopped := true |> <| sc_running := ∅ |>.
