(* ===== verification/SchedulerFacts.v ===== *)
(** Correctness of the scheduling loop: occurrences are handled in increasing
    order, at most once and never early; a refused occurrence stays ahead of the
    watermark; the stored position is the one in memory; reloads run one loop
    per wanted job. *)

From S2P Require Import Prelude GoRuntime Model StoreDB StoreQueue StoreDefs StoreHistory.
From S2P Require Import Schedule ScheduleFacts Scheduler.
Open Scope Z_scope.

(** * Bounds of the schedule *)

(** The laws of the parameters of a compiled schedule. *)
Class ScheduleLaws (c : compiledSchedule) : Prop := {
  laws_loc :: LocationLaws (c_loc c);
  laws_cron :: CronLaws (c_cron c);
  laws_interval : c_interval c <= maxInt64
}.

Section bounds.
Context (c : compiledSchedule) `{!ScheduleLaws c}.

Lemma nextFire_after after anchor t : nextFire c after anchor = Ok t -> after < t.
Proof.
  destruct (Z.le_gt_cases (c_interval c) 0) as [Hi|Hi]; [by apply nextFire_cron_after; try apply _|].
  pose proof (Interval.nextFire_interval_spec c after anchor (conj Hi laws_interval)) as Hn.
  intros E. rewrite E in Hn. by destruct Hn.
Qed.

Lemma nextFireDistinct_after after anchor last t :
  nextFireDistinct c after anchor last = Ok t -> after < t.
Proof.
  unfold nextFireDistinct. destruct (nextFire c after anchor) as [n|] eqn:E; [|done].
  apply nextFire_after in E.
  destruct (IsZero last || (0 <? c_interval c)); [by intros [= <-]|].
  destruct (sameWallMinute _ _ _); [|by intros [= <-]].
  intros E'%nextFire_after. lia.
Qed.

Lemma window_bounds ctx anchor last now window start b0 fuel best :
  start <= now ->
  for_loop (windowStep c ctx anchor last now window) fuel (0, start, b0) = Some (Ok best) ->
  best = b0 \/ start < best <= now.
Proof.
  intros Hs E. revert E.
  intros E. refine (for_loop_inv _
    (fun s => start <= s.1.2 <= now /\ (s.2 = b0 \/ start < s.2 <= now))
    (fun r => r = Ok best -> best = b0 \/ start < best <= now) _ _ _ _ _ _ E eq_refl);
    [| |simpl; lia].
  - intros [[n cur] b] [[n' cur'] b'] [Hc Hb]. unfold windowStep, After. simpl in *.
    destruct (_ <=? n); [done|]. destruct (_ && _); [done|].
    destruct (nextFireDistinct c cur anchor last) as [nx|] eqn:En; [|done].
    apply nextFireDistinct_after in En. destruct (now <? nx) eqn:El; [done|]. bools.
    intros [= <- <- <-]. simpl. lia.
  - intros [[n cur] b] r [Hc Hb]. unfold windowStep, After. simpl in *.
    destruct (_ <=? n); [by intros [= <-]|]. destruct (_ && _); [by intros [= <-]|].
    destruct (nextFireDistinct c cur anchor last) as [nx|] eqn:En; [|by intros [= <-]].
    destruct (now <? nx) eqn:El; [|done]. by intros [= <-] [= <-].
Qed.

Lemma latestFire_bounds ctx first anchor last now latest :
  0 < first -> first < now -> latestFire c ctx first anchor last now = Ok latest ->
  first <= latest <= now.
Proof.
  intros Hpos Hf. unfold latestFire. destruct (for_loop _ _ _) as [r|] eqn:E; simpl; [|done].
  intros ->. refine (for_loop_inv _ (fun w => 0 < w)
    (fun r => r = Ok latest -> first <= latest <= now) _ _ _ _ _ _ E eq_refl); [| |done].
  - clear E. intros w w' Hw. unfold searchStep. destruct (_ || _) eqn:Eo.
    + destruct (for_loop _ _ _) as [[b|]|] eqn:El; [|done..]. unfold IsZero.
      apply window_bounds in El; [|lia]. destruct (b =? 0) eqn:Eb; [bools; lia|done].
    + apply orb_false_iff in Eo as [Hspan Hmax]. bools.
      change (maxInt64 ÷ 8) with 1152921504606846975 in Hmax.
      destruct (for_loop _ _ _) as [[b|]|]; [|done..]. destruct (negb (IsZero b)); [done|].
      intros [= <-]. rewrite wrap64_id by (unfold in64, minInt64, maxInt64; lia). lia.
  - clear E. intros w r' Hw. unfold searchStep. destruct (_ || _) eqn:Eo.
    + destruct (for_loop _ _ _) as [[b|]|] eqn:El; [|by intros [= <-]..].
      apply window_bounds in El; [|lia]. destruct (negb (IsZero b)); [|done].
      intros [= <-] [= <-]. lia.
    + apply orb_false_iff in Eo as [Hspan Hmax]. bools. unfold Sub, sat64, minInt64, maxInt64 in *.
      destruct (for_loop _ _ _) as [[b|]|] eqn:El; [|by intros [= <-]..].
      apply window_bounds in El; [|unfold Add; lia].
      unfold IsZero, Add, zeroTime in *. destruct (b =? 0) eqn:Eb; [done|]. bools.
      intros [= <-] [= <-]. lia.
Qed.

(** What a pass needs of the catch-up: its latest occurrence lies in (base, now]. *)
Lemma overdue_bounds ctx anchor last now want o :
  0 < anchor -> 0 <= last -> overdue c ctx anchor last now want = Ok o -> 0 < o_count o ->
  last < o_latest o <= now.
Proof.
  intros Ha Hl. unfold overdue. set (base := if IsZero last then anchor else last).
  assert (0 <= base /\ last <= base) as Hb.
  { subst base. unfold IsZero. destruct (last =? 0) eqn:E; bools; lia. }
  destruct (nextFireDistinct c base anchor last) as [first|] eqn:En; [|done].
  apply nextFireDistinct_after in En. unfold Before.
  destruct (first <? now) eqn:Ef; simpl; [|intros [= <-]; simpl; lia]. bools.
  destruct (0 <? c_interval c) eqn:Ei.
  - bools. intros [= <-] _. simpl. unfold Add, Sub.
    pose proof (sat64_in64 (now - first)) as [_ Hmax].
    assert (0 < sat64 (now - first) <= now - first) as Hs
      by (unfold sat64, minInt64, maxInt64 in *; lia).
    rewrite Interval.quot_div by lia. pose proof (Z.mul_div_le (sat64 (now - first)) _ Ei) as H1.
    assert (0 <= sat64 (now - first) / c_interval c) as H2 by (apply Z.div_pos; lia).
    rewrite wrap64_id by (unfold in64, minInt64 in *; nia). nia.
  - destruct (latestFire _ _ _ _ _ _) as [latest|] eqn:El; [|done].
    apply latestFire_bounds in El; [|lia..].
    destruct (TEqual latest first); [intros [= <-] _; simpl; lia|].
    destruct (negb want); [intros [= <-] _; simpl; lia|].
    destruct (countMissed _ _ _ _ _ _ _) as [[n b]|]; [|done]. intros [= <-] _. simpl. lia.
Qed.

End bounds.

(** * Invariant of a pass *)

(** The occurrences handled so far, newest first: fired, or recorded as missed. *)
Fixpoint handled (log : list Event) : list Time :=
  match log with
  | [] => []
  | (Fired t | Missed _ t) :: log => t :: handled log
  | _ :: log => handled log
  end.

#[global] Arguments handled : simpl never.

(** An occurrence the executor refused is the last thing a failed pass did. *)
Definition refused (log : list Event) (watermark : Time) : Prop :=
  exists t, (head log = Some (FireRefused t) \/ head log = Some (MissedRefused t)) /\ watermark < t.

(** Newer first. *)
Definition descending : list Time -> Prop := StronglySorted (fun a b => b < a).

(** What the scheduler relies on of the executor: schedule state is its own. *)
Class ExecutorLaws `{Executor} : Prop := {
  trigger_schedule_state : forall n db d h t,
    schedule_state (exec_Trigger n db d h t).1 = schedule_state db;
  missed_schedule_state : forall n db d h k t,
    schedule_state (exec_RecordMissed n db d h k t).1 = schedule_state db
}.

(** A stored position holds instants after Go's zero time. *)
Definition row_ok (r : SchedRow) : Prop :=
  0 < of_UnixMicro (s_anchor_us r) /\
  (forall x, s_last_fire_us r = Some x -> 0 < of_UnixMicro x) /\
  (forall x, s_next_fire_us r = Some x -> 0 < of_UnixMicro x).

Section invariant.
Context `{Codec} `{ScheduleParsers} `{Executor} `{!ExecutorLaws} (w : World).
Context (d : Definition_) (c : compiledSchedule) (hash : string) `{!ScheduleLaws c}.
Context (Hclock : forall n, Microsecond <= w_now w n).

(** Every handled occurrence was due at a clock reading before it was handled. *)
Definition due (n : nat) (t : Time) : Prop := exists m, (m < n)%nat /\ t <= w_now w m.

Definition log_ok (watermark : Time) (s : PassState) : Prop :=
  descending (handled (p_log s)) /\ Forall (fun t => t <= watermark) (handled (p_log s)) /\
  Forall (due (p_n s)) (handled (p_log s)).

(** Between passes: the memory is either unset, with nothing handled and a
    well-formed stored position, or it carries the watermark. *)
Definition between (s : PassState) : Prop :=
  if m_known (p_mem s)
  then m_hash (p_mem s) = hash /\ log_ok (m_last (p_mem s)) s /\
       0 < m_anchor (p_mem s) /\ 0 <= m_last (p_mem s)
  else handled (p_log s) = [] /\
       (forall r, schedule_state (p_db s) !! d_ID d = Some r -> row_ok r).

(** The cached persisted state is the row of the database. *)
Definition cached (s : PassState) : Prop :=
  p_hasPersisted s = true ->
  schedule_state (p_db s) !! d_ID d =
    Some (mkSchedRow hash (UnixMicro_of (p_anchor s)) (timeUS (p_persistedLast s))
            (timeUS (p_persistedNext s))).

(** Within a pass, with position [(anchor, last)]. *)
Record pass_inv (anchor last : Time) (s : PassState) : Prop := {
  pi_anchor : p_anchor s = anchor;
  pi_last : p_last s = last;
  pi_mem : m_known (p_mem s) = true /\ m_hash (p_mem s) = hash /\
           m_anchor (p_mem s) = anchor /\ m_last (p_mem s) = last;
  pi_pos : 0 < anchor /\ 0 <= last;
  pi_log : log_ok last s;
  pi_cached : cached s
}.

(** Leaving a pass. *)
Definition leaves (r : PassResult) (s : PassState) : Prop :=
  between s /\ (r = ReturnErr -> refused (p_log s) (m_last (p_mem s)) /\ m_known (p_mem s) = true).

Definition wp {A} (m : Pass A) (Q : A -> PassState -> Prop) (s : PassState) : Prop :=
  match m s with (inl a, s') => Q a s' | (inr r, s') => leaves r s' end.

Lemma wp_bind {A B} (m : Pass A) (k : A -> Pass B) (Q : A -> PassState -> Prop) R s :
  wp m Q s -> (forall a s', Q a s' -> wp (k a) R s') -> wp (pbind m k) R s.
Proof. unfold wp, pbind. intros Hm Hk. destruct (m s) as [[a|r] s']; [by apply Hk|done]. Qed.

Lemma wp_mono {A} (m : Pass A) (Q R : A -> PassState -> Prop) s :
  (forall a s', Q a s' -> R a s') -> wp m Q s -> wp m R s.
Proof. unfold wp. intros Hq. destruct (m s) as [[a|r] s']; [apply Hq|done]. Qed.

Lemma pass_inv_between anchor last s : pass_inv anchor last s -> between s.
Proof.
  intros [Ha Hl (Hk & Hh & Hma & Hml) Hpos Hlog _]. unfold between. rewrite Hk, Hh, Hma, Hml. done.
Qed.

Lemma due_mono n n' t : (n <= n')%nat -> due n t -> due n' t.
Proof. intros Hle (m & Hm & Ht). exists m. split; [lia|done]. Qed.

Lemma log_ok_mono watermark s s' :
  handled (p_log s') = handled (p_log s) -> (p_n s <= p_n s')%nat ->
  log_ok watermark s -> log_ok watermark s'.
Proof.
  intros Hlog Hn (Hd & Hle & Hdue). unfold log_ok. rewrite Hlog. split_and!; [done..|].
  eapply Forall_impl; [exact Hdue|]. intros t. by apply due_mono.
Qed.

(** A step that leaves position, memory and handled occurrences alone. *)
Lemma pass_inv_step anchor last s s' :
  pass_inv anchor last s ->
  p_anchor s' = p_anchor s -> p_last s' = p_last s ->
  (m_known (p_mem s') = m_known (p_mem s) /\ m_hash (p_mem s') = m_hash (p_mem s) /\
   m_anchor (p_mem s') = m_anchor (p_mem s) /\ m_last (p_mem s') = m_last (p_mem s)) ->
  handled (p_log s') = handled (p_log s) -> (p_n s <= p_n s')%nat -> cached s' ->
  pass_inv anchor last s'.
Proof.
  intros [Ha Hl (Hk & Hh & Hma & Hml) Hpos Hlog _] Ea El (E1 & E2 & E3 & E4) Elog En Hc.
  split; try congruence; [split_and!; congruence| |done]. by eapply log_ok_mono.
Qed.

Lemma tick_wp {A} (f : nat -> A) anchor last :
  forall s, pass_inv anchor last s -> wp (tick f) (fun a s => pass_inv anchor last s /\
    exists n, (n < p_n s)%nat /\ a = f n) s.
Proof.
  intros s Hs. unfold wp. simpl. split; [|exists (p_n s); split; [simpl; lia|done]].
  eapply pass_inv_step; [exact Hs|..]; simpl; try done; [lia|]. exact (pi_cached _ _ _ Hs).
Qed.

(** [persistResult] touches the failure flag and the log only. *)
Lemma persistResult_spec ok s :
  exists log, persistResult ok s =
    (inl tt, s <| p_log := log |> <| p_mem ::= fun m => m <| m_persistFailing := negb ok |> |>) /\
  handled log = handled (p_log s).
Proof.
  unfold persistResult, pbind, get, emit, modify, pret. destruct s as [n db [k h a l f] log ? ? ? ? ?].
  destruct ok, f; simpl; eexists; split; reflexivity.
Qed.

Definition position_row (anchor last next : Time) : SchedRow :=
  mkSchedRow hash (UnixMicro_of anchor) (timeUS last) (timeUS next).

(** A write of schedule state stores the row or leaves the database alone. *)
Lemma writeState_spec anchor last next s :
  exists ok n db, (p_n s <= n)%nat /\
    writeState w (fun db => setScheduleState db (d_ID d) hash anchor last next) s =
      (inl ok, s <| p_n := n |> <| p_db := db |>) /\
    schedule_state db = (if ok then <[d_ID d := position_row anchor last next]> else id)
                          (schedule_state (p_db s)).
Proof.
  unfold writeState, pbind, tick, onDB, pret. destruct (exec_StorageDegraded (p_n s)); simpl.
  { exists false, (S (p_n s)), (p_db s). split; [lia|]. split; [|done]. by destruct s. }
  destruct (w_fails w (S (p_n s))); simpl.
  { exists false, (S (S (p_n s))), (p_db s). split; [lia|]. split; [|done]. by destruct s. }
  unfold setScheduleState. destruct (negb _); simpl.
  - exists false, (S (S (p_n s))), (p_db s). split; [lia|]. split; [|done]. by destruct s.
  - eexists true, (S (S (p_n s))), _. split; [lia|]. split; [by destruct s|done].
Qed.

(** After [persistNext] the database holds the position waited for, unless an
    episode of failed writes is on. *)
Lemma persistNext_wp anchor last next :
  forall s, pass_inv anchor last s -> wp (persistNext w d hash next) (fun _ s => pass_inv anchor last s /\
    (m_persistFailing (p_mem s) = true \/
     schedule_state (p_db s) !! d_ID d = Some (position_row anchor last next))) s.
Proof.
  intros s Hs. unfold wp, persistNext, pbind, get.
  destruct (p_hasPersisted s && _ && _) eqn:E; simpl.
  - unfold TEqual in E. bools. split; [done|]. right.
    rewrite (pi_cached _ _ _ Hs) by done. unfold position_row.
    rewrite (pi_anchor _ _ _ Hs). pose proof (pi_last _ _ _ Hs). congruence.
  - unfold SetScheduleStateWithNext.
    destruct (writeState_spec (p_anchor s) (p_last s) next s) as (ok & n & db & Hn & -> & Hdb).
    destruct (persistResult_spec ok (s <| p_n := n |> <| p_db := db |>)) as (log & -> & Hlog).
    pose proof (pi_anchor _ _ _ Hs) as Ea. pose proof (pi_last _ _ _ Hs) as El.
    destruct ok; simpl in Hdb; unfold modify, pret; simpl; (split; [|first [by left|right]]).
    + eapply pass_inv_step; [exact Hs|..]; simpl; try done. intros _. simpl.
      by rewrite Hdb, lookup_insert_eq.
    + simpl. by rewrite Hdb, lookup_insert_eq, Ea, El.
    + eapply pass_inv_step; [exact Hs|..]; simpl; try done. unfold cached. simpl. rewrite Hdb.
      exact (pi_cached _ _ _ Hs).
Qed.

(** ** Handling an occurrence *)

Lemma handle_inv anchor last t e db s :
  pass_inv anchor last s -> last < t -> due (p_n s) t -> handled [e] = [t] ->
  schedule_state db = schedule_state (p_db s) ->
  pass_inv anchor t
    (s <| p_n ::= S |> <| p_db := db |> <| p_log ::= cons e |>
       <| p_last := t |> <| p_mem ::= fun m => m <| m_last := t |> |>).
Proof.
  intros [Ha Hl (Hk & Hh & Hma & Hml) Hpos (Hd & Hle & Hdue) Hc] Hlt Ht He Hdb.
  assert (handled (e :: p_log s) = t :: handled (p_log s)) as Hcons.
  { destruct e; unfold handled in *; by simplify_eq. }
  split; simpl; try done; [lia| |unfold cached; simpl; by rewrite Hdb].
  unfold log_ok. simpl. rewrite Hcons. split_and!.
  - constructor; [done|]. eapply Forall_impl; [exact Hle|]. simpl. intros u Hu. lia.
  - constructor; [lia|]. eapply Forall_impl; [exact Hle|]. simpl. intros u Hu. lia.
  - constructor; [eapply due_mono; [|exact Ht]; lia|].
    eapply Forall_impl; [exact Hdue|]. intros u. apply due_mono. lia.
Qed.

(** A refusal leaves the watermark before the occurrence. *)
Lemma refuse_leaves anchor last t e db s r :
  pass_inv anchor last s -> last < t -> e = FireRefused t \/ e = MissedRefused t ->
  leaves r (s <| p_n ::= S |> <| p_db := db |> <| p_log ::= cons e |> <| p_n ::= S |>).
Proof.
  intros Hs Hlt He. pose proof (pi_mem _ _ _ Hs) as (Hk & Hh & Hma & Hml). split.
  - unfold between. simpl. rewrite Hk. split; [done|]. rewrite Hml, Hma.
    split; [|exact (pi_pos _ _ _ Hs)].
    apply (log_ok_mono _ s); simpl; [by destruct He as [-> | ->]|lia|exact (pi_log _ _ _ Hs)].
  - intros _. split; [|done]. exists t. simpl. rewrite Hml.
    split; [destruct He as [-> | ->]; [left|right]; done|lia].
Qed.

Definition running (s : PassState) : Prop := exists anchor last, pass_inv anchor last s.

Lemma running_leaves r s : r <> ReturnErr -> running s -> leaves r s.
Proof. intros Hr (a & l & Hs). split; [by eapply pass_inv_between|done]. Qed.

(** The waited-for occurrence is later than the watermark and due. *)
Lemma waitLoop_wp rounds anchor last next s :
  last < next -> pass_inv anchor last s ->
  wp (waitLoop w c d hash rounds next)
    (fun t s => pass_inv anchor last s /\ last < t /\ due (p_n s) t) s.
Proof.
  revert next s. induction rounds as [|rounds IH]; intros next s Hlt Hs; cbn [waitLoop].
  { apply running_leaves; [done|]. by exists anchor, last. }
  eapply wp_bind; [by apply tick_wp|]. intros t s1 (Hs1 & m1 & Hm1 & ->).
  unfold Before. destruct (w_now w m1 <? next) eqn:E1; simpl; bools.
  2:{ split_and!; [done..|]. by exists m1. }
  eapply wp_bind; [by apply tick_wp|]. intros gone s2 (Hs2 & _).
  destruct gone. { apply running_leaves; [done|]. by exists anchor, last. }
  eapply wp_bind; [by apply tick_wp|]. intros now s3 (Hs3 & m3 & Hm3 & ->).
  destruct (w_now w m3 <? next) eqn:E3; simpl; bools.
  2:{ split_and!; [done..|]. by exists m3. }
  apply (wp_bind _ _ (fun a s' => a = s3 /\ s' = s3)); [done|]. intros a s4 [-> ->].
  rewrite (pi_anchor _ _ _ Hs3), (pi_last _ _ _ Hs3).
  destruct (nextFireDistinct c _ _ _) as [re|] eqn:En.
  2:{ apply running_leaves; [done|]. by exists anchor, last. }
  apply nextFireDistinct_after in En; [|done].
  eapply wp_bind; [by apply persistNext_wp|]. intros _ s5 [Hs5 _]. apply IH; [|done].
  unfold maxTime, After in En. destruct (_ <? _) eqn:? in En; bools; lia.
Qed.

#[local] Ltac leave := apply running_leaves; [done|]; do 2 eexists; eassumption.

Lemma maxTime_l a b : a <= maxTime a b.
Proof. unfold maxTime, After. destruct (b <? a) eqn:E; bools; lia. Qed.

Lemma nextFromNow_wp anchor last s :
  pass_inv anchor last s ->
  wp (nextFromNow w c) (fun r s => pass_inv anchor last s /\ forall t, r = Ok t -> last < t) s.
Proof.
  intros Hs. eapply wp_bind; [by apply tick_wp|]. intros now s1 (Hs1 & _).
  unfold wp, pbind, get, pret. split; [done|].
  rewrite (pi_anchor _ _ _ Hs1), (pi_last _ _ _ Hs1).
  intros t Et%nextFireDistinct_after; [|done]. pose proof (maxTime_l last now). lia.
Qed.

(** Both ways to handle an occurrence: accepted and then recorded as the watermark,
    or refused and the pass left. *)
Lemma handle_wp (m : Pass bool) (accepted rejected : Event) (k : Pass unit) anchor last t R s :
  pass_inv anchor last s -> last < t -> due (p_n s) t -> handled [accepted] = [t] ->
  (rejected = FireRefused t \/ rejected = MissedRefused t) ->
  (exists db ok, m s = (inl ok, s <| p_n ::= S |> <| p_db := db |>
                                  <| p_log ::= cons (if ok : bool then accepted else rejected) |>) /\
                 schedule_state db = schedule_state (p_db s)) ->
  (forall s', pass_inv anchor t s' -> wp k R s') ->
  wp (do! ok := m in
      if negb ok then do! gone := ctxDone w in if (gone : bool) then pexit ReturnNil else pexit ReturnErr
      else run! advance t in k) R s.
Proof.
  intros Hs Hlt Hdue Hacc Hrej (db & ok & Hm & Hdb) Hk. unfold wp at 1, pbind at 1. rewrite Hm.
  destruct ok.
  - apply Hk. by apply (handle_inv anchor last t accepted db s).
  - cbv [negb pbind ctxDone tick].
    match goal with |- context [w_done w ?n] => destruct (w_done w n) end;
      by apply (refuse_leaves anchor last t).
Qed.

Lemma trigger_step defHash t s :
  exists db ok, trigger d defHash t s = (inl ok, s <| p_n ::= S |> <| p_db := db |>
      <| p_log ::= cons (if ok : bool then Fired t else FireRefused t) |>) /\
    schedule_state db = schedule_state (p_db s).
Proof.
  unfold trigger. pose proof (trigger_schedule_state (p_n s) (p_db s) d defHash t) as Hst.
  destruct (exec_Trigger _ _ _ _ _) as [db ok]. by exists db, ok.
Qed.

Lemma recordMissed_step defHash count t s :
  exists db ok, recordMissed d defHash count t s = (inl ok, s <| p_n ::= S |> <| p_db := db |>
      <| p_log ::= cons (if ok : bool then Missed count t else MissedRefused t) |>) /\
    schedule_state db = schedule_state (p_db s).
Proof.
  unfold recordMissed. pose proof (missed_schedule_state (p_n s) (p_db s) d defHash count t) as Hst.
  destruct (exec_RecordMissed _ _ _ _ _ _) as [db ok]. by exists db, ok.
Qed.

(** A write that is followed by [persistResult] keeps the position. *)
Lemma storePosition_wp anchor last next s (f g : PassState -> PassState) :
  pass_inv anchor last s ->
  (forall s, f s = setPersisted last next s) -> (forall s, g s = s <| p_hasPersisted := false |>) ->
  wp (do! ok := writeState w (fun db => setScheduleState db (d_ID d) hash anchor last next) in
      run! persistResult ok in
      if (ok : bool) then modify f else modify g) (fun _ s => pass_inv anchor last s) s.
Proof.
  intros Hs Hf Hg. unfold wp, pbind.
  destruct (writeState_spec anchor last next s) as (ok & n & db & Hn & -> & Hdb).
  destruct (persistResult_spec ok (s <| p_n := n |> <| p_db := db |>)) as (log & -> & Hlog).
  destruct ok; simpl in Hdb; unfold modify; rewrite ?Hf, ?Hg;
    (eapply pass_inv_step; [exact Hs|..]; simpl; try done).
  intros _. simpl. rewrite Hdb, lookup_insert_eq, (pi_anchor _ _ _ Hs). done.
Qed.

Lemma catchUp_wp defHash now anchor last s :
  pass_inv anchor last s -> (exists m, (m < p_n s)%nat /\ w_now w m = now) ->
  wp (catchUp w c d defHash hash now) (fun _ s => running s) s.
Proof.
  intros Hs (m & Hm & Hnow). unfold catchUp.
  apply (wp_bind _ _ (fun a s' => a = s /\ s' = s)); [done|]. intros a s0 [-> ->].
  destruct (negb (Before (p_last s) now)); [by exists anchor, last|].
  apply (wp_bind _ _ (fun _ s' => pass_inv anchor last s' /\ (p_n s <= p_n s')%nat)).
  { pose proof (tick_wp (w_poll w) anchor last s Hs) as Ht. unfold wp in *. simpl in *.
    split; [apply Ht|lia]. }
  intros ctx s1 [Hs1 Hn1]. rewrite (pi_anchor _ _ _ Hs), (pi_last _ _ _ Hs).
  destruct (overdue _ _ _ _ _ _) as [o|] eqn:Eo; [|leave].
  destruct (o_count o <=? 0) eqn:Ec; [by exists anchor, last|]. bools.
  apply overdue_bounds in Eo; [|done|apply (pi_pos _ _ _ Hs)..|done].
  assert (due (p_n s1) (o_latest o)) as Hdue by (exists m; split; [lia|rewrite Hnow; lia]).
  destruct (String.eqb (d_CatchUp d) "latest").
  - apply (handle_wp _ (Fired (o_latest o)) (FireRefused (o_latest o)) _ anchor last);
      try done; [lia|by left|apply trigger_step|].
    intros s2 Hs2. apply (wp_mono _ (fun _ => pass_inv anchor (o_latest o))); [|by apply storePosition_wp].
    intros _ s3 Hs3. by exists anchor, (o_latest o).
  - apply (handle_wp _ (Missed (o_count o) (o_latest o)) (MissedRefused (o_latest o)) _ anchor last);
      try done; [lia|by right|apply recordMissed_step|].
    intros s2 Hs2. apply (wp_mono _ (fun _ => pass_inv anchor (o_latest o))); [|by apply storePosition_wp].
    intros _ s3 Hs3. by exists anchor, (o_latest o).
Qed.

Lemma fireRound_wp defHash rounds s :
  running s -> wp (fireRound w c d defHash hash rounds) (fun _ s => running s) s.
Proof.
  intros (anchor & last & Hs). unfold fireRound.
  eapply wp_bind; [by apply nextFromNow_wp|]. intros r s1 [Hs1 Hr].
  destruct r as [next|]; [|leave]. specialize (Hr next eq_refl).
  eapply wp_bind; [by apply persistNext_wp|]. intros [] s2 [Hs2 _].
  eapply wp_bind; [by apply waitLoop_wp|]. intros t s3 (Hs3 & Hlt & Hdue).
  apply (handle_wp _ (Fired t) (FireRefused t) _ anchor last); try done; [by left|apply trigger_step|].
  intros s4 Hs4. eapply wp_bind; [by apply nextFromNow_wp|]. intros r s5 [Hs5 _].
  destruct r as [following|].
  - apply (wp_mono _ (fun _ => pass_inv anchor t)); [by intros _ s6 Hs6; exists anchor, t|].
    eapply wp_mono; [|by apply persistNext_wp]. by intros a s6 [? _].
  - unfold wp, pbind, get, SetScheduleState.
    destruct (writeState_spec (p_anchor s5) (p_last s5) zeroTime s5) as (ok & n & db & Hn & -> & Hdb).
    destruct (persistResult_spec ok (s5 <| p_n := n |> <| p_db := db |>)) as (log & -> & Hlog).
    split; [|done].
    match goal with |- between ?s' => change (between (s' <| p_hasPersisted := false |>)) end.
    apply (pass_inv_between anchor t). eapply pass_inv_step; [exact Hs5|..]; simpl; done.
Qed.

Lemma fireLoop_wp defHash rounds n s :
  running s -> wp (fireLoop w c d defHash hash rounds n) (fun _ s => running s) s.
Proof.
  revert s. induction n as [|n IH]; intros s (anchor & last & Hs); cbn [fireLoop]; [leave|].
  eapply wp_bind; [by apply tick_wp|]. intros gone s1 [Hs1 _]. destruct gone; [leave|].
  eapply wp_bind; [apply fireRound_wp; by exists anchor, last|]. intros [] s2 Hs2. by apply IH.
Qed.

(** ** Loading the position *)

Definition unset (s : PassState) : Prop := m_known (p_mem s) = false /\ handled (p_log s) = [].
Definition stored_ok (s : PassState) : Prop :=
  forall r, schedule_state (p_db s) !! d_ID d = Some r -> row_ok r.

Lemma unset_leaves s : unset s -> stored_ok s -> leaves ReturnNil s.
Proof. intros [Hk Hl] Hr. split; [|done]. unfold between. by rewrite Hk. Qed.

Lemma timeUS_pos us : 0 < of_UnixMicro us -> timeUS (of_UnixMicro us) = Some us.
Proof.
  intros Hpos. unfold timeUS, IsZero. rewrite (proj2 (Z.eqb_neq _ _)) by lia.
  by rewrite UnixMicro_roundtrip.
Qed.

Lemma timeUS_default o :
  (forall x, o = Some x -> 0 < of_UnixMicro x) -> timeUS (default zeroTime (of_UnixMicro <$> o)) = o.
Proof. intros Ho. destruct o as [x|]; simpl; [by apply timeUS_pos, Ho|done]. Qed.

Lemma position_row_ok n : row_ok (position_row (w_now w n) zeroTime zeroTime).
Proof.
  split; [|done]. simpl. pose proof (of_UnixMicro_floor (w_now w n)). specialize (Hclock n). lia.
Qed.

(** The position loaded, before it is copied to the memory. *)
Definition loaded (n : nat) (s : PassState) : Prop :=
  unset s /\ 0 < p_anchor s /\ 0 <= p_last s /\ (n < p_n s)%nat /\ cached s.

Lemma onDB_store_spec anchor last next s :
  exists r db, onDB w (fun db => setScheduleState db (d_ID d) hash anchor last next) s =
      (inl r, s <| p_n ::= S |> <| p_db := db |>) /\
    schedule_state db = (if wrote r then <[d_ID d := position_row anchor last next]> else id)
                          (schedule_state (p_db s)).
Proof.
  unfold onDB. destruct (w_fails w (p_n s)); simpl.
  { exists None, (p_db s). split; [by destruct s|done]. }
  unfold setScheduleState. destruct (negb _); simpl.
  - exists (Some (Err ErrConstraint)), (p_db s). split; [by destruct s|done].
  - eexists (Some (Ok tt)), _. split; [by destruct s|done].
Qed.

Lemma freshPosition_wp n s :
  unset s -> stored_ok s -> p_hasPersisted s = false -> (n < p_n s)%nat ->
  wp (freshPosition w d hash (w_now w n)) (fun _ s => loaded n s) s.
Proof.
  intros [Hu1 Hu2] Hst Hp Hn. pose proof (position_row_ok n) as Hrow.
  pose proof (Hclock n) as Hc. unfold Microsecond in Hc.
  unfold freshPosition, SetScheduleState, wp, pbind at 1, setPosition, modify at 1, pbind at 1.
  match goal with |- context [onDB _ _ ?s0] =>
    destruct (onDB_store_spec (w_now w n) zeroTime zeroTime s0) as (r & db & -> & Hdb) end.
  simpl in Hdb.
  assert (forall x, schedule_state db !! d_ID d = Some x -> row_ok x) as Hst'.
  { intros x. rewrite Hdb. destruct (wrote r); [|apply Hst].
    rewrite lookup_insert_eq. by intros [= <-]. }
  unfold pbind at 1, ctxDone, tick. cbv iota beta. simpl.
  destruct (w_done w _); [by apply unset_leaves; [split|]|]. unfold pbind.
  match goal with |- context [persistResult ?o ?s0] =>
    destruct (persistResult_spec o s0) as (log & -> & Hlog) end. simpl in Hlog.
  destruct (wrote r) eqn:Ew; unfold modify, pret, loaded, unset, cached; simpl in *.
  - split_and!; [done|by rewrite Hlog|lia|done|lia|]. intros _. by rewrite Hdb, lookup_insert_eq.
  - split_and!; [done|by rewrite Hlog|lia|done|lia|]. by rewrite Hp.
Qed.

Lemma query_spec {A} (f : DB -> A) s :
  query w f s = (inl (if w_fails w (p_n s) then None else Some (f (p_db s))), s <| p_n ::= S |>).
Proof. unfold query, onDB. destruct s, (w_fails w _); reflexivity. Qed.

(** The stored position of this schedule, advanced to the newest fired run. *)
Lemma storedPosition_wp n row s :
  unset s -> stored_ok s -> (n < p_n s)%nat -> schedule_state (p_db s) !! d_ID d = Some row -> s_schedule_hash row = hash ->
  let a := of_UnixMicro (s_anchor_us row) in
  let l := default zeroTime (of_UnixMicro <$> s_last_fire_us row) in
  let nx := default zeroTime (of_UnixMicro <$> s_next_fire_us row) in
  wp (run! setPosition a l in
      run! modify (setPersisted l nx) in
      do! fired := query w (fun db => LastScheduledFire db (d_ID d)) in
      do! gone := ctxDone w in
      if (gone : bool) then pexit ReturnNil else
      match fired with
      | None => pret tt
      | Some fired =>
          if After fired l then modify (fun s => s <| p_last := fired |> <| p_hasPersisted := false |>)
          else pret tt
      end) (fun _ s => loaded n s) s.
Proof.
  intros [Hu1 Hu2] Hst Hn Hrow Hhash a l nx. destruct (Hst row Hrow) as (Ha & Hl & Hnx).
  unfold wp, pbind at 1, setPosition, modify at 1, pbind at 1, modify at 1, pbind at 1.
  rewrite query_spec. cbv iota beta. unfold pbind, ctxDone, tick. simpl.
  destruct (w_done w _); [by apply unset_leaves; [split|]|].
  assert (0 <= l) as Hl0.
  { unfold l. destruct (s_last_fire_us row) as [x|]; simpl; [specialize (Hl x eq_refl); lia|done]. }
  assert (schedule_state (p_db s) !! d_ID d =
          Some (mkSchedRow hash (UnixMicro_of a) (timeUS l) (timeUS nx))) as Hc.
  { rewrite Hrow. unfold a, l, nx. rewrite !timeUS_default, UnixMicro_roundtrip, <-Hhash by done.
    by destruct row. }
  destruct (w_fails w _); [|unfold After; destruct (l <? _) eqn:E]; unfold pret, modify, loaded, unset, cached;
    simpl; (split; [done|]); (split; [done|]); (split; [bools; lia|]); (split; [lia|done]).
Qed.

Lemma loadPosition_wp n s :
  between s -> p_hasPersisted s = false -> (n < p_n s)%nat ->
  wp (loadPosition w d hash (w_now w n)) (fun _ s' => running s' /\ (n < p_n s')%nat) s.
Proof.
  intros Hb Hp Hn. unfold loadPosition.
  apply (wp_bind _ _ (fun a s' => a = s /\ s' = s)); [done|]. intros a s0 [-> ->].
  unfold between in Hb. destruct (m_known (p_mem s)) eqn:Ek.
  { destruct Hb as (Hh & Hlog & Ha & Hl). rewrite Hh, String.eqb_refl. simpl.
    split; [|simpl; lia]. exists (m_anchor (p_mem s)), (m_last (p_mem s)).
    split; simpl; try done. by unfold cached; simpl; rewrite Hp. }
  destruct Hb as [Hh Hst]. rewrite andb_false_l. cbv iota.
  apply (wp_bind _ _ (fun r s' => r = (if w_fails w (p_n s) then None
    else Some (ScheduleState (p_db s) (d_ID d))) /\ s' = s <| p_n ::= S |>));
    [unfold wp; by rewrite query_spec|]. intros r s1 [-> ->].
  apply (wp_bind _ _ (fun _ s' => s' = s <| p_n ::= fun n => S (S n) |>)); [done|].
  intros gone s1 ->. destruct gone; [by apply unset_leaves; [split|]|].
  apply (wp_bind _ _ (fun _ s' => loaded n s')).
  - assert (wp (setPosition (w_now w n) zeroTime) (fun _ s' => loaded n s')
              (s <| p_n ::= fun n => S (S n) |>)) as Hset.
    { unfold wp, loaded, unset, cached. simpl. rewrite Hp. specialize (Hclock n).
      unfold Microsecond in Hclock. split_and!; try done; lia. }
    assert (wp (freshPosition w d hash (w_now w n)) (fun _ s' => loaded n s')
              (s <| p_n ::= fun n => S (S n) |>)) as Hfresh.
    { apply freshPosition_wp; [split; done|exact Hst|exact Hp|simpl; lia]. }
    destruct (w_fails w (p_n s)); [exact Hset|]. unfold ScheduleState.
    destruct (schedule_state (p_db s) !! d_ID d) as [row|] eqn:Erow; [|exact Hfresh].
    destruct (String.eqb_spec (s_schedule_hash row) hash) as [Eh|]; [|exact Hfresh].
    apply (storedPosition_wp n row); [split; done|by intros x; simpl; rewrite Erow; apply Hst|simpl; lia|exact Erow|exact Eh].
  - intros _ s2 ([Hu1 Hu2] & Ha & Hl & Hn2 & Hc). unfold wp, modify. split; [|done].
    exists (p_anchor s2), (p_last s2). split; simpl; try done.
    unfold log_ok. simpl. rewrite Hu2. split_and!; constructor.
Qed.

(** * The pass and the loop *)

Lemma runPass_wp rounds s :
  compileSchedule d = Ok c -> scheduleHash d = hash -> between s ->
  wp (runPass w d rounds) (fun _ s => running s) s.
Proof.
  intros Hc Hh Hb. unfold runPass.
  apply (wp_bind _ _ (fun _ s' => between s')).
  { unfold wp, ctxDone, tick, between in *. simpl. destruct (m_known (p_mem s)); [|done].
    destruct Hb as (? & Hlog & ?). split; [done|]. split; [|done].
    eapply log_ok_mono; [..|exact Hlog]; simpl; [done|lia]. }
  intros gone s1 Hb1. destruct gone; [by split|]. rewrite Hc, Hh. clear Hb.
  apply (wp_bind _ _ (fun t s' => between s' /\ exists n, (n < p_n s')%nat /\ t = w_now w n)).
  { unfold wp, Now, tick. split; [|exists (p_n s1); simpl; split; [lia|done]].
    unfold between in *. simpl. destruct (m_known (p_mem s1)); [|done].
    destruct Hb1 as (? & Hlog & ?). split; [done|]. split; [|done].
    eapply log_ok_mono; [..|exact Hlog]; simpl; [done|lia]. }
  intros now s2 (Hb2 & n & Hn & ->).
  apply (wp_bind _ _ (fun _ s' => between s' /\ p_hasPersisted s' = false /\ (n < p_n s')%nat)); [done|].
  intros _ s3 (Hb3 & Hp3 & Hn3).
  eapply wp_bind; [by apply loadPosition_wp|]. intros [] s4 ((anchor & last & Hs4) & Hn4).
  apply (wp_bind _ _ (fun _ s' => pass_inv anchor last s' /\ (n < p_n s')%nat)).
  { pose proof (tick_wp (w_done w) anchor last s4 Hs4) as Ht. unfold wp in *. simpl in *.
    split; [apply Ht|lia]. }
  intros gone s5 [Hs5 Hn5]. destruct gone; [leave|].
  eapply wp_bind; [apply (catchUp_wp _ _ anchor last); [done|by exists n]|].
  intros [] s6 Hs6. by apply fireLoop_wp.
Qed.

(** Whatever the way a pass ends, the state between passes is kept. *)
Lemma runPass_between rounds s :
  compileSchedule d = Ok c -> scheduleHash d = hash -> between s ->
  between (runPass w d rounds s).2 /\
  ((runPass w d rounds s).1 = inr ReturnErr ->
   refused (p_log (runPass w d rounds s).2) (m_last (p_mem (runPass w d rounds s).2))).
Proof.
  intros Hc Hh Hb. pose proof (runPass_wp rounds s Hc Hh Hb) as Hw. unfold wp in Hw.
  destruct (runPass w d rounds s) as [[a|r] s'].
  - destruct Hw as (anchor & last & Hs). split; [by eapply pass_inv_between|done].
  - destruct Hw as [Hb' Hr]. split; [done|]. simpl. intros [= ->]. by apply Hr.
Qed.

Lemma between_later s k : between s -> between (s <| p_n ::= fun n => (k + n)%nat |>).
Proof.
  unfold between. simpl. destruct (m_known (p_mem s)); [|done].
  intros (? & Hlog & ?). split; [done|]. split; [|done].
  eapply log_ok_mono; [..|exact Hlog]; simpl; [done|lia].
Qed.

Lemma loop_between rounds n backoff waited s :
  compileSchedule d = Ok c -> scheduleHash d = hash -> between s ->
  between (loop w d rounds n backoff waited s).2.
Proof.
  intros Hc Hh. revert backoff waited s. induction n as [|n IH]; intros backoff waited s Hb; [done|].
  cbn [loop]. pose proof (runPass_between rounds (s <| p_n ::= S |>) Hc Hh (between_later s 1 Hb)) as [Hb' _].
  destruct (runPass w d rounds _) as [[a|[]] s1]; simpl in Hb'; try done.
  destruct (w_done w (p_n s1)); [by apply (between_later s1 2)|].
  match goal with |- context [w_done w ?k] => destruct (w_done w k) end.
  - by apply (between_later s1 3).
  - apply IH. by apply (between_later s1 3).
Qed.

Lemma between_log s : between s -> descending (handled (p_log s)) /\ Forall (due (p_n s)) (handled (p_log s)).
Proof.
  unfold between. destruct (m_known (p_mem s)).
  - by intros (_ & (? & _ & ?) & _).
  - intros [-> _]. split; constructor.
Qed.

End invariant.

(** C10: over all the passes of a job's loop, whatever fails in between, the
    occurrences it fires or records as missed are strictly increasing — none is
    handled twice — and each was due at a clock reading taken before. *)
Theorem loop_handles_once `{Codec} `{ScheduleParsers} `{Executor} `{!ExecutorLaws} (w : World)
    (d : Definition_) (c : compiledSchedule) `{!ScheduleLaws c} (s : PassState) rounds n backoff :
  (forall n, Microsecond <= w_now w n) -> compileSchedule d = Ok c ->
  p_mem s = zeroMemory -> p_log s = [] ->
  (forall r, schedule_state (p_db s) !! d_ID d = Some r -> row_ok r) ->
  let s' := (loop w d rounds n backoff [] s).2 in
  descending (handled (p_log s')) /\ NoDup (handled (p_log s')) /\
  Forall (due w (p_n s')) (handled (p_log s')).
Proof.
  intros Hclock Hc Hm Hl Hrow s'.
  assert (between w d (scheduleHash d) s') as Hb.
  { apply (loop_between w d c); [done..|]. unfold between. rewrite Hm, Hl. done. }
  apply between_log in Hb as [Hd Hdue]. split; [done|]. split; [|done].
  clear Hdue. induction Hd as [|t l Hd IH Ht]; constructor; [|done].
  rewrite Forall_forall in Ht. intros Hin. specialize (Ht t Hin). lia.
Qed.

(** C31: a pass that fails because the executor refused an occurrence leaves the
    watermark before that occurrence, so the next pass starts behind it and the
    catch-up policy applies to it. *)
Theorem failed_pass_keeps_watermark `{Codec} `{ScheduleParsers} `{Executor} `{!ExecutorLaws} (w : World)
    (d : Definition_) (c : compiledSchedule) `{!ScheduleLaws c} (s s' : PassState) rounds :
  (forall n, Microsecond <= w_now w n) -> compileSchedule d = Ok c ->
  p_mem s = zeroMemory -> p_log s = [] ->
  (forall r, schedule_state (p_db s) !! d_ID d = Some r -> row_ok r) ->
  runPass w d rounds s = (inr ReturnErr, s') ->
  exists t, (head (p_log s') = Some (FireRefused t) \/ head (p_log s') = Some (MissedRefused t)) /\
            m_last (p_mem s') < t.
Proof.
  intros Hclock Hc Hm Hl Hrow E.
  destruct (runPass_between w d c (scheduleHash d) Hclock rounds s) as [_ Hr]; [done..| |].
  { unfold between. rewrite Hm, Hl. done. }
  rewrite E in Hr. by apply Hr.
Qed.

(** Skipping the write of a position that is already cached as persisted is
    sound: with storage up, [persistNext] leaves the schedule state exactly as
    the unconditional write would. *)
Theorem persistNext_equiv `{Codec} `{Executor} (w : World) (d : Definition_) hash next s :
  cached d hash s -> has_definition (p_db s) (d_ID d) = true ->
  exec_StorageDegraded (p_n s) = false -> w_fails w (S (p_n s)) = false ->
  schedule_state (p_db (persistNext w d hash next s).2) =
  schedule_state (SetScheduleStateWithNext (p_db s) (d_ID d) hash (p_anchor s) (p_last s) next).1.
Proof.
  intros Hc Hdef Hdeg Hf. unfold SetScheduleStateWithNext, setScheduleState. rewrite Hdef.
  unfold persistNext, pbind at 1, get. destruct (p_hasPersisted s && _ && _) eqn:E; simpl.
  - unfold TEqual in E. bools. symmetry. apply insert_id. rewrite Hc by done. congruence.
  - unfold writeState, pbind, tick, onDB, SetScheduleStateWithNext, setScheduleState. simpl.
    rewrite Hdeg. simpl. rewrite Hf. simpl. rewrite Hdef. simpl.
    match goal with |- context [persistResult true ?s0] =>
      destruct (persistResult_spec true s0) as (log & -> & _) end. done.
Qed.

(** A failing job is retried after between one second and one minute. *)
Theorem loop_backoff_bounds `{Codec} `{ScheduleParsers} `{Executor} (w : World) d rounds n s :
  Forall (fun b => Second <= b <= Minute) (loop w d rounds n Second [] s).1.
Proof.
  assert (forall backoff waited s, Second <= backoff <= Minute ->
    Forall (fun b => Second <= b <= Minute) waited ->
    Forall (fun b => Second <= b <= Minute) (loop w d rounds n backoff waited s).1) as Hall;
    [|by apply Hall; [vm_compute; split; congruence|constructor]].
  induction n as [|n IH]; intros backoff waited s0 Hb Hw; [done|]. cbn [loop].
  destruct (runPass w d rounds _) as [[a|[]] s1]; try done.
  destruct (w_done w (p_n s1)); [done|].
  set (b := if maxBackoff <? _ then Second else backoff).
  assert (Second <= b <= Minute) as Hb'.
  { subst b. destruct (maxBackoff <? _); [vm_compute; split; congruence|done]. }
  match goal with |- context [w_done w ?k] => destruct (w_done w k) end.
  - by constructor.
  - apply IH; [|by constructor]. unfold maxBackoff, Minute, Second in *. lia.
Qed.

(** * Reload and Stop *)

Lemma wanted_snoc defs d :
  wanted (defs ++ [d]) = if scheduled d then <[d_Name d := d]> (wanted defs) else wanted defs.
Proof. unfold wanted. by rewrite foldl_app. Qed.

Lemma wanted_spec defs name d :
  wanted defs !! name = Some d -> d ∈ defs /\ d_Name d = name /\ scheduled d = true.
Proof.
  induction defs as [|x l IH] using rev_ind; [unfold wanted; simpl; by rewrite lookup_empty|].
  rewrite wanted_snoc, elem_of_app, list_elem_of_singleton.
  destruct (scheduled x) eqn:E; [|intros Hd; destruct (IH Hd); auto].
  destruct (decide (d_Name x = name)) as [<-|Hne].
  - rewrite lookup_insert_eq. intros [= <-]. auto.
  - rewrite lookup_insert_ne by done. intros Hd. destruct (IH Hd); auto.
Qed.

(** What the start loop has done after some of the definitions: the loops that
    were there stay, and the others run the wanted definitions afresh. *)
Record started (want : gmap string Definition_) (s0 s : Scheduler) : Prop := {
  st_stopped : sc_stopped s = sc_stopped s0;
  st_count : (sc_started s0 <= sc_started s)%nat;
  st_kept : forall name l, sc_running s0 !! name = Some l -> sc_running s !! name = Some l;
  st_new : forall name l, sc_running s !! name = Some l -> sc_running s0 !! name = None ->
    want !! name = Some (l_def l) /\ l_done l = false /\
    (sc_started s0 <= l_id l < sc_started s)%nat
}.

Lemma startOne_started defs s0 s d :
  started (wanted defs) s0 s -> started (wanted defs) s0 (startOne (wanted defs) s d).
Proof.
  intros [Hs Hc Hk Hn]. unfold startOne.
  destruct (wanted defs !! d_Name d) as [d'|] eqn:Ed; [|by split].
  pose proof (wanted_spec _ _ _ Ed) as (_ & Hname & _).
  case_bool_decide as Hin; [by split|]. rewrite Hname in *. apply eq_None_not_Some in Hin.
  split; simpl; [done|lia| |].
  - intros name l Hl. rewrite lookup_insert_ne; [by apply Hk|]. intros <-.
    apply Hk in Hl. congruence.
  - intros name l. destruct (decide (d_Name d = name)) as [<-|Hne].
    + rewrite lookup_insert_eq. intros [= <-] _. simpl. split_and!; [done..|lia|lia].
    + rewrite lookup_insert_ne by done. intros Hl Hno.
      destruct (Hn name l Hl Hno) as (? & ? & ?). split_and!; [done..|lia|lia].
Qed.

Lemma startOne_runs defs s d :
  is_Some (wanted defs !! d_Name d) -> is_Some (sc_running (startOne (wanted defs) s d) !! d_Name d).
Proof.
  intros [d' Hd]. unfold startOne. rewrite Hd. pose proof (wanted_spec _ _ _ Hd) as (_ & -> & _).
  case_bool_decide; [done|]. simpl. by rewrite lookup_insert_eq.
Qed.

Lemma startOne_mono defs s d name :
  is_Some (sc_running s !! name) -> is_Some (sc_running (startOne (wanted defs) s d) !! name).
Proof.
  intros [l Hl]. unfold startOne. case_match; [|by eexists]. case_bool_decide; [by eexists|]. simpl.
  destruct (decide (d_Name d0 = name)) as [<-|]; [by rewrite lookup_insert_eq; eexists|].
  rewrite lookup_insert_ne by done. by eexists.
Qed.

Lemma startAll_started defs l s0 s :
  started (wanted defs) s0 s -> started (wanted defs) s0 (foldl (startOne (wanted defs)) s l).
Proof. revert s. induction l as [|d l IH]; intros s Hs; simpl; [done|]. by apply IH, startOne_started. Qed.

Lemma startAll_runs defs l s name :
  (is_Some (sc_running s !! name) \/ exists d, d ∈ l /\ d_Name d = name /\ is_Some (wanted defs !! name)) ->
  is_Some (sc_running (foldl (startOne (wanted defs)) s l) !! name).
Proof.
  revert s. induction l as [|d l IH]; intros s; simpl.
  { intros [?|(d & Hd & _)]; [done|]. by apply elem_of_nil in Hd. }
  intros [Hr|(d' & [->|Hd]%elem_of_cons & Hn & Hw)]; apply IH.
  - left. by apply startOne_mono.
  - left. rewrite <-Hn in *. by apply startOne_runs.
  - right. by exists d'.
Qed.

(** A reload leaves exactly one live loop per scheduled enabled job, running
    the definition given for it: loops whose definition is unchanged and which
    still run are the same goroutines as before, every other one was joined
    first and is new. *)
Theorem Reload_spec s defs s' :
  Reload s false defs = (s', Ok tt) ->
  (forall name, l_def <$> (sc_running s' !! name) = wanted defs !! name) /\
  (forall name l, sc_running s' !! name = Some l -> l_done l = false) /\
  (forall name l, sc_running s !! name = Some l -> wanted defs !! name = Some (l_def l) ->
     l_done l = false -> sc_running s' !! name = Some l) /\
  (forall name l, sc_running s' !! name = Some l ->
     sc_running s !! name = Some l \/ (sc_started s <= l_id l < sc_started s')%nat).
Proof.
  unfold Reload. destruct (sc_stopped s) eqn:Est; [done|].
  set (s0 := s <| sc_running := _ |>). intros [= <-].
  set (s1 := foldl _ s0 defs).
  assert (started (wanted defs) s0 s1) as [_ _ Hk Hn].
  { apply startAll_started. split; [done|done|done|]. intros name l Hl Hno. congruence. }
  assert (forall name l, sc_running s0 !! name = Some l <->
            sc_running s !! name = Some l /\ kept defs name l = true) as H0.
  { intros name l. unfold s0. simpl. by rewrite map_lookup_filter_Some. }
  assert (forall name l, kept defs name l = true -> wanted defs !! name = Some (l_def l) /\ l_done l = false) as Hkept.
  { intros name l. unfold kept. destruct (wanted defs !! name) as [d|]; [|done]. intros Hb. bools.
    apply sameDefinition_eq in H. by rewrite H. }
  assert (forall name l, sc_running s1 !! name = Some l ->
            wanted defs !! name = Some (l_def l) /\ l_done l = false /\
            (sc_running s !! name = Some l \/ (sc_started s <= l_id l < sc_started s1)%nat)) as Hrun.
  { intros name l Hl. destruct (sc_running s0 !! name) as [l0|] eqn:E0.
    - pose proof (Hk _ _ E0) as Hl0. rewrite Hl in Hl0. injection Hl0 as ->.
      apply H0 in E0 as [E0 E1]. destruct (Hkept _ _ E1). auto.
    - destruct (Hn name l Hl E0) as (? & ? & ?). auto. }
  split_and!.
  - intros name. destruct (sc_running s1 !! name) as [l|] eqn:El.
    + by destruct (Hrun name l El) as [-> _].
    + destruct (wanted defs !! name) as [d|] eqn:Ed; [|done]. exfalso.
      pose proof (wanted_spec _ _ _ Ed) as (Hin & Hname & _).
      destruct (startAll_runs defs defs s0 name) as [l Hl]; [right; by exists d; rewrite Ed|].
      unfold s1 in El. congruence.
  - intros name l Hl. by destruct (Hrun name l Hl) as (_ & ? & _).
  - intros name l Hl Hw Hd. apply Hk, H0. split; [done|]. unfold kept. rewrite Hw, Hd.
    by rewrite (proj2 (sameDefinition_eq _ _) eq_refl).
  - intros name l Hl. by destruct (Hrun name l Hl) as (_ & _ & ?).
Qed.

(** After Stop no loop runs and no later reload starts one. *)
Theorem Stop_final s ctxErr defs :
  sc_running (Stop s) = ∅ /\
  exists e, Reload (Stop s) ctxErr defs = (Stop s, Err e) /\ (ctxErr = false -> e = ErrStopped).
Proof. split; [done|]. unfold Reload. destruct ctxErr; eexists; (split; [reflexivity|done]). Qed.

(** * A job that fires every minute *)

Module SchedulerDemo.

#[export] Instance parsers : ScheduleParsers := {
  ParseDuration := fun _ => None;
  LoadLocation := fun _ => Some UTC;
  ParseCron := fun _ => Some Demo.minutely
}.

#[export] Instance codec : Codec := {
  encode_definition := d_Name;
  decode_definition := fun name => Some (zeroDefinition <| d_Name := name |>);
  sha256_hex := id
}.

(** An executor that admits every occurrence but those of [refuses]. *)
Definition executor (refuses : Time -> bool) : Executor := {|
  exec_Trigger := fun _ db _ _ t => (db, negb (refuses t));
  exec_RecordMissed := fun _ db _ _ _ t => (db, negb (refuses t));
  exec_StorageDegraded := fun _ => false
|}.

#[export] Instance executor_laws refuses : @ExecutorLaws (executor refuses).
Proof. by split. Qed.

Definition job : Definition_ :=
  zeroDefinition <| d_ID := 1 |> <| d_Name := "backup" |> <| d_Kind := KindJob |>
    <| d_Schedule := "* * * * *" |> <| d_Timezone := "UTC" |> <| d_CatchUp := "latest" |>.

Definition compiled : compiledSchedule := mkCompiled "* * * * *" 0 UTC Demo.minutely.

#[export] Instance compiled_laws : ScheduleLaws compiled.
Proof.
  split; [apply FixedZone_laws|apply Demo.minutely_laws|]. vm_compute. congruence.
Qed.

Lemma job_compiles : compileSchedule job = Ok compiled.
Proof. reflexivity. Qed.

(** The stored position of the job: last fired at [t]. *)
Definition db_at (t : Time) : DB :=
  emptyDB <| schedule_state := {[ 1 := mkSchedRow (scheduleHash job) (UnixMicro_of Minute)
                                         (Some (UnixMicro_of t)) None ]} |>.

Definition start (db : DB) : PassState := mkPassState 0 db zeroMemory [] 0 0 0 0 false.

(** A clock that starts at [t] and advances by [step] at each interaction. *)
Definition world (t step : Time) (gone : nat -> bool) : World :=
  mkWorld (fun n => t + Z.of_nat n * step) gone (fun _ => false)
    (fun _ => mkCtx (fun _ _ => false) (fun _ => false)).

Lemma world_clock t step gone n : Microsecond <= t -> 0 <= step -> Microsecond <= w_now (world t step gone) n.
Proof. simpl. intros. nia. Qed.

Lemma db_at_ok t r : 0 < of_UnixMicro (UnixMicro_of t) ->
  schedule_state (db_at t) !! d_ID job = Some r -> row_ok r.
Proof.
  intros Ht. unfold db_at. simpl. rewrite lookup_singleton_eq. intros [= <-].
  split; [vm_compute; reflexivity|]. split; [|done]. by intros x [= <-].
Qed.

Definition half_minute : World := world (10 * Minute) (30 * Second) (fun n => (60 <=? n)%nat).

(** Catching up from minute 7 at minute 10 and firing on from there. *)
Lemma loop_handles_once_witness :
  let s' := (@loop _ _ (executor (fun _ => false)) half_minute job 10 3 Second [] (start (db_at (7 * Minute)))).2 in
  (length (handled (p_log s')) = 7)%nat /\ NoDup (handled (p_log s')).
Proof.
  split; [vm_compute; reflexivity|].
  refine (proj1 (proj2 (@loop_handles_once _ _ (executor (fun _ => false)) _ half_minute job compiled _
    (start (db_at (7 * Minute))) 10 3 Second _ job_compiles eq_refl eq_refl _))).
  - intros n. apply world_clock; vm_compute; congruence.
  - intros r. apply db_at_ok. vm_compute. reflexivity.
Defined.

(** The executor refuses minute 10: the pass fails with the watermark at minute 7. *)
Lemma failed_pass_keeps_watermark_witness :
  exists s', @runPass _ _ (executor (fun t => t =? 10 * Minute)) half_minute job 10
               (start (db_at (7 * Minute))) = (inr ReturnErr, s') /\
  exists t, (head (p_log s') = Some (FireRefused t) \/ head (p_log s') = Some (MissedRefused t)) /\
            m_last (p_mem s') < t.
Proof.
  set (out := @runPass _ _ (executor (fun t => t =? 10 * Minute)) half_minute job 10
                (start (db_at (7 * Minute)))).
  assert (out = (inr ReturnErr, out.2)) as E by (vm_compute; reflexivity).
  exists out.2. split; [exact E|].
  refine (@failed_pass_keeps_watermark _ _ (executor (fun t => t =? 10 * Minute)) _ half_minute job
    compiled _ (start (db_at (7 * Minute))) out.2 10 _ job_compiles eq_refl eq_refl _ E).
  - intros n. apply world_clock; vm_compute; congruence.
  - intros r. apply db_at_ok. vm_compute. reflexivity.
Defined.

Definition job_row : DefRow := mkDefRow 1 KindJob "" "" 1 true "api" 0 0 None.

(** A position already stored: the write is skipped. *)
Lemma persistNext_equiv_witness :
  let s := (start ((db_at (7 * Minute)) <| definitions := {[ "backup" := job_row ]} |>))
             <| p_anchor := Minute |> <| p_last := 7 * Minute |> <| p_persistedLast := 7 * Minute |>
             <| p_hasPersisted := true |> in
  schedule_state (p_db (@persistNext (executor (fun _ => false)) half_minute job (scheduleHash job)
                          zeroTime s).2) =
  schedule_state (SetScheduleStateWithNext (p_db s) (d_ID job) (scheduleHash job) (p_anchor s) (p_last s)
                    zeroTime).1.
Proof.
  intros s. refine (@persistNext_equiv _ (executor (fun _ => false)) half_minute job (scheduleHash job)
    zeroTime s _ _ eq_refl eq_refl).
  - intros _. vm_compute. reflexivity.
  - vm_compute. reflexivity.
Defined.

(** A reload that keeps one loop, drops one and starts one. *)
Lemma Reload_spec_witness :
  let other := job <| d_Name := "report" |> in
  let fresh := job <| d_Name := "sync" |> in
  let s := (Reload New false [job; other]).1 in
  exists s', Reload s false [job; fresh] = (s', Ok tt) /\
  (forall name, l_def <$> (sc_running s' !! name) = wanted [job; fresh] !! name) /\
  sc_running s' !! "report" = None.
Proof.
  intros other fresh s. exists (Reload s false [job; fresh]).1. split; [reflexivity|].
  split; [|vm_compute; reflexivity].
  exact (proj1 (Reload_spec s [job; fresh] (Reload s false [job; fresh]).1 eq_refl)).
Defined.

(** Minute 10 fired last; the pass starts at minute 11 exactly, or just before it,
    with the clock half a second further at each interaction. *)
Definition just_at : World := world (11 * Minute - Second) (500 * Millisecond) (fun n => (200 <=? n)%nat).
Definition just_before : World := world (11 * Minute - 1200 * Millisecond) (500 * Millisecond) (fun n => (200 <=? n)%nat).

Definition handled_by (w : World) : list Time :=
  handled (p_log (@loop _ _ (executor (fun _ => false)) w job 100 1 Second []
                    (start (db_at (10 * Minute)))).2).

(** An occurrence that falls between the start of a pass and its first wait —
    or exactly on its start — is neither fired nor recorded as missed, although
    it lies after the stored last fire and the job catches up: only the next
    one is fired. *)
Theorem occurrence_dropped :
  handled_by just_at = [12 * Minute] /\ handled_by just_before = [12 * Minute] /\
  nextFireDistinct compiled (10 * Minute) Minute (10 * Minute) = Ok (11 * Minute).
Proof. split_and!; vm_compute; reflexivity. Qed.

End SchedulerDemo.
