(* ===== verification/Supervisor.v ===== *)
(** internal/supervisor and internal/store/worker_state.go: the supervision of
    workers as a state machine.

    The supervisor's shared state is a record; a goroutine — a worker loop, an
    operator call, the continuation of a restart — moves from one critical
    section to the next, and each move is one [Action] of [step].  What a
    goroutine learns from outside (the executor's answers, storage failures,
    which branch a [select] takes) is the [Env] of the action.  [lifecycle] is
    the operator call in progress, [stateMu] is held by a loop in [LSave].
    Reset epochs are unbounded (the code has 2^64 of them). *)

From stdpp Require Import pretty.
From S2P Require Import Prelude GoRuntime Model StoreDB StoreQueue StoreDefs.
Open Scope Z_scope.

(** * Durable exhaustion records (internal/store/worker_state.go) *)

(** encoding/json of a record. *)
Class ExhaustionCodec := {
  encode_exhaustion : WorkerExhaustion -> string;
  decode_exhaustion : string -> option WorkerExhaustion
}.

Definition workerStatePrefix : string := "worker_exhaustion:".
Definition workerStateKey (id : Z) : string := workerStatePrefix ++ pretty id.

Section store.
Context `{ExhaustionCodec}.

(** [INSERT ... SELECT FROM definitions WHERE ... ON CONFLICT DO UPDATE]. *)
Definition SaveWorkerExhaustion (db : DB) (d : Definition_) (state : WorkerExhaustion)
  : DB * Result StoreError unit :=
  if existsb (fun kr => (dr_definition_id kr.2 =? d_ID d) && (dr_revision kr.2 =? d_Revision d) &&
                        bool_decide (dr_deleted_us kr.2 = None)) (map_to_list (definitions db))
  then (db <| meta ::= insert (workerStateKey (d_ID d)) (encode_exhaustion state) |>, Ok tt)
  else (db, Err ErrRevisionConflict).

Definition ClearWorkerExhaustion (db : DB) (name : string) : DB :=
  if String.eqb name ""
  then db <| meta ::= filter (fun kv => String.prefix workerStatePrefix kv.1 = false) |>
  else match definitions db !! name with
       | Some r => db <| meta ::= delete (workerStateKey (dr_definition_id r)) |>
       | None => db
       end.

(** The exhaustion of one worker as [WorkerExhaustions] joins it: [None] when the
    definition has no current record, [Err] when the record does not decode. *)
Definition workerExhaustion (db : DB) (name : string) (r : DefRow) : option (Result StoreError WorkerExhaustion) :=
  if negb (String.eqb (dr_kind r) KindWorker) || negb (bool_decide (dr_deleted_us r = None)) then None else
  match meta db !! workerStateKey (dr_definition_id r) with
  | None => None
  | Some value =>
      match decode_exhaustion value with
      | None => Some (Err ErrCanonical)
      | Some state => if we_Revision state =? dr_revision r then Some (Ok state) else None
      end
  end.

Definition WorkerExhaustions (db : DB) : Result StoreError (gmap string WorkerExhaustion) :=
  foldr (fun kr acc =>
    let! m := acc in
    match workerExhaustion db kr.1 kr.2 with
    | None => Ok m
    | Some (Ok state) => Ok (<[kr.1 := state]> m)
    | Some (Err e) => Err e
    end) (Ok ∅) (map_to_list (definitions db)).

End store.

(** * State *)

(** Where a worker loop is. *)
Inductive Pc :=
| LTop                                     (** head of the loop *)
| LTrigger                                 (** in [exec.Trigger] *)
| LActivate (r : Run)                      (** about to publish the run as active *)
| LWait (r : Run)                          (** waiting for the run or the context *)
| LDrain (r : Run)                         (** context ended: waiting for the stopped run *)
| LFinished (r : Run)                      (** the run is done *)
| LOutcome (r : Run)                       (** taking the outcome *)
| LPoll (r : Run) (backoff : Duration)     (** in [terminalRun] *)
| LRestart (healthy : bool) (lastRunID reason : string)  (** entering [restartAfter] *)
| LPersist (epoch failures : Z) (outcome : WorkerExhaustion) (delay : Duration)
| LSave (epoch failures : Z) (outcome : WorkerExhaustion) (delay : Duration)  (** holds [stateMu] *)
| LRetire (epoch failures : Z)
| LDelay (delay : Duration)                (** the restart timer *)
| LExit                                    (** the deferred function, before waiting *)
| LJoin                                    (** waiting for the stopped run, then cleaning up *).

Record Loop := mkLoop {
  lp_def : Definition_;
  lp_canceled : bool;
  lp_lastRunID : string;
  lp_pc : Pc
}.

#[export] Instance Loop_eta : Eta Loop := fun l => mkLoop
  (lp_def l) (lp_canceled l) (lp_lastRunID l) (lp_pc l).

(** The operator call that holds [lifecycle]. *)
Inductive Op :=
| OIdle
| OReloadReset (desired : gmap string Definition_)
| OReloadCancel (desired : gmap string Definition_)
| OReloadWait (desired : gmap string Definition_) (waits : list nat)
| OStartReset (d : Definition_)
| OStart (d : Definition_)
| OStartWait (d : Definition_) (done : nat)
| ORestartReset (d : Definition_)
| ORestartRead (d : Definition_)
| ORestartStop (d : Definition_) (done cancel : option nat)
| ORestartSpawn (d : Definition_) (done : option nat).

(** Loops and their [done] channels are identified by the order they were started
    in; a channel is closed when its loop is gone.  [stops] are the stop requests
    made to the executor: the run and whether it was a shutdown stop. *)
Record Sup := mkSup {
  db : DB;
  epochs : gmap string Z;
  epochBase : Z;
  epochSeq : Z;
  exhausted : gmap string WorkerExhaustion;
  pending : gset string;
  started : bool;                       (** s.ctx != nil *)
  closing : bool;
  holds : gset string;
  failures : gmap string Z;
  active : gmap string string;
  workerCancels : gmap string nat;
  workerDone : gmap string nat;
  workerDefs : gmap string Definition_;
  retiring : gset string;
  loops : gmap nat Loop;
  nextLoop : nat;
  op : Op;
  restarts : list (Definition_ * Z * option nat);   (** continuations of [Restart] *)
  stops : list (string * bool);
  notified : list WorkerExhaustion      (** onExhausted calls *)
}.

#[export] Instance Sup_eta : Eta Sup := fun s => mkSup
  (db s) (epochs s) (epochBase s) (epochSeq s) (exhausted s) (pending s) (started s) (closing s)
  (holds s) (failures s) (active s) (workerCancels s) (workerDone s) (workerDefs s) (retiring s)
  (loops s) (nextLoop s) (op s) (restarts s) (stops s) (notified s).

Definition New (db : DB) : Sup :=
  mkSup db ∅ 0 0 ∅ ∅ false false ∅ ∅ ∅ ∅ ∅ ∅ ∅ ∅ 0 OIdle [] [] [].

Inductive TriggerError := ErrShutdown | ErrTrigger (message : string).

(** What a goroutine learns from outside at a step. *)
Inductive Env :=
| ENone
| ETriggered (r : Run) (err : option TriggerError)
| EDone                                   (** the run is done, or unknown to the executor *)
| ECtx                                    (** [<-ctx.Done()] *)
| ETaken (r : option Run)                 (** [TakeOutcome] *)
| EPoll (finalizing : bool) (row : option Run)   (** [Finalizing] and [store.Run] *)
| EStore (fails : bool)                   (** the statement runs, or storage fails *)
| ETimer
| EStopped.                               (** [<-s.stopped] *)

Inductive Action :=
| ALoop (id : nat) (e : Env) (now : Time)
| AReload (defs : list Definition_)
| AStartDefinition (d : Definition_)
| ARestart (d : Definition_)
| AOp (e : Env)                           (** the operator call moves on *)
| AContinue (n : nat)                     (** the n-th restart continuation runs *)
| AStop (name : string)
| ABeginShutdown.

Section machine.
Context `{Codec} `{ExhaustionCodec}.

(** * Shared pieces *)

Definition held (s : Sup) (name : string) : bool := bool_decide (name ∈ holds s).

Definition failuresOf (s : Sup) (name : string) : Z := default 0 (failures s !! name).

Definition epochLocked (s : Sup) (name : string) : Z := default (epochBase s) (epochs s !! name).

(** [s.exec.Stop(id)], or [StopForShutdown] while closing. *)
Definition stopRun (s : Sup) (id : string) : Sup := s <| stops ::= cons (id, closing s) |>.

Definition sameDefinition (a b : Definition_) : bool :=
  (d_Revision a =? d_Revision b) && String.eqb (Canonical a).2 (Canonical b).2.

Definition cancelLoop (s : Sup) (id : nat) : Sup :=
  s <| loops ::= alter (fun l => l <| lp_canceled := true |>) id |>.

Definition setPc (s : Sup) (id : nat) (pc : Pc) : Sup :=
  s <| loops ::= alter (fun l => l <| lp_pc := pc |>) id |>.

(** [startLocked] and [launch]: the new loop inherits the supervisor's context. *)
Definition startLocked (s : Sup) (d : Definition_) : Sup :=
  let id := nextLoop s in
  s <| failures ::= insert (d_Name d) 0 |>
    <| holds ::= fun h => h ∖ {[ d_Name d ]} |>
    <| workerCancels ::= insert (d_Name d) id |>
    <| workerDone ::= insert (d_Name d) id |>
    <| workerDefs ::= insert (d_Name d) d |>
    <| retiring ::= fun r => r ∖ {[ d_Name d ]} |>
    <| loops ::= insert id (mkLoop d (closing s) "" LTop) |>
    <| nextLoop := S id |>.

(** [resetExhaustion]: [fails] is a failure of the clearing statement. *)
Definition resetExhaustion (s : Sup) (name : string) (fails : bool) : Sup * Result unit unit :=
  if closing s then (s, Err tt) else
  if fails && negb (String.eqb name "") then (s, Err tt) else
  let s := if fails then s else s <| db ::= fun db => ClearWorkerExhaustion db name |> in
  let s := s <| epochSeq ::= Z.succ |> in
  let s := if String.eqb name ""
           then s <| epochBase := epochSeq s |> <| epochs := ∅ |> <| failures := ∅ |>
                  <| exhausted := ∅ |> <| pending := ∅ |>
           else s <| epochs ::= insert name (epochSeq s) |> <| failures ::= insert name 0 |>
                  <| exhausted ::= delete name |> <| pending ::= fun p => p ∖ {[ name ]} |> in
  (s, if fails then Err tt else Ok tt).

(** [stateMu] is free. *)
Definition saving (l : Loop) : bool := match lp_pc l with LSave _ _ _ _ => true | _ => false end.
Definition stateFree (s : Sup) : bool :=
  forallb (fun kl => negb (saving kl.2)) (map_to_list (loops s)).

(** * The worker loop *)

Fixpoint delayLoop (n : nat) (delay limit : Duration) : Duration :=
  match n with
  | O => delay
  | S n => if delay <? limit then delayLoop n (wrap64 (delay * 2)) limit else delay
  end.

Definition restartDelay (d : Definition_) (failures : Z) : Duration :=
  let delay := wrap64 (d_RestartDelay d * Second) in
  let limit := wrap64 (d_RestartBackoffMax d * Second) in
  if limit <=? 0 then delay else
  Z.min (delayLoop (Z.to_nat (failures - 1)) delay limit) limit.

Definition exhaustionReason (attempts : Z) (reason : string) : string :=
  String.substring 0 512
    ("restart attempts exhausted after " ++ pretty attempts ++ " failures: " ++ reason).

(** [restart = "never"], or success under [on-failure]. *)
Definition noRestart (d : Definition_) (status : string) : bool :=
  String.eqb (d_Restart d) "never" ||
  (String.eqb (d_Restart d) "on-failure" && String.eqb status "succeeded").

Definition healthyRun (d : Definition_) (r : Run) : bool :=
  String.eqb (r_Status r) "succeeded" ||
  match r_StartedAt r, r_EndedAt r with
  | Some a, Some b => wrap64 (d_HealthyAfter d * Second) <=? Sub b a
  | _, _ => false
  end.

(** The restart decision after a terminal outcome. *)
Definition afterOutcome (s : Sup) (id : nat) (d : Definition_) (current : Run) : Sup :=
  if held s (d_Name d) || noRestart d (r_Status current) then setPc s id LExit
  else setPc s id (LRestart (healthyRun d current) (r_ID current) (r_EndReason current)).

(** The first critical section of [restartAfter]. *)
Definition restartAfter (s : Sup) (id : nat) (l : Loop) (healthy : bool) (lastRunID reason : string)
    (now : Time) : Sup :=
  let d := lp_def l in
  let name := d_Name d in
  if lp_canceled l then setPc s id LExit else
  let f := if healthy then 0 else failuresOf s name + 1 in
  let s := s <| failures ::= insert name f |> in
  let epoch := epochLocked s name in
  if (0 <? d_RestartBackoffMax d) || (f <? d_MaxRestartAttempts d)
  then setPc s id (LDelay (restartDelay d f))
  else setPc s id (LPersist epoch f
         (mkWorkerExhaustion (exhaustionReason f reason) lastRunID f (d_Revision d) now) Second).

(** The exit of the loop: its entries go, and [done] is closed. *)
Definition cleanup (s : Sup) (id : nat) (name : string) : Sup :=
  s <| active ::= delete name |> <| workerCancels ::= delete name |> <| workerDefs ::= delete name |>
    <| retiring ::= fun r => r ∖ {[ name ]} |> <| workerDone ::= delete name |>
    <| loops ::= delete id |>.

Definition clearActive (s : Sup) (name id : string) : Sup :=
  if bool_decide (active s !! name = Some id) then s <| active ::= delete name |> else s.

(** One poll of [terminalRun], and its timer. *)
Definition terminalRun (s : Sup) (id : nat) (l : Loop) (r : Run) (backoff : Duration) (e : Env) : option Sup :=
  let d := lp_def l in
  let name := d_Name d in
  match e with
  | EPoll finalizing (Some current) =>
      if Terminal (r_Status current) then Some (afterOutcome s id d current)
      else if negb finalizing then
        if held s name || String.eqb (d_Restart d) "never" then Some (setPc s id LExit)
        else Some (setPc s id (LRestart false (r_ID r) "terminal persistence abandoned"))
      else if lp_canceled l then Some (setPc s id LExit)
      else Some (setPc s id (LPoll r (Z.min (backoff * 2) (30 * Second))))
  | EPoll _ None =>
      if lp_canceled l then Some (setPc s id LExit)
      else Some (setPc s id (LPoll r (Z.min (backoff * 2) (30 * Second))))
  | ECtx => if lp_canceled l then Some (setPc s id LExit) else None
  | _ => None
  end.

(** The loop of [persistExhaustion]: the check of the epoch, then the write under
    [stateMu]. *)
Definition persistExhaustion (s : Sup) (id : nat) (l : Loop) (e : Env) : option Sup :=
  let d := lp_def l in
  let name := d_Name d in
  match lp_pc l, e with
  | LPersist epoch f outcome delay, ENone =>
      if negb (stateFree s) then None else
      if lp_canceled l || negb (epochLocked s name =? epoch)
      then Some (setPc s id (LDelay (restartDelay d f)))
      else Some (setPc (s <| exhausted ::= insert name outcome |> <| pending ::= union {[ name ]} |>)
                   id (LSave epoch f outcome delay))
  | LSave epoch f outcome delay, EStore fails =>
      let '(db', r) := if fails then (db s, None)
                       else let '(db', r) := SaveWorkerExhaustion (db s) d outcome in (db', Some r) in
      let s := s <| db := db' |> in
      match r with
      | Some (Ok _) => Some (setPc (s <| pending ::= fun p => p ∖ {[ name ]} |>
                                      <| notified ::= cons outcome |>) id (LRetire epoch f))
      | Some (Err ErrRevisionConflict) =>
          Some (setPc (s <| pending ::= fun p => p ∖ {[ name ]} |> <| exhausted ::= delete name |>)
                  id (LRetire epoch f))
      | _ => if lp_canceled l then Some (setPc s id (LDelay (restartDelay d f)))
             else Some (setPc s id (LPersist epoch f outcome (Z.min (2 * delay) (30 * Second))))
      end
  | _, _ => None
  end.

(** One move of a worker loop.  The retry timers of [terminalRun] and
    [persistExhaustion] run at least half a second, so a [select] chooses them
    only while the context has not ended. *)
Definition loopStep (s : Sup) (id : nat) (l : Loop) (e : Env) (now : Time) : option Sup :=
  let d := lp_def l in
  let name := d_Name d in
  match lp_pc l, e with
  | LTop, ENone => Some (setPc s id (if lp_canceled l || held s name then LExit else LTrigger))
  | LTrigger, ETriggered r err =>
      let last := if String.eqb (r_ID r) "" then lp_lastRunID l else r_ID r in
      let s := s <| loops ::= alter (fun l => l <| lp_lastRunID := last |>) id |> in
      match err with
      | None => Some (setPc s id (LActivate r))
      | Some err =>
          if lp_canceled l || match err with ErrShutdown => true | _ => false end || held s name
          then Some (setPc s id LExit)
          else if negb (Terminal (r_Status r)) then
            if String.eqb (d_Restart d) "never" then Some (setPc s id LExit)
            else Some (setPc s id (LRestart false last
                   ("start_error: " ++ match err with ErrTrigger m => m | ErrShutdown => "" end)))
          else Some (setPc s id (LActivate r))
      end
  | LActivate r, ENone =>
      let s := s <| active ::= insert name (r_ID r) |> in
      let s := if held s name then stopRun s (r_ID r) else s in
      Some (setPc s id (LWait r))
  | LWait r, EDone => Some (setPc s id (LFinished r))
  | LWait r, ECtx => if lp_canceled l then Some (setPc (stopRun s (r_ID r)) id (LDrain r)) else None
  | LDrain r, EDone => Some (setPc (clearActive s name (r_ID r)) id LExit)
  | LFinished r, ENone => Some (setPc (clearActive s name (r_ID r)) id (LOutcome r))
  | LOutcome r, ETaken (Some current) => Some (afterOutcome s id d current)
  | LOutcome r, ETaken None => Some (setPc s id (LPoll r (500 * Millisecond)))
  | LPoll r backoff, _ => terminalRun s id l r backoff e
  | LRestart healthy lastRunID reason, ENone => Some (restartAfter s id l healthy lastRunID reason now)
  | LPersist epoch f outcome delay, _ | LSave epoch f outcome delay, _ =>
      persistExhaustion s id l e
  | LRetire epoch f, ENone =>
      if epochLocked s name =? epoch
      then Some (setPc (s <| retiring ::= union {[ name ]} |>) id LExit)
      else Some (setPc s id (LDelay (restartDelay d f)))
  | LDelay _, ECtx => if lp_canceled l then Some (setPc s id LExit) else None
  | LDelay _, ETimer => Some (setPc s id (if held s name then LExit else LTop))
  | LExit, ENone =>
      match active s !! name with
      | Some r => Some (setPc (if String.eqb r "" then s else stopRun s r) id LJoin)
      | None => Some (setPc s id LJoin)
      end
  | LJoin, EDone => Some (cleanup s id name)
  | _, _ => None
  end.

(** * Operator calls *)

Definition desiredWorkers (defs : list Definition_) : gmap string Definition_ :=
  foldl (fun m d => if String.eqb (d_Kind d) KindWorker && IsEnabled d && DoesAutostart d
                    then <[d_Name d := d]> m else m) ∅ defs.

(** The loops a reload keeps. *)
Definition keeps (s : Sup) (desired : gmap string Definition_) (name : string) : bool :=
  match desired !! name, workerDefs s !! name with
  | Some want, Some d => sameDefinition d want && negb (held s name) &&
                         negb (bool_decide (name ∈ retiring s))
  | _, _ => false
  end.

(** The hold is set under the mutex and the executor is asked after it is released,
    for the run read under it.  Both are one step here: nothing reads [stops], and a
    request only names that run, so it can be moved back to the moment of the hold;
    a request that finds its run ended does nothing. *)
Definition Stop (s : Sup) (name : string) : Sup :=
  let s := s <| holds ::= union {[ name ]} |> in
  match active s !! name with
  | Some id => if String.eqb id "" then s else s <| stops ::= cons (id, false) |>
  | None => s
  end.

Definition BeginShutdown (s : Sup) : Sup :=
  let s := s <| closing := true |> in
  if started s then s <| loops ::= fmap (fun l => l <| lp_canceled := true |>) |> else s.

(** The final section of [startDefinitionLocked]. *)
Definition launchIfFree (s : Sup) (d : Definition_) (reserved : bool) : Sup :=
  if negb (closing s) && started s && negb reserved && String.eqb (d_Kind d) KindWorker && IsEnabled d
  then startLocked s d else s.

(** The first section of [startDefinitionLocked]; a registered loop always has a
    [done] channel. *)
Definition startDefinitionLocked (s : Sup) (d : Definition_) : Sup :=
  let name := d_Name d in
  let s := s <| holds ::= fun h => h ∖ {[ name ]} |> <| failures ::= insert name 0 |> in
  match workerCancels s !! name with
  | Some id =>
      if String.eqb (default "" (active s !! name)) ""
      then match workerDone s !! name with
           | Some done => (cancelLoop s id) <| op := OStartWait d done |>
           | None => s <| op := OIdle |>
           end
      else s <| op := OIdle |>
  | None => (launchIfFree s d false) <| op := OIdle |>
  end.

Definition gone (s : Sup) (id : nat) : bool := bool_decide (loops s !! id = None).

(** The sections of [Reload]. *)
Definition ReloadStep (s : Sup) (e : Env) : option Sup :=
  match op s, e with
  | OReloadReset desired, EStore fails =>
      if negb (stateFree s) then None else
      if closing s then Some (s <| op := OIdle |>) else
      Some ((resetExhaustion s "" fails).1 <| op := OReloadCancel desired |>)
  | OReloadCancel desired, ENone =>
      let dropped := filter (fun ni => keeps s desired ni.1 = false) (workerCancels s) in
      let waits := omap (fun ni => workerDone s !! ni.1) (map_to_list dropped) in
      let desired := filter (fun nd => bool_decide (is_Some (workerCancels s !! nd.1)) &&
                                       keeps s desired nd.1 = false) desired in
      let s := foldr (fun ni s => cancelLoop s ni.2) s (map_to_list dropped) in
      Some (s <| op := OReloadWait desired waits |>)
  | OReloadWait desired waits, ENone =>
      if negb (forallb (gone s) waits) then None else
      if closing s then Some (s <| op := OIdle |>) else
      let s := s <| holds := ∅ |> in
      Some ((foldr (fun nd s => startLocked s nd.2) s (map_to_list desired)) <| op := OIdle |>)
  | OReloadWait _ _, EStopped => if closing s then Some (s <| op := OIdle |>) else None
  | _, _ => None
  end.

(** The sections of [StartDefinition]. *)
Definition StartDefinition (s : Sup) (e : Env) : option Sup :=
  match op s, e with
  | OStartReset d, EStore fails =>
      if negb (stateFree s) then None else
      match resetExhaustion s (d_Name d) fails with
      | (s, Ok _) => Some (s <| op := OStart d |>)
      | (s, Err _) => Some (s <| op := OIdle |>)
      end
  | OStart d, ENone => Some (startDefinitionLocked s d)
  | OStartWait d done, ENone =>
      if gone s done then Some ((launchIfFree s d false) <| op := OIdle |>) else None
  | OStartWait d done, EStopped => if closing s then Some (s <| op := OIdle |>) else None
  | _, _ => None
  end.

(** The sections of [Restart], up to the goroutine it leaves behind. *)
Definition Restart (s : Sup) (e : Env) : option Sup :=
  match op s, e with
  | ORestartReset d, EStore fails =>
      if negb (stateFree s) then None else
      match resetExhaustion s (d_Name d) fails with
      | (s, Ok _) => Some (s <| op := ORestartRead d |>)
      | (s, Err _) => Some (s <| op := OIdle |>)
      end
  | ORestartRead d, ENone =>
      if closing s then Some (s <| op := OIdle |>)
      else Some (s <| op := ORestartStop d (workerDone s !! d_Name d) (workerCancels s !! d_Name d) |>)
  | ORestartStop d done cancel, ENone =>
      let s := Stop s (d_Name d) in
      let s := match cancel with Some id => cancelLoop s id | None => s end in
      Some (s <| op := ORestartSpawn d done |>)
  | ORestartSpawn d done, ENone =>
      if closing s then Some (s <| op := OIdle |>)
      else Some (s <| restarts ::= cons (d, epochLocked s (d_Name d), done) |> <| op := OIdle |>)
  | _, _ => None
  end.

Definition opStep (s : Sup) (e : Env) : option Sup :=
  match op s with
  | OIdle => None
  | OReloadReset _ | OReloadCancel _ | OReloadWait _ _ => ReloadStep s e
  | OStartReset _ | OStart _ | OStartWait _ _ => StartDefinition s e
  | ORestartReset _ | ORestartRead _ | ORestartStop _ _ _ | ORestartSpawn _ _ => Restart s e
  end.

(** The goroutine [Restart] leaves behind: it waits for the old loop, takes
    [lifecycle] and starts the replacement unless a newer reset owns the worker. *)
Definition continueRestart (s : Sup) (n : nat) : option Sup :=
  match restarts s !! n, op s with
  | Some (d, epoch, done), OIdle =>
      let s := s <| restarts ::= fun l => take n l ++ drop (S n) l |> in
      if closing s then Some s else
      if negb (match done with Some id => gone s id | None => true end) then None else
      if epochLocked s (d_Name d) =? epoch then Some (s <| op := OStart d |>) else Some s
  | _, _ => None
  end.

Definition step (s : Sup) (a : Action) : option Sup :=
  match a with
  | ALoop id e now => match loops s !! id with Some l => loopStep s id l e now | None => None end
  | AReload defs =>
      match op s with
      | OIdle => if closing s then Some s
                 else Some (s <| started := true |> <| op := OReloadReset (desiredWorkers defs) |>)
      | _ => None
      end
  | AStartDefinition d => match op s with OIdle => Some (s <| op := OStartReset d |>) | _ => None end
  | ARestart d => match op s with OIdle => Some (s <| op := ORestartReset d |>) | _ => None end
  | AOp e => opStep s e
  | AContinue n => continueRestart s n
  | AStop name => Some (Stop s name)
  | ABeginShutdown => Some (BeginShutdown s)
  end.

(** * Reported state *)

Record State := mkState {
  st_Held : bool;
  st_Active : bool;
  st_Failures : Z;
  st_Status : string;
  st_Exhaustion : option WorkerExhaustion;
  st_ExhaustionPending : bool
}.

Definition stateLocked (s : Sup) (name : string) : State :=
  let active_ := bool_decide (is_Some (active s !! name)) in
  let status := if active_ then "running"
                else if bool_decide (is_Some (workerCancels s !! name)) then "restarting" else "stopped" in
  let status := if held s name then "held" else status in
  match exhausted s !! name with
  | Some outcome => mkState (held s name) active_ (failuresOf s name) "exhausted" (Some outcome)
                      (bool_decide (name ∈ pending s))
  | None => mkState (held s name) active_ (failuresOf s name) status None false
  end.

Definition States (s : Sup) (names : list string) : gmap string State :=
  list_to_map ((fun name => (name, stateLocked s name)) <$> names).

Definition withDurable (outcome : WorkerExhaustion) (st : State) : State :=
  match st_Exhaustion st with
  | Some _ => st
  | None => mkState (st_Held st) (st_Active st) (we_Attempts outcome) "exhausted" (Some outcome)
              (st_ExhaustionPending st)
  end.

Definition ReadStates (s : Sup) (names : list string) : Result StoreError (gmap string State) :=
  let! outcomes := WorkerExhaustions (db s) in
  Ok (map_imap (fun name st => Some (match outcomes !! name with
                                     | Some o => withDurable o st
                                     | None => st
                                     end)) (States s names)).

End machine.
