(* ===== verification/SupervisorFacts.v ===== *)
(** Correctness of supervision: one loop per worker, holds, restart budgets and
    shutdown, as invariants of every reachable state. *)

From stdpp Require Import pretty.
From S2P Require Import Prelude GoRuntime Model StoreDB StoreQueue StoreDefs Supervisor.
Open Scope Z_scope.

(** * Restart delays *)

Lemma delayLoop_spec n delay limit :
  0 < delay -> 0 < limit <= 86400 * Second ->
  Z.min (delayLoop n delay limit) limit = Z.min (delay * 2 ^ Z.of_nat n) limit.
Proof.
  revert delay. induction n as [|n IH]; intros delay Hd Hl.
  { simpl. by rewrite Z.mul_1_r. }
  rewrite Nat2Z.inj_succ, Z.pow_succ_r by lia. cbn [delayLoop].
  assert (1 <= 2 ^ Z.of_nat n) by (apply (Z.pow_le_mono_r 2 0); lia).
  destruct (delay <? limit) eqn:E; bools.
  - rewrite wrap64_id by (unfold in64, minInt64, maxInt64, Second in *; lia).
    rewrite IH by lia. f_equal. lia.
  - rewrite !Z.min_r; nia.
Qed.

(** The delay before the n-th consecutive unhealthy restart is
    [restart_delay * 2^(n-1)] capped at [restart_backoff_max], and
    [restart_delay] when no cap is set; no setting accepted by the
    configuration overflows. *)
Theorem restartDelay_spec d n :
  1 <= d_RestartDelay d <= 86400 -> 0 <= d_RestartBackoffMax d <= 86400 -> 0 < n ->
  restartDelay d n =
    if d_RestartBackoffMax d =? 0 then d_RestartDelay d * Second
    else Z.min (d_RestartDelay d * Second * 2 ^ (n - 1)) (d_RestartBackoffMax d * Second).
Proof.
  intros Hd Hb Hn. unfold restartDelay.
  rewrite !wrap64_id by (unfold in64, minInt64, maxInt64, Second; lia).
  destruct (d_RestartBackoffMax d =? 0) eqn:E; bools.
  - by rewrite (proj2 (Z.leb_le _ _)) by (rewrite E; lia).
  - rewrite (proj2 (Z.leb_gt _ _)) by (unfold Second; lia).
    rewrite delayLoop_spec by (unfold Second; lia). by rewrite Z2Nat.id by lia.
Qed.

Lemma restartDelay_spec_witness :
  restartDelay (zeroDefinition <| d_RestartDelay := 5 |> <| d_RestartBackoffMax := 60 |>) 4 = 40 * Second.
Proof. rewrite restartDelay_spec by (simpl; lia). reflexivity. Defined.

(** * Invariants *)

Definition name_of (l : Loop) : string := d_Name (lp_def l).

(** Definitions the configuration accepts. *)
Definition def_ok (d : Definition_) : Prop := 1 <= d_MaxRestartAttempts d.

(** The registration of loops: at most one per worker name, and its entries. *)
Record registered (s : Sup) : Prop := {
  reg_loop : forall id l, loops s !! id = Some l ->
    workerCancels s !! name_of l = Some id /\ workerDone s !! name_of l = Some id /\
    workerDefs s !! name_of l = Some (lp_def l) /\ (id < nextLoop s)%nat /\ def_ok (lp_def l);
  reg_cancel : forall n id, workerCancels s !! n = Some id ->
    exists l, loops s !! id = Some l /\ name_of l = n;
  reg_done : forall n id, workerDone s !! n = Some id ->
    exists l, loops s !! id = Some l /\ name_of l = n;
  reg_active : forall n r, active s !! n = Some r -> is_Some (workerCancels s !! n)
}.

(** A held worker's active run has been asked to stop. *)
Definition holding (s : Sup) : Prop :=
  forall n r, n ∈ holds s -> active s !! n = Some r -> r <> "" -> exists b, (r, b) ∈ stops s.

(** Once closing, every loop is canceled. *)
Definition closed (s : Sup) : Prop :=
  closing s = true -> forall id l, loops s !! id = Some l -> lp_canceled l = true.

(** Before the first reload there is no context and no loop. *)
Definition fresh (s : Sup) : Prop := started s = false -> loops s = ∅.

(** The failure budget of a loop: it is not used up, unless the loop is canceled,
    restarts with backoff, is leaving, or is recording the exhaustion of the
    current epoch. *)
Definition within (s : Sup) (l : Loop) : Prop :=
  lp_canceled l = true \/ 0 < d_RestartBackoffMax (lp_def l) \/
  failuresOf s (name_of l) < d_MaxRestartAttempts (lp_def l) \/
  match lp_pc l with
  | LExit | LJoin => True
  | LPersist epoch _ _ _ | LSave epoch _ _ _ | LRetire epoch _ => epoch = epochLocked s (name_of l)
  | _ => False
  end.

(** The epoch whose exhaustion a loop is recording. *)
Definition claims (pc : Pc) (e : Z) : Prop :=
  match pc with
  | LPersist epoch _ _ _ | LSave epoch _ _ _ | LRetire epoch _ => epoch = e
  | _ => False
  end.

Definition budgeted (s : Sup) : Prop := forall id l, loops s !! id = Some l -> within s l.

(** Recorded epochs are never ahead of the reset counter. *)
Definition epochs_ok (s : Sup) : Prop :=
  epochBase s <= epochSeq s /\ (forall n e, epochs s !! n = Some e -> e <= epochSeq s) /\
  forall id l e, loops s !! id = Some l -> claims (lp_pc l) e -> e <= epochSeq s.

(** The names and definitions of an operator call in progress. *)
Definition desired_ok (m : gmap string Definition_) : Prop :=
  forall n d, m !! n = Some d -> d_Name d = n /\ def_ok d.

Definition op_ok (s : Sup) : Prop :=
  match op s with
  | OIdle => True
  | OReloadReset m | OReloadCancel m => desired_ok m /\ started s = true
  | OReloadWait m waits => desired_ok m /\ started s = true /\
      forall n d, m !! n = Some d ->
        workerCancels s !! n = None \/ exists id, workerDone s !! n = Some id /\ id ∈ waits
  | OStartWait d done => def_ok d /\
      (workerCancels s !! d_Name d = None \/ workerDone s !! d_Name d = Some done)
  | OStartReset d | OStart d | ORestartReset d | ORestartRead d => def_ok d
  | ORestartStop d _ _ | ORestartSpawn d _ => def_ok d
  end /\ forall x, x ∈ restarts s -> def_ok x.1.1.

Record Inv (s : Sup) : Prop := {
  inv_registered : registered s;
  inv_holding : holding s;
  inv_closed : closed s;
  inv_fresh : fresh s;
  inv_budget : budgeted s;
  inv_epochs : epochs_ok s;
  inv_op : op_ok s
}.

Definition action_ok (a : Action) : Prop :=
  match a with
  | AReload defs => Forall def_ok defs
  | AStartDefinition d | ARestart d => def_ok d
  | _ => True
  end.

(** * Moves of a worker loop *)

Lemma alter_Some {A} (m : gmap nat A) i x (f : A -> A) :
  m !! i = Some x -> alter f i m = <[i := f x]> m.
Proof.
  intros Hx. apply map_eq. intros j. destruct (decide (i = j)) as [<-|Hne].
  - by rewrite lookup_alter_eq, Hx, lookup_insert_eq.
  - by rewrite lookup_alter_ne, lookup_insert_ne.
Qed.

(** What a move of loop [id] (other than its last) may change. *)
Record moved (s s' : Sup) (id : nat) (l : Loop) : Prop := {
  mv_loops : exists l', loops s' = <[id := l']> (loops s) /\ lp_def l' = lp_def l /\
    lp_canceled l' = lp_canceled l /\ (within s l -> within s' l') /\
    (forall e, claims (lp_pc l') e -> claims (lp_pc l) e \/ e = epochLocked s (name_of l));
  mv_reg : workerCancels s' = workerCancels s /\ workerDone s' = workerDone s /\
    workerDefs s' = workerDefs s /\ nextLoop s' = nextLoop s;
  mv_op : op s' = op s /\ restarts s' = restarts s /\ closing s' = closing s /\
    holds s' = holds s /\ started s' = started s;
  mv_epochs : epochs s' = epochs s /\ epochBase s' = epochBase s /\ epochSeq s' = epochSeq s;
  mv_failures : forall n, n <> name_of l -> failuresOf s' n = failuresOf s n;
  mv_active : forall n r, active s' !! n = Some r -> active s !! n = Some r \/
    (n = name_of l /\ (n ∈ holds s -> exists b, (r, b) ∈ stops s'));
  mv_stops : forall x, x ∈ stops s -> x ∈ stops s'
}.

Section moves.
Context `{Codec} `{ExhaustionCodec}.

(** A move ends by setting the program counter. *)
Lemma moved_setPc s s1 id l l1 pc :
  loops s1 = <[id := l1]> (loops s) -> lp_def l1 = lp_def l -> lp_canceled l1 = lp_canceled l ->
  workerCancels s1 = workerCancels s -> workerDone s1 = workerDone s -> workerDefs s1 = workerDefs s ->
  nextLoop s1 = nextLoop s -> op s1 = op s -> restarts s1 = restarts s -> closing s1 = closing s ->
  holds s1 = holds s -> started s1 = started s ->
  epochs s1 = epochs s -> epochBase s1 = epochBase s -> epochSeq s1 = epochSeq s ->
  (forall n, n <> name_of l -> failuresOf s1 n = failuresOf s n) ->
  (forall n r, active s1 !! n = Some r -> active s !! n = Some r \/
     (n = name_of l /\ (n ∈ holds s -> exists b, (r, b) ∈ stops s1))) ->
  (forall x, x ∈ stops s -> x ∈ stops s1) ->
  (within s l -> within (setPc s1 id pc) (l1 <| lp_pc := pc |>)) /\
  (forall e, claims pc e -> claims (lp_pc l) e \/ e = epochLocked s (name_of l)) ->
  moved s (setPc s1 id pc) id l.
Proof.
  intros Hl Hd Hc. intros. split; simpl; try done.
  exists (l1 <| lp_pc := pc |>). split; [|done]. rewrite Hl.
  rewrite (alter_Some _ id l1) by apply lookup_insert_eq. apply insert_insert_eq.
Qed.

(** Program counters without a claim on an epoch keep the budget. *)
Definition plain (pc : Pc) : bool :=
  match pc with
  | LExit | LJoin | LPersist _ _ _ _ | LSave _ _ _ _ | LRetire _ _ => false
  | _ => true
  end.

Lemma within_plain s s' l l' :
  plain (lp_pc l) = true -> lp_def l' = lp_def l -> lp_canceled l' = lp_canceled l ->
  failuresOf s' (name_of l) = failuresOf s (name_of l) -> within s l -> within s' l'.
Proof.
  unfold within, name_of. intros Hp -> -> -> [Hx|[Hx|[Hx|Hx]]]; [by left|by right; left|by right; right; left|].
  by destruct (lp_pc l).
Qed.

Lemma clearActive_spec s name id :
  exists m, clearActive s name id = s <| active := m |> /\
  forall n r, m !! n = Some r -> active s !! n = Some r.
Proof.
  unfold clearActive. case_bool_decide.
  - exists (delete name (active s)). split; [done|]. intros n r Hr.
    by apply lookup_delete_Some in Hr as [_ ?].
  - exists (active s). by split; [destruct s|].
Qed.

#[local] Ltac keep_budget l := split;
  [try (apply (within_plain _ _ l);
        [match goal with E : lp_pc l = _ |- _ => by rewrite E end|done..])
  |intros ?; try done; try (by case_match)].
#[local] Ltac plain_move l := eapply (moved_setPc _ _ _ l l); simpl; try done;
  [symmetry; by apply insert_id | try by left | keep_budget l].

#[local] Ltac stop_move l := eapply (moved_setPc _ _ _ l l); simpl; try done;
  [symmetry; by apply insert_id | by left | by right | keep_budget l].

Lemma restartAfter_moved s id l healthy last reason now :
  loops s !! id = Some l -> lp_pc l = LRestart healthy last reason ->
  moved s (restartAfter s id l healthy last reason now) id l.
Proof.
  intros Hl Hpc. unfold restartAfter. destruct (lp_canceled l) eqn:Ec.
  { plain_move l. }
  set (f := if healthy then 0 else _).
  set (s1 := s <| failures ::= insert (d_Name (lp_def l)) f |>).
  assert (forall n, n <> name_of l -> failuresOf s1 n = failuresOf s n) as Hf.
  { intros n Hn. unfold failuresOf, s1. simpl. by rewrite lookup_insert_ne by (intros E; by apply Hn). }
  assert (failuresOf s1 (name_of l) = f) as Hf1.
  { unfold failuresOf, s1, name_of. simpl. by rewrite lookup_insert_eq. }
  destruct ((_ <? _) || (f <? _)) eqn:Eb.
  - eapply (moved_setPc _ _ _ l l); simpl; try done; [symmetry; by apply insert_id|by left|].
    split; [|done]. intros _. unfold within. simpl. apply orb_true_iff in Eb as [Eb|Eb]; bools; [by right; left|].
    right; right; left. change (failuresOf s1 (name_of l) < d_MaxRestartAttempts (lp_def l)). by rewrite Hf1.
  - eapply (moved_setPc _ _ _ l l); simpl; try done; [symmetry; by apply insert_id|by left|].
    split; [intros _; unfold within; simpl; by right; right; right|]. simpl. intros e <-. by right.
Qed.

(** Storing the exhaustion of the current epoch. *)
Lemma save_moved s id l epoch f outcome delay fails now s' :
  loops s !! id = Some l -> lp_pc l = LSave epoch f outcome delay ->
  loopStep s id l (EStore fails) now = Some s' -> moved s s' id l.
Proof.
  intros Hl Epc. unfold loopStep, terminalRun, persistExhaustion. rewrite Epc.
  assert (forall pc, match pc with
                     | LPersist e _ _ _ | LSave e _ _ _ | LRetire e _ => e = epoch
                     | LDelay _ => lp_canceled l = true
                     | _ => False
                     end -> forall s1, failures s1 = failures s -> epochs s1 = epochs s ->
            epochBase s1 = epochBase s -> within s l -> within s1 (l <| lp_pc := pc |>)) as Hw.
  { intros pc Hpc s1 Hf He Hb. unfold within, failuresOf, epochLocked, name_of. simpl. rewrite Hf, He, Hb, Epc.
    intros [Hx|[Hx|[Hx|Hx]]]; [by left|by right; left|by right; right; left|].
    destruct pc; try done; try (right; right; right; congruence). by left. }
  destruct (if fails then _ else _) as [db' r].
  destruct r as [[[]|[]]|]; try (destruct (lp_canceled l) eqn:Ec); intros [= <-];
    (eapply (moved_setPc _ _ _ l l); simpl; try done;
     [symmetry; by apply insert_id | by left | split; [by apply Hw|rewrite Epc; intros e; simpl; tauto]]).
Qed.

Lemma loopStep_moved s id l e now s' :
  loops s !! id = Some l -> loopStep s id l e now = Some s' ->
  (lp_pc l = LJoin /\ s' = cleanup s id (name_of l)) \/ moved s s' id l.
Proof.
  intros Hl Hs. destruct (lp_pc l) as [| |r|r|r|r|r|r backoff|healthy last reason|ep f o dl|ep f o dl|ep f|dl| |]
    eqn:Epc; destruct e as [|r' err| | |taken|fin row|fails| |];
    try (unfold loopStep, terminalRun, persistExhaustion in Hs; rewrite Epc in Hs; done).
  all: try (right; by eapply save_moved).
  all: unfold loopStep, terminalRun, persistExhaustion in Hs; rewrite Epc in Hs.
  - (* LTop *) injection Hs as <-. right. plain_move l.
  - (* LTrigger *)
    set (last := if String.eqb (r_ID r') "" then _ else _) in Hs.
    set (s1 := s <| loops ::= _ |>) in Hs.
    assert (forall pc, (forall e, claims pc e -> False) -> moved s (setPc s1 id pc) id l) as Hm.
    { intros pc Hpc. eapply (moved_setPc s s1 id l (l <| lp_lastRunID := last |>)); try done;
        [exact (alter_Some _ _ _ _ Hl)|by left|keep_budget l]. by intros He%Hpc. }
    right. destruct err as [err|]; [|injection Hs as <-; by apply Hm].
    destruct (_ || held s1 _); [injection Hs as <-; by apply Hm|].
    destruct (negb _); [destruct (String.eqb _ "never")|]; injection Hs as <-; by apply Hm.
  - (* LActivate *) injection Hs as <-. right.
    destruct (held _ _) eqn:Eh.
    + eapply (moved_setPc _ _ _ l l); simpl; try done;
        [symmetry; by apply insert_id| |by right|keep_budget l].
      intros n x. destruct (decide (n = name_of l)) as [->|Hne]; [|rewrite lookup_insert_ne by done; by left].
      unfold name_of. rewrite lookup_insert_eq. intros [= <-]. right. split; [done|]. intros _.
      eexists. by left.
    + eapply (moved_setPc _ _ _ l l); simpl; try done;
        [symmetry; by apply insert_id| |keep_budget l].
      intros n x. destruct (decide (n = name_of l)) as [->|Hne]; [|rewrite lookup_insert_ne by done; by left].
      right. split; [done|]. unfold held in Eh. apply bool_decide_eq_false_1 in Eh. done.
  - (* LWait *) injection Hs as <-. right. plain_move l.
  - destruct (lp_canceled l) eqn:Ec; [|done]. injection Hs as <-. right. stop_move l.
  - (* LDrain *) injection Hs as <-. right.
    destruct (clearActive_spec s (d_Name (lp_def l)) (r_ID r)) as (m & -> & Hm).
    eapply (moved_setPc _ _ _ l l); simpl; try done;
      [symmetry; by apply insert_id|intros n x Hx; left; by apply Hm|keep_budget l].
  - (* LFinished *) injection Hs as <-. right.
    destruct (clearActive_spec s (d_Name (lp_def l)) (r_ID r)) as (m & -> & Hm).
    eapply (moved_setPc _ _ _ l l); simpl; try done;
      [symmetry; by apply insert_id|intros n x Hx; left; by apply Hm|keep_budget l].
  - (* LOutcome *) right. destruct taken as [cur|]; injection Hs as <-.
    + unfold afterOutcome. destruct (_ || _); plain_move l.
    + plain_move l.
  - (* LPoll *) right. destruct (lp_canceled l) eqn:Ec; [|done]. injection Hs as <-. plain_move l.
  - right. unfold afterOutcome in Hs. destruct row as [cur|].
    + destruct (Terminal _); [destruct (_ || _); injection Hs as <-; plain_move l|].
      destruct (negb fin); [destruct (_ || _); injection Hs as <-; plain_move l|].
      destruct (lp_canceled l) eqn:Ec; injection Hs as <-; plain_move l.
    + destruct (lp_canceled l) eqn:Ec; injection Hs as <-; plain_move l.
  - (* LRestart *) injection Hs as <-. right. by apply restartAfter_moved.
  - (* LPersist *) right. destruct (negb (stateFree s)); [done|].
    destruct (lp_canceled l || _) eqn:Eb; injection Hs as <-.
    + plain_move l. unfold within. simpl. rewrite Epc. intros [Hx|[Hx|[Hx|Hx]]];
        [by left|by right; left|by right; right; left|].
      apply orb_true_iff in Eb as [Eb|Eb]; [by left|]. bools. by destruct Eb.
    + plain_move l; [unfold within; simpl; rewrite Epc; done|]. rewrite Epc. by left.
  - (* LRetire *) right. destruct (_ =? ep) eqn:Eb; injection Hs as <-; bools.
    + plain_move l. intros _. unfold within. simpl. by right; right; right.
    + plain_move l. unfold within. simpl. rewrite Epc. intros [Hx|[Hx|[Hx|Hx]]];
        [by left|by right; left|by right; right; left|]. by destruct Eb.
  - (* LDelay *) right. destruct (lp_canceled l) eqn:Ec; [|done]. injection Hs as <-. plain_move l.
  - right. injection Hs as <-. plain_move l.
  - (* LExit *) right.
    assert (forall s1 pc, pc = LJoin -> within s l -> within s1 (l <| lp_pc := pc |>)) as Hw
      by (intros s1 pc -> _; unfold within; simpl; by right; right; right).
    destruct (active s !! _) as [r|]; injection Hs as <-; [destruct (String.eqb r "")|].
    + plain_move l. by apply Hw.
    + stop_move l. by apply Hw.
    + plain_move l. by apply Hw.
  - (* LJoin *) left. by injection Hs as <-.
Qed.

Lemma within_frame s s' l :
  failuresOf s' (name_of l) = failuresOf s (name_of l) ->
  epochLocked s' (name_of l) = epochLocked s (name_of l) -> within s l -> within s' l.
Proof. unfold within. by intros -> ->. Qed.

Lemma registered_eq s s' :
  registered s -> loops s' = loops s -> workerCancels s' = workerCancels s ->
  workerDone s' = workerDone s -> workerDefs s' = workerDefs s -> nextLoop s' = nextLoop s ->
  active s' = active s -> registered s'.
Proof. intros [] E1 E2 E3 E4 E5 E6. split; rewrite ?E1, ?E2, ?E3, ?E4, ?E5, ?E6; done. Qed.

Lemma op_ok_eq s s' :
  op_ok s -> op s' = op s -> restarts s' = restarts s -> started s' = started s ->
  workerCancels s' = workerCancels s -> workerDone s' = workerDone s -> op_ok s'.
Proof. unfold op_ok. by intros Hop -> -> -> -> ->. Qed.

#[local] Ltac frame :=
  split; try done; try (by eapply registered_eq); try (by eapply op_ok_eq).

(** Two loops have different names. *)
Lemma registered_inj s id id' l l' :
  registered s -> loops s !! id = Some l -> loops s !! id' = Some l' -> name_of l = name_of l' -> id = id'.
Proof.
  intros Hr Hl Hl' Hn. destruct (reg_loop s Hr id l Hl) as (Hc & _).
  destruct (reg_loop s Hr id' l' Hl') as (Hc' & _). rewrite Hn in Hc. congruence.
Qed.

Lemma moved_inv s s' id l : Inv s -> loops s !! id = Some l -> moved s s' id l -> Inv s'.
Proof.
  intros [Hreg Hhold Hclosed Hfresh Hbud Hep Hop] Hl
    [(l' & El & Hd & Hc & Hw & Hclaim) (E1 & E2 & E3 & E4) (E5 & E6 & E7 & E8 & E9) (E10 & E11 & E12) Hf Ha Hst].
  assert (name_of l' = name_of l) as Hn by (unfold name_of; by rewrite Hd).
  assert (forall i k, loops s' !! i = Some k ->
            exists k0, loops s !! i = Some k0 /\ name_of k0 = name_of k /\ lp_def k0 = lp_def k /\
                       lp_canceled k0 = lp_canceled k) as Hback.
  { intros i k. rewrite El. destruct (decide (id = i)) as [<-|Hne].
    - rewrite lookup_insert_eq. intros [= <-]. exists l. by rewrite Hn.
    - rewrite lookup_insert_ne by done. intros Hk. by exists k. }
  assert (forall i k n, loops s !! i = Some k -> name_of k = n ->
            exists k', loops s' !! i = Some k' /\ name_of k' = n) as Hfwd.
  { intros i k n Hk Hkn. rewrite El. destruct (decide (id = i)) as [<-|Hne].
    - rewrite lookup_insert_eq. exists l'. split; [done|]. congruence.
    - rewrite lookup_insert_ne by done. by exists k. }
  split.
  - split; rewrite ?E1, ?E2, ?E3, ?E4.
    + intros i k Hk. destruct (Hback i k Hk) as (k0 & Hk0 & <- & <- & _). by apply (reg_loop s Hreg i k0).
    + intros n i Hi. destruct (reg_cancel s Hreg n i Hi) as (k & Hk & Hkn). by apply (Hfwd i k).
    + intros n i Hi. destruct (reg_done s Hreg n i Hi) as (k & Hk & Hkn). by apply (Hfwd i k).
    + intros n r [Hr|[-> _]]%Ha; [by apply (reg_active s Hreg n r)|].
      destruct (reg_loop s Hreg id l Hl) as (Hcc & _). by eexists.
  - intros n r. rewrite E8. intros Hh [Hr|[-> Hs]]%Ha Hne; [|by apply Hs].
    destruct (Hhold n r Hh Hr Hne) as (b & Hb). exists b. by apply Hst.
  - unfold closed. rewrite E7. intros Hcl i k Hk. destruct (Hback i k Hk) as (k0 & Hk0 & _ & _ & <-).
    by apply (Hclosed Hcl i k0).
  - unfold fresh. rewrite E9. intros Hs. rewrite (Hfresh Hs) in Hl. by rewrite lookup_empty in Hl.
  - intros i k. rewrite El. destruct (decide (id = i)) as [<-|Hne].
    + rewrite lookup_insert_eq. intros [= <-]. by apply Hw, (Hbud id).
    + rewrite lookup_insert_ne by done. intros Hk.
      apply (within_frame s); [|unfold epochLocked; by rewrite E10, E11|by apply (Hbud i)].
      apply Hf. intros E. apply Hne. by apply (registered_inj s _ _ l k).
  - destruct Hep as (He1 & He2 & He3). unfold epochs_ok. rewrite E10, E11, E12. split; [done|]. split; [done|].
    intros i k e. rewrite El. destruct (decide (id = i)) as [<-|Hne].
    + rewrite lookup_insert_eq. intros [= <-] [He| ->]%Hclaim; [by apply (He3 id l)|].
      unfold epochLocked. destruct (epochs s !! name_of l) as [x|] eqn:Ex; simpl; [by apply (He2 (name_of l))|done].
    + rewrite lookup_insert_ne by done. apply He3.
  - unfold op_ok in *. rewrite E5, E6, E9, E1, E2. done.
Qed.

Lemma cleanup_inv s id l :
  Inv s -> loops s !! id = Some l -> Inv (cleanup s id (name_of l)).
Proof.
  intros [Hreg Hhold Hclosed Hfresh Hbud Hep Hop] Hl.
  destruct (reg_loop s Hreg id l Hl) as (Hc & Hd & _).
  assert (forall i k, delete id (loops s) !! i = Some k -> loops s !! i = Some k /\ name_of k <> name_of l) as Hback.
  { intros i k [Hne Hk]%lookup_delete_Some. split; [done|]. intros E.
    apply Hne. by apply (registered_inj s _ _ l k). }
  split; simpl.
  - split; simpl.
    + intros i k Hk. destruct (Hback i k Hk) as [Hk0 Hne].
      destruct (reg_loop s Hreg i k Hk0) as (? & ? & ? & ?). by rewrite !lookup_delete_ne.
    + intros n i [Hne Hi]%lookup_delete_Some. destruct (reg_cancel s Hreg n i Hi) as (k & Hk & <-).
      exists k. split; [|done]. rewrite lookup_delete_ne; [done|]. intros ->. congruence.
    + intros n i [Hne Hi]%lookup_delete_Some. destruct (reg_done s Hreg n i Hi) as (k & Hk & <-).
      exists k. split; [|done]. rewrite lookup_delete_ne; [done|]. intros ->. congruence.
    + intros n r [Hne Hr]%lookup_delete_Some. rewrite lookup_delete_ne by done.
      by apply (reg_active s Hreg n r).
  - intros n r Hh. simpl. intros [Hne Hr]%lookup_delete_Some. exact (Hhold n r Hh Hr).
  - intros Hcl i k. simpl. intros [Hk _]%Hback. by apply (Hclosed Hcl i k).
  - intros Hs. simpl. rewrite (Hfresh Hs). apply delete_empty.
  - intros i k. simpl. intros [Hk _]%Hback. by apply (Hbud i).
  - destruct Hep as (He1 & He2 & He3). split; [done|]. split; [done|].
    intros i k e. simpl. intros [Hk _]%Hback. by apply (He3 i).
  - unfold op_ok in *. simpl. destruct Hop as [Hop Hre]. split; [|done].
    destruct (op s); try done.
    + destruct Hop as (Hm & Hst & Hw). split_and!; [done..|]. intros n d Hn.
      destruct (decide (n = name_of l)) as [->|Hne]; [left; by rewrite lookup_delete_eq|].
      rewrite !lookup_delete_ne by done. by apply (Hw n d).
    + destruct Hop as [Hdd Hop]. split; [done|].
      destruct (decide (d_Name d = name_of l)) as [->|Hne]; [left; by rewrite lookup_delete_eq|].
      by rewrite !lookup_delete_ne by done.
Qed.

(** * Operator calls *)

(** Canceling contexts changes nothing else. *)
Record cancels_only (m m' : gmap nat Loop) : Prop := {
  co_back : forall i k, m' !! i = Some k -> exists k0, m !! i = Some k0 /\ lp_def k0 = lp_def k /\
    lp_pc k0 = lp_pc k /\ (lp_canceled k0 = true -> lp_canceled k = true);
  co_fwd : forall i k0, m !! i = Some k0 -> exists k, m' !! i = Some k /\ lp_def k = lp_def k0
}.

Lemma cancels_inv s m : Inv s -> cancels_only (loops s) m -> Inv (s <| loops := m |>).
Proof.
  intros [Hreg Hhold Hclosed Hfresh Hbud Hep Hop] [Hb Hf].
  assert (forall n i, (exists k0, loops s !! i = Some k0 /\ name_of k0 = n) ->
                      exists k, m !! i = Some k /\ name_of k = n) as Hfwd.
  { intros n i (k0 & Hk0 & <-). destruct (Hf i k0 Hk0) as (k & Hk & Ed). exists k.
    unfold name_of. by rewrite Ed. }
  split; try done.
  - split; simpl; [|intros n i Hi; by apply Hfwd, (reg_cancel s)|intros n i Hi; by apply Hfwd, (reg_done s)|
                   apply (reg_active s Hreg)].
    intros i k Hk. destruct (Hb i k Hk) as (k0 & Hk0 & Ed & _).
    pose proof (reg_loop s Hreg i k0 Hk0) as Hr. unfold name_of in *. by rewrite Ed in Hr.
  - intros Hcl i k Hk. destruct (Hb i k Hk) as (k0 & Hk0 & _ & _ & Hc). by apply Hc, (Hclosed Hcl i k0).
  - intros Hs. simpl. apply map_eq. intros i. rewrite lookup_empty.
    destruct (m !! i) as [k|] eqn:Hk; [|done]. destruct (Hb i k Hk) as (k0 & Hk0 & _).
    rewrite (Hfresh Hs) in Hk0. by rewrite lookup_empty in Hk0.
  - intros i k Hk. destruct (Hb i k Hk) as (k0 & Hk0 & Ed & Ep & Hc). specialize (Hbud i k0 Hk0).
    unfold within, name_of, failuresOf, epochLocked in *. simpl. rewrite <-Ed, <-Ep.
    destruct Hbud as [Hx|Hx]; [left; by apply Hc|by right].
  - destruct Hep as (He1 & He2 & He3). split; [done|]. split; [done|].
    intros i k e Hk. destruct (Hb i k Hk) as (k0 & Hk0 & _ & <- & _). by apply (He3 i).
Qed.

Lemma cancels_alter m id : cancels_only m (alter (fun l => l <| lp_canceled := true |>) id m).
Proof.
  split; intros i k.
  - rewrite lookup_alter_Some. intros [(<- & k0 & Hk0 & ->)|[_ Hk]]; [by exists k0|by exists k].
  - intros Hk. destruct (decide (id = i)) as [<-|Hne].
    + rewrite lookup_alter_eq, Hk. by eexists.
    + rewrite lookup_alter_ne by done. by exists k.
Qed.

Lemma cancelLoop_inv s id : Inv s -> Inv (cancelLoop s id).
Proof.
  intros HI. change (Inv (s <| loops := alter (fun l => l <| lp_canceled := true |>) id (loops s) |>)).
  apply cancels_inv; [done|apply cancels_alter].
Qed.

Lemma BeginShutdown_inv s : Inv s -> Inv (BeginShutdown s).
Proof.
  intros HI. unfold BeginShutdown. destruct (started _) eqn:Es; simpl in Es.
  - assert (Inv (s <| loops := (fun l => l <| lp_canceled := true |>) <$> loops s |>)) as [].
    { apply cancels_inv; [done|]. split; intros i k.
      - rewrite lookup_fmap, fmap_Some. intros (k0 & Hk0 & ->). by exists k0.
      - intros Hk. rewrite lookup_fmap, Hk. by eexists. }
    frame.
    intros _ i k. simpl. rewrite lookup_fmap, fmap_Some. by intros (k0 & _ & ->).
  - destruct HI as [Hreg Hhold Hclosed Hfresh Hbud Hep Hop].
    frame. intros _ i k. simpl. rewrite (Hfresh Es), lookup_empty. done.
Qed.

Lemma Stop_inv s name : Inv s -> Inv (Stop s name).
Proof.
  intros [Hreg Hhold Hclosed Hfresh Hbud Hep Hop].
  assert (holding (Stop s name)) as Hh.
  { unfold Stop. simpl. intros n r Hn Hr Hne.
    destruct (active s !! name) as [id|] eqn:Ea; [destruct (String.eqb_spec id "") as [->|Hid]|];
      simpl in *; (destruct (decide (n = name)) as [->|Hnn]; [rewrite Ea in Hr|]);
      try (injection Hr as <-); try done; try (eexists; by left).
    all: assert (n ∈ holds s) as Hn' by
      (apply elem_of_union in Hn as [Hn|Hn]; [by apply elem_of_singleton in Hn|done]); destruct (Hhold n r Hn' Hr Hne) as (b & Hb); exists b;
      try done; by right. }
  unfold Stop in *. simpl in *.
  destruct (active s !! name) as [id|]; [destruct (String.eqb id "")|];
    frame.
Qed.

Lemma resetExhaustion_frame s name fails :
  let s' := (resetExhaustion s name fails).1 in
  loops s' = loops s /\ workerCancels s' = workerCancels s /\ workerDone s' = workerDone s /\
  workerDefs s' = workerDefs s /\ nextLoop s' = nextLoop s /\ active s' = active s /\
  holds s' = holds s /\ stops s' = stops s /\ closing s' = closing s /\ started s' = started s /\
  op s' = op s /\ restarts s' = restarts s.
Proof.
  unfold resetExhaustion. destruct (closing s) eqn:Ec; [done|]. destruct (fails && _); [done|].
  destruct fails, (String.eqb name ""); done.
Qed.

(** A successful reset gives the name a fresh epoch and an empty budget. *)
Lemma resetExhaustion_epoch s name n fails :
  closing s = false -> (name = "" \/ fails = false) ->
  let s' := (resetExhaustion s name fails).1 in
  epochSeq s' = epochSeq s + 1 /\
  (if decide (name = "" \/ name = n)
   then failuresOf s' n = 0 /\ epochLocked s' n = epochSeq s' /\ exhausted s' !! n = None
   else failuresOf s' n = failuresOf s n /\ epochLocked s' n = epochLocked s n).
Proof.
  intros Hc Hf. unfold resetExhaustion, failuresOf, epochLocked. rewrite Hc.
  destruct (String.eqb_spec name "") as [->|Hne].
  - rewrite andb_false_r. destruct (decide _) as [_|Hd]; [|destruct Hd; by left].
    destruct fails; simpl; by rewrite !lookup_empty.
  - destruct Hf as [|Hf]; [done|]. rewrite Hf. simpl. split; [done|].
    destruct (decide _) as [[|<-]|Hd]; [done| |].
    + by rewrite !lookup_insert_eq, lookup_delete_eq.
    + rewrite !lookup_insert_ne by (intros E; apply Hd; by right). done.
Qed.

Lemma resetExhaustion_inv s name fails : Inv s -> Inv (resetExhaustion s name fails).1.
Proof.
  intros [Hreg Hhold Hclosed Hfresh Hbud Hep Hop].
  destruct (resetExhaustion_frame s name fails) as (F1 & F2 & F3 & F4 & F5 & F6 & F7 & F8 & F9 & F10 & F11 & F12).
  split; [by eapply registered_eq|unfold holding; by rewrite F6, F7, F8|unfold closed; by rewrite F1, F9|
          unfold fresh; by rewrite F1, F10| | |by eapply op_ok_eq].
  - intros id l. rewrite F1. intros Hl. pose proof (Hbud id l Hl) as Hw.
    destruct (closing s) eqn:Ec; [left; by apply (Hclosed Ec id)|].
    destruct (fails && negb (String.eqb name "")) eqn:Ef.
    + revert Hw. apply within_frame; unfold resetExhaustion; by rewrite Ec, Ef.
    + assert (name = "" \/ fails = false) as Hf.
      { destruct fails; [|by right]. simpl in Ef. bools. left. by apply String.eqb_eq. }
      destruct (resetExhaustion_epoch s name (name_of l) fails Ec Hf) as [_ He].
      destruct (decide _); destruct He as [He1 He2].
      * right; right; left. rewrite He1. destruct (reg_loop s Hreg id l Hl) as (_ & _ & _ & _ & Hd).
        unfold def_ok in Hd. lia.
      * revert Hw. by apply within_frame.
  - destruct Hep as (He1 & He2 & He3). unfold epochs_ok. rewrite F1. unfold resetExhaustion.
    destruct (closing s) eqn:Ec; [done|]. destruct (fails && _); [done|].
    destruct fails, (String.eqb name ""); simpl; (split; [lia|]); split.
    all: try (intros id l e Hl Hcl; specialize (He3 id l e Hl Hcl); lia).
    all: intros n e; rewrite ?lookup_empty; try done.
    all: rewrite lookup_insert_Some; intros [[_ <-]|[_ He]]; [lia|specialize (He2 n e He); lia].
Qed.

(** Launching a loop for a name that has none. *)
Lemma startLocked_inv s d :
  Inv s -> op s = OIdle -> workerCancels s !! d_Name d = None -> def_ok d ->
  started s = true -> closing s = false -> Inv (startLocked s d).
Proof.
  intros [Hreg Hhold Hclosed Hfresh Hbud Hep Hop] Hidle Hfree Hd Hst Hcl.
  assert (loops s !! nextLoop s = None) as Hnew.
  { destruct (loops s !! nextLoop s) as [l|] eqn:Hl; [|done].
    destruct (reg_loop s Hreg _ l Hl) as (_ & _ & _ & Hlt & _). lia. }
  assert (forall id l, loops s !! id = Some l -> name_of l <> d_Name d) as Hother.
  { intros id l Hl E. destruct (reg_loop s Hreg id l Hl) as (Hc & _). congruence. }
  split.
  - split; simpl.
    + intros id l. rewrite lookup_insert_Some. intros [[<- <-]|[Hne Hl]].
      * unfold name_of. simpl. rewrite !lookup_insert_eq. split_and!; [done..|lia|done].
      * pose proof (Hother id l Hl). rewrite !lookup_insert_ne by done.
        destruct (reg_loop s Hreg id l Hl) as (? & ? & ? & ? & ?). split_and!; [done..|lia|done].
    + intros n id. rewrite lookup_insert_Some. intros [[<- <-]|[Hne Hi]].
      * rewrite lookup_insert_eq. by eexists.
      * destruct (reg_cancel s Hreg n id Hi) as (l & Hl & Hn). exists l.
        rewrite lookup_insert_ne; [done|]. intros <-. congruence.
    + intros n id. rewrite lookup_insert_Some. intros [[<- <-]|[Hne Hi]].
      * rewrite lookup_insert_eq. by eexists.
      * destruct (reg_done s Hreg n id Hi) as (l & Hl & Hn). exists l.
        rewrite lookup_insert_ne; [done|]. intros <-. congruence.
    + intros n r Hr. destruct (decide (d_Name d = n)) as [<-|Hne]; [by rewrite lookup_insert_eq|].
      rewrite lookup_insert_ne by done. by apply (reg_active s Hreg n r).
  - intros n r. simpl. rewrite elem_of_difference. intros [Hn _]. by apply Hhold.
  - intros Hc. simpl in Hc. congruence.
  - intros Hs. simpl in Hs. congruence.
  - intros id l. simpl. rewrite lookup_insert_Some. intros [[<- <-]|[Hne Hl]].
    + right; right; left. unfold failuresOf, name_of. simpl. rewrite lookup_insert_eq. simpl.
      unfold def_ok in Hd. lia.
    + apply (within_frame s); [|done|by apply (Hbud id)]. pose proof (Hother id l Hl).
      unfold failuresOf. simpl. by rewrite lookup_insert_ne by done.
  - destruct Hep as (He1 & He2 & He3). split; [done|]. split; [done|]. intros id l e. simpl.
    rewrite lookup_insert_Some. intros [[<- <-]|[Hne Hl]]; [done|]. by apply (He3 id).
  - unfold op_ok in *. simpl. rewrite Hidle in *. by destruct Hop.
Qed.

Lemma startLocked_fields s d :
  op (startLocked s d) = op s /\ started (startLocked s d) = started s /\
  closing (startLocked s d) = closing s /\
  workerCancels (startLocked s d) = <[d_Name d := nextLoop s]> (workerCancels s).
Proof. done. Qed.

Lemma startLocked_op s d o : startLocked (s <| op := o |>) d = (startLocked s d) <| op := o |>.
Proof. done. Qed.

Definition startAll (s : Sup) (l : list (string * Definition_)) : Sup :=
  foldr (fun nd s => startLocked s nd.2) s l.

#[local] Opaque startLocked.

Lemma startAll_inv l s :
  Inv s -> op s = OIdle -> started s = true -> closing s = false -> NoDup l.*1 ->
  (forall nd, nd ∈ l -> d_Name nd.2 = nd.1 /\ def_ok nd.2 /\ workerCancels s !! nd.1 = None) ->
  Inv (startAll s l) /\ op (startAll s l) = OIdle /\ started (startAll s l) = true /\
  closing (startAll s l) = false /\
  (forall n, n ∉ l.*1 -> workerCancels (startAll s l) !! n = workerCancels s !! n).
Proof.
  intros HI Ho Hst Hcl. induction l as [|[n d] l IH]; intros Hnd Hl; [done|].
  apply NoDup_cons in Hnd as [Hn Hnd].
  destruct IH as (HI' & Ho' & Hst' & Hcl' & Hother); [done|intros nd Hin; apply Hl; by right|].
  destruct (Hl (n, d)) as (Hname & Hd & Hfree); [by left|]. cbn [fst snd] in *.
  change (startAll s ((n, d) :: l)) with (startLocked (startAll s l) d).
  destruct (startLocked_fields (startAll s l) d) as (-> & -> & -> & ->).
  split_and!; try done.
  - apply startLocked_inv; try done. rewrite Hname, Hother by done. done.
  - intros m Hm. apply not_elem_of_cons in Hm as [Hne Hm]. cbn [fst] in Hne.
    rewrite lookup_insert_ne by congruence. by apply Hother.
Qed.

Lemma startAll_op l s o : startAll (s <| op := o |>) l = (startAll s l) <| op := o |>.
Proof.
  induction l as [|nd l IH]; [done|].
  change (startAll (s <| op := o |>) (nd :: l)) with (startLocked (startAll (s <| op := o |>) l) nd.2).
  rewrite IH. apply startLocked_op.
Qed.

Lemma set_op s o : Inv s -> op_ok (s <| op := o |>) -> Inv (s <| op := o |>).
Proof. intros [] Ho. split; try done. by eapply registered_eq. Qed.

Lemma set_idle s : Inv s -> Inv (s <| op := OIdle |>).
Proof. intros HI. apply set_op; [done|]. split; [done|]. apply (inv_op s HI). Qed.

Lemma cancelAll_spec (l : list (string * nat)) s :
  Inv s ->
  let s' := foldr (fun ni s => cancelLoop s ni.2) s l in
  Inv s' /\ op s' = op s /\ restarts s' = restarts s /\ started s' = started s /\
  workerCancels s' = workerCancels s /\ workerDone s' = workerDone s.
Proof.
  intros HI. induction l as [|[n i] l IH]; [done|]. destruct IH as (HI' & E1 & E2 & E3 & E4 & E5).
  split; [by apply cancelLoop_inv|]. by split_and!.
Qed.

(** A worker with a canceled context and no [done] left has no loop. *)
Lemma gone_free s n id :
  registered s -> workerDone s !! n = Some id -> gone s id = true -> False.
Proof.
  intros Hr Hd Hg. destruct (reg_done s Hr n id Hd) as (l & Hl & _).
  unfold gone in Hg. bools. congruence.
Qed.

Lemma reload_cancel_inv s desired s' :
  Inv s -> op s = OReloadCancel desired -> opStep s ENone = Some s' -> Inv s'.
Proof.
  intros HI Ho. unfold opStep, ReloadStep. rewrite Ho.
  set (dropped := filter _ (workerCancels s)). set (waits := omap _ _).
  set (desired' := filter _ desired). intros [= <-].
  pose proof (cancelAll_spec (map_to_list dropped) s HI) as (HI' & E1 & E2 & E3 & E4 & E5).
  set (s1 := foldr _ s _) in *.
  destruct (inv_op s HI) as [Hop Hre]. rewrite Ho in Hop. destruct Hop as [Hdes Hst].
  apply set_op; [done|]. split; [|by rewrite <-E2 in Hre].
  cbn [op upd eta]. change (started (s1 <| op := _ |>)) with (started s1).
  split; [|split; [by rewrite E3|]].
  - intros n d [Hn _]%map_lookup_filter_Some. by apply Hdes.
  - intros n d. change (workerCancels (s1 <| op := _ |>)) with (workerCancels s1).
    change (workerDone (s1 <| op := _ |>)) with (workerDone s1). rewrite E4, E5.
    intros [Hn Hk]%map_lookup_filter_Some. simpl in Hk.
    destruct (workerCancels s !! n) as [id|] eqn:Ec; [right|by left].
    rewrite bool_decide_eq_true_2 in Hk by by eexists. simpl in Hk.
    destruct (reg_cancel s (inv_registered s HI) n id Ec) as (l & Hl & <-).
    destruct (reg_loop s (inv_registered s HI) id l Hl) as (_ & Hdone & _).
    exists id. split; [done|]. unfold waits. apply list_elem_of_omap.
    exists (name_of l, id). split; [|exact Hdone].
    apply elem_of_map_to_list. unfold dropped. by apply map_lookup_filter_Some.
Qed.

Lemma reload_start_inv s desired waits s' :
  Inv s -> op s = OReloadWait desired waits -> opStep s ENone = Some s' -> Inv s'.
Proof.
  intros HI Ho. unfold opStep, ReloadStep. rewrite Ho.
  destruct (forallb (gone s) waits) eqn:Eg; [|done]. simpl negb. cbv iota.
  destruct (closing s) eqn:Ec; [intros [= <-]; by apply set_idle|].
  intros [= <-].
  change (Inv ((startAll (s <| holds := ∅ |>) (map_to_list desired)) <| op := OIdle |>)).
  rewrite <-startAll_op.
  destruct (inv_op s HI) as [Hop Hre]. rewrite Ho in Hop. destruct Hop as (Hdes & Hst & Hw).
  rewrite forallb_forall in Eg.
  apply startAll_inv; try done; [|apply NoDup_fst_map_to_list|].
  - apply set_idle in HI as []. frame.
  - intros [n d] Hin%elem_of_map_to_list. simpl. destruct (Hdes n d Hin) as [Hn Hd].
    split_and!; [done..|]. destruct (Hw n d Hin) as [|(id & Hdone & Hid)]; [done|]. exfalso.
    eapply gone_free; [by apply inv_registered|exact Hdone|]. apply Eg. by apply list_elem_of_In.
Qed.

Lemma launch_inv s d reserved :
  Inv s -> def_ok d -> (reserved = false -> workerCancels s !! d_Name d = None) ->
  Inv ((launchIfFree s d reserved) <| op := OIdle |>).
Proof.
  intros HI Hd Hfree. unfold launchIfFree. destruct (_ && IsEnabled d) eqn:E; [|by apply set_idle].
  bools. rewrite <-startLocked_op. apply startLocked_inv; try done; [by apply set_idle|].
  by apply Hfree.
Qed.

(** Lifting a hold and resetting the failures of one worker. *)
Lemma lift_inv s name :
  Inv s -> Inv (s <| holds ::= fun h => h ∖ {[ name ]} |> <| failures ::= insert name 0 |>).
Proof.
  intros [Hreg Hhold Hclosed Hfresh Hbud Hep Hop]. frame.
  - intros n r. simpl. rewrite elem_of_difference. intros [Hn _]. by apply Hhold.
  - intros id l Hl. simpl in Hl. pose proof (Hbud id l Hl) as Hw.
    destruct (decide (name_of l = name)) as [E|Hne].
    + right; right; left. unfold failuresOf. simpl. rewrite E, lookup_insert_eq. simpl.
      destruct (reg_loop s Hreg id l Hl) as (_ & _ & _ & _ & Hd). unfold def_ok in Hd. lia.
    + revert Hw. apply within_frame; [|done]. unfold failuresOf. simpl. by rewrite lookup_insert_ne.
Qed.

Lemma startDefinition_inv s d : Inv s -> def_ok d -> Inv (startDefinitionLocked s d).
Proof.
  intros HI Hd. unfold startDefinitionLocked.
  pose proof (lift_inv s (d_Name d) HI) as HI1.
  set (s1 := s <| holds ::= _ |> <| failures ::= _ |>) in *. clearbody s1. clear HI s.
  destruct (workerCancels s1 !! d_Name d) as [id|] eqn:Ec; [|by apply launch_inv].
  destruct (String.eqb _ ""); [|by apply set_idle].
  destruct (workerDone s1 !! d_Name d) as [dn|] eqn:Ed; [|by apply set_idle].
  apply set_op; [by apply cancelLoop_inv|]. split; [|apply (inv_op s1 HI1)].
  simpl. split; [done|]. by right.
Qed.

Lemma opStep_inv s e s' : Inv s -> opStep s e = Some s' -> Inv s'.
Proof.
  intros HI Hs. destruct (op s) eqn:Ho, e; try (unfold opStep, ReloadStep, StartDefinition, Restart in Hs; rewrite Ho in Hs; done).
  all: try (by eapply reload_cancel_inv). all: try (by eapply reload_start_inv).
  all: unfold opStep, ReloadStep, StartDefinition, Restart in Hs; rewrite Ho in Hs.
  all: destruct (inv_op s HI) as [Hop Hre]; rewrite Ho in Hop.
  all: try (destruct (stateFree s); [cbn [negb] in Hs|done]).
  - (* OReloadReset *) destruct (closing s); injection Hs as <-; [by apply set_idle|].
    pose proof (resetExhaustion_inv s "" fails HI) as HI1.
    destruct (resetExhaustion_frame s "" fails) as (_ & _ & _ & _ & _ & _ & _ & _ & _ & F & _ & Fr).
    apply set_op; [done|]. split; [|cbn; by rewrite Fr]. destruct Hop. cbn. by rewrite F.
  - (* OReloadWait, stopped *) destruct (closing s); [|done]. injection Hs as <-. by apply set_idle.
  - (* OStartReset *)
    pose proof (resetExhaustion_inv s (d_Name d) fails HI) as HI1.
    destruct (resetExhaustion_frame s (d_Name d) fails) as (_ & _ & _ & _ & _ & _ & _ & _ & _ & _ & _ & Fr).
    destruct (resetExhaustion s (d_Name d) fails) as [s1 []]; cbn [fst] in HI1, Fr; injection Hs as <-;
      [|by apply set_idle]. apply set_op; [done|]. split; [done|]. simpl. by rewrite Fr.
  - (* OStart *) injection Hs as <-. by apply startDefinition_inv.
  - (* OStartWait *) destruct (gone s done) eqn:Eg; [|done]. injection Hs as <-. destruct Hop as [Hd Hop].
    apply launch_inv; [done..|]. intros _. destruct Hop as [|Hop]; [done|].
    exfalso. eapply gone_free; [by apply inv_registered|exact Hop|exact Eg].
  - destruct (closing s); [|done]. injection Hs as <-. by apply set_idle.
  - (* ORestartReset *)
    pose proof (resetExhaustion_inv s (d_Name d) fails HI) as HI1.
    destruct (resetExhaustion_frame s (d_Name d) fails) as (_ & _ & _ & _ & _ & _ & _ & _ & _ & _ & _ & Fr).
    destruct (resetExhaustion s (d_Name d) fails) as [s1 []]; cbn [fst] in HI1, Fr; injection Hs as <-;
      [|by apply set_idle]. apply set_op; [done|]. split; [done|]. simpl. by rewrite Fr.
  - (* ORestartRead *) destruct (closing s); injection Hs as <-; [by apply set_idle|].
    apply set_op; [done|]. by split.
  - (* ORestartStop *) injection Hs as <-.
    pose proof (Stop_inv s (d_Name d) HI) as HI1.
    assert (restarts (Stop s (d_Name d)) = restarts s) as Er.
    { unfold Stop. simpl. repeat case_match; done. }
    set (s1 := Stop s (d_Name d)) in *. clearbody s1.
    destruct cancel as [id|]; (apply set_op; [try by apply cancelLoop_inv|]);
      try done; (split; [done|]); simpl; by rewrite Er.
  - (* ORestartSpawn *) destruct (closing s) eqn:Ec; injection Hs as <-; [by apply set_idle|].
    destruct HI. frame. split; [done|]. simpl. intros x [->|Hx]%elem_of_cons; [done|by apply Hre].
Qed.

Lemma desiredWorkers_ok defs : Forall def_ok defs -> desired_ok (desiredWorkers defs).
Proof.
  unfold desiredWorkers. induction defs as [|d defs IH] using rev_ind; intros Hd.
  { intros n x. simpl. by rewrite lookup_empty. }
  rewrite foldl_app. apply Forall_app in Hd as [Hd Hx]. apply Forall_cons in Hx as [Hx _]. simpl.
  case_match; [|by apply IH]. intros n x. rewrite lookup_insert_Some.
  intros [[<- <-]|[_ Hn]]; [split; [reflexivity|exact Hx]|]. by apply IH.
Qed.

Lemma continueRestart_inv s n s' : Inv s -> continueRestart s n = Some s' -> Inv s'.
Proof.
  intros HI. unfold continueRestart. destruct (restarts s !! n) as [[[d e] dn]|] eqn:En; [|done].
  destruct (inv_op s HI) as [Hop Hre].
  assert (def_ok d) as Hd by (apply (Hre (d, e, dn)); by eapply list_elem_of_lookup_2).
  destruct (op s) eqn:Ho; try done.
  assert (Inv (s <| restarts ::= fun l => take n l ++ drop (S n) l |>)) as HI1.
  { destruct HI. frame. split; [simpl; by rewrite Ho|]. simpl. intros x Hx. apply Hre.
    rewrite <-(take_drop n (restarts s)). apply elem_of_app in Hx as [Hx|Hx]; apply elem_of_app; [by left|].
    right. apply list_elem_of_In in Hx. apply list_elem_of_In.
    replace (S n) with (n + 1)%nat in Hx by lia. rewrite <-drop_drop in Hx. by destruct (drop n (restarts s)); [|right]. }
  set (s1 := s <| restarts ::= _ |>) in *.
  destruct (closing s1); [by intros [= <-]|]. destruct (negb _); [done|].
  destruct (_ =? e); intros Hs; injection Hs as <-; [|done]. apply (set_op s1); [done|]. split; [done|]. apply (inv_op s1 HI1).
Qed.

Lemma step_inv s a s' : Inv s -> action_ok a -> step s a = Some s' -> Inv s'.
Proof.
  intros HI Ha. destruct a; simpl.
  - destruct (loops s !! id) as [l|] eqn:Hl; [|done]. intros Hs.
    destruct (loopStep_moved s id l e now s' Hl Hs) as [[_ ->]|Hm];
      [by apply cleanup_inv|by eapply moved_inv].
  - destruct (op s) eqn:Ho; try done. destruct (closing s) eqn:Ec; intros [= <-]; [done|].
    destruct (inv_op s HI) as [_ Hre].
    destruct HI as [Hreg Hhold Hclosed Hfresh Hbud Hep Hop].
    split; try done; [by eapply registered_eq|].
    split; [|done]. simpl. split; [|done]. by apply desiredWorkers_ok.
  - destruct (op s) eqn:Ho; try done. intros [= <-]. apply (set_op s); [done|]. split; [done|]. apply (inv_op s HI).
  - destruct (op s) eqn:Ho; try done. intros [= <-]. apply (set_op s); [done|]. split; [done|]. apply (inv_op s HI).
  - by apply opStep_inv.
  - by apply continueRestart_inv.
  - intros [= <-]. by apply Stop_inv.
  - intros [= <-]. by apply BeginShutdown_inv.
Qed.

(** The states supervision can reach from a database. *)
Inductive reach (db0 : DB) : Sup -> Prop :=
| reach_new : reach db0 (New db0)
| reach_step s a s' : reach db0 s -> action_ok a -> step s a = Some s' -> reach db0 s'.

Lemma reach_inv db0 s : reach db0 s -> Inv s.
Proof.
  induction 1 as [|s a s' _ IH Ha Hs]; [|by eapply step_inv].
  split; try done. split; [done|]. intros x Hx. by apply elem_of_nil in Hx.
Qed.

(** C23: at every moment each worker has at most one supervision loop — however
    reloads, starts, restarts and exits interleave — and a run is reported
    active only while its worker's loop is there to end it. *)
Theorem one_loop_per_worker db0 s :
  reach db0 s ->
  (forall id id' l l', loops s !! id = Some l -> loops s !! id' = Some l' ->
     name_of l = name_of l' -> id = id') /\
  (forall n r, active s !! n = Some r -> exists id l, loops s !! id = Some l /\ name_of l = n).
Proof.
  intros [Hreg _ _ _ _ _ _]%reach_inv. split.
  - intros id id' l l'. by apply registered_inj.
  - intros n r Hr. destruct (reg_active s Hreg n r Hr) as [id Hid]. exists id.
    by apply (reg_cancel s Hreg).
Qed.

(** C24: an operator hold takes effect even when it races with a start: whenever a
    worker is held, its active run has been asked to stop. *)
Theorem held_run_is_stopped db0 s n r :
  reach db0 s -> n ∈ holds s -> active s !! n = Some r -> r <> "" -> exists b, (r, b) ∈ stops s.
Proof. intros [_ Hh _ _ _ _ _]%reach_inv. apply Hh. Qed.

(** C32: a worker without restart backoff is never started again once its failed
    starts have reached [max_restart_attempts], unless its loop has been canceled
    meanwhile (and will leave) — a healthy lifetime or an operator reset is the
    only way to more attempts. *)
Theorem restart_budget db0 s id l :
  reach db0 s -> loops s !! id = Some l -> lp_pc l = LTrigger -> d_RestartBackoffMax (lp_def l) <= 0 ->
  lp_canceled l = true \/ failuresOf s (name_of l) < d_MaxRestartAttempts (lp_def l).
Proof.
  intros [_ _ _ _ Hb _ _]%reach_inv Hl Hpc Hmax.
  destruct (Hb id l Hl) as [Hx|[Hx|[Hx|Hx]]]; [by left|lia|by right|]. by rewrite Hpc in Hx.
Qed.

(** * Shutdown *)

(** How many moves a canceled loop may still make. *)
Definition rank (pc : Pc) : nat :=
  match pc with
  | LJoin => 1
  | LExit => 2
  | LTop | LDrain _ | LRestart _ _ _ => 3
  | LDelay _ | LPoll _ _ => 4
  | LRetire _ _ | LPersist _ _ _ _ | LOutcome _ => 5
  | LSave _ _ _ _ | LFinished _ => 6
  | LWait _ => 7
  | LActivate _ => 8
  | LTrigger => 9
  end.

Lemma lookup_setPc s id l pc :
  loops s !! id = Some l -> loops (setPc s id pc) !! id = Some (l <| lp_pc := pc |>).
Proof. intros Hl. unfold setPc. simpl. by rewrite lookup_alter_eq, Hl. Qed.

Lemma clearActive_loops s name r : loops (clearActive s name r) = loops s.
Proof. by destruct (clearActive_spec s name r) as (m & -> & _). Qed.

(** A canceled loop comes closer to its end with every move. *)
Lemma canceled_rank s id l e now s' :
  loops s !! id = Some l -> lp_canceled l = true -> loopStep s id l e now = Some s' ->
  match loops s' !! id with Some l' => (rank (lp_pc l') < rank (lp_pc l))%nat | None => True end.
Proof.
  intros Hl Hc. unfold loopStep, terminalRun, persistExhaustion, restartAfter, afterOutcome.
  assert (forall s1 pc n, loops s1 !! id = Some l -> (rank pc < n)%nat ->
            match loops (setPc s1 id pc) !! id with Some l' => (rank (lp_pc l') < n)%nat | None => True end)
    as Hpc by (intros s1 pc n Hl1 Hlt; by rewrite (lookup_setPc _ _ l)).
  destruct (lp_pc l) eqn:Epc, e; try done; rewrite ?Hc; cbn [orb].
  all: try (intros [= <-]; apply Hpc; [by rewrite ?clearActive_loops|simpl; lia]).
  - destruct err; intros [= <-]; unfold setPc; simpl; rewrite !lookup_alter_eq, Hl; simpl; lia.
  - destruct (held _ _); intros [= <-]; apply Hpc; simpl; done || lia.
  - destruct r0 as [cur|]; [destruct (_ || _)|]; intros [= <-]; apply Hpc; simpl; done || lia.
  - destruct row as [cur|]; [destruct (Terminal _); [|destruct (negb _)]|]; try destruct (_ || _);
      intros [= <-]; apply Hpc; simpl; done || lia.
  - destruct (negb _); [done|]. intros [= <-]. apply Hpc; simpl; done || lia.
  - destruct (if fails then _ else _) as [db' r]. destruct r as [[[]|[]]|]; intros [= <-];
      apply Hpc; simpl; done || lia.
  - destruct (_ =? _); intros [= <-]; apply Hpc; simpl; done || lia.
  - destruct (held _ _); intros [= <-]; apply Hpc; simpl; done || lia.
  - destruct (active s !! _) as [r|]; [destruct (String.eqb r "")|]; intros [= <-]; apply Hpc; simpl; done || lia.
  - intros [= <-]. simpl. by rewrite lookup_delete_eq.
Qed.

Lemma startDefinition_closing s d :
  closing s = true -> closing (startDefinitionLocked s d) = true /\
  forall id, loops s !! id = None -> loops (startDefinitionLocked s d) !! id = None.
Proof.
  intros Hc. unfold startDefinitionLocked, launchIfFree. simpl.
  destruct (workerCancels s !! _) as [i|]; [|rewrite Hc; done].
  destruct (String.eqb _ ""); [|done]. destruct (workerDone s !! _); [|done].
  split; [done|]. intros id Hid. simpl. destruct (decide (i = id)) as [->|Hne].
  - by rewrite lookup_alter_eq, Hid.
  - by rewrite lookup_alter_ne.
Qed.

Lemma cancelAll_closing (l : list (string * nat)) s :
  let s' := foldr (fun ni s => cancelLoop s ni.2) s l in
  closing s' = closing s /\ forall id, loops s !! id = None -> loops s' !! id = None.
Proof.
  induction l as [|[n i] l [IH1 IH2]]; [done|]. split; [done|]. intros id Hid.
  apply IH2 in Hid. simpl. destruct (decide (i = id)) as [->|Hne].
  - by rewrite lookup_alter_eq, Hid.
  - by rewrite lookup_alter_ne.
Qed.

Lemma opStep_closing s e s' :
  closing s = true -> opStep s e = Some s' ->
  closing s' = true /\ forall id, loops s !! id = None -> loops s' !! id = None.
Proof.
  intros Hc. unfold opStep, ReloadStep, StartDefinition, Restart, resetExhaustion.
  destruct (op s), e; try done; rewrite ?Hc.
  all: try (destruct (stateFree s); cbn [negb]; [|done]).
  all: try (by intros [= <-]).
  - intros [= <-]. match goal with |- context [foldr _ s ?l] =>
      destruct (cancelAll_closing l s) as [E1 E2] end. rewrite Hc in E1. done.
  - destruct (negb _); [done|]. by intros [= <-].
  - intros [= <-]. by apply startDefinition_closing.
  - destruct (gone s done); [|done]. intros [= <-]. unfold launchIfFree. rewrite Hc. done.
  - intros [= <-]. unfold Stop. simpl.
    destruct cancel as [i|]; (destruct (active s !! _) as [r|]; [destruct (String.eqb r "")|]); try done.
    all: split; [done|]; intros id Hid; simpl; destruct (decide (i = id)) as [->|Hne];
      [by rewrite lookup_alter_eq, Hid|by rewrite lookup_alter_ne].
Qed.

(** Some loop can move. *)
Lemma loop_progress s id l :
  loops s !! id = Some l -> lp_canceled l = true -> (saving l = true \/ stateFree s = true) ->
  exists e s', loopStep s id l e 0 = Some s'.
Proof.
  intros Hl Hc Hf. unfold loopStep, terminalRun, persistExhaustion.
  destruct (lp_pc l) eqn:Epc;
    [exists ENone|exists (ETriggered zeroRun None)|exists ENone|exists EDone|exists EDone|exists ENone|
     exists (ETaken None)|exists ECtx|exists ENone|exists ENone|exists (EStore true)|exists ENone|
     exists ECtx|exists ENone|exists EDone]; rewrite ?Hc; try (by eexists).
  - destruct Hf as [Hf|Hf]; [unfold saving in Hf; by rewrite Epc in Hf|]. rewrite Hf. by eexists.
  - destruct (_ =? _); by eexists.
  - destruct (active s !! _); by eexists.
Qed.

Lemma some_progress s :
  loops s <> ∅ -> (forall id l, loops s !! id = Some l -> lp_canceled l = true) ->
  exists id e s', step s (ALoop id e 0) = Some s'.
Proof.
  intros Hne Hc. destruct (stateFree s) eqn:Ef.
  - destruct (map_choose (loops s) Hne) as (id & l & Hl).
    destruct (loop_progress s id l Hl (Hc id l Hl)) as (e & s' & Hs); [by right|].
    exists id, e, s'. simpl. by rewrite Hl.
  - unfold stateFree in Ef. apply not_true_iff_false in Ef. rewrite forallb_forall in Ef.
    assert (exists kl, In kl (map_to_list (loops s)) /\ saving kl.2 = true) as ([id l] & Hin & Hsv).
    { clear -Ef. induction (map_to_list (loops s)) as [|[k l] m IH]; [by destruct Ef|].
      destruct (saving l) eqn:El; [exists (k, l); split; [by left|done]|].
      destruct IH as (kl & Hin & Hsv); [|exists kl; split; [by right|done]].
      intros Hall. apply Ef. intros x [<-|Hx]; [simpl; by rewrite El|by apply Hall]. }
    apply list_elem_of_In, elem_of_map_to_list in Hin.
    destruct (loop_progress s id l Hin (Hc id l Hin)) as (e & s' & Hs); [by left|].
    exists id, e, s'. simpl. by rewrite Hin.
Qed.

(** C34: shutdown drains supervision.  Once it has begun no operator call or
    restart continuation starts a loop again; every move of a loop brings it
    closer to its exit (nine moves at most); and while loops are left, one of
    them can move. *)
Theorem shutdown_drains db0 s :
  reach db0 s -> closing s = true ->
  (forall a s', step s a = Some s' ->
     closing s' = true /\ forall id, loops s !! id = None -> loops s' !! id = None) /\
  (forall id l e now s', loops s !! id = Some l -> step s (ALoop id e now) = Some s' ->
     (rank (lp_pc l) <= 9)%nat /\
     match loops s' !! id with Some l' => (rank (lp_pc l') < rank (lp_pc l))%nat | None => True end) /\
  (loops s <> ∅ -> exists id e s', step s (ALoop id e 0) = Some s').
Proof.
  intros HI%reach_inv Hc. pose proof (inv_closed s HI Hc) as Hcan. split_and!.
  - intros a s' Hs. destruct a; simpl in Hs.
    + destruct (loops s !! id) as [l|] eqn:Hl; [|done].
      destruct (loopStep_moved s id l e now s' Hl Hs) as [[_ ->]|[(l' & -> & _) _ (_ & _ & -> & _) _ _ _ _]].
      * split; [done|]. intros i Hi. simpl. by apply lookup_delete_None; right.
      * split; [done|]. intros i Hi. rewrite lookup_insert_ne; [done|]. intros <-. congruence.
    + destruct (op s); try done. rewrite Hc in Hs. by injection Hs as <-.
    + destruct (op s); try done. by injection Hs as <-.
    + destruct (op s); try done. by injection Hs as <-.
    + by eapply opStep_closing.
    + unfold continueRestart in Hs. destruct (restarts s !! n) as [[[d e] dn]|]; [|done].
      destruct (op s); try done. simpl in Hs. rewrite Hc in Hs. by injection Hs as <-.
    + injection Hs as <-. unfold Stop. simpl. by repeat case_match.
    + injection Hs as <-. unfold BeginShutdown. simpl. case_match; [|done]. split; [done|].
      intros i Hi. simpl. by rewrite lookup_fmap, Hi.
  - intros id l e now s' Hl. simpl. rewrite Hl. intros Hs.
    split; [destruct (lp_pc l); simpl; lia|]. by apply (canceled_rank s id l e now), Hs; [|apply (Hcan id)].
  - intros Hne. by apply some_progress.
Qed.

Fixpoint runActions (s : Sup) (l : list Action) : option Sup :=
  match l with
  | [] => Some s
  | a :: l => match step s a with Some s => runActions s l | None => None end
  end.

Lemma reach_run db0 l s s' : reach db0 s -> Forall action_ok l -> runActions s l = Some s' -> reach db0 s'.
Proof.
  intros Hr Hl. revert s Hr. induction Hl as [|a l Ha Hl IH]; intros s Hr; simpl; [by intros [= <-]|].
  destruct (step s a) as [s1|] eqn:Hs; [|done]. apply IH. by eapply reach_step.
Qed.

End moves.

(** * A worker *)

Module SupervisorDemo.

#[export] Instance codec : Codec := {
  encode_definition := d_Name;
  decode_definition := fun name => Some (zeroDefinition <| d_Name := name |>);
  sha256_hex := id
}.

#[export] Instance exhaustion_codec : ExhaustionCodec := {
  encode_exhaustion := we_Reason;
  decode_exhaustion := fun _ => None
}.

Definition web : Definition_ :=
  zeroDefinition <| d_ID := 7 |> <| d_Name := "web" |> <| d_Kind := KindWorker |>
    <| d_Restart := "always" |> <| d_RestartDelay := 5 |> <| d_MaxRestartAttempts := 1 |>.

Definition reload : list Action := [AReload [web]; AOp (EStore false); AOp ENone; AOp ENone].

(** Reload, start a run and publish it. *)
Definition running : list Action :=
  reload ++ [ALoop 0 ENone 0; ALoop 0 (ETriggered (zeroRun <| r_ID := "r1" |>) None) 0; ALoop 0 ENone 0].

Definition after (l : list Action) : Sup := default (New emptyDB) (runActions (New emptyDB) l).

Lemma after_reach l :
  Forall action_ok l -> runActions (New emptyDB) l = Some (after l) -> reach emptyDB (after l).
Proof. intros Hl Hr. eapply reach_run; [apply reach_new|done|done]. Qed.

Lemma reload_ok : Forall action_ok reload.
Proof. repeat constructor; done. Qed.

Lemma running_ok : Forall action_ok running.
Proof. apply Forall_app. split; [apply reload_ok|]. repeat constructor. Qed.

Lemma running_reach : reach emptyDB (after running).
Proof. apply after_reach; [apply running_ok|]. vm_compute. reflexivity. Qed.

Lemma one_loop_per_worker_witness :
  exists id l, loops (after running) !! id = Some l /\ name_of l = "web".
Proof.
  refine (proj2 (one_loop_per_worker emptyDB (after running) running_reach) "web" "r1" _).
  vm_compute. reflexivity.
Defined.

Lemma held_run_is_stopped_witness :
  exists b, ("r1", b) ∈ stops (after (running ++ [AStop "web"])).
Proof.
  refine (held_run_is_stopped emptyDB (after (running ++ [AStop "web"])) "web" "r1" _ _ _ _).
  - apply after_reach; [apply Forall_app; split; [apply running_ok|repeat constructor]|].
    vm_compute. reflexivity.
  - refine (bool_decide_eq_true_1 ("web" ∈ holds (after (running ++ [AStop "web"]))) _).
    vm_compute. reflexivity.
  - vm_compute. reflexivity.
  - discriminate.
Defined.

Lemma starting_reach : reach emptyDB (after (reload ++ [ALoop 0 ENone 0])).
Proof.
  apply after_reach; [apply Forall_app; split; [apply reload_ok|repeat constructor]|].
  vm_compute. reflexivity.
Qed.

Lemma restart_budget_witness :
  let l := mkLoop web false "" LTrigger in
  lp_canceled l = true \/ failuresOf (after (reload ++ [ALoop 0 ENone 0])) (name_of l) < d_MaxRestartAttempts (lp_def l).
Proof.
  refine (restart_budget emptyDB (after (reload ++ [ALoop 0 ENone 0])) 0%nat
    (mkLoop web false "" LTrigger) starting_reach _ eq_refl _).
  - vm_compute. reflexivity.
  - vm_compute. congruence.
Defined.

Lemma shutdown_drains_witness :
  exists id e s', step (after (running ++ [ABeginShutdown])) (ALoop id e 0) = Some s'.
Proof.
  refine (proj2 (proj2 (shutdown_drains emptyDB (after (running ++ [ABeginShutdown])) _ _)) _).
  - apply after_reach; [apply Forall_app; split; [apply running_ok|repeat constructor]|].
    vm_compute. reflexivity.
  - vm_compute. reflexivity.
  - intros E. apply (f_equal (fun m => bool_decide (is_Some (m !! 0%nat)))) in E.
    vm_compute in E. discriminate.
Defined.

End SupervisorDemo.
