(* ===== verification/SupervisorReset.v ===== *)
(** An operator reset and a loop that records the exhaustion of the same worker
    (internal/supervisor/exhaustion.go): [stateMu] orders the durable writes, the
    epoch tells a loop that it came too late. *)

From S2P Require Import Prelude GoRuntime Model StoreDB StoreQueue StoreDefs Supervisor SupervisorFacts.
Open Scope Z_scope.

(** * Who holds [stateMu] *)

(** The loop that is writing an exhaustion record does it for the current epoch,
    and it is the only one. *)
Definition saves_current (s : Sup) : Prop :=
  forall id l, loops s !! id = Some l -> saving l = true ->
    (forall e, claims (lp_pc l) e -> e = epochLocked s (name_of l)) /\
    forall id' l', loops s !! id' = Some l' -> saving l' = true -> id' = id.

(** A step that neither resets nor begins a write: epochs stay, and whoever
    writes was writing. *)
Record leaves (s s' : Sup) : Prop := {
  lv_epochs : epochs s' = epochs s /\ epochBase s' = epochBase s;
  lv_saving : forall id l', loops s' !! id = Some l' -> saving l' = true ->
    exists l, loops s !! id = Some l /\ lp_pc l = lp_pc l' /\ name_of l = name_of l';
}.

#[global] Instance leaves_preorder : PreOrder leaves.
Proof.
  split.
  - intros s. split; [done|]. intros id l Hl _. by exists l.
  - intros s1 s2 s3 [[E1 E2] H1] [[E3 E4] H2]. split; [split; congruence|].
    intros id l Hl Hs. destruct (H2 id l Hl Hs) as (l2 & Hl2 & Hp2 & Hn2).
    assert (saving l2 = true) as Hs2 by (unfold saving in *; by rewrite Hp2).
    destruct (H1 id l2 Hl2 Hs2) as (l1 & Hl1 & Hp1 & Hn1). exists l1. split_and!; congruence.
Qed.

Lemma leaves_epoch s s' n : leaves s s' -> epochLocked s' n = epochLocked s n.
Proof. intros [[E1 E2] _]. unfold epochLocked. by rewrite E1, E2. Qed.

Lemma leaves_saves s s' : leaves s s' -> saves_current s -> saves_current s'.
Proof.
  intros L I id l' Hl' Hs. destruct (lv_saving _ _ L id l' Hl' Hs) as (l & Hl & Hp & Hn).
  assert (forall k k', lp_pc k = lp_pc k' -> saving k' = true -> saving k = true) as Hsv
    by (intros k k' E; unfold saving; by rewrite E).
  destruct (I id l Hl (Hsv _ _ Hp Hs)) as [He Hu]. split.
  - intros e. rewrite <-Hp, (leaves_epoch _ _ _ L), <-Hn. apply He.
  - intros id2 l2' Hl2' Hs2. destruct (lv_saving _ _ L id2 l2' Hl2' Hs2) as (l2 & Hl2 & Hp2 & _).
    eapply Hu; [exact Hl2|]. by eapply Hsv.
Qed.

Section resets.
Context `{Codec} `{ExhaustionCodec}.

Lemma leaves_eq s s' :
  loops s' = loops s -> epochs s' = epochs s -> epochBase s' = epochBase s -> leaves s s'.
Proof. intros E1 E2 E3. split; [done|]. rewrite E1. intros id l Hl _. by exists l. Qed.

Lemma leaves_cancel s id : leaves s (cancelLoop s id).
Proof.
  split; [done|]. intros i l' Hl _. unfold cancelLoop in Hl. cbn in Hl. destruct (decide (id = i)) as [->|Hne].
  - rewrite lookup_alter_eq in Hl. destruct (loops s !! i) as [l|]; [|done]. injection Hl as <-. by exists l.
  - rewrite lookup_alter_ne in Hl by done. by exists l'.
Qed.

Lemma leaves_start s d : leaves s (startLocked s d).
Proof.
  split; [done|]. intros i l' Hl Hs. cbn in Hl. apply lookup_insert_Some in Hl as [[_ <-]|[_ Hl]]; [done|]. by exists l'.
Qed.

Lemma leaves_shutdown s : leaves s (BeginShutdown s).
Proof.
  unfold BeginShutdown. cbn. destruct (started s); [|by apply leaves_eq]. split; [done|].
  intros i l' Hl _. cbn in Hl. rewrite lookup_fmap in Hl. destruct (loops s !! i) as [l|]; [|done].
  injection Hl as <-. by exists l.
Qed.

Lemma leaves_stop s name : leaves s (Stop s name).
Proof. unfold Stop. cbn. repeat case_match; by apply leaves_eq. Qed.

Lemma leaves_op s o : leaves s (s <| op := o |>).
Proof. by apply leaves_eq. Qed.

Lemma leaves_launch s d reserved : leaves s (launchIfFree s d reserved).
Proof. unfold launchIfFree. case_match; [apply leaves_start|reflexivity]. Qed.

Lemma leaves_definition s d : leaves s (startDefinitionLocked s d).
Proof.
  unfold startDefinitionLocked. set (s1 := s <| holds ::= _ |> <| failures ::= _ |>).
  transitivity s1; [by apply leaves_eq|]. destruct (workerCancels s1 !! _) as [id|].
  - destruct (String.eqb _ ""); [|apply leaves_op]. destruct (workerDone s1 !! _); [|apply leaves_op].
    transitivity (cancelLoop s1 id); [apply leaves_cancel|apply leaves_op].
  - etrans; [apply leaves_launch|apply leaves_op].
Qed.

(** ** Moves of a loop *)

Lemma setPc_pc s id pc l : loops (setPc s id pc) !! id = Some l -> lp_pc l = pc.
Proof. unfold setPc. simpl. rewrite lookup_alter_eq. destruct (loops s !! id); [|done]. by intros [= <-]. Qed.

(** A loop begins a write only for the current epoch and with [stateMu] free. *)
Lemma begins_save s id l e now s' l' :
  loops s !! id = Some l -> loopStep s id l e now = Some s' ->
  loops s' !! id = Some l' -> saving l' = true ->
  stateFree s = true /\ forall ep, claims (lp_pc l') ep -> ep = epochLocked s (name_of l).
Proof.
  intros Hl Hs Hl' Hsv.
  assert (forall s1 pc, Some (setPc s1 id pc) = Some s' -> lp_pc l' = pc) as Hpc
    by (intros s1 pc [= <-]; by eapply setPc_pc).
  assert (forall s1 pc P, Some (setPc s1 id pc) = Some s' ->
    match pc with LSave _ _ _ _ => False | _ => True end -> P) as Hno.
  { intros s1 pc P Hx%Hpc Hp. unfold saving in Hsv. rewrite Hx in Hsv. by destruct pc. }
  unfold loopStep, terminalRun, persistExhaustion, restartAfter, afterOutcome in Hs.
  destruct (lp_pc l) eqn:Epc, e; try done.
  all: repeat first
    [ done
    | eapply Hno; [exact Hs|done]
    | match type of Hs with
      | context [if ?b then _ else _] => destruct b eqn:?
      | context [match ?o with Some _ => _ | None => _ end] => destruct o
      | context [match ?o with Ok _ => _ | Err _ => _ end] => destruct o
      | context [let '(_, _) := ?o in _] => destruct o
      | context [match ?o with ErrShutdown => _ | _ => _ end] => destruct o
      end ].
  { rewrite (Hpc _ _ Hs). bools. split; [done|]. by intros ep <-. }
  1-2: match goal with o : StoreError |- _ => destruct o end; (eapply Hno; [exact Hs|done]).
  exfalso. injection Hs as <-. simpl in Hl'. by rewrite lookup_delete_eq in Hl'.
Qed.

(** * Epochs *)

(** The worker a reset in progress is for; [""] is every worker. *)
Definition resetting (o : Op) : option string :=
  match o with
  | OReloadReset _ => Some ""
  | OStartReset d | ORestartReset d => Some (d_Name d)
  | _ => None
  end.

Lemma epochLocked_seq s n : Inv s -> epochLocked s n <= epochSeq s.
Proof.
  intros HI. destruct (inv_epochs s HI) as (Hb & He & _). unfold epochLocked.
  destruct (epochs s !! n) eqn:E; [by apply (He n)|done].
Qed.

(** What a reset does to epochs: those it covers become new, the others stay. *)
Lemma reset_epochs s name fails n :
  let s' := (resetExhaustion s name fails).1 in
  epochLocked s' n = epochLocked s n \/ epochLocked s' n = epochSeq s + 1.
Proof.
  destruct (closing s) eqn:Ec; [left; unfold resetExhaustion; by rewrite Ec|].
  destruct (fails && negb (String.eqb name "")) eqn:Ef; [left; unfold resetExhaustion; by rewrite Ec, Ef|].
  destruct (resetExhaustion_epoch s name n fails Ec) as [E1 E2].
  { destruct fails; [|by right]. simpl in Ef. bools. left. by apply String.eqb_eq. }
  destruct (decide _); [right|left; apply E2]. cbv zeta. rewrite <-E1. apply E2.
Qed.

(** The effect of an operation on what orders resets and writes: it resets some
    worker with nobody writing, or leaves them alone. *)
Inductive orders (s s' : Sup) : Prop :=
| ord_leaves : leaves s s' -> orders s s'
| ord_reset name fails s1 : stateFree s = true -> s1 = (resetExhaustion s name fails).1 ->
    leaves s1 s' -> orders s s'.

Lemma opStep_orders s e s' : opStep s e = Some s' -> orders s s'.
Proof.
  unfold opStep, ReloadStep, StartDefinition, Restart. destruct (op s), e; try done.
  all: try (destruct (stateFree s) eqn:Ef; cbn [negb]; [|done]).
  - destruct (closing s); intros [= <-]; [left; apply leaves_op|].
    eapply ord_reset; [done|reflexivity|apply leaves_op].
  - intros [= <-]. left. match goal with |- context [foldr ?f s ?ll] =>
      transitivity (foldr f s ll); [|apply leaves_op]; induction ll as [|x xs IH]; simpl end; [reflexivity|].
    etrans; [exact IH|apply leaves_cancel].
  - destruct (negb _); [done|]. destruct (closing s); intros [= <-]; left; [apply leaves_op|].
    match goal with |- context [foldr ?f ?s0 ?ll] =>
      transitivity s0; [by apply leaves_eq|]; transitivity (foldr f s0 ll); [|apply leaves_op];
      induction ll as [|x xs IH]; simpl end; [reflexivity|]. etrans; [exact IH|apply leaves_start].
  - destruct (closing s); [|done]. intros [= <-]. left. apply leaves_op.
  - destruct (resetExhaustion s (d_Name d) fails) as [s1 [u|u]] eqn:Er; intros [= <-];
      (eapply (ord_reset _ _ (d_Name d) fails); [done|by rewrite Er|apply leaves_op]).
  - intros [= <-]. left. apply leaves_definition.
  - destruct (gone s done); [|done]. intros [= <-]. left. etrans; [apply leaves_launch|apply leaves_op].
  - destruct (closing s); [|done]. intros [= <-]. left. apply leaves_op.
  - destruct (resetExhaustion s (d_Name d) fails) as [s1 [u|u]] eqn:Er; intros [= <-];
      (eapply (ord_reset _ _ (d_Name d) fails); [done|by rewrite Er|apply leaves_op]).
  - destruct (closing s); intros [= <-]; left; apply leaves_op.
  - intros [= <-]. left. transitivity (Stop s (d_Name d)); [apply leaves_stop|].
    destruct cancel as [i|]; [etrans; [apply leaves_cancel|apply leaves_op]|apply leaves_op].
  - destruct (closing s); intros [= <-]; left; [apply leaves_op|by apply leaves_eq].
Qed.

(** Nobody writes while [stateMu] is free. *)
Lemma stateFree_idle s id l : stateFree s = true -> loops s !! id = Some l -> saving l = false.
Proof.
  unfold stateFree. rewrite forallb_forall. intros Hf Hl.
  apply (negb_true_iff (saving l)), (Hf (id, l)), list_elem_of_In. by apply elem_of_map_to_list.
Qed.

(** A move of a loop leaves epochs alone, and begins a write only for the current
    epoch while nobody writes. *)
Lemma loop_orders s id l e now s' :
  loops s !! id = Some l -> loopStep s id l e now = Some s' -> saves_current s -> saves_current s'.
Proof.
  intros Hl Hs Hc. destruct (loopStep_moved s id l e now s' Hl Hs) as [[_ ->]|Hm].
  { apply (leaves_saves s); [|done]. split; [done|]. intros i l' Hl' _. simpl in Hl'.
    apply lookup_delete_Some in Hl' as [_ Hl']. by exists l'. }
  destruct (mv_loops _ _ _ _ Hm) as (l1 & Hls & Hd & _). destruct (mv_epochs _ _ _ _ Hm) as (E1 & E2 & _).
  destruct (saving l1) eqn:Esv.
  - assert (loops s' !! id = Some l1) as Hl1 by (rewrite Hls; by rewrite lookup_insert_eq).
    destruct (begins_save s id l e now s' l1 Hl Hs Hl1 Esv) as [Hf He].
    assert (forall i k, loops s' !! i = Some k -> saving k = true -> i = id) as Hone.
    { intros i k. rewrite Hls, lookup_insert_Some. intros [[<- _]|[_ Hk]] Hsv; [done|].
      by rewrite (stateFree_idle s i k Hf Hk) in Hsv. }
    intros i k Hk Hsv. pose proof (Hone i k Hk Hsv) as ->. split; [|exact Hone].
    rewrite Hl1 in Hk. injection Hk as <-. intros ep Hep%He. unfold epochLocked, name_of in *. congruence.
  - apply (leaves_saves s); [|done]. split; [done|]. intros i k. rewrite Hls, lookup_insert_Some.
    intros [[<- <-]|[_ Hk]] Hsv; [by rewrite Esv in Hsv|by exists k].
Qed.

Lemma orders_saves s s' : orders s s' -> saves_current s -> saves_current s'.
Proof.
  intros [L|name fails s1 Hf -> L] Hc; [by apply (leaves_saves s)|].
  apply (leaves_saves _ _ L). intros id l Hl Hsv.
  rewrite (proj1 (resetExhaustion_frame s name fails)) in Hl. by rewrite (stateFree_idle s id l Hf Hl) in Hsv.
Qed.

Lemma step_orders s a s' :
  step s a = Some s' ->
  orders s s' \/ exists id l e now, a = ALoop id e now /\ loops s !! id = Some l /\ loopStep s id l e now = Some s'.
Proof.
  destruct a; simpl.
  - destruct (loops s !! id) as [l|] eqn:Hl; [|done]. right. by exists id, l, e, now.
  - destruct (op s); try done. destruct (closing s); intros [= <-]; left; left; [done|by apply leaves_eq].
  - destruct (op s); try done. intros [= <-]. left; left. apply leaves_op.
  - destruct (op s); try done. intros [= <-]. left; left. apply leaves_op.
  - intros Hs. left. by eapply opStep_orders.
  - unfold continueRestart. destruct (restarts s !! n) as [[[d ep] dn]|]; [|done]. destruct (op s); try done.
    intros Hs. left; left. repeat case_match; simplify_eq; by apply leaves_eq.
  - intros [= <-]. left; left. apply leaves_stop.
  - intros [= <-]. left; left. apply leaves_shutdown.
Qed.

(** Epochs only grow. *)
Lemma step_epochs s a s' n : Inv s -> step s a = Some s' -> epochLocked s n <= epochLocked s' n.
Proof.
  intros HI Hs. destruct (step_orders s a s' Hs) as [[L|name fails s1 _ -> L]|(id & l & e & now & -> & Hl & Hm)].
  - by rewrite (leaves_epoch _ _ _ L).
  - rewrite (leaves_epoch _ _ _ L). pose proof (epochLocked_seq s n HI).
    destruct (reset_epochs s name fails n); simpl in *; lia.
  - destruct (loopStep_moved s id l e now s' Hl Hm) as [[_ ->]|Hmv]; [done|].
    destruct (mv_epochs _ _ _ _ Hmv) as (E1 & E2 & _). unfold epochLocked. by rewrite E1, E2.
Qed.

Lemma reach_saves db0 s : reach db0 s -> saves_current s.
Proof.
  induction 1 as [|s a s' Hr IH Ha Hs]; [by intros id l Hl|].
  destruct (step_orders s a s' Hs) as [Ho|(id & l & e & now & -> & Hl & Hm)];
    [by apply (orders_saves s)|by eapply loop_orders].
Qed.

(** A loop whose claim is of an older epoch. *)
Definition stale (s : Sup) (l : Loop) : Prop :=
  exists e, claims (lp_pc l) e /\ e <> epochLocked s (name_of l).

(** A stale loop gives up without touching what the reset cleared. *)
Lemma stale_gives_up s id l e now s' :
  loops s !! id = Some l -> stale s l -> saving l = false -> loopStep s id l e now = Some s' ->
  exists delay, s' = setPc s id (LDelay delay).
Proof.
  intros _ (ep & Hcl & Hne) Hsv. unfold loopStep, persistExhaustion, saving in *.
  destruct (lp_pc l); try done; simpl in Hcl; subst; destruct e; try done.
  - destruct (stateFree s); [|done]. cbn [negb].
    rewrite (proj2 (Z.eqb_neq _ _)) by (intros E; apply Hne; by rewrite <-E).
    rewrite orb_true_r. intros [= <-]. by eexists.
  - rewrite (proj2 (Z.eqb_neq _ _)) by (intros E; apply Hne; by rewrite <-E). intros [= <-]. by eexists.
Qed.

(** What a reset of [name] leaves behind for a worker [n] it covers. *)
Lemma reset_step s name fails s' :
  Inv s -> resetting (op s) = Some name -> closing s = false -> name = "" \/ fails = false ->
  opStep s (EStore fails) = Some s' ->
  stateFree s = true /\ loops s' = loops s /\
  forall n, epochLocked s' n = epochLocked (resetExhaustion s name fails).1 n /\
    failuresOf s' n = failuresOf (resetExhaustion s name fails).1 n /\
    exhausted s' = exhausted (resetExhaustion s name fails).1 /\
    pending s' = pending (resetExhaustion s name fails).1 /\ db s' = db (resetExhaustion s name fails).1.
Proof.
  intros HI Hr Hc Hf. unfold opStep, ReloadStep, StartDefinition, Restart.
  destruct (resetExhaustion_frame s name fails) as (Fl & _).
  destruct (op s); try done; simpl in Hr; injection Hr as <-;
    (destruct (stateFree s) eqn:Ef; cbn [negb]; [|done]); rewrite ?Hc.
  1: intros [= <-]; by rewrite <-Fl.
  all: destruct (resetExhaustion s _ fails) as [s1 [u|u]]; intros [= <-]; by rewrite <-Fl.
Qed.

Lemma reset_cleared s name fails :
  closing s = false -> name = "" \/ fails = false ->
  let s' := (resetExhaustion s name fails).1 in
  db s' = (if fails then db s else ClearWorkerExhaustion (db s) name) /\
  forall n, name = "" \/ name = n -> n ∉ pending s'.
Proof.
  intros Hc Hf. unfold resetExhaustion. rewrite Hc.
  destruct (String.eqb_spec name "") as [->|Hne].
  - rewrite andb_false_r. destruct fails; (split; [done|]); intros n _; simpl; set_solver.
  - destruct Hf as [|Hf]; [done|]. rewrite Hf. simpl. split; [done|]. intros n [|<-]; [done|]. set_solver.
Qed.

(** C33: an operator reset wins over a loop that records the exhaustion of the same
    worker.  At every reachable state: (1) at most one loop is inside the durable
    write, and it writes for its worker's current epoch — a write in progress
    delays every reset; (2) a reload, start or restart that resets workers does so
    with no write in progress, and leaves every worker it covers without a
    recorded or pending exhaustion, with an empty failure budget, with the durable
    record cleared (a reload goes on when that statement fails), and with every
    claim of its loops stale; (3) epochs only grow, so a stale claim stays stale;
    (4) a loop with a stale claim that moves changes nothing but its own place: it
    goes to the restart delay, and records, retires and notifies nothing. *)
Theorem reset_wins db0 s :
  reach db0 s ->
  (forall id l, loops s !! id = Some l -> saving l = true ->
     ~ stale s l /\ forall id' l', loops s !! id' = Some l' -> saving l' = true -> id' = id) /\
  (forall name fails s', resetting (op s) = Some name -> closing s = false -> name = "" \/ fails = false ->
     opStep s (EStore fails) = Some s' ->
     db s' = (if fails then db s else ClearWorkerExhaustion (db s) name) /\
     forall n, name = "" \/ name = n ->
       exhausted s' !! n = None /\ (n ∉ pending s') /\ failuresOf s' n = 0 /\
       forall id l, loops s' !! id = Some l -> name_of l = n ->
         saving l = false /\ forall e, claims (lp_pc l) e -> e < epochLocked s' n) /\
  (forall a s' n, step s a = Some s' -> epochLocked s n <= epochLocked s' n) /\
  (forall id l e now s', loops s !! id = Some l -> stale s l -> loopStep s id l e now = Some s' ->
     exists delay, s' = setPc s id (LDelay delay)).
Proof.
  intros Hr. pose proof (reach_inv db0 s Hr) as HI. pose proof (reach_saves db0 s Hr) as Hsv. split_and!.
  - intros id l Hl Hs. destruct (Hsv id l Hl Hs) as [He Hu]. split; [|done].
    intros (e & Hcl & Hne). by apply Hne, He.
  - intros name fails s' Ho Hc Hf Hs.
    destruct (reset_step s name fails s' HI Ho Hc Hf Hs) as (Hfree & Hls & Heq).
    destruct (reset_cleared s name fails Hc Hf) as [Hdb Hpe].
    split; [destruct (Heq "") as (_ & _ & _ & _ & ->); exact Hdb|]. intros n Hn.
    destruct (Heq n) as (Eep & Efl & Eex & Epe & _).
    destruct (resetExhaustion_epoch s name n fails Hc Hf) as [Eseq He].
    destruct (decide _) as [_|Hd]; [|done]. destruct He as (E1 & E2 & E3).
    rewrite Eex, Epe, Efl, Eep. split_and!; [done|by apply Hpe|done|].
    intros id l Hl Hname. rewrite Hls in Hl. split; [by apply (stateFree_idle s id)|].
    intros e Hcl. destruct (inv_epochs s HI) as (_ & _ & He3). specialize (He3 id l e Hl Hcl). lia.
  - intros a s' n. by apply step_epochs.
  - intros id l e now s' Hl Hst Hs. eapply stale_gives_up; [done..| |done].
    destruct (saving l) eqn:Es; [|done]. destruct Hst as (ep & Hcl & Hne).
    destruct (Hsv id l Hl Es) as [He _]. by destruct (Hne (He ep Hcl)).
Qed.

End resets.

(** A loop about to record its exhaustion while the operator restarts the worker. *)
Module ResetDemo.
Import SupervisorDemo.

Definition failing : list Action := reload ++
  [ALoop 0 ENone 0; ALoop 0 (ETriggered zeroRun (Some (ErrTrigger "fork"))) 0; ALoop 0 ENone 9; ARestart web].

Lemma failing_reach : reach emptyDB (after failing).
Proof.
  apply after_reach; [apply Forall_app; split; [apply reload_ok|repeat constructor; done]|].
  vm_compute. reflexivity.
Qed.

Lemma reset_wins_witness :
  exists s', opStep (after failing) (EStore false) = Some s' /\ exhausted s' !! "web" = None /\
    forall id l, loops s' !! id = Some l -> name_of l = "web" ->
      saving l = false /\ forall e, claims (lp_pc l) e -> e < epochLocked s' "web".
Proof.
  destruct (opStep (after failing) (EStore false)) as [s'|] eqn:E.
  - exists s'. split; [reflexivity|].
    destruct (proj1 (proj2 (reset_wins emptyDB (after failing) failing_reach)) "web" false s') as [_ Hn].
    + vm_compute. reflexivity.
    + vm_compute. reflexivity.
    + by right.
    + exact E.
    + destruct (Hn "web") as (H1 & _ & _ & H2); [by right|]. by split.
  - vm_compute in E. discriminate.
Defined.

End ResetDemo.
