(* ===== verification/History.v ===== *)
(** internal/executor/finalizer.go, persistlag.go, storage.go and the recording
    half of executor.go: run history written behind execution.

    A run whose row, running transition or terminal state cannot be stored when
    it happens is spooled in memory; one background writer carries the spooled
    stages to the database in order.  Items are shared between the writer and
    the execution path: a snapshot ([finalItemView]) names its item by [fi_ptr],
    and the updates the execution path makes between two writes are the
    [EnvOp]s a write is run with. *)

From S2P Require Import Prelude GoRuntime Model StoreDB.
Open Scope Z_scope.

(** * Persistence lag (persistlag.go) *)

Record persistLag := mkLag {
  pl_count : Z;
  pl_totalNS : Z;
  pl_lastNS : Z;
  pl_maxNS : Z;
  pl_next : Z;
  pl_pending : gmap Z Time
}.

#[export] Instance persistLag_eta : Eta persistLag := fun p => mkLag
  (pl_count p) (pl_totalNS p) (pl_lastNS p) (pl_maxNS p) (pl_next p) (pl_pending p).

Definition zeroLag : persistLag := mkLag 0 0 0 0 0 ∅.

Definition observe (p : persistLag) (now ended : Time) : persistLag :=
  if IsZero ended then p else
  let d := Z.max (Sub now ended) 0 in
  p <| pl_count ::= fun n => wrap64 (n + 1) |> <| pl_totalNS ::= fun n => wrap64 (n + d) |>
    <| pl_lastNS := d |> <| pl_maxNS ::= Z.max d |>.

Definition startPending (p : persistLag) (ended : Time) : Z * persistLag :=
  let token := pl_next p + 1 in
  (token, p <| pl_next := token |> <| pl_pending ::= insert token ended |>).

Definition endPending (p : persistLag) (token : Z) : persistLag :=
  p <| pl_pending ::= delete token |>.

Record PersistenceLag := mkPersistenceLag {
  lag_Persisted : Z;
  lag_LastMS : Z;
  lag_MaxMS : Z;
  lag_TotalMS : Z;
  lag_Pending : Z;
  lag_PendingOldestAgeMS : Z
}.

(** The earliest non-zero end time of the pending states. *)
Definition oldestPending (p : persistLag) : Time :=
  foldr (fun ended oldest =>
    if negb (IsZero ended) && (IsZero oldest || Before ended oldest) then ended else oldest)
    zeroTime (map_to_list (pl_pending p)).*2.

Definition snapshot (p : persistLag) (now : Time) : PersistenceLag :=
  let oldest := oldestPending p in
  mkPersistenceLag (pl_count p) (pl_lastNS p ÷ Millisecond) (pl_maxNS p ÷ Millisecond)
    (pl_totalNS p ÷ Millisecond) (Z.of_nat (size (pl_pending p)))
    (if IsZero oldest then 0 else Z.max (Sub now oldest ÷ Millisecond) 0).

(** * Deferred history *)

Record startInfo := mkStartInfo {
  si_pid : Z;
  si_pgid : Z;
  si_id : string;
  si_at : Time
}.

Record terminal := mkTerminal {
  t_status : string;
  t_reason : string;
  t_code : option Z;
  t_signal : string;
  t_ended : Time;
  t_bytes : Z;
  t_truncated : bool;
  t_retry : bool;
  t_usage : option ResourceUsage
}.

Definition zeroStart : startInfo := mkStartInfo 0 0 "" zeroTime.
Definition zeroTerminal : terminal := mkTerminal "" "" None "" zeroTime 0 false false None.

Record finalItem := mkItem {
  fi_ptr : nat;               (** identity of the allocated item *)
  fi_r : Run;
  fi_d : Definition_;
  fi_create : bool;
  fi_start : bool;
  fi_started : startInfo;
  fi_done : bool;
  fi_t : terminal;
  fi_token : Z;
  fi_backoff : Duration;
  fi_nextTry : Time;
  fi_attempts : Z
}.

#[export] Instance finalItem_eta : Eta finalItem := fun i => mkItem
  (fi_ptr i) (fi_r i) (fi_d i) (fi_create i) (fi_start i) (fi_started i) (fi_done i) (fi_t i)
  (fi_token i) (fi_backoff i) (fi_nextTry i) (fi_attempts i).

Definition finalizerBackoffMin : Duration := Second.
Definition finalizerBackoffMax : Duration := 30 * Second.
Definition finalizerFailStreak : Z := 3.

(** The part of the executor service that records history. *)
Record History := mkHistory {
  h_db : DB;
  h_items : gmap string finalItem;    (** Service.finalizing *)
  h_max : Z;                          (** QueueOptions.MaxFinalizers *)
  h_nextPtr : nat;
  h_lag : persistLag;
  h_closing : bool;
  h_started : bool;                   (** the writer goroutine *)
  h_down : bool;                      (** storageHealth *)
  h_since : Time;
  h_deferred : Z;
  h_dropped : Z;
  h_outcomes : gmap string Run;
  h_finished : list (Run * bool)      (** announced completions and their retry flag *)
}.

#[export] Instance History_eta : Eta History := fun h => mkHistory
  (h_db h) (h_items h) (h_max h) (h_nextPtr h) (h_lag h) (h_closing h) (h_started h) (h_down h)
  (h_since h) (h_deferred h) (h_dropped h) (h_outcomes h) (h_finished h).

(** ** Storage health *)

Definition storageFailed (h : History) (now : Time) : History :=
  if h_down h then h else h <| h_down := true |> <| h_since := now |>.

Definition storageRecovered (h : History) : History := h <| h_down := false |>.

(** A constraint, a refused transition and an idempotency conflict are refusals. *)
Definition storageUnavailable (callerDone : bool) (err : option (option StoreError)) : bool :=
  match err with
  | None => false
  | Some e =>
      negb callerDone &&
      match e with
      | Some ErrConstraint | Some ErrInvalidTransition | Some ErrIdempotencyConflict => false
      | _ => true
      end
  end.

(** ** Spooling *)

(** What the execution path has to record of a run. *)
Inductive Update :=
| UCreate                       (** the pending row *)
| UStart (info : startInfo)     (** the running transition *)
| UDone (t : terminal).         (** the terminal state *)

Definition applyUpdate (it : finalItem) (u : Update) : finalItem :=
  match u with
  | UCreate => it <| fi_create := true |>
  | UStart info => it <| fi_start := true |> <| fi_started := info |>
  | UDone t => it <| fi_done := true |> <| fi_t := t |>
  end.

(** [update(it)] and the pending token of a state that became terminal. *)
Definition updateItem (h : History) (id : string) (it : finalItem) (us : list Update) : History :=
  let it' := foldl applyUpdate it us in
  if fi_done it' && negb (fi_done it) then
    let '(token, lag) := startPending (h_lag h) (t_ended (fi_t it')) in
    h <| h_lag := lag |> <| h_items ::= insert id (it' <| fi_token := token |>) |>
  else h <| h_items ::= insert id it' |>.

Definition dropFinalizer (h : History) (id : string) : History :=
  match h_items h !! id with
  | Some it =>
      let h := if fi_done it then h <| h_lag ::= fun p => endPending p (fi_token it) |> else h in
      h <| h_items ::= delete id |>
  | None => h
  end.

(** [spool]; [stopped] says that shutdown began before the writer could be
    started. *)
Definition spool (h : History) (now : Time) (stopped : bool) (r : Run) (d : Definition_)
    (us : list Update) : History * bool :=
  if h_closing h then (h, false) else
  let added :=
    match h_items h !! r_ID r with
    | Some it => Some (updateItem h (r_ID r) it us)
    | None =>
        if h_max h <=? Z.of_nat (size (h_items h)) then None else
        let it := mkItem (h_nextPtr h) r d false false zeroStart false zeroTerminal 0
                    finalizerBackoffMin (if h_down h then Add now finalizerBackoffMin else now) 0 in
        Some (updateItem (h <| h_nextPtr ::= S |>) (r_ID r) it us)
    end in
  match added with
  | None => (h, false)
  | Some h =>
      if stopped then (dropFinalizer (h <| h_closing := true |>) (r_ID r), false)
      else (h <| h_started := true |>, true)
  end.

Definition spooled (h : History) (id : string) (us : list Update) : History * bool :=
  match h_items h !! id with
  | Some it => (match us with [] => h | _ => updateItem h id it us end, true)
  | None => (h, false)
  end.

Definition historyLost (h : History) : History := h <| h_dropped ::= Z.succ |>.

Definition Finalizers (h : History) : Z * Z := (Z.of_nat (size (h_items h)), 0).

Definition historyPending (h : History) : bool := 0 <? Z.of_nat (size (h_items h)).

Definition abandonFinalizers (h : History) : History :=
  h <| h_lag ::= fun p => foldr (fun ki p => if fi_done ki.2 then endPending p (fi_token ki.2) else p) p
                            (map_to_list (h_items h)) |>
    <| h_items := ∅ |>.

(** ** The background writer *)

Record finalItemView := mkView {
  v_item : nat;
  v_r : Run;
  v_create : bool;
  v_start : bool;
  v_started : startInfo;
  v_done : bool;
  v_t : terminal
}.

Definition viewOf (it : finalItem) : finalItemView :=
  mkView (fi_ptr it) (fi_r it) (fi_create it) (fi_start it) (fi_started it) (fi_done it) (fi_t it).

(** What the execution path may do between two writes of the writer. *)
Inductive EnvOp :=
| EvSpool (now : Time) (stopped : bool) (r : Run) (d : Definition_) (us : list Update)
| EvSpooled (id : string) (us : list Update)
| EvDrop (id : string)
| EvClose.

Definition runEnvOp (h : History) (o : EnvOp) : History :=
  match o with
  | EvSpool now stopped r d us => (spool h now stopped r d us).1
  | EvSpooled id us => (spooled h id us).1
  | EvDrop id => dropFinalizer h id
  | EvClose => h <| h_closing := true |>
  end.

Definition runEnv (h : History) (l : list EnvOp) : History := foldl runEnvOp h l.

(** [v.item.field = value] under the lock. *)
Definition onItem (h : History) (v : finalItemView) (f : finalItem -> finalItem) : History :=
  match h_items h !! r_ID (v_r v) with
  | Some it => if (fi_ptr it =? v_item v)%nat then h <| h_items ::= insert (r_ID (v_r v)) (f it) |> else h
  | None => h
  end.

Inductive WriteError :=
| WUnavailable            (** the database did not take the write *)
| WInvalidTransition      (** store.ErrInvalidTransition *)
| WConflict.              (** errHistoryConflict *)

(** Outcomes and interleavings of the stages of one write: [wo_fails i] is a
    storage failure of stage [i] (0 insert, 1 lookup, 2 start, 3 finish), [wo_env]
    what the execution path does before stage [i] (3: before retiring). *)
Record WriteOracle := mkOracle {
  wo_fails : nat -> bool;
  wo_env : nat -> list EnvOp;
  wo_now : Time
}.

Definition writeCreate (h : History) (v : finalItemView) (o : WriteOracle) : History * Result WriteError unit :=
  if negb (v_create v) then (h, Ok tt) else
  if wo_fails o 0 then (h, Err WUnavailable) else
  let stored h := (onItem h v (fun it => it <| fi_create := false |>), Ok tt) in
  match CreateRun (h_db h) (v_r v) with
  | (db, Ok _) => stored (h <| h_db := db |>)
  | (_, Err _) =>
      if wo_fails o 1 then (h, Err WConflict) else
      match Run_ (h_db h) (r_ID (v_r v)) with
      | Ok _ => stored h
      | Err _ => (h, Err WConflict)
      end
  end.

Definition writeStart (h : History) (v : finalItemView) (o : WriteOracle) : History * Result WriteError unit :=
  if negb (v_start v) then (h, Ok tt) else
  if wo_fails o 2 then (h, Err WUnavailable) else
  let st := v_started v in
  let '(db, _) := StartRun (h_db h) (r_ID (v_r v)) (si_pid st) (si_pgid st) (si_id st) (si_at st) in
  (onItem (h <| h_db := db |>) v (fun it => it <| fi_start := false |>), Ok tt).

Definition writeFinish (h : History) (v : finalItemView) (o : WriteOracle) : History * Result WriteError unit :=
  if negb (v_done v) then (h, Ok tt) else
  if wo_fails o 3 then (h, Err WUnavailable) else
  let t := v_t v in
  match FinishRunWithUsage (h_db h) (r_ID (v_r v)) (t_status t) (t_reason t) (t_code t) (t_signal t)
          (t_ended t) (t_bytes t) (t_truncated t) (t_usage t) with
  | (db, Ok _) => (h <| h_db := db |> <| h_lag ::= fun p => observe p (wo_now o) (t_ended t) |>, Ok tt)
  | (_, Err _) => (h, Err WInvalidTransition)
  end.

(** The last section: retire the item unless a stage arrived meanwhile. *)
Definition retire (h : History) (v : finalItemView) : History :=
  match h_items h !! r_ID (v_r v) with
  | Some it =>
      if (fi_ptr it =? v_item v)%nat && negb (fi_create it) && negb (fi_start it) &&
         (v_done v || negb (fi_done it))
      then dropFinalizer h (r_ID (v_r v)) else h
  | None => h
  end.

Definition writeHistory (h : History) (v : finalItemView) (o : WriteOracle) : History * Result WriteError unit :=
  match writeCreate (runEnv h (wo_env o 0)) v o with
  | (h, Err e) => (h, Err e)
  | (h, Ok _) =>
      match writeStart (runEnv h (wo_env o 1)) v o with
      | (h, Err e) => (h, Err e)
      | (h, Ok _) =>
          match writeFinish (runEnv h (wo_env o 2)) v o with
          | (h, Err e) => (h, Err e)
          | (h, Ok _) => (retire (runEnv h (wo_env o 3)) v, Ok tt)
          end
      end
  end.

(** [slices.SortFunc] by queue time. *)
Definition older (a b : finalItemView) : Prop := r_QueuedAt (v_r a) <= r_QueuedAt (v_r b).
#[export] Instance older_dec : RelDecision older.
Proof. intros a b. unfold older. apply _. Defined.

Definition dueViews (h : History) (now : Time) : list finalItemView :=
  merge_sort older (viewOf <$> List.filter (fun it => negb (After (fi_nextTry it) now))
                                (map_to_list (h_items h)).*2).

(** A failed item waits twice as long, up to half a minute. *)
Definition backOff (now : Time) (it : finalItem) : finalItem :=
  let backoff := Z.min (fi_backoff it * 2) finalizerBackoffMax in
  it <| fi_attempts ::= Z.succ |> <| fi_backoff := backoff |> <| fi_nextTry := Add now backoff |>.

(** The loop of [finalizePass] over the due items; the oracle of the n-th write is
    [os n]. *)
Fixpoint passLoop (h : History) (os : nat -> WriteOracle) (n : nat) (views : list finalItemView) (streak : Z)
  : History * bool :=
  match views with
  | [] => (h, false)
  | v :: views =>
      if h_closing h then (h, false) else
      match writeHistory h v (os n) with
      | (h, Ok _) => passLoop (storageRecovered h) os (S n) views 0
      | (h, Err WUnavailable) =>
          let h := onItem (storageFailed h (wo_now (os n))) v (backOff (wo_now (os n))) in
          if finalizerFailStreak <=? streak + 1 then (h, true) else passLoop h os (S n) views (streak + 1)
      | (h, Err _) => passLoop (dropFinalizer h (r_ID (v_r v))) os (S n) views 0
      end
  end.

Definition finalizePass (h : History) (now : Time) (os : nat -> WriteOracle) : History * bool :=
  passLoop h os 0 (dueViews h now) 0.

(** How long until the earliest item is due; negative when there is none. *)
Definition untilNextFinalizer (h : History) (now : Time) : Duration :=
  foldr (fun ki next => let d := Z.max (Sub (fi_nextTry ki.2) now) 0 in
                        if (next <? 0) || (d <? next) then d else next)
    (-1) (map_to_list (h_items h)).

(** One round of [finalizeLoop]: the wait before the next one and the next global
    backoff; [None] ends the loop at shutdown. *)
Definition finalizeRound (h : History) (now : Time) (os : nat -> WriteOracle) (global : Duration)
  : History * option (Duration * Duration) :=
  if h_closing h then (abandonFinalizers h, None) else
  let '(h, failedEarly) := finalizePass h now os in
  if failedEarly : bool then (h, Some (global, Z.min (global * 2) finalizerBackoffMax))
  else (h, Some (untilNextFinalizer h now, finalizerBackoffMin)).

(** * Recording on the execution path (executor.go) *)

(** A store write: [None] is an unavailable database. *)
Definition attempt (h : History) (fails : bool) (f : DB -> DB * Result StoreError unit)
  : History * option (option StoreError) :=
  if fails then (h, Some None) else
  match f (h_db h) with
  | (db, Ok _) => (h <| h_db := db |>, None)
  | (_, Err e) => (h, Some (Some e))
  end.

(** [admitRow]: recorded, or the error that refuses the run. *)
Definition admitRow (h : History) (now : Time) (callerDone fails : bool) (r : Run)
  : History * (bool * option (option StoreError)) :=
  if h_down h && historyPending h then (h, (false, if callerDone then Some None else None)) else
  match attempt h fails (fun db => CreateRun db r) with
  | (h, None) => (storageRecovered h, (true, None))
  | (h, Some e) =>
      if storageUnavailable callerDone (Some e) then (storageFailed h now, (false, None))
      else (h, (false, Some e))
  end.

Definition deferRecord (h : History) (now : Time) (stopped : bool) (r : Run) (d : Definition_) : History :=
  let h := h <| h_deferred ::= Z.succ |> in
  match spool h now stopped r d [UCreate] with
  | (h, true) => h
  | (h, false) => historyLost h
  end.

Definition notifyFinished (h : History) (r : Run) (retry : bool) : History :=
  h <| h_finished ::= cons (r, retry) |>.

Definition skipUnrecorded (h : History) (now : Time) (stopped : bool) (r : Run) (d : Definition_)
  : History * Run :=
  let t := mkTerminal "skipped" "history_unavailable" None "" now 0 false false None in
  let h := h <| h_deferred ::= Z.succ |> in
  let h := match spool h now stopped r d [UCreate; UDone t] with
           | (h, true) => h
           | (h, false) => historyLost h
           end in
  let r := r <| r_Status := "skipped" |> <| r_EndReason := "history_unavailable" |>
             <| r_EndedAt := Some now |> in
  (notifyFinished h r false, r).

(** [persistStart]: [true] is a refused transition, after which the process is
    stopped. *)
Definition persistStart (h : History) (now : Time) (fails stopped unrecorded : bool) (r : Run)
    (d : Definition_) (info : startInfo) : History * bool :=
  if unrecorded then (h, false) else
  match spooled h (r_ID r) [UStart info] with
  | (h, true) => (h, false)
  | (h, false) =>
      let defer h := match spool h now stopped r d [UStart info] with
                     | (h, true) => (h, false)
                     | (h, false) => (historyLost h, false)
                     end in
      if h_down h then defer h else
      match attempt h fails (fun db => StartRun db (r_ID r) (si_pid info) (si_pgid info) (si_id info) (si_at info)) with
      | (h, None) => (storageRecovered h, false)
      | (h, Some (Some ErrInvalidTransition)) => (h, true)
      | (h, Some _) => defer (storageFailed h now)
      end
  end.

Definition maxOutcomes : Z := 1024.

Definition withTerminal (r : Run) (t : terminal) : Run :=
  r <| r_Status := t_status t |> <| r_EndReason := t_reason t |> <| r_ExitCode := t_code t |>
    <| r_Signal := t_signal t |> <| r_EndedAt := Some (t_ended t) |>.

(** [recordOutcome]: at the cap an arbitrary outcome, [victim], makes room. *)
Definition recordOutcome (h : History) (victim : string) (r : Run) (t : terminal) : History :=
  if negb (String.eqb (r_Trigger r) "startup") then h else
  let h := if maxOutcomes <=? Z.of_nat (size (h_outcomes h)) then h <| h_outcomes ::= delete victim |> else h in
  h <| h_outcomes ::= insert (r_ID r) (withTerminal r t) |>.

Definition TakeOutcome (h : History) (id : string) : History * option Run :=
  (h <| h_outcomes ::= delete id |>, h_outcomes h !! id).

Definition finished (h : History) (r : Run) (t : terminal) : History :=
  notifyFinished h ((withTerminal r t) <| r_ResourceUsage := t_usage t |>) (t_retry t).

(** The five inline attempts of [finishRun]: attempt [i] fails when [fst (fo i)],
    and [snd (fo i)] says that its deadline passed by then. *)
Fixpoint finishAttempts (h : History) (fo : nat -> bool * bool) (id : string) (t : terminal)
    (i n : nat) (err : option (option StoreError)) : History * option (option StoreError) :=
  match n with
  | O => (h, err)
  | S n =>
      match attempt h (fo i).1 (fun db => FinishRunWithUsage db id (t_status t) (t_reason t) (t_code t)
                                  (t_signal t) (t_ended t) (t_bytes t) (t_truncated t) (t_usage t)) with
      | (h, None) => (h, None)
      | (h, Some e) => if (fo i).2 then (h, Some e) else finishAttempts h fo id t (S i) n (Some e)
      end
  end.

Definition finishRun (h : History) (fo : nat -> bool * bool) (id : string) (t : terminal)
  : History * option (option StoreError) := finishAttempts h fo id t 0 5 None.

Definition complete (h : History) (now : Time) (fo : nat -> bool * bool) (stopped unrecorded : bool)
    (victim : string) (r : Run) (d : Definition_) (t : terminal) : History :=
  let h := recordOutcome h victim r t in
  if unrecorded then finished h r t else
  match spooled h (r_ID r) [UDone t] with
  | (h, true) => finished h r t
  | (h, false) =>
      let defer h := match spool h now stopped r d [UDone t] with
                     | (h, true) => finished h r t
                     | (h, false) => finished (if h_closing h then h else historyLost h) r t
                     end in
      if h_down h then defer h else
      match finishRun h fo (r_ID r) t with
      | (h, None) => finished ((storageRecovered h) <| h_lag ::= fun p => observe p now (t_ended t) |>) r t
      | (h, Some (Some ErrInvalidTransition)) => h
      | (h, Some _) => defer (storageFailed h now)
      end
  end.
