(* ===== verification/HistoryFacts.v ===== *)
(** Correctness of deferred history: the spool is bounded and its lag accounting
    exact, no stage is lost to a concurrent update, and recovery drains it. *)

From S2P Require Import Prelude GoRuntime Model StoreDB History.
Open Scope Z_scope.

(** * Invariant of the spool *)

Record spool_ok (h : History) : Prop := {
  so_key : forall id it, h_items h !! id = Some it -> r_ID (fi_r it) = id /\ (fi_ptr it < h_nextPtr h)%nat;
  so_token : forall id it, h_items h !! id = Some it -> fi_done it = true ->
    is_Some (pl_pending (h_lag h) !! fi_token it);
  so_inj : forall id id' it it', h_items h !! id = Some it -> h_items h !! id' = Some it' ->
    fi_done it = true -> fi_done it' = true -> fi_token it = fi_token it' -> id = id';
  so_back : forall tok, is_Some (pl_pending (h_lag h) !! tok) ->
    tok <= pl_next (h_lag h) /\
    exists id it, h_items h !! id = Some it /\ fi_done it = true /\ fi_token it = tok;
  so_bound : Z.of_nat (size (h_items h)) <= Z.max 0 (h_max h)
}.

(** Fields outside the spool do not matter. *)
Lemma spool_ok_eq h h' :
  spool_ok h -> h_items h' = h_items h -> h_nextPtr h' = h_nextPtr h ->
  pl_pending (h_lag h') = pl_pending (h_lag h) -> pl_next (h_lag h') = pl_next (h_lag h) ->
  h_max h' = h_max h -> spool_ok h'.
Proof. intros [] E1 E2 E3 E4 E5. split; rewrite ?E1, ?E2, ?E3, ?E4, ?E5; done. Qed.

#[local] Ltac same_spool := eapply spool_ok_eq; [eassumption|reflexivity..].

(** Replacing an item by one with the same identity and terminal state. *)
Lemma spool_ok_insert h id it it' :
  spool_ok h -> h_items h !! id = Some it -> fi_r it' = fi_r it -> fi_ptr it' = fi_ptr it ->
  fi_done it' = fi_done it -> fi_token it' = fi_token it ->
  spool_ok (h <| h_items ::= insert id it' |>).
Proof.
  intros [Hk Ht Hi Hb Hs] Hit Er Ep Ed Et. split; simpl.
  - intros i k. rewrite lookup_insert_Some. intros [[<- <-]|[_ Hl]]; [|by apply Hk].
    rewrite Er, Ep. by apply Hk.
  - intros i k. rewrite lookup_insert_Some. intros [[<- <-]|[_ Hl]]; [|by apply (Ht i)].
    rewrite Ed, Et. by apply (Ht id).
  - intros i j k k'. rewrite !lookup_insert_Some.
    intros [[<- <-]|[Hne Hl]] [[<- <-]|[Hne' Hl']]; rewrite ?Ed, ?Et; try done; by apply Hi.
  - intros tok Htok. destruct (Hb tok Htok) as (Hle & i & k & Hl & Hd & Etok). split; [done|].
    destruct (decide (id = i)) as [<-|Hne].
    + exists id, it'. rewrite lookup_insert_eq. split; [done|]. rewrite Hit in Hl. injection Hl as <-.
      by rewrite Ed, Et.
    + exists i, k. by rewrite lookup_insert_ne.
  - rewrite map_size_insert, Hit. done.
Qed.

Lemma dropFinalizer_ok h id : spool_ok h -> spool_ok (dropFinalizer h id).
Proof.
  intros [Hk Ht Hi Hb Hs]. unfold dropFinalizer. destruct (h_items h !! id) as [it|] eqn:Hit; [|by split].
  assert (Z.of_nat (size (delete id (h_items h))) <= Z.max 0 (h_max h)) as Hsz.
  { rewrite map_size_delete, Hit. lia. }
  destruct (fi_done it) eqn:Ed; split; simpl; try done;
    try (intros i k [_ Hl]%lookup_delete_Some; by apply Hk).
  - intros i k [Hne Hl]%lookup_delete_Some Hd. rewrite lookup_delete_ne; [by apply (Ht i)|].
    intros E. apply Hne. by apply (Hi id i it k).
  - intros i j k k' [_ Hl]%lookup_delete_Some [_ Hl']%lookup_delete_Some. by apply Hi.
  - intros tok [e [Hne Htok]%lookup_delete_Some].
    destruct (Hb tok) as (Hle & i & k & Hl & Hd & Etok); [by eexists|]. split; [done|].
    exists i, k. split; [|done]. rewrite lookup_delete_ne; [done|]. intros <-. congruence.
  - intros i k [_ Hl]%lookup_delete_Some Hd. by apply (Ht i).
  - intros i j k k' [_ Hl]%lookup_delete_Some [_ Hl']%lookup_delete_Some. by apply Hi.
  - intros tok Htok. destruct (Hb tok Htok) as (Hle & i & k & Hl & Hd & Etok). split; [done|].
    exists i, k. split; [|done]. rewrite lookup_delete_ne; [done|]. intros <-. congruence.
Qed.

Lemma applyUpdates_keep us it :
  fi_r (foldl applyUpdate it us) = fi_r it /\ fi_ptr (foldl applyUpdate it us) = fi_ptr it /\
  fi_token (foldl applyUpdate it us) = fi_token it /\
  (fi_done it = true -> fi_done (foldl applyUpdate it us) = true).
Proof.
  revert it. induction us as [|u us IH]; intros it; simpl; [done|].
  destruct (IH (applyUpdate it u)) as (-> & -> & -> & Hd). destruct u; simpl in *; auto.
Qed.

(** An item that becomes terminal takes a fresh token. *)
Lemma updateItem_ok h id it us :
  spool_ok (h <| h_items ::= insert id it |>) -> spool_ok (updateItem h id it us).
Proof.
  intros Hok. unfold updateItem. destruct (applyUpdates_keep us it) as (Er & Ep & Et & Ed).
  set (it' := foldl applyUpdate it us) in *.
  assert (h_items (h <| h_items ::= insert id it |>) !! id = Some it) as Hit by apply lookup_insert_eq.
  destruct (fi_done it' && negb (fi_done it)) eqn:E; simpl.
  - bools. destruct Hok as [Hk Ht Hi Hb Hs]. simpl in *.
    assert (forall i k, <[id:=it' <| fi_token := pl_next (h_lag h) + 1 |>]> (h_items h) !! i = Some k ->
       (i = id /\ k = it' <| fi_token := pl_next (h_lag h) + 1 |>) \/
       (i <> id /\ <[id:=it]> (h_items h) !! i = Some k)) as Hl.
    { intros i k. rewrite lookup_insert_Some. intros [[<- <-]|[Hne Hl]]; [by left|right].
      split; [done|]. by rewrite lookup_insert_ne. }
    assert (forall i k, <[id:=it]> (h_items h) !! i = Some k -> fi_done k = true ->
              fi_token k <= pl_next (h_lag h)) as Hle.
    { intros i k Hk1 Hd1. by apply Hb, (Ht i k). }
    split; simpl.
    + intros i k [[-> ->]|[_ Hl1]]%Hl; [|by apply Hk]. simpl. rewrite Er, Ep. by apply Hk.
    + intros i k [[-> ->]|[_ Hl1]]%Hl Hd; [by rewrite lookup_insert_eq|].
      destruct (decide (pl_next (h_lag h) + 1 = fi_token k)) as [->|Hne]; [by rewrite lookup_insert_eq|].
      rewrite lookup_insert_ne by done. by apply (Ht i).
    + intros i j k k' [[-> ->]|[Hn1 Hl1]]%Hl [[-> ->]|[Hn2 Hl2]]%Hl Hd Hd' Etok; try done; simpl in Etok.
      * specialize (Hle j k' Hl2 Hd'). lia.
      * specialize (Hle i k Hl1 Hd). lia.
      * by apply (Hi i j k k').
    + intros tok. destruct (decide (pl_next (h_lag h) + 1 = tok)) as [<-|Hne].
      * intros _. split; [lia|]. exists id, (it' <| fi_token := pl_next (h_lag h) + 1 |>).
        by rewrite lookup_insert_eq.
      * rewrite lookup_insert_ne by done. intros Htok.
        destruct (Hb tok Htok) as (Hlt & i & k & Hlk & Hd & Etok). split; [lia|].
        exists i, k. split; [|done]. destruct (decide (id = i)) as [<-|Hni].
        -- rewrite lookup_insert_eq in Hlk. injection Hlk as <-. congruence.
        -- by rewrite lookup_insert_ne in * by done.
    + by rewrite map_size_insert in *.
  - pose proof (spool_ok_insert _ id it it' Hok Hit Er Ep) as Hins.
    assert (fi_done it' = fi_done it) as Hdone.
    { destruct (fi_done it) eqn:E1; [by apply Ed|]. destruct (fi_done it'); [done|done]. }
    specialize (Hins Hdone Et). eapply spool_ok_eq; [exact Hins|..]; try done. simpl.
    by rewrite insert_insert_eq.
Qed.

Lemma spool_ok_self h id it : spool_ok h -> h_items h !! id = Some it -> spool_ok (h <| h_items ::= insert id it |>).
Proof. intros Hok Hit. by eapply spool_ok_insert. Qed.

(** Registering a fresh item within the budget. *)
Lemma spool_ok_fresh h r d now :
  spool_ok h -> h_items h !! r_ID r = None -> Z.of_nat (size (h_items h)) < h_max h ->
  spool_ok (h <| h_nextPtr ::= S |> <| h_items ::= insert (r_ID r)
    (mkItem (h_nextPtr h) r d false false zeroStart false zeroTerminal 0 finalizerBackoffMin now 0) |>).
Proof.
  intros [Hk Ht Hi Hb Hs] Hnew Hlt. split; simpl.
  - intros i k. rewrite lookup_insert_Some. intros [[<- <-]|[_ Hl]]; [split; [done|simpl; lia]|].
    destruct (Hk i k Hl). split; [done|lia].
  - intros i k. rewrite lookup_insert_Some. intros [[<- <-]|[_ Hl]]; [done|]. by apply (Ht i).
  - intros i j k k'. rewrite !lookup_insert_Some. intros [[<- <-]|[_ Hl]] [[<- <-]|[_ Hl']]; try done.
    by apply Hi.
  - intros tok Htok. destruct (Hb tok Htok) as (Hle & i & k & Hl & Hd & E). split; [done|].
    exists i, k. rewrite lookup_insert_ne; [done|]. intros <-. congruence.
  - rewrite map_size_insert, Hnew. lia.
Qed.

Lemma spool_keeps h now stopped r d us : spool_ok h -> spool_ok (spool h now stopped r d us).1.
Proof.
  intros Hok. unfold spool. destruct (h_closing h) eqn:Ec; [done|].
  assert (forall h1, spool_ok h1 -> spool_ok (if stopped
            then (dropFinalizer (h1 <| h_closing := true |>) (r_ID r), false)
            else (h1 <| h_started := true |>, true)).1) as Hend.
  { intros h1 H1. destruct stopped; simpl; [apply dropFinalizer_ok|]; same_spool. }
  destruct (h_items h !! r_ID r) as [it|] eqn:Hit.
  - apply Hend, updateItem_ok. by apply spool_ok_self.
  - destruct (h_max h <=? _) eqn:El; [done|]. bools. apply Hend, updateItem_ok.
    by apply spool_ok_fresh.
Qed.

Lemma spooled_keeps h id us : spool_ok h -> spool_ok (spooled h id us).1.
Proof.
  intros Hok. unfold spooled. destruct (h_items h !! id) as [it|] eqn:Hit; [|done].
  destruct us; [done|]. by apply updateItem_ok, spool_ok_self.
Qed.

Lemma runEnv_keeps l h : spool_ok h -> spool_ok (runEnv h l).
Proof.
  revert h. induction l as [|o l IH]; intros h Hok; simpl; [done|]. apply IH. destruct o; simpl.
  - by apply spool_keeps.
  - by apply spooled_keeps.
  - by apply dropFinalizer_ok.
  - same_spool.
Qed.

Lemma onItem_keeps h v f :
  spool_ok h -> (forall it, fi_r (f it) = fi_r it /\ fi_ptr (f it) = fi_ptr it /\
                            fi_done (f it) = fi_done it /\ fi_token (f it) = fi_token it) ->
  spool_ok (onItem h v f).
Proof.
  intros Hok Hf. unfold onItem. destruct (h_items h !! _) as [it|] eqn:Hit; [|done].
  destruct (_ =? _)%nat; [|done]. destruct (Hf it) as (? & ? & ? & ?). by eapply spool_ok_insert.
Qed.

Lemma writeHistory_keeps h v o : spool_ok h -> spool_ok (writeHistory h v o).1.
Proof.
  intros Hok. unfold writeHistory.
  assert (spool_ok (writeCreate (runEnv h (wo_env o 0)) v o).1) as H1.
  { apply (runEnv_keeps (wo_env o 0)) in Hok. set (h1 := runEnv h _) in *. clearbody h1.
    unfold writeCreate. destruct (negb _); [done|]. destruct (wo_fails o 0); [done|].
    destruct (CreateRun _ _) as [db [[]|e]]; [apply onItem_keeps; [same_spool|done]|].
    destruct (wo_fails o 1); [done|]. destruct (Run_ _ _); [|done]. by apply onItem_keeps. }
  destruct (writeCreate _ _ _) as [h1 []]; [|done]. simpl in H1.
  assert (spool_ok (writeStart (runEnv h1 (wo_env o 1)) v o).1) as H2.
  { apply (runEnv_keeps (wo_env o 1)) in H1. set (h2 := runEnv h1 _) in *. clearbody h2.
    unfold writeStart. destruct (negb _); [done|]. destruct (wo_fails o 2); [done|].
    destruct (StartRun _ _ _ _ _ _) as [db r]. apply onItem_keeps; [same_spool|done]. }
  destruct (writeStart _ _ _) as [h2 []]; [|done]. simpl in H2.
  assert (spool_ok (writeFinish (runEnv h2 (wo_env o 2)) v o).1) as H3.
  { apply (runEnv_keeps (wo_env o 2)) in H2. set (h3 := runEnv h2 _) in *. clearbody h3.
    unfold writeFinish. destruct (negb _); [done|]. destruct (wo_fails o 3); [done|].
    destruct (FinishRunWithUsage _ _ _ _ _ _ _ _ _ _) as [db []]; [|done]. simpl.
    eapply spool_ok_eq; [exact H2|..]; try done; simpl; unfold observe; by destruct (IsZero _). }
  destruct (writeFinish _ _ _) as [h3 []]; [|done]. simpl in *.
  apply (runEnv_keeps (wo_env o 3)) in H3. unfold retire. destruct (h_items _ !! _); [|done].
  destruct (_ && _); [by apply dropFinalizer_ok|done].
Qed.

Lemma passLoop_keeps os n views streak h : spool_ok h -> spool_ok (passLoop h os n views streak).1.
Proof.
  revert h n streak. induction views as [|v views IH]; intros h n streak Hok; simpl; [done|].
  destruct (h_closing h); [done|]. pose proof (writeHistory_keeps h v (os n) Hok) as Hw.
  destruct (writeHistory h v (os n)) as [h1 [[]|[]]]; simpl in Hw.
  - apply IH. same_spool.
  - assert (spool_ok (onItem (storageFailed h1 (wo_now (os n))) v (backOff (wo_now (os n))))) as Hb.
    { apply onItem_keeps; [|done]. unfold storageFailed. destruct (h_down h1); [done|]. same_spool. }
    destruct (_ <=? _); [done|]. by apply IH.
  - by apply IH, dropFinalizer_ok.
  - by apply IH, dropFinalizer_ok.
Qed.

Lemma abandon_pending (l : list (string * finalItem)) p tok :
  pl_pending (foldr (fun ki p => if fi_done ki.2 then endPending p (fi_token ki.2) else p) p l) !! tok =
  if existsb (fun ki => fi_done ki.2 && (fi_token ki.2 =? tok)) l then None else pl_pending p !! tok.
Proof.
  induction l as [|[i it] l IH]; simpl; [done|]. destruct (fi_done it); simpl; [|done].
  destruct (fi_token it =? tok) eqn:E; simpl; bools.
  - subst tok. by rewrite lookup_delete_eq.
  - by rewrite lookup_delete_ne.
Qed.

Lemma abandon_keeps h : spool_ok h -> spool_ok (abandonFinalizers h).
Proof.
  intros [Hk Ht Hi Hb Hs]. split; simpl; try (intros ? ?; by rewrite lookup_empty).
  - intros tok. rewrite abandon_pending. destruct (existsb _ _) eqn:E; [by intros [? ?]|].
    intros Htok. destruct (Hb tok Htok) as (_ & id & it & Hl & Hd & Et). exfalso.
    apply not_true_iff_false in E. apply E, existsb_exists. exists (id, it).
    split; [by apply list_elem_of_In, elem_of_map_to_list|]. simpl. by rewrite Hd, Et, Z.eqb_refl.
  - rewrite map_size_empty. lia.
Qed.

(** * Operations of the recording path *)

Inductive HOp :=
| HEnv (o : EnvOp)
| HRound (now : Time) (os : nat -> WriteOracle) (global : Duration)
| HAdmit (now : Time) (callerDone fails : bool) (r : Run)
| HDefer (now : Time) (stopped : bool) (r : Run) (d : Definition_)
| HSkip (now : Time) (stopped : bool) (r : Run) (d : Definition_)
| HStart (now : Time) (fails stopped unrecorded : bool) (r : Run) (d : Definition_) (info : startInfo)
| HComplete (now : Time) (fo : nat -> bool * bool) (stopped unrecorded : bool) (victim : string) (r : Run) (d : Definition_)
    (t : terminal)
| HTake (id : string).

Definition applyHOp (h : History) (o : HOp) : History :=
  match o with
  | HEnv o => runEnvOp h o
  | HRound now os global => (finalizeRound h now os global).1
  | HAdmit now callerDone fails r => (admitRow h now callerDone fails r).1
  | HDefer now stopped r d => deferRecord h now stopped r d
  | HSkip now stopped r d => (skipUnrecorded h now stopped r d).1
  | HStart now fails stopped unrecorded r d info => (persistStart h now fails stopped unrecorded r d info).1
  | HComplete now fo stopped unrecorded victim r d t => complete h now fo stopped unrecorded victim r d t
  | HTake id => (TakeOutcome h id).1
  end.

Lemma attempt_keeps h fails f : spool_ok h -> spool_ok (attempt h fails f).1.
Proof.
  intros Hok. unfold attempt. destruct fails; [done|]. destruct (f _) as [db [[]|e]]; [|done]. same_spool.
Qed.

Lemma storageFailed_keeps h now : spool_ok h -> spool_ok (storageFailed h now).
Proof. intros Hok. unfold storageFailed. destruct (h_down h); [done|]. same_spool. Qed.

Lemma lost_keeps h : spool_ok h -> spool_ok (historyLost h).
Proof. intros Hok. same_spool. Qed.

Lemma finished_keeps h r t : spool_ok h -> spool_ok (finished h r t).
Proof. intros Hok. same_spool. Qed.

Lemma finishAttempts_keeps fo id t n : forall i err h, spool_ok h ->
  spool_ok (finishAttempts h fo id t i n err).1.
Proof.
  induction n as [|n IH]; intros i err h Hok; [done|]. cbn [finishAttempts].
  match goal with |- context [attempt h ?b ?f] => pose proof (attempt_keeps h b f Hok) as H1;
    destruct (attempt h b f) as [h1 [e|]] end; [|done].
  destruct (fo i).2; [done|]. by apply IH.
Qed.

Lemma complete_keeps h now fo stopped unrecorded victim r d t :
  spool_ok h -> spool_ok (complete h now fo stopped unrecorded victim r d t).
Proof.
  intros Hok. unfold complete.
  assert (spool_ok (recordOutcome h victim r t)) as H0.
  { unfold recordOutcome. destruct (negb _); [done|]. destruct (_ <=? _); same_spool. }
  set (h0 := recordOutcome h victim r t) in *. clearbody h0.
  destruct unrecorded; [by apply finished_keeps|].
  pose proof (spooled_keeps h0 (r_ID r) [UDone t] H0) as H1.
  destruct (spooled h0 (r_ID r) [UDone t]) as [h1 []]; simpl in H1; [by apply finished_keeps|].
  assert (forall h2, spool_ok h2 -> spool_ok (match spool h2 now stopped r d [UDone t] with
            | (h, true) => finished h r t
            | (h, false) => finished (if h_closing h then h else historyLost h) r t end)) as Hdefer.
  { intros h2 H2. pose proof (spool_keeps h2 now stopped r d [UDone t] H2) as H3.
    destruct (spool _ _ _ _ _ _) as [h3 []]; apply finished_keeps; [done|].
    destruct (h_closing h3); [done|by apply lost_keeps]. }
  destruct (h_down h1); [by apply Hdefer|].
  pose proof (finishAttempts_keeps fo (r_ID r) t 5 0 None h1 H1) as H2. unfold finishRun.
  destruct (finishAttempts _ _ _ _ _ _ _) as [h2 [[[]|]|]]; cbn [fst] in H2; try done;
    try (by apply Hdefer, storageFailed_keeps).
  apply finished_keeps. eapply spool_ok_eq; [exact H2|..]; try done; simpl; unfold observe; by destruct (IsZero _).
Qed.

Lemma applyHOp_keeps h o : spool_ok h -> spool_ok (applyHOp h o).
Proof.
  intros Hok. destruct o; simpl.
  - by apply (runEnv_keeps [o]).
  - unfold finalizeRound. destruct (h_closing h); [by apply abandon_keeps|].
    pose proof (passLoop_keeps os 0 (dueViews h now) 0 h Hok) as Hp. unfold finalizePass.
    destruct (passLoop _ _ _ _ _) as [h1 []]; done.
  - unfold admitRow. destruct (_ && _); [done|].
    pose proof (attempt_keeps h fails (fun db => CreateRun db r) Hok) as Ha.
    destruct (attempt _ _ _) as [h1 [e|]]; [|same_spool].
    destruct (storageUnavailable _ _); [by apply storageFailed_keeps|done].
  - unfold deferRecord.
    pose proof (spool_keeps (h <| h_deferred ::= Z.succ |>) now stopped r d [UCreate] ltac:(same_spool)) as H1.
    destruct (spool _ _ _ _ _ _) as [h1 []]; [done|by apply lost_keeps].
  - unfold skipUnrecorded, notifyFinished.
    match goal with |- context [spool ?h1 now stopped r d ?us] =>
      pose proof (spool_keeps h1 now stopped r d us ltac:(same_spool)) as H1;
      destruct (spool h1 now stopped r d us) as [h2 []] end; simpl in *; same_spool.
  - unfold persistStart. destruct unrecorded; [done|].
    pose proof (spooled_keeps h (r_ID r) [UStart info] Hok) as H1.
    destruct (spooled h (r_ID r) [UStart info]) as [h1 []]; simpl in H1; [done|].
    assert (forall h2, spool_ok h2 -> spool_ok (match spool h2 now stopped r d [UStart info] with
              | (h, true) => (h, false) | (h, false) => (historyLost h, false) end).1) as Hdefer.
    { intros h2 H2. pose proof (spool_keeps h2 now stopped r d [UStart info] H2) as H3.
      destruct (spool h2 now stopped r d [UStart info]) as [h3 []]; [done|by apply lost_keeps]. }
    destruct (h_down h1); [by apply Hdefer|].
    match goal with |- context [attempt h1 fails ?f] => pose proof (attempt_keeps h1 fails f H1) as H2;
      destruct (attempt h1 fails f) as [h2 [[[]|]|]] end; simpl in H2; try done;
      try (by apply Hdefer, storageFailed_keeps). same_spool.
  - by apply complete_keeps.
  - same_spool.
Qed.

Lemma applyHOps_keeps l h : spool_ok h -> spool_ok (foldl applyHOp h l).
Proof. revert h. induction l as [|o l IH]; intros h Hok; simpl; [done|]. by apply IH, applyHOp_keeps. Qed.

(** The number of terminal states waiting in the spool. *)
Definition waitingTerminal (h : History) : list finalItem :=
  List.filter fi_done (map_to_list (h_items h)).*2.

Lemma waitingTerminal_elem h it :
  it ∈ waitingTerminal h <-> (exists id, h_items h !! id = Some it) /\ fi_done it = true.
Proof.
  unfold waitingTerminal. rewrite elem_of_filter_list, list_elem_of_fmap.
  split; intros [Hx Hd]; (split; [|done]).
  - destruct Hx as ([id it'] & -> & Hl). exists id. by apply elem_of_map_to_list.
  - destruct Hx as [id Hl]. exists (id, it). split; [done|by apply elem_of_map_to_list].
Qed.

Lemma waitingTerminal_NoDup h : spool_ok h -> NoDup (fi_token <$> waitingTerminal h).
Proof.
  intros Hok. unfold waitingTerminal.
  pose proof (NoDup_fst_map_to_list (h_items h)) as Hnd.
  assert (forall ki, ki ∈ map_to_list (h_items h) -> h_items h !! ki.1 = Some ki.2) as Hin.
  { intros [i k]. apply elem_of_map_to_list. }
  induction (map_to_list (h_items h)) as [|[i k] l IH]; [constructor|].
  apply NoDup_cons in Hnd as [Hn Hnd]. csimpl.
  assert (NoDup (fi_token <$> List.filter fi_done l.*2)) as IH'
    by (apply IH; [done|intros ki Hki; apply Hin; by right]).
  destruct (fi_done k) eqn:Ed; [|done]. csimpl. constructor; [|done].
  rewrite list_elem_of_fmap. intros (k' & Et & Hk'). apply elem_of_filter_list in Hk' as [Hk' Ed'].
  apply list_elem_of_fmap in Hk' as ([j k''] & -> & Hj). simpl in *.
  apply Hn, list_elem_of_fmap. exists (j, k''). split; [|done]. simpl.
  apply (so_inj h Hok i j k k''); try done; [apply (Hin (i, k)); by left|apply (Hin (j, k'')); by right].
Qed.

(** Whatever fails and however the writer and the execution path interleave,
    the spool never exceeds [MaxFinalizers] and the lag diagnostics are exact:
    the reported number of pending terminal states is the number of spooled
    terminal states. *)
Theorem spool_accounting h l now :
  spool_ok h ->
  let h' := foldl applyHOp h l in
  Z.of_nat (size (h_items h')) <= Z.max 0 (h_max h') /\
  lag_Pending (snapshot (h_lag h') now) = Z.of_nat (length (waitingTerminal h')).
Proof.
  intros Hok h'. pose proof (applyHOps_keeps l h Hok) as Hok'. fold h' in Hok'.
  split; [apply so_bound, Hok'|]. simpl. f_equal.
  rewrite <-(length_fmap fi_token (waitingTerminal h')), <-size_dom.
  rewrite <-(size_list_to_set (C := gset Z)) by by apply waitingTerminal_NoDup.
  apply set_size_proper. intros tok. rewrite elem_of_dom, elem_of_list_to_set, list_elem_of_fmap.
  split.
  - intros (_ & id & it & Hl & Hd & Et)%(so_back h' Hok'). exists it. split; [done|].
    apply waitingTerminal_elem. split; [by exists id|done].
  - intros (it & -> & [[id Hl] Hd]%waitingTerminal_elem). by apply (so_token h' Hok' id).
Qed.

(** * No stage is lost to a race *)

Definition isCreate (u : Update) : bool := match u with UCreate => true | _ => false end.
Definition isStart (u : Update) : bool := match u with UStart _ => true | _ => false end.
Definition isDone (u : Update) : bool := match u with UDone _ => true | _ => false end.

(** The updates the execution path made to run [id]. *)
Definition told_op (id : string) (o : EnvOp) : list Update :=
  match o with
  | EvSpooled i us => if String.eqb i id then us else []
  | _ => []
  end.
Definition told (id : string) (l : list EnvOp) : list Update := mjoin (told_op id <$> l).

(** The run is not dropped meanwhile; as long as it is spooled, the execution path
    finds it there and updates it by [spooled]. *)
Definition quiet (id : string) (o : EnvOp) : Prop :=
  match o with
  | EvSpool _ _ r _ _ => r_ID r <> id
  | EvDrop i => i <> id
  | _ => True
  end.

Lemma applyUpdates_flags us it :
  fi_create (foldl applyUpdate it us) = fi_create it || existsb isCreate us /\
  fi_start (foldl applyUpdate it us) = fi_start it || existsb isStart us /\
  fi_done (foldl applyUpdate it us) = fi_done it || existsb isDone us.
Proof.
  revert it. induction us as [|u us IH]; intros it; simpl; [by rewrite !orb_false_r|].
  destruct (IH (applyUpdate it u)) as (-> & -> & ->). destruct u; simpl; rewrite ?orb_true_r; done.
Qed.

Section race.
Context (id : string) (v : finalItemView) (Hid : r_ID (v_r v) = id).

(** The item of the snapshot is still there, and its flags beyond the snapshot are
    what the execution path told since. *)
Definition tracks (h : History) (us : list Update) : Prop :=
  exists it, h_items h !! id = Some it /\ fi_ptr it = v_item v /\
    (v_create v = false -> fi_create it = existsb isCreate us) /\
    (v_start v = false -> fi_start it = existsb isStart us) /\
    (v_done v = false -> fi_done it = existsb isDone us).

Lemma updateItem_lookup h it us :
  exists it', h_items (updateItem h id it us) = <[id := it']> (h_items h) /\ fi_ptr it' = fi_ptr it /\
    fi_create it' = fi_create it || existsb isCreate us /\
    fi_start it' = fi_start it || existsb isStart us /\ fi_done it' = fi_done it || existsb isDone us.
Proof.
  unfold updateItem. destruct (applyUpdates_flags us it) as (E1 & E2 & E3).
  destruct (applyUpdates_keep us it) as (_ & Ep & _ & _).
  destruct (_ && _); eexists; (split; [reflexivity|]); simpl; by rewrite Ep, E1, E2, E3.
Qed.

Lemma tracks_update h h' it us us' :
  tracks h us -> h_items h !! id = Some it ->
  h_items h' = h_items (updateItem h id it us') -> tracks h' (us ++ us').
Proof.
  intros (it0 & Hit0 & Hp & Hc & Hs & Hd) Hit Eh. rewrite Hit in Hit0. injection Hit0 as <-.
  destruct (updateItem_lookup h it us') as (it' & El & Ep & E1 & E2 & E3).
  exists it'. rewrite Eh, El, lookup_insert_eq, Ep, !existsb_app, E1, E2, E3. split_and!; try done.
  - intros Hx. by rewrite Hc.
  - intros Hx. by rewrite Hs.
  - intros Hx. by rewrite Hd.
Qed.

Lemma tracks_other h h' us :
  tracks h us -> h_items h' !! id = h_items h !! id -> tracks h' (us ++ []).
Proof. rewrite app_nil_r. intros (it & Hit & Hrest) E. exists it. by rewrite E. Qed.

Lemma updateItem_other h i it us : i <> id -> h_items (updateItem h i it us) !! id = h_items h !! id.
Proof. intros Hne. unfold updateItem. destruct (_ && _); simpl; by rewrite lookup_insert_ne. Qed.

Lemma dropFinalizer_other h i : i <> id -> h_items (dropFinalizer h i) !! id = h_items h !! id.
Proof.
  intros Hne. unfold dropFinalizer. destruct (h_items h !! i) as [it|]; [|done].
  destruct (fi_done it); simpl; by rewrite lookup_delete_ne.
Qed.

Lemma spool_other h now stopped r d us :
  r_ID r <> id -> h_items (spool h now stopped r d us).1 !! id = h_items h !! id.
Proof.
  intros Hne. unfold spool. destruct (h_closing h); [done|].
  assert (forall h1, h_items h1 !! id = h_items h !! id ->
            h_items (if stopped then (dropFinalizer (h1 <| h_closing := true |>) (r_ID r), false)
                     else (h1 <| h_started := true |>, true)).1 !! id = h_items h !! id) as Hend.
  { intros h1 E. destruct stopped; simpl; [by rewrite dropFinalizer_other|done]. }
  destruct (h_items h !! r_ID r) as [it|]; [apply Hend; by apply updateItem_other|].
  destruct (_ <=? _); [done|]. apply Hend. by rewrite updateItem_other.
Qed.

Lemma tracks_envOp h us o : quiet id o -> tracks h us -> tracks (runEnvOp h o) (us ++ told_op id o).
Proof.
  intros Hq Ht. destruct o as [now stopped r d us'|i us'|i|]; simpl in *.
  - apply (tracks_other h); [done|by apply spool_other].
  - destruct (String.eqb_spec i id) as [->|Hne].
    + destruct Ht as (it & Hit & Hrest). unfold spooled. rewrite Hit.
      destruct us' as [|u us']; [apply (tracks_other h); [by exists it|done]|].
      apply (tracks_update h _ it); [by exists it|done|done].
    + apply (tracks_other h); [done|]. unfold spooled. destruct (h_items h !! i); [|done].
      destruct us'; [done|]. by apply updateItem_other.
  - apply (tracks_other h); [done|by apply dropFinalizer_other].
  - by apply (tracks_other h).
Qed.

Lemma tracks_env l h us : Forall (quiet id) l -> tracks h us -> tracks (runEnv h l) (us ++ told id l).
Proof.
  intros Hl. revert h us. induction Hl as [|o l Ho Hl IH]; intros h us Ht; simpl.
  - unfold told. simpl. by rewrite app_nil_r.
  - unfold told in *. csimpl. rewrite app_assoc. by apply IH, tracks_envOp.
Qed.

Lemma env_db l h : h_db (runEnv h l) = h_db h.
Proof.
  revert h. induction l as [|o l IH]; intros h; simpl; [done|]. rewrite IH.
  assert (forall h1 i it us, h_db (updateItem h1 i it us) = h_db h1) as Hu.
  { intros h1 i it us. unfold updateItem. by destruct (_ && _). }
  assert (forall h1 i, h_db (dropFinalizer h1 i) = h_db h1) as Hd.
  { intros h1 i. unfold dropFinalizer. destruct (h_items h1 !! i) as [it|]; [|done]. by destruct (fi_done it). }
  destruct o as [now stopped r d us|i us|i|]; simpl; [| |done|done].
  - unfold spool. destruct (h_closing h); [done|].
    destruct (h_items h !! r_ID r) as [it|]; [|destruct (_ <=? _); [done|]];
      destruct stopped; simpl; rewrite ?Hd; simpl; by rewrite ?Hu.
  - unfold spooled. destruct (h_items h !! i); [|done]. destruct us; [done|apply Hu].
Qed.

(** Clearing a flag of the snapshot's item keeps the others. *)
Lemma tracks_onItem h us f :
  tracks h us ->
  (forall it, fi_ptr (f it) = fi_ptr it /\ (v_create v = false -> fi_create (f it) = fi_create it) /\
     (v_start v = false -> fi_start (f it) = fi_start it) /\ fi_done (f it) = fi_done it) ->
  tracks (onItem h v f) us.
Proof.
  intros (it & Hit & Hp & Hc & Hs & Hd) Hf. unfold onItem. rewrite Hid, Hit, Hp, Nat.eqb_refl.
  destruct (Hf it) as (E1 & E2 & E3 & E4). exists (f it). simpl. rewrite lookup_insert_eq.
  split_and!; try done; [congruence|..].
  - intros Hx. rewrite E2 by done. by apply Hc.
  - intros Hx. rewrite E3 by done. by apply Hs.
  - intros Hx. rewrite E4. by apply Hd.
Qed.

Lemma tracks_items h h' us : tracks h us -> h_items h' = h_items h -> tracks h' us.
Proof. intros (it & Hit & Hrest) E. exists it. by rewrite E. Qed.

Lemma writeCreate_tracks h o us h' : tracks h us -> writeCreate h v o = (h', Ok tt) -> tracks h' us.
Proof.
  intros Ht. unfold writeCreate. destruct (v_create v) eqn:Ev; simpl; [|by intros [= <-]].
  assert (forall h1, tracks h1 us -> tracks (onItem h1 v (fun it => it <| fi_create := false |>)) us) as Hs.
  { intros h1 H1. apply tracks_onItem; [done|]. intros it. simpl. split_and!; try done; congruence. }
  destruct (wo_fails o 0); [done|]. destruct (CreateRun _ _) as [db [[]|e]].
  - intros [= <-]. apply Hs. by eapply tracks_items.
  - destruct (wo_fails o 1); [done|]. destruct (Run_ _ _); [|done]. intros [= <-]. by apply Hs.
Qed.

Lemma writeStart_tracks h o us h' : tracks h us -> writeStart h v o = (h', Ok tt) -> tracks h' us.
Proof.
  intros Ht. unfold writeStart. destruct (v_start v) eqn:Ev; simpl; [|by intros [= <-]].
  destruct (wo_fails o 2); [done|]. destruct (StartRun _ _ _ _ _ _) as [db r]. intros [= <-].
  apply tracks_onItem; [by eapply tracks_items|]. intros it. simpl. split_and!; try done; congruence.
Qed.

Lemma writeFinish_tracks h o us h' :
  tracks h us -> writeFinish h v o = (h', Ok tt) -> tracks h' us /\
  (v_done v = true -> exists row, runs (h_db h') !! id = Some row /\ rr_status row = t_status (v_t v)).
Proof.
  intros Ht. unfold writeFinish. destruct (v_done v) eqn:Ev; simpl; [|by intros [= <-]].
  destruct (wo_fails o 3); [done|]. unfold FinishRunWithUsage, update_run. rewrite Hid.
  destruct (runs (h_db h) !! id) as [row|]; [|done]. destruct (_ || _); [|done].
  intros [= <-]. split; [by eapply tracks_items|]. intros _. simpl. rewrite lookup_insert_eq. by eexists.
Qed.

End race.

(** C11: the background writer loses nothing to a race.  While it writes the
    snapshot of an item, the execution path may record further stages of the run
    between any two writes; if the item is retired, every stage recorded
    meanwhile was already part of the snapshot, and a terminal state of the
    snapshot is what the database holds. *)
Theorem no_stage_lost h it o h' :
  let id := r_ID (fi_r it) in
  let v := viewOf it in
  let since := told id (wo_env o 0) ++ told id (wo_env o 1) ++ told id (wo_env o 2) ++ told id (wo_env o 3) in
  h_items h !! id = Some it -> (forall i, Forall (quiet id) (wo_env o i)) ->
  writeHistory h v o = (h', Ok tt) -> h_items h' !! id = None ->
  Forall (fun u => match u with
                   | UCreate => v_create v = true
                   | UStart _ => v_start v = true
                   | UDone _ => v_done v = true
                   end) since /\
  (v_done v = true -> exists row, runs (h_db h') !! id = Some row /\ rr_status row = t_status (v_t v)).
Proof.
  intros id v since Hit Hq Hw Hgone. unfold writeHistory in Hw.
  assert (tracks id v h []) as T0.
  { exists it. split_and!; try done; simpl; by intros ->. }
  apply (tracks_env id v (wo_env o 0)) in T0; [|done].
  destruct (writeCreate _ v o) as [h1 [[]|]] eqn:E1; [|done].
  apply (writeCreate_tracks id v eq_refl _ _ _ _ T0) in E1. apply (tracks_env id v (wo_env o 1)) in E1; [|done].
  destruct (writeStart _ v o) as [h2 [[]|]] eqn:E2; [|done].
  apply (writeStart_tracks id v eq_refl _ _ _ _ E1) in E2. apply (tracks_env id v (wo_env o 2)) in E2; [|done].
  destruct (writeFinish _ v o) as [h3 [[]|]] eqn:E3; [|done].
  apply (writeFinish_tracks id v eq_refl _ _ _ _ E2) in E3 as [T3 Hdb].
  apply (tracks_env id v (wo_env o 3)) in T3; [|done]. injection Hw as <-.
  rewrite <-!app_assoc in T3. simpl app in T3. fold since in T3.
  destruct T3 as (it3 & Hit3 & Hp & Hc & Hs & Hd).
  unfold retire in *. change (r_ID (v_r v)) with id in *. rewrite Hit3 in *.
  destruct ((fi_ptr it3 =? v_item v)%nat && _ && _ && _) eqn:Er; [|congruence].
  bools. apply orb_true_iff in H0. split.
  - apply Forall_forall. intros u Hu.
    assert (forall p, p u = true -> existsb p since = true) as Hex
      by (intros p Hpu; apply existsb_exists; exists u; split; [by apply list_elem_of_In|done]).
    destruct u as [|info|t].
    + destruct (v_create v); [done|]. rewrite Hc in H2 by done. by rewrite (Hex isCreate) in H2.
    + destruct (v_start v); [done|]. rewrite Hs in H1 by done. by rewrite (Hex isStart) in H1.
    + destruct (v_done v); [done|]. destruct H0 as [|H0]; [done|]. apply negb_true_iff in H0.
      rewrite Hd in H0 by done. by rewrite (Hex isDone) in H0.
  - intros Hx. specialize (Hdb Hx). unfold dropFinalizer. rewrite Hit3.
    destruct (fi_done it3); simpl; by rewrite env_db.
Qed.

(** * Recovery drains the spool *)

(** Writes that storage takes, without interleaved updates. *)
Definition healthy (o : WriteOracle) : Prop := (forall i, wo_fails o i = false) /\ forall i, wo_env o i = [].

Lemma dropFinalizer_items h id : h_items (dropFinalizer h id) = delete id (h_items h).
Proof.
  unfold dropFinalizer. destruct (h_items h !! id) as [it|] eqn:E; [by destruct (fi_done it)|].
  by rewrite delete_id.
Qed.

Lemma dropFinalizer_closing h id : h_closing (dropFinalizer h id) = h_closing h.
Proof. unfold dropFinalizer. destruct (h_items h !! id) as [it|]; [by destruct (fi_done it)|done]. Qed.

(** The state after the first two stages: the item with its flags cleared. *)
Definition cleared (h h' : History) (it it' : finalItem) : Prop :=
  h_items h' = <[r_ID (fi_r it) := it']> (h_items h) /\ h_closing h' = h_closing h /\
  fi_ptr it' = fi_ptr it /\ fi_done it' = fi_done it.

Lemma writeCreate_healthy h it o :
  h_items h !! r_ID (fi_r it) = Some it -> healthy o ->
  exists h' it', cleared h h' it it' /\ fi_start it' = fi_start it /\
    (writeCreate h (viewOf it) o = (h', Ok tt) /\ fi_create it' = false \/
     writeCreate h (viewOf it) o = (h', Err WConflict)).
Proof.
  intros Hit [Hf _]. unfold writeCreate, cleared. rewrite !Hf. simpl.
  destruct (fi_create it) eqn:Ec; simpl.
  2:{ exists h, it. split; [split_and!; try done; by rewrite insert_id|]. split; [done|left; done]. }
  assert (forall h0, h_items h0 = h_items h -> h_closing h0 = h_closing h ->
            onItem h0 (viewOf it) (fun it => it <| fi_create := false |>) =
            h0 <| h_items ::= insert (r_ID (fi_r it)) (it <| fi_create := false |>) |>) as Hon.
  { intros h0 E0 _. unfold onItem. simpl. rewrite E0, Hit, Nat.eqb_refl. done. }
  destruct (CreateRun _ _) as [db [[]|e]].
  - eexists _, (it <| fi_create := false |>). rewrite Hon by done. split; [|split; [|left; done]]; done.
  - destruct (Run_ _ _).
    + eexists _, (it <| fi_create := false |>). rewrite Hon by done. split; [|split; [|left; done]]; done.
    + exists h, it. split; [split_and!; try done; by rewrite insert_id|]. split; [done|by right].
Qed.

Lemma writeStart_healthy h it it1 o :
  h_items h !! r_ID (fi_r it) = Some it1 -> fi_ptr it1 = fi_ptr it -> fi_start it1 = fi_start it -> healthy o ->
  exists h' it', writeStart h (viewOf it) o = (h', Ok tt) /\
    h_items h' = <[r_ID (fi_r it) := it']> (h_items h) /\ h_closing h' = h_closing h /\
    fi_ptr it' = fi_ptr it /\ fi_done it' = fi_done it1 /\ fi_create it' = fi_create it1 /\ fi_start it' = false.
Proof.
  intros Hit Hp Hs [Hf _]. unfold writeStart. rewrite Hf.
  change (v_start (viewOf it)) with (fi_start it). destruct (fi_start it) eqn:Es; cbv iota beta delta [negb].
  - destruct (StartRun _ _ _ _ _ _) as [db r]. unfold onItem. simpl. rewrite Hit, Hp, Nat.eqb_refl.
    eexists _, (it1 <| fi_start := false |>). split; [reflexivity|]. simpl. by rewrite Hp.
  - exists h, it1. by rewrite insert_id.
Qed.

Lemma retire_covered h it it2 :
  h_items h !! r_ID (fi_r it) = Some it2 -> fi_ptr it2 = fi_ptr it -> fi_done it2 = fi_done it ->
  fi_create it2 = false -> fi_start it2 = false ->
  h_closing (retire h (viewOf it)) = h_closing h /\
  h_items (retire h (viewOf it)) = delete (r_ID (fi_r it)) (h_items h).
Proof.
  intros Hit Hp Hd Hc Hs. unfold retire. simpl. rewrite Hit, Hp, Nat.eqb_refl, Hc, Hs, Hd. simpl.
  replace (fi_done it || negb (fi_done it)) with true by (by destruct (fi_done it)).
  by rewrite dropFinalizer_closing, dropFinalizer_items.
Qed.

Lemma write_removes h it o :
  h_items h !! r_ID (fi_r it) = Some it -> healthy o ->
  let '(h', r) := writeHistory h (viewOf it) o in
  h_closing h' = h_closing h /\
  match r with
  | Ok _ => h_items h' = delete (r_ID (fi_r it)) (h_items h)
  | Err e => e <> WUnavailable /\ delete (r_ID (fi_r it)) (h_items h') = delete (r_ID (fi_r it)) (h_items h)
  end.
Proof.
  intros Hit Ho. pose proof Ho as [Hf He]. unfold writeHistory. rewrite !He. simpl runEnv.
  destruct (writeCreate_healthy h it o Hit Ho) as (h1 & it1 & (E1 & C1 & P1 & D1) & S1 & [[-> F1]| ->]).
  2:{ split; [done|]. split; [done|]. by rewrite E1, delete_insert_eq. }
  destruct (writeStart_healthy h1 it it1 o) as (h2 & it2 & -> & I2 & C2 & P2 & D2 & F2 & S2);
    [by rewrite E1, lookup_insert_eq|done..|].
  rewrite E1, insert_insert_eq in I2.
  assert (forall h3, h_items h3 = h_items h2 -> h_closing h3 = h_closing h2 ->
            h_closing (retire h3 (viewOf it)) = h_closing h /\
            h_items (retire h3 (viewOf it)) = delete (r_ID (fi_r it)) (h_items h)) as Hret.
  { intros h3 E3 C3. destruct (retire_covered h3 it it2) as [-> ->]; try congruence.
    - by rewrite E3, I2, lookup_insert_eq.
    - rewrite E3, I2, delete_insert_eq. split; congruence. }
  unfold writeFinish. rewrite Hf. change (v_done (viewOf it)) with (fi_done it).
  destruct (fi_done it) eqn:Ed; cbv iota beta delta [negb].
  - destruct (FinishRunWithUsage _ _ _ _ _ _ _ _ _ _) as [db [[]|e]].
    + by apply Hret.
    + split; [congruence|]. split; [done|]. by rewrite I2, delete_insert_eq.
  - by apply Hret.
Qed.

(** The views of a pass: snapshots of distinct items. *)
Definition current (h : History) (v : finalItemView) : Prop :=
  exists it, h_items h !! r_ID (v_r v) = Some it /\ viewOf it = v.

Lemma passLoop_drains os n views streak h :
  h_closing h = false -> (forall i, healthy (os i)) -> NoDup ((fun v => r_ID (v_r v)) <$> views) ->
  Forall (current h) views ->
  let '(h', early) := passLoop h os n views streak in
  early = false /\ h_closing h' = false /\
  forall id, h_items h' !! id = if bool_decide (id ∈ (fun v => r_ID (v_r v)) <$> views) then None else h_items h !! id.
Proof.
  intros Hc Ho. revert n streak h Hc. induction views as [|v views IH]; intros n streak h Hc Hnd Hcur; cbn [passLoop].
  { split_and!; [done..|]. intros id. by rewrite bool_decide_eq_false_2 by apply not_elem_of_nil. }
  rewrite Hc, fmap_cons in *. apply NoDup_cons in Hnd as [Hn Hnd].
  apply Forall_cons in Hcur as [(it & Hit & <-) Hcur].
  pose proof (write_removes h it (os n) Hit (Ho n)) as Hw. cbn [v_r viewOf] in Hn, Hit |- *.
  destruct (writeHistory h (viewOf it) (os n)) as [h1 r]. destruct Hw as [C1 I1].
  assert (forall h2 s, h_closing h2 = false -> h_items h2 = delete (r_ID (fi_r it)) (h_items h) ->
     let '(h', early) := passLoop h2 os (S n) views s in
     early = false /\ h_closing h' = false /\
     forall id, h_items h' !! id =
       if bool_decide (id ∈ r_ID (fi_r it) :: ((fun v => r_ID (v_r v)) <$> views)) then None else h_items h !! id) as Hrest.
  { intros h2 s C2 I2. specialize (IH (S n) s h2 C2 Hnd).
    destruct (passLoop h2 os (S n) views s) as [h' early]. destruct IH as (E1 & E2 & E3).
    { eapply Forall_impl; [apply Forall_and; split; [exact Hcur|apply Forall_forall; exact (fun v Hv => Hv)]|].
      intros v [(it' & Hit' & Hv) Hin]. exists it'. split; [|done]. rewrite I2, lookup_delete_ne; [done|].
      intros E. apply Hn. rewrite E. apply list_elem_of_fmap. by exists v. }
    split_and!; [done..|]. intros id. rewrite E3, I2.
    destruct (decide (id = r_ID (fi_r it))) as [->|Hne].
    - rewrite lookup_delete_eq. rewrite (bool_decide_eq_true_2 (_ ∈ _ :: _)) by by left. by case_bool_decide.
    - rewrite lookup_delete_ne by done.
      rewrite (bool_decide_ext (id ∈ _ :: _) (id ∈ (fun v => r_ID (v_r v)) <$> views)); [done|].
      rewrite elem_of_cons. tauto. }
  destruct r as [[]|[]]; [apply Hrest; simpl; congruence|by destruct I1|..];
    (apply Hrest; [by rewrite dropFinalizer_closing, C1|rewrite dropFinalizer_items; apply I1]).
Qed.

Lemma dueViews_elem h now v :
  spool_ok h -> v ∈ dueViews h now <->
  exists id it, h_items h !! id = Some it /\ fi_nextTry it <= now /\ viewOf it = v.
Proof.
  intros Hok. unfold dueViews. rewrite merge_sort_Permutation, list_elem_of_fmap. split.
  - intros (it & -> & [Hin Hd]%elem_of_filter_list). apply list_elem_of_fmap in Hin as ([id it'] & -> & Hl).
    apply elem_of_map_to_list in Hl. exists id, it'. split; [done|]. split; [|done].
    unfold After in Hd. bools. done.
  - intros (id & it & Hl & Hd & <-). exists it. split; [done|]. apply elem_of_filter_list. split.
    + apply list_elem_of_fmap. exists (id, it). split; [done|]. by apply elem_of_map_to_list.
    + unfold After. apply negb_true_iff, Z.ltb_ge. done.
Qed.

Lemma items_ids h :
  spool_ok h -> (fun it => r_ID (fi_r it)) <$> (map_to_list (h_items h)).*2 = (map_to_list (h_items h)).*1.
Proof.
  intros Hok. assert (forall ki, ki ∈ map_to_list (h_items h) -> r_ID (fi_r ki.2) = ki.1) as Hk.
  { intros [i k] Hl%elem_of_map_to_list. by apply (so_key h Hok). }
  induction (map_to_list (h_items h)) as [|[i k] l IH]; [done|]. csimpl. f_equal.
  - apply (Hk (i, k)). by left.
  - apply IH. intros ki Hki. apply Hk. by right.
Qed.

Lemma dueViews_NoDup h now : spool_ok h -> NoDup ((fun v => r_ID (v_r v)) <$> dueViews h now).
Proof.
  intros Hok. unfold dueViews. rewrite merge_sort_Permutation, <-list_fmap_compose.
  change ((fun v => r_ID (v_r v)) ∘ viewOf) with (fun it => r_ID (fi_r it)).
  eapply sublist_NoDup; [|apply fmap_filter_sublist].
  rewrite (items_ids h Hok). apply NoDup_fst_map_to_list.
Qed.

(** When storage is back, one pass of the background writer empties the spool
    of everything that is due: each item is written and retired, or rejected by
    the database and dropped; items not due yet are untouched. *)
Theorem finalizePass_drains h now os :
  spool_ok h -> h_closing h = false -> (forall i, healthy (os i)) ->
  let '(h', early) := finalizePass h now os in
  early = false /\
  forall id, h_items h' !! id =
    match h_items h !! id with
    | Some it => if fi_nextTry it <=? now then None else Some it
    | None => None
    end.
Proof.
  intros Hok Hc Ho. unfold finalizePass.
  pose proof (passLoop_drains os 0 (dueViews h now) 0 h Hc Ho (dueViews_NoDup h now Hok)) as Hp.
  destruct (passLoop _ _ _ _ _) as [h' early]. destruct Hp as (E1 & _ & E3).
  { apply Forall_forall. intros v (id & it & Hl & _ & <-)%dueViews_elem; [|done]. exists it.
    destruct (so_key h Hok id it Hl) as [<- _]. done. }
  split; [done|]. intros id. rewrite E3. destruct (h_items h !! id) as [it|] eqn:Hl; [|by case_bool_decide].
  destruct (so_key h Hok id it Hl) as [Hid _].
  destruct (fi_nextTry it <=? now) eqn:Ed; bools.
  - rewrite bool_decide_eq_true_2; [done|]. apply list_elem_of_fmap. exists (viewOf it). split; [done|].
    apply dueViews_elem; [done|]. by exists id, it.
  - rewrite bool_decide_eq_false_2; [done|]. intros (v & Ev & Hv)%list_elem_of_fmap.
    apply dueViews_elem in Hv as (id' & it' & Hl' & Hd & <-); [|done].
    destruct (so_key h Hok id' it' Hl') as [Hid' _]. simpl in Ev. rewrite Hid' in Ev. subst id'.
    rewrite Hl in Hl'. injection Hl' as <-. lia.
Qed.

(** * Execution first *)

Lemma updateItem_done h id it t :
  exists it', h_items (updateItem h id it [UDone t]) !! id = Some it' /\ fi_done it' = true /\ fi_t it' = t /\
  h_finished (updateItem h id it [UDone t]) = h_finished h /\ h_db (updateItem h id it [UDone t]) = h_db h.
Proof.
  unfold updateItem. simpl. destruct (negb _); simpl; rewrite lookup_insert_eq; by eexists.
Qed.

Lemma spool_done h now stopped r d t h' :
  spool h now stopped r d [UDone t] = (h', true) ->
  h_finished h' = h_finished h /\ exists it, h_items h' !! r_ID r = Some it /\ fi_done it = true /\ fi_t it = t.
Proof.
  unfold spool. destruct (h_closing h); [done|].
  destruct (h_items h !! r_ID r) as [it|].
  - destruct stopped; [done|]. destruct (updateItem_done h (r_ID r) it t) as (it' & Hl & Hd & Ht & Hf & _).
    intros [= <-]. simpl. split; [done|]. by exists it'.
  - destruct (_ <=? _); [done|]. destruct stopped; [done|].
    match goal with |- context [updateItem ?h0 (r_ID r) ?it0 [UDone t]] =>
      destruct (updateItem_done h0 (r_ID r) it0 t) as (it' & Hl & Hd & Ht & Hf & _) end.
    intros [= <-]. simpl. split; [done|]. by exists it'.
Qed.

Lemma spool_refused h now stopped r d us h' :
  spool h now stopped r d us = (h', false) -> h_finished h' = h_finished h /\ h_dropped h' = h_dropped h.
Proof.
  assert (forall h0 i it0, h_finished (updateItem h0 i it0 us) = h_finished h0 /\
                           h_dropped (updateItem h0 i it0 us) = h_dropped h0) as Hu.
  { intros h0 i it0. unfold updateItem. by destruct (_ && _). }
  assert (forall h0 i, h_finished (dropFinalizer (h0 <| h_closing := true |>) i) = h_finished h0 /\
                       h_dropped (dropFinalizer (h0 <| h_closing := true |>) i) = h_dropped h0) as Hdrop.
  { intros h0 i. unfold dropFinalizer. cbn [h_items]. destruct (_ !! i) as [it|]; [|done]. by destruct (fi_done it). }
  unfold spool. destruct (h_closing h); [by intros [= <-]|].
  destruct (h_items h !! r_ID r) as [it|]; [|destruct (_ <=? _); [by intros [= <-]|]];
    (destruct stopped; [|done]); intros E; apply (f_equal fst) in E; cbn [fst] in E; subst h';
    match goal with |- context [updateItem ?h1 ?i ?it0 us] =>
      destruct (Hdrop (updateItem h1 i it0 us) i) as [-> ->]; destruct (Hu h1 i it0) as [-> ->] end; done.
Qed.

Definition refusesTerminal (h : History) (r : Run) (t : terminal) : Prop :=
  (FinishRunWithUsage (h_db h) (r_ID r) (t_status t) (t_reason t) (t_code t) (t_signal t) (t_ended t)
     (t_bytes t) (t_truncated t) (t_usage t)).2 = Err ErrInvalidTransition.

(** Where the terminal state of a run went. *)
Definition accounted (h h' : History) (r : Run) (t : terminal) : Prop :=
  (exists row, runs (h_db h') !! r_ID r = Some row /\ rr_status row = t_status t) \/
  (exists it, h_items h' !! r_ID r = Some it /\ fi_done it = true /\ fi_t it = t) \/
  h_dropped h' = h_dropped h + 1 \/ h_closing h' = true.

Lemma recordOutcome_frame h victim r t :
  let h' := recordOutcome h victim r t in
  h_db h' = h_db h /\ h_items h' = h_items h /\ h_dropped h' = h_dropped h /\ h_finished h' = h_finished h.
Proof. unfold recordOutcome. destruct (negb _); [done|]. by destruct (_ <=? _). Qed.

(** [finishRun] stores the terminal state or leaves the state alone. *)
Lemma finishAttempts_result fo id t n : forall i err h,
  (err = Some (Some ErrInvalidTransition) ->
   (FinishRunWithUsage (h_db h) id (t_status t) (t_reason t) (t_code t) (t_signal t) (t_ended t)
     (t_bytes t) (t_truncated t) (t_usage t)).2 = Err ErrInvalidTransition) ->
  (n = 0%nat -> err <> None) ->
  match finishAttempts h fo id t i n err with
  | (h', None) => h_finished h' = h_finished h /\ h_dropped h' = h_dropped h /\
                  exists row, runs (h_db h') !! id = Some row /\ rr_status row = t_status t
  | (h', Some e) => h' = h /\ (e = Some ErrInvalidTransition ->
      (FinishRunWithUsage (h_db h) id (t_status t) (t_reason t) (t_code t) (t_signal t) (t_ended t)
        (t_bytes t) (t_truncated t) (t_usage t)).2 = Err ErrInvalidTransition)
  end.
Proof.
  induction n as [|n IH]; intros i err h He Hne; cbn [finishAttempts].
  { destruct err; [|by specialize (Hne eq_refl)]. split; [done|]. intros ->. auto. }
  unfold attempt. destruct (fo i).1.
  { destruct (fo i).2; [done|]. by apply IH. }
  destruct (FinishRunWithUsage (h_db h) _ _ _ _ _ _ _ _ _) as [db [[]|e]] eqn:Ef.
  - simpl. split_and!; [done..|]. revert Ef. unfold FinishRunWithUsage, update_run.
    destruct (runs (h_db h) !! id) as [row|]; [|done]. destruct (_ || _); [|done].
    intros [= <-]. simpl. rewrite lookup_insert_eq. by eexists.
  - destruct (fo i).2.
    + split; [done|]. intros [= ->]. done.
    + rewrite <-Ef in *. apply IH; [|done]. intros [= ->]. by rewrite Ef.
Qed.

(** C14: execution first.  However storage behaves, a completed run whose history has
    been recorded or deferred so far (one not marked unrecorded, for which the
    executor has already counted the loss) is announced with its terminal state and
    its retry decision, and that state is stored, spooled, or counted as dropped
    history, or else the daemon is closing; only a database that refuses the
    transition ends the completion silently. *)
Theorem complete_accounts h now fo stopped victim r d t :
  let h' := complete h now fo stopped false victim r d t in
  (h_finished h' = ((withTerminal r t) <| r_ResourceUsage := t_usage t |>, t_retry t) :: h_finished h /\
   accounted h h' r t) \/
  (refusesTerminal h r t /\ h_finished h' = h_finished h).
Proof.
  unfold complete, accounted, refusesTerminal.
  destruct (recordOutcome_frame h victim r t) as (<- & _ & <- & <-).
  set (h0 := recordOutcome h victim r t). clearbody h0.
  assert (forall h1 h2, h_finished h2 = h_finished h0 -> h_dropped h2 = h_dropped h0 -> h1 =
     match spool h2 now stopped r d [UDone t] with
     | (h, true) => finished h r t
     | (h, false) => finished (if h_closing h then h else historyLost h) r t end ->
     h_finished h1 = ((withTerminal r t) <| r_ResourceUsage := t_usage t |>, t_retry t) :: h_finished h0 /\
     ((exists row, runs (h_db h1) !! r_ID r = Some row /\ rr_status row = t_status t) \/
      (exists it, h_items h1 !! r_ID r = Some it /\ fi_done it = true /\ fi_t it = t) \/
      h_dropped h1 = h_dropped h0 + 1 \/ h_closing h1 = true)) as Hdefer.
  { intros h1 h2 Ef Ed ->. destruct (spool _ _ _ _ _ _) as [h3 []] eqn:Es.
    - apply spool_done in Es as [Ef3 Hit]. simpl. rewrite Ef3, Ef. auto.
    - apply spool_refused in Es as [Ef3 Ed3]. destruct (h_closing h3) eqn:Ec; simpl; rewrite Ef3, Ef.
      + split; [done|]. right; right; right. done.
      + split; [done|]. right; right; left. lia. }
  unfold spooled. destruct (h_items h0 !! r_ID r) as [it|] eqn:Hit.
  - left. destruct (updateItem_done h0 (r_ID r) it t) as (it' & Hl & Hd & Ht & Hf & _).
    simpl. rewrite Hf. split; [done|]. right; left. by exists it'.
  - destruct (h_down h0); [left; by eapply Hdefer|].
    pose proof (finishAttempts_result fo (r_ID r) t 5 0 None h0 ltac:(done) ltac:(done)) as Hr. unfold finishRun.
    destruct (finishAttempts h0 _ _ _ _ _ _) as [h1 [e|]].
    + destruct Hr as [-> Hr]. assert (storageFailed h0 now = h0 \/ storageFailed h0 now =
        h0 <| h_down := true |> <| h_since := now |>) as Hs by (unfold storageFailed; destruct (h_down h0); auto).
      destruct e as [[]|]; try (left; apply (Hdefer _ (storageFailed h0 now)); [| |done]; by destruct Hs as [->| ->]).
      right. split; [by apply Hr|done].
    + left. destruct Hr as (Hf & Hd & Hrow). simpl. rewrite Hf. split; [done|]. left. exact Hrow.
Qed.

(** * Witnesses: an outage, its recovery and a race *)

Lemma spool_ok_init h : h_items h = ∅ -> pl_pending (h_lag h) = ∅ -> spool_ok h.
Proof.
  intros Ei Ep. split; rewrite ?Ei, ?Ep.
  - intros id it. by rewrite lookup_empty.
  - intros id it. by rewrite lookup_empty.
  - intros id id' it it'. by rewrite lookup_empty.
  - intros tok [x Hx]. by rewrite lookup_empty in Hx.
  - rewrite map_size_empty. lia.
Qed.

Module HistoryDemo.

Definition job : Definition_ := zeroDefinition <| d_ID := 1 |> <| d_Name := "backup" |> <| d_Kind := KindJob |>.

Definition db : DB :=
  emptyDB <| definitions := {[ "backup" := mkDefRow 1 KindJob "" "" 1 true "api" 0 0 None ]} |>.

Definition run (id : string) : Run :=
  zeroRun <| r_ID := id |> <| r_DefinitionID := 1 |> <| r_Job := "backup" |> <| r_Kind := KindJob |>
          <| r_Status := "pending" |> <| r_Trigger := "manual" |>.

Definition start : History :=
  mkHistory db ∅ 2 0 zeroLag false false false zeroTime 0 0 ∅ [].

Definition success : terminal := mkTerminal "success" "exit" (Some 0) "" 5 0 false true None.

Definition fine : WriteOracle := mkOracle (fun _ => false) (fun _ => []) 20.

(** Three runs of an outage: the budget of two takes the first two. *)
Definition outage : list HOp :=
  [HDefer 10 false (run "a") job; HDefer 10 false (run "b") job; HDefer 10 false (run "c") job;
   HComplete 12 (fun _ => (true, false)) false false "" (run "a") job success].

Lemma start_ok : spool_ok start.
Proof. by apply spool_ok_init. Qed.

Lemma spool_accounting_witness :
  lag_Pending (snapshot (h_lag (foldl applyHOp start outage)) 30) = 1 /\
  h_dropped (foldl applyHOp start outage) = 1 /\
  Z.of_nat (size (h_items (foldl applyHOp start outage))) <= 2.
Proof.
  destruct (spool_accounting start outage 30 start_ok) as [Hb Hp].
  split; [rewrite Hp; vm_compute; reflexivity|]. split; [vm_compute; reflexivity|].
  exact Hb.
Defined.

Definition spooledState : History := foldl applyHOp start outage.

Lemma finalizePass_drains_witness :
  spool_ok spooledState /\ size (h_items spooledState) = 2%nat /\
  forall id, h_items (finalizePass spooledState 10 (fun _ => fine)).1 !! id = None.
Proof.
  assert (spool_ok spooledState) as Hok by (apply applyHOps_keeps, start_ok).
  split; [done|]. split; [vm_compute; reflexivity|].
  pose proof (finalizePass_drains spooledState 10 (fun _ => fine) Hok eq_refl
    (fun _ => conj (fun _ => eq_refl) (fun _ => eq_refl))) as Hd.
  destruct (finalizePass _ _ _) as [h' early]. destruct Hd as [_ Hd]. intros id. simpl. rewrite Hd.
  assert (map_Forall (fun _ it => fi_nextTry it <= 10) (h_items spooledState)) as Hall
    by (apply (bool_decide_unpack _); vm_compute; exact I).
  destruct (h_items spooledState !! id) as [it|] eqn:Hl; [|done].
  apply Hall in Hl. by rewrite (proj2 (Z.leb_le _ _) Hl).
Defined.

(** The terminal state arrives while the writer stores the row: it stays. *)
Definition racing (now : bool) : WriteOracle :=
  mkOracle (fun _ => false) (fun i => if now && (i =? 1)%nat then [EvSpooled "b" [UStart zeroStart]] else []) 20.

Definition item_b : finalItem := default (mkItem 0 (run "b") job false false zeroStart false zeroTerminal 0 0 0 0)
                                   (h_items spooledState !! "b").

Lemma no_stage_lost_witness :
  let o := racing false in
  h_items (writeHistory spooledState (viewOf item_b) o).1 !! "b" = None /\
  (exists it, h_items (writeHistory spooledState (viewOf item_b) (racing true)).1 !! "b" = Some it /\
              fi_start it = true) /\
  Forall (fun u => match u with
                   | UCreate => v_create (viewOf item_b) = true
                   | UStart _ => v_start (viewOf item_b) = true
                   | UDone _ => v_done (viewOf item_b) = true
                   end) (told "b" (wo_env o 0)).
Proof.
  intros o. split; [vm_compute; reflexivity|]. split; [eexists; split; vm_compute; reflexivity|].
  destruct (no_stage_lost spooledState item_b o (writeHistory spooledState (viewOf item_b) o).1) as [Hf _].
  - vm_compute; reflexivity.
  - intros i. constructor.
  - vm_compute; reflexivity.
  - vm_compute; reflexivity.
  - apply Forall_app in Hf as [Hf _]. exact Hf.
Defined.

End HistoryDemo.
