(* ===== verification/HistoryRel.v ===== *)
(** How the recording path moves the database: every operation of [History] is a
    sequence of store operations whose callers' guarantees hold ([op_ok]), leaves
    the execution queue alone and never takes shutdown back. *)

From S2P Require Import Prelude GoRuntime Model StoreDB StoreQueue StoreDefs StoreHistory StoreInv.
From S2P Require Import History.
Open Scope Z_scope.

(** The states handed to the recording path: terminal states are terminal, and a
    run row is never spooled as "queued". *)
Definition update_ok (u : Update) : Prop :=
  match u with UDone t => Terminal (t_status t) = true | _ => True end.

Definition env_ok (o : EnvOp) : Prop :=
  match o with
  | EvSpool _ _ r _ us => r_Status r <> "queued" /\ Forall update_ok us
  | EvSpooled _ us => Forall update_ok us
  | _ => True
  end.

Definition oracle_ok (o : WriteOracle) : Prop := forall i, Forall env_ok (wo_env o i).

Definition item_ok (it : finalItem) : Prop :=
  r_Status (fi_r it) <> "queued" /\ (fi_done it = true -> Terminal (t_status (fi_t it)) = true).

Definition items_ok (h : History) : Prop := map_Forall (fun _ it => item_ok it) (h_items h).

Section rel.
Context `{Codec} (lim : QueueLimits).

Record evolved (h h' : History) : Prop := {
  ev_items : items_ok h';
  ev_db : rtc (step lim) (h_db h) (h_db h');
  ev_queue : exec_queue (h_db h') = exec_queue (h_db h);
  ev_closing : h_closing h = true -> h_closing h' = true
}.

Definition evolves (h h' : History) : Prop := items_ok h -> evolved h h'.

#[export] Instance evolves_preorder : PreOrder evolves.
Proof.
  split.
  - intros h Ha. by split.
  - intros a b c Hab Hbc Ha. destruct (Hab Ha) as [Hb Db Qb Cb]. destruct (Hbc Hb) as [Hc Dc Qc Cc].
    split; [done| |congruence|auto]. by etrans.
Qed.

(** Updates of the spool and of the counters. *)
Lemma evolves_spool h h' :
  h_db h' = h_db h -> (h_closing h = true -> h_closing h' = true) -> (items_ok h -> items_ok h') -> evolves h h'.
Proof. intros Hd Hc Hi Hok. split; rewrite ?Hd; [auto|done|done|auto]. Qed.

Lemma evolves_same h h' :
  h_db h' = h_db h -> h_closing h' = h_closing h -> h_items h' = h_items h -> evolves h h'.
Proof. intros Hd Hc Hi. apply evolves_spool; [done|by rewrite Hc|unfold items_ok; by rewrite Hi]. Qed.

(** One store operation. *)
Lemma evolves_op h h' op :
  h_items h' = h_items h -> h_closing h' = h_closing h -> h_db h' = apply_op lim op (h_db h) ->
  (items_ok h -> op_ok op) -> exec_queue (h_db h') = exec_queue (h_db h) -> evolves h h'.
Proof.
  intros Hi Hc Hd Hop Hq Hok. split; [by unfold items_ok; rewrite Hi| |done|congruence].
  apply rtc_once. exists op. auto.
Qed.

Ltac same := apply evolves_same; done.

Lemma items_ok_insert h h' id it :
  h_items h' = <[id := it]> (h_items h) -> item_ok it -> items_ok h -> items_ok h'.
Proof. intros Hi Hit Hok. unfold items_ok. rewrite Hi. by apply map_Forall_insert_2. Qed.

Lemma items_ok_delete h h' id : h_items h' = delete id (h_items h) -> items_ok h -> items_ok h'.
Proof. intros Hi Hok. unfold items_ok. rewrite Hi. by apply map_Forall_delete. Qed.

(** * The spool *)

Lemma applyUpdates_ok us : forall it, Forall update_ok us -> item_ok it -> item_ok (foldl applyUpdate it us).
Proof.
  induction us as [|u us IH]; intros it Hus Hit; [done|]. apply Forall_cons in Hus as [Hu Hus].
  apply IH; [done|]. destruct Hit as [Hr Ht]. by destruct u.
Qed.

Lemma updateItem_fields h id it us :
  h_db (updateItem h id it us) = h_db h /\ h_closing (updateItem h id it us) = h_closing h /\
  exists it', h_items (updateItem h id it us) = <[id := it']> (h_items h) /\
    (Forall update_ok us -> item_ok it -> item_ok it').
Proof.
  unfold updateItem. pose proof (applyUpdates_ok us it) as Hu.
  destruct (_ && _); (split; [done|]); (split; [done|]); eexists; (split; [done|]); intros H1 H2;
    specialize (Hu H1 H2); destruct Hu; by split.
Qed.

Lemma updateItem_evolves h id it us :
  (items_ok h -> item_ok it) -> Forall update_ok us -> evolves h (updateItem h id it us).
Proof.
  intros Hit Hus. destruct (updateItem_fields h id it us) as (Hd & Hc & it' & Hi & Hok).
  apply evolves_spool; [done|by rewrite Hc|]. intros Ho. by eapply items_ok_insert; eauto.
Qed.

Lemma dropFinalizer_evolves h id : evolves h (dropFinalizer h id).
Proof.
  unfold dropFinalizer. destruct (h_items h !! id) as [it|]; [|done].
  apply evolves_spool; [by destruct (fi_done it)..|]. by apply items_ok_delete with id; destruct (fi_done it).
Qed.

Lemma spool_evolves h now stopped r d us :
  r_Status r <> "queued" -> Forall update_ok us -> evolves h (spool h now stopped r d us).1.
Proof.
  intros Hr Hus. unfold spool. destruct (h_closing h) eqn:Ec; [done|].
  assert (forall h1, evolves h h1 -> evolves h (if stopped
    then (dropFinalizer (h1 <| h_closing := true |>) (r_ID r), false) else (h1 <| h_started := true |>, true)).1) as Hfin.
  { intros h1 H1. etrans; [exact H1|]. destruct stopped; simpl fst.
    - etrans; [|apply dropFinalizer_evolves]. by apply evolves_spool.
    - same. }
  destruct (h_items h !! r_ID r) as [it|] eqn:Hit.
  - apply Hfin, updateItem_evolves; [|done]. intros Ho. by apply (Ho (r_ID r)).
  - destruct (_ <=? _); [done|]. apply Hfin. etrans; [|apply updateItem_evolves; [|done]].
    + same.
    + intros _. by split.
Qed.

Lemma spooled_evolves h id us : Forall update_ok us -> evolves h (spooled h id us).1.
Proof.
  intros Hus. unfold spooled. destruct (h_items h !! id) as [it|] eqn:Hit; [|done].
  destruct us; [done|]. apply updateItem_evolves; [|done]. intros Ho. by apply (Ho id).
Qed.

Lemma runEnv_evolves l : forall h, Forall env_ok l -> evolves h (runEnv h l).
Proof.
  induction l as [|o l IH]; intros h Hl; [done|]. apply Forall_cons in Hl as [Ho Hl].
  etrans; [|by apply IH]. destruct o; simpl in *.
  - destruct Ho. by apply spool_evolves.
  - by apply spooled_evolves.
  - apply dropFinalizer_evolves.
  - by apply evolves_spool.
Qed.

Lemma abandon_evolves h : evolves h (abandonFinalizers h).
Proof. apply evolves_spool; [done..|]. intros _. apply map_Forall_empty. Qed.

(** * Writes *)

Lemma update_run_queue db id guard f : exec_queue (update_run db id guard f).1 = exec_queue db.
Proof. unfold update_run. destruct (runs db !! id) as [w|]; [by destruct (guard w)|done]. Qed.

Lemma create_evolves h r :
  (items_ok h -> r_Status r <> "queued") -> evolves h (h <| h_db := (CreateRun (h_db h) r).1 |>).
Proof.
  intros Hr. apply (evolves_op _ _ (OpCreateRun r)); [done..|]. simpl. unfold CreateRun, insert_run.
  by destruct (_ || _).
Qed.

Lemma start_evolves h id pid pgid sid t :
  evolves h (h <| h_db := (StartRun (h_db h) id pid pgid sid t).1 |>).
Proof. apply (evolves_op _ _ (OpStartRun id pid pgid sid t)); [done..|]. apply update_run_queue. Qed.

Lemma finish_evolves h id st re c sg t b tr u :
  (items_ok h -> Terminal st = true) ->
  evolves h (h <| h_db := (FinishRunWithUsage (h_db h) id st re c sg t b tr u).1 |>).
Proof.
  intros Ht. apply (evolves_op _ _ (OpFinishRun id st re c sg t b tr u)); [done..|]. apply update_run_queue.
Qed.

Lemma onItem_evolves h v f :
  (forall it, item_ok it -> item_ok (f it)) -> evolves h (onItem h v f).
Proof.
  intros Hf. unfold onItem. destruct (h_items h !! _) as [it|] eqn:Hit; [|done].
  destruct (_ =? _)%nat; [|done]. apply evolves_spool; [done..|]. intros Ho.
  eapply items_ok_insert; [done| |done]. apply Hf. by apply (Ho (r_ID (v_r v))).
Qed.

(** A view taken of a good item. *)
Definition view_ok (v : finalItemView) : Prop :=
  r_Status (v_r v) <> "queued" /\ (v_done v = true -> Terminal (t_status (v_t v)) = true).

Lemma writeHistory_evolves h v o : view_ok v -> oracle_ok o -> evolves h (writeHistory h v o).1.
Proof.
  intros [Hr Ht] Ho. unfold writeHistory.
  assert (evolves h (writeCreate (runEnv h (wo_env o 0)) v o).1) as H1.
  { etrans; [apply (runEnv_evolves (wo_env o 0)), Ho|]. set (h0 := runEnv h _). clearbody h0. unfold writeCreate.
    destruct (negb _); [done|]. destruct (wo_fails o 0); [done|].
    pose proof (create_evolves h0 (v_r v) (fun _ => Hr)) as Hc.
    destruct (CreateRun _ _) as [db [[]|e]].
    - cbn [fst] in *. etrans; [exact Hc|]. apply onItem_evolves. by intros it [].
    - destruct (wo_fails o 1); [done|]. destruct (Run_ _ _); [|done]. apply onItem_evolves. by intros it []. }
  destruct (writeCreate _ v o) as [h1 [[]|]]; cbn [fst] in H1; [|done].
  assert (evolves h (writeStart (runEnv h1 (wo_env o 1)) v o).1) as H2.
  { etrans; [exact H1|]. etrans; [apply (runEnv_evolves (wo_env o 1)), Ho|]. set (h0 := runEnv h1 _). clearbody h0.
    unfold writeStart. destruct (negb _); [done|]. destruct (wo_fails o 2); [done|].
    pose proof (start_evolves h0 (r_ID (v_r v)) (si_pid (v_started v)) (si_pgid (v_started v))
                  (si_id (v_started v)) (si_at (v_started v))) as Hs.
    destruct (StartRun _ _ _ _ _ _) as [db r]. cbn [fst] in *. etrans; [exact Hs|].
    apply onItem_evolves. by intros it []. }
  destruct (writeStart _ v o) as [h2 [[]|]]; cbn [fst] in H2; [|done].
  assert (evolves h (writeFinish (runEnv h2 (wo_env o 2)) v o).1) as H3.
  { etrans; [exact H2|]. etrans; [apply (runEnv_evolves (wo_env o 2)), Ho|]. set (h0 := runEnv h2 _). clearbody h0.
    unfold writeFinish. destruct (v_done v) eqn:Ed; [|done]. cbn [negb]. destruct (wo_fails o 3); [done|].
    pose proof (finish_evolves h0 (r_ID (v_r v)) (t_status (v_t v)) (t_reason (v_t v)) (t_code (v_t v))
      (t_signal (v_t v)) (t_ended (v_t v)) (t_bytes (v_t v)) (t_truncated (v_t v)) (t_usage (v_t v))
      (fun _ => Ht eq_refl)) as Hf.
    destruct (FinishRunWithUsage _ _ _ _ _ _ _ _ _ _) as [db [[]|e]]; cbn [fst] in *; [|done].
    etrans; [exact Hf|]. same. }
  destruct (writeFinish _ v o) as [h3 [[]|]]; cbn [fst] in H3; [|done]. simpl fst.
  etrans; [exact H3|]. etrans; [apply (runEnv_evolves (wo_env o 3)), Ho|]. set (h0 := runEnv h3 _). clearbody h0.
  unfold retire. destruct (h_items h0 !! _); [|done]. destruct (_ && _ && _ && _); [|done].
  apply dropFinalizer_evolves.
Qed.

Lemma storageFailed_evolves h now : evolves h (storageFailed h now).
Proof. unfold storageFailed. destruct (h_down h); [done|same]. Qed.

Lemma passLoop_evolves os : (forall i, oracle_ok (os i)) ->
  forall views n streak h, Forall view_ok views -> evolves h (passLoop h os n views streak).1.
Proof.
  intros Hos. induction views as [|v views IH]; intros n streak h Hv; [done|].
  apply Forall_cons in Hv as [Hv Hvs]. cbn [passLoop]. destruct (h_closing h); [done|].
  pose proof (writeHistory_evolves h v (os n) Hv (Hos n)) as Hw.
  destruct (writeHistory h v (os n)) as [h1 [[]|[]]]; cbn [fst] in Hw; (etrans; [exact Hw|]).
  - etrans; [|by apply IH]. same.
  - assert (evolves h1 (onItem (storageFailed h1 (wo_now (os n))) v (backOff (wo_now (os n))))) as Hb.
    { etrans; [apply storageFailed_evolves|]. apply onItem_evolves. by intros it []. }
    destruct (_ <=? _); [done|]. etrans; [exact Hb|]. by apply IH.
  - etrans; [apply dropFinalizer_evolves|]. by apply IH.
  - etrans; [apply dropFinalizer_evolves|]. by apply IH.
Qed.

Lemma finalizeRound_evolves h now os global :
  (forall i, oracle_ok (os i)) -> evolves h (finalizeRound h now os global).1.
Proof.
  intros Hos Hok. revert Hok. unfold finalizeRound. destruct (h_closing h) eqn:Ec; [apply abandon_evolves|].
  intros Hok. assert (evolves h (finalizePass h now os).1) as Hp.
  { apply passLoop_evolves; [done|]. unfold dueViews. rewrite merge_sort_Permutation.
    apply Forall_forall. intros v (it & -> & [Hit _]%elem_of_filter_list)%list_elem_of_fmap.
    apply list_elem_of_fmap in Hit as ([id it'] & -> & Hl%elem_of_map_to_list).
    by apply (Hok id). }
  destruct (finalizePass h now os) as [h1 []]; by apply Hp.
Qed.

(** * The execution path *)

Lemma notify_evolves h r b : evolves h (notifyFinished h r b).
Proof. same. Qed.

Lemma lost_evolves h : evolves h (historyLost h).
Proof. same. Qed.

Lemma admitRow_evolves h now callerDone fails r :
  r_Status r <> "queued" -> evolves h (admitRow h now callerDone fails r).1.
Proof.
  intros Hr. unfold admitRow. destruct (_ && _); [done|]. unfold attempt. destruct fails.
  { destruct (storageUnavailable _ _); [apply storageFailed_evolves|done]. }
  pose proof (create_evolves h r (fun _ => Hr)) as Hc. destruct (CreateRun _ _) as [db [[]|e]]; cbn [fst] in Hc.
  - etrans; [exact Hc|]. same.
  - destruct (storageUnavailable _ _); [apply storageFailed_evolves|done].
Qed.

Lemma deferRecord_evolves h now stopped r d :
  r_Status r <> "queued" -> evolves h (deferRecord h now stopped r d).
Proof.
  intros Hr. unfold deferRecord. etrans; [apply (evolves_same _ (h <| h_deferred ::= Z.succ |>)); done|].
  pose proof (spool_evolves (h <| h_deferred ::= Z.succ |>) now stopped r d [UCreate] Hr ltac:(by repeat constructor)) as Hs.
  destruct (spool _ _ _ _ _ _) as [h1 []]; [done|]. etrans; [exact Hs|]. apply lost_evolves.
Qed.

Lemma skipUnrecorded_evolves h now stopped r d :
  r_Status r <> "queued" -> evolves h (skipUnrecorded h now stopped r d).1.
Proof.
  intros Hr. unfold skipUnrecorded. simpl fst. etrans; [|apply notify_evolves].
  etrans; [apply (evolves_same _ (h <| h_deferred ::= Z.succ |>)); done|].
  match goal with |- context [spool ?h1 now stopped r d ?us] =>
    pose proof (spool_evolves h1 now stopped r d us Hr ltac:(by repeat constructor)) as Hs;
    destruct (spool h1 now stopped r d us) as [h2 []] end; [done|].
  etrans; [exact Hs|]. apply lost_evolves.
Qed.

Lemma persistStart_evolves h now fails stopped unrecorded r d info :
  r_Status r <> "queued" -> evolves h (persistStart h now fails stopped unrecorded r d info).1.
Proof.
  intros Hr. unfold persistStart. destruct unrecorded; [done|].
  pose proof (spooled_evolves h (r_ID r) [UStart info] ltac:(by repeat constructor)) as H1.
  destruct (spooled h (r_ID r) [UStart info]) as [h1 []]; cbn [fst] in H1; [done|]. etrans; [exact H1|].
  assert (forall h2, evolves h2 (match spool h2 now stopped r d [UStart info] with
            | (h, true) => (h, false) | (h, false) => (historyLost h, false) end).1) as Hdefer.
  { intros h2. pose proof (spool_evolves h2 now stopped r d [UStart info] Hr ltac:(by repeat constructor)) as Hs.
    destruct (spool h2 now stopped r d [UStart info]) as [h3 []]; [done|]. etrans; [exact Hs|]. apply lost_evolves. }
  destruct (h_down h1); [apply Hdefer|]. unfold attempt. destruct fails.
  { etrans; [apply storageFailed_evolves|apply Hdefer]. }
  pose proof (start_evolves h1 (r_ID r) (si_pid info) (si_pgid info) (si_id info) (si_at info)) as Hs.
  destruct (StartRun _ _ _ _ _ _) as [db [[]|e]]; cbn [fst] in Hs.
  - etrans; [exact Hs|]. same.
  - destruct e; try done; (etrans; [apply storageFailed_evolves|apply Hdefer]).
Qed.

Lemma finishAttempts_evolves fo id t n : Terminal (t_status t) = true ->
  forall i err h, evolves h (finishAttempts h fo id t i n err).1.
Proof.
  intros Ht. induction n as [|n IH]; intros i err h; [done|]. cbn [finishAttempts]. unfold attempt.
  destruct (fo i).1; [destruct (fo i).2; [done|apply IH]|].
  pose proof (finish_evolves h id (t_status t) (t_reason t) (t_code t) (t_signal t) (t_ended t) (t_bytes t)
    (t_truncated t) (t_usage t) (fun _ => Ht)) as Hf.
  destruct (FinishRunWithUsage _ _ _ _ _ _ _ _ _ _) as [db [[]|e]]; cbn [fst] in Hf; [done|].
  destruct (fo i).2; [done|]. apply IH.
Qed.

Lemma complete_evolves h now fo stopped unrecorded victim r d t :
  r_Status r <> "queued" -> Terminal (t_status t) = true ->
  evolves h (complete h now fo stopped unrecorded victim r d t).
Proof.
  intros Hr Ht. unfold complete.
  etrans; [apply (evolves_same _ (recordOutcome h victim r t)); unfold recordOutcome;
    by destruct (negb _); [|destruct (_ <=? _)]|].
  set (h0 := recordOutcome h victim r t). clearbody h0. clear h.
  destruct unrecorded; [same|].
  pose proof (spooled_evolves h0 (r_ID r) [UDone t] ltac:(by repeat constructor)) as H1.
  destruct (spooled h0 (r_ID r) [UDone t]) as [h1 []]; cbn [fst] in H1; (etrans; [exact H1|]); [same|].
  assert (forall h2, evolves h2 (match spool h2 now stopped r d [UDone t] with
            | (h, true) => finished h r t
            | (h, false) => finished (if h_closing h then h else historyLost h) r t end)) as Hdefer.
  { intros h2. pose proof (spool_evolves h2 now stopped r d [UDone t] Hr ltac:(by repeat constructor)) as Hs.
    destruct (spool _ _ _ _ _ _) as [h3 []]; (etrans; [exact Hs|]); [same|]. destruct (h_closing h3); same. }
  destruct (h_down h1); [apply Hdefer|].
  pose proof (finishAttempts_evolves fo (r_ID r) t 5 Ht 0 None h1) as H2. unfold finishRun.
  destruct (finishAttempts _ _ _ _ _ _ _) as [h2 [[[]|]|]]; cbn [fst] in H2; (etrans; [exact H2|]); try done;
    try (etrans; [apply storageFailed_evolves|apply Hdefer]).
Qed.

End rel.
