(* ===== verification/Heap.v ===== *)
(** container/heap as the executor uses it: a binary min-heap in a slice, with
    [Push] and [Pop] by sifting.  The order is [Less] on a key, here an instant.

    [up] and [down] are the package's loops with fuel; the theorems below show
    that the length of the slice is fuel enough. *)

From S2P Require Import Prelude GoRuntime.
Open Scope nat_scope.

Section heap.
Context {A : Type} `{Inhabited A} (key : A -> Time).

Definition Less (h : list A) (i j : nat) : bool := Before (key (h !!! i)) (key (h !!! j)).
Definition Swap (h : list A) (i j : nat) : list A := <[j := h !!! i]> (<[i := h !!! j]> h).

Fixpoint up (fuel : nat) (h : list A) (j : nat) : list A :=
  match fuel with
  | O => h
  | S fuel =>
      let i := (j - 1) / 2 in
      if (i =? j) || negb (Less h j i) then h else up fuel (Swap h i j) i
  end.

Fixpoint down (fuel : nat) (h : list A) (i n : nat) : list A :=
  match fuel with
  | O => h
  | S fuel =>
      let j1 := 2 * i + 1 in
      if n <=? j1 then h else
      let j := if (j1 + 1 <? n) && Less h (j1 + 1) j1 then j1 + 1 else j1 in
      if negb (Less h j i) then h else down fuel (Swap h i j) j n
  end.

Definition Push (h : list A) (x : A) : list A :=
  let h := h ++ [x] in up (length h) h (length h - 1).

(** [heap.Pop] swaps the root to the end, restores the rest and pops the end. *)
Definition Pop (h : list A) : option (A * list A) :=
  match h with
  | [] => None
  | _ => let n := length h - 1 in
         let h := down n (Swap h 0 n) 0 n in
         Some (h !!! n, take n h)
  end.

(** * Swapping *)

Lemma Swap_length h i j : length (Swap h i j) = length h.
Proof. unfold Swap. by rewrite !length_insert. Qed.

Lemma Swap_lookup h i j k :
  i < length h -> j < length h ->
  Swap h i j !!! k = if k =? j then h !!! i else if k =? i then h !!! j else h !!! k.
Proof.
  intros Hi Hj. unfold Swap. destruct (Nat.eqb_spec k j) as [->|Hkj].
  { rewrite list_lookup_total_insert_eq; [done|]. by rewrite length_insert. }
  rewrite list_lookup_total_insert_ne by done. destruct (Nat.eqb_spec k i) as [->|Hki].
  - by rewrite list_lookup_total_insert_eq.
  - by rewrite list_lookup_total_insert_ne.
Qed.

Lemma insert_Permutation (h : list A) i x y : h !! i = Some y -> y :: <[i := x]> h ≡ₚ x :: h.
Proof.
  intros Hi. rewrite insert_take_drop by by eapply lookup_lt_Some.
  rewrite <-(take_drop_middle h i y Hi) at 3.
  rewrite <-!Permutation_middle. apply perm_swap.
Qed.

Lemma Swap_Permutation h i j : i < length h -> j < length h -> Swap h i j ≡ₚ h.
Proof.
  intros Hi Hj. unfold Swap.
  assert (<[i := h !!! j]> h !! j = Some (h !!! j)) as Hj'.
  { destruct (decide (i = j)) as [->|Hij].
    - by rewrite list_lookup_insert_eq.
    - rewrite list_lookup_insert_ne by done. by apply list_lookup_lookup_total_lt. }
  apply (Permutation_cons_inv (a := h !!! j)).
  rewrite (insert_Permutation _ j (h !!! i) (h !!! j) Hj').
  apply insert_Permutation. by apply list_lookup_lookup_total_lt.
Qed.

(** * Order *)

Definition parent (i : nat) : nat := (i - 1) / 2.

Lemma parent_lt i : 0 < i -> parent i < i.
Proof. intros Hi. unfold parent. apply Nat.Div0.div_lt_upper_bound. lia. Qed.

Lemma parent_child i j : 0 < j -> parent j = i <-> j = 2 * i + 1 \/ j = 2 * i + 2.
Proof.
  intros Hj. unfold parent. pose proof (Nat.div_mod_eq (j - 1) 2).
  pose proof (Nat.mod_upper_bound (j - 1) 2 ltac:(lia)). lia.
Qed.

Abbreviation K h i := (key (h !!! i%nat)).

(** The first [n] elements are in heap order. *)
Definition heap_upto (n : nat) (h : list A) : Prop :=
  forall i, 0 < i < n -> (K h (parent i) <= K h i)%Z.
Definition heap (h : list A) : Prop := heap_upto (length h) h.

(** Around a gap at [j] the parent is below the children. *)
Definition bridged (n : nat) (h : list A) (j : nat) : Prop :=
  forall i, 0 < i < n -> parent i = j -> 0 < j -> (K h (parent j) <= K h i)%Z.

(** Read [Swap h i j] at every index that occurs. *)
Ltac swapped Hi Hj :=
  repeat match goal with
  | |- context [Swap ?h ?i ?j !!! ?k] => rewrite (Swap_lookup h i j k Hi Hj)
  end;
  repeat match goal with
  | |- context [Nat.eqb ?a ?b] => destruct (Nat.eqb_spec a b); subst
  end.

Lemma up_heap fuel : forall h j,
  j < length h -> j < fuel ->
  (forall i, 0 < i < length h -> i <> j -> (K h (parent i) <= K h i)%Z) ->
  bridged (length h) h j -> heap (up fuel h j).
Proof.
  induction fuel as [|fuel IH]; intros h j Hj Hf Hedge Hb; [lia|]. cbn [up]. fold (parent j).
  destruct (Nat.eqb_spec (parent j) j) as [Ep|Ep].
  { intros i Hi. apply Hedge; [done|]. intros ->. pose proof (parent_lt j). lia. }
  assert (0 < j) as Hj0 by (destruct j; [by destruct Ep|lia]). pose proof (parent_lt j Hj0) as Hp.
  unfold Less, Before. destruct (Z.ltb_spec (K h j) (K h (parent j))); simpl.
  2:{ intros i Hi. destruct (decide (i = j)) as [->|]; auto. }
  assert (parent j < length h) as Hpl by lia.
  apply IH; rewrite ?Swap_length; try lia.
  - intros i Hi Hij. pose proof (parent_lt i ltac:(lia)).
    assert (parent i = parent j -> i <> j -> (K h (parent j) <= K h i)%Z) as Hsib
      by (intros <- ?; by apply Hedge).
    swapped Hpl Hj; try lia; try (by apply Hedge); [by apply Hb|..]; specialize (Hsib ltac:(done)); lia.
  - intros i Hi Hij Hp0. pose proof (parent_lt i ltac:(lia)). pose proof (parent_lt (parent j) Hp0).
    assert (K h (parent (parent j)) <= K h (parent j))%Z by (apply Hedge; lia).
    swapped Hpl Hj; try lia.
    assert (K h (parent i) <= K h i)%Z as Hi' by (apply Hedge; lia). rewrite Hij in Hi'. lia.
Qed.

Lemma up_Permutation fuel : forall h j, j < length h -> up fuel h j ≡ₚ h.
Proof.
  induction fuel as [|fuel IH]; intros h j Hj; [done|]. cbn [up]. fold (parent j).
  destruct ((parent j =? j) || _) eqn:E; [done|].
  assert (parent j < length h) as Hp.
  { destruct j; [done|]. pose proof (parent_lt (S j)). lia. }
  rewrite IH by by rewrite Swap_length. by apply Swap_Permutation.
Qed.

Lemma down_heap n fuel : forall h i,
  n <= length h -> n - i <= fuel ->
  (forall k, 0 < k < n -> parent k <> i -> (K h (parent k) <= K h k)%Z) ->
  bridged n h i -> heap_upto n (down fuel h i n).
Proof.
  induction fuel as [|fuel IH]; intros h i Hn Hf Hedge Hb.
  { intros k Hk. simpl. apply Hedge; [done|]. pose proof (parent_lt k). lia. }
  cbn [down]. destruct (Nat.leb_spec n (2 * i + 1)).
  { intros k Hk. apply Hedge; [done|]. intros Hki. apply parent_child in Hki; lia. }
  set (j := if _ && _ then _ else _).
  assert (j < n /\ parent j = i /\ 0 < j /\ forall k, 0 < k < n -> parent k = i -> (K h j <= K h k)%Z)
    as (Hjn & Hpj & Hj0 & Hmin).
  { unfold j, Less, Before. destruct (Nat.ltb_spec (2 * i + 1 + 1) n); cbn [andb];
      [destruct (Z.ltb_spec (K h (2 * i + 1 + 1)) (K h (2 * i + 1)))|];
      (split; [lia|]); (split; [apply parent_child; lia|]); (split; [lia|]);
      intros k Hk [->| ->]%parent_child; try lia;
      replace (2 * i + 2) with (2 * i + 1 + 1) by lia; lia. }
  clearbody j. pose proof (parent_lt j Hj0) as Hij. rewrite Hpj in Hij.
  unfold Less, Before. destruct (Z.ltb_spec (K h j) (K h i)); simpl.
  2:{ intros k Hk. destruct (decide (parent k = i)) as [Hk'|]; [|by apply Hedge].
      rewrite Hk'. specialize (Hmin k Hk Hk'). lia. }
  assert (i < length h) as Hil by lia. assert (j < length h) as Hjl by lia.
  apply IH; rewrite ?Swap_length; try lia.
  - intros k Hk Hkj. pose proof (parent_lt k ltac:(lia)).
    destruct (decide (parent k = i)) as [Hki|Hki].
    + specialize (Hmin k Hk Hki). rewrite Hki. swapped Hil Hjl; lia.
    + assert (K h (parent k) <= K h k)%Z as Hk' by by apply Hedge.
      swapped Hil Hjl; try lia. apply Hb; done || lia.
  - intros k Hk Hkj _. pose proof (parent_lt k ltac:(lia)). rewrite Hpj.
    assert (K h (parent k) <= K h k)%Z as Hk' by (apply Hedge; lia). rewrite Hkj in Hk'.
    swapped Hil Hjl; lia.
Qed.

Lemma down_keeps n fuel : forall h i,
  n <= length h -> i < n ->
  down fuel h i n ≡ₚ h /\ forall k, n <= k -> down fuel h i n !!! k = h !!! k.
Proof.
  induction fuel as [|fuel IH]; intros h i Hn Hi; [done|]. cbn [down].
  destruct (Nat.leb_spec n (2 * i + 1)); [done|].
  set (j := if _ && _ then _ else _).
  assert (j < n) as Hj by (unfold j; destruct (Nat.ltb_spec (2 * i + 1 + 1) n); cbn [andb];
    [destruct (Less _ _ _)|]; lia).
  clearbody j. destruct (negb _); [done|].
  destruct (IH (Swap h i j) j) as [E1 E2]; rewrite ?Swap_length; [lia..|]. split.
  - rewrite E1. apply Swap_Permutation; lia.
  - intros k Hk. rewrite E2 by done. assert (i < length h) as Hil by lia. assert (j < length h) as Hjl by lia.
    swapped Hil Hjl; lia || done.
Qed.

(** The root is a minimum. *)
Lemma heap_root h i : heap h -> i < length h -> (K h 0 <= K h i)%Z.
Proof.
  intros Hh. induction i as [i IH] using lt_wf_ind. intros Hi.
  destruct (decide (i = 0)) as [->|Hi0]; [lia|].
  pose proof (parent_lt i ltac:(lia)). specialize (IH (parent i) ltac:(lia) ltac:(lia)).
  specialize (Hh i ltac:(lia)). lia.
Qed.

Lemma Push_spec h x : heap h -> heap (Push h x) /\ Push h x ≡ₚ x :: h.
Proof.
  intros Hh. unfold Push. rewrite length_app. simpl. replace (length h + 1 - 1) with (length h) by lia.
  split.
  - apply up_heap; rewrite ?length_app; simpl; try lia.
    + intros i Hi Hne. pose proof (parent_lt i ltac:(lia)).
      rewrite !lookup_total_app_l by lia. apply Hh. lia.
    + intros i Hi Hp. pose proof (parent_lt i ltac:(lia)). lia.
  - rewrite up_Permutation by (rewrite length_app; simpl; lia). by rewrite <-Permutation_cons_append.
Qed.

(** [Pop] returns a minimum and leaves a heap of the others. *)
Lemma Pop_spec h : heap h ->
  match Pop h with
  | None => h = []
  | Some (x, h') => heap h' /\ x :: h' ≡ₚ h /\ h !! 0 = Some x /\ Forall (fun y => (key x <= key y)%Z) h
  end.
Proof.
  intros Hh. destruct h as [|x0 h0]; [done|].
  remember (x0 :: h0) as h eqn:Eh. assert (h !!! 0 = x0) as E0 by by rewrite Eh.
  assert (0 < length h) as Hlen by (rewrite Eh; simpl; lia). set (n := length h - 1).
  assert (n < length h) as Hn by lia.
  assert (Pop h = Some (down n (Swap h 0 n) 0 n !!! n, take n (down n (Swap h 0 n) 0 n))) as ->
    by (unfold n; rewrite Eh; reflexivity).
  assert (forall k, k < n -> 0 < k -> Swap h 0 n !!! k = h !!! k) as Hk
    by (intros k ? ?; swapped Hlen Hn; done || lia).
  assert (heap_upto n (down n (Swap h 0 n) 0 n)) as Hd.
  { apply down_heap; rewrite ?Swap_length; [lia..| |].
    - intros k Hk1 Hk2. pose proof (parent_lt k ltac:(lia)). rewrite !Hk by lia. apply Hh. lia.
    - intros k _ _ Hz. lia. }
  assert (down n (Swap h 0 n) 0 n ≡ₚ h /\ down n (Swap h 0 n) 0 n !!! n = x0) as [Hperm Hroot].
  { destruct (decide (n = 0)) as [Ez|Hnz].
    - rewrite Ez. simpl. split; [by apply Swap_Permutation|]. by swapped Hlen Hlen.
    - destruct (down_keeps n n (Swap h 0 n) 0) as [E1 E2]; rewrite ?Swap_length; [lia..|].
      split; [rewrite E1; by apply Swap_Permutation|]. rewrite E2 by done. by swapped Hlen Hn. }
  set (h' := down n (Swap h 0 n) 0 n) in *. clearbody h'. subst n.
  apply Permutation_length in Hperm as Hl. rewrite Hroot.
  split; [|split; [|split]].
  - intros i. rewrite length_take. intros Hi. pose proof (parent_lt i ltac:(lia)).
    rewrite !lookup_total_take_lt by lia. apply Hd. lia.
  - transitivity h'; [|done].
    assert (h' !! (length h - 1) = Some x0) as Hx
      by (rewrite <-Hroot; apply list_lookup_lookup_total_lt; lia).
    assert (drop (length h - 1) h' = [x0]) as Hdrop
      by (rewrite (drop_S _ _ _ Hx), drop_ge by lia; done).
    rewrite <-(take_drop (length h - 1) h') at 2. rewrite Hdrop. apply Permutation_cons_append.
  - by rewrite Eh.
  - apply Forall_lookup. intros i y Hy. rewrite <-E0. apply lookup_lt_Some in Hy as Hi.
    apply (list_lookup_total_correct h i y) in Hy as <-. by apply heap_root.
Qed.

End heap.
