(* ===== verification/Executor.v ===== *)
(** internal/executor: admission, capacity, the execution queue and retries
    (executor.go, queue.go, retries.go).

    [Exec] is the service: the history half ([History]), the capacity semaphore,
    the active runs, the in-memory side of the queue and the retry scheduler.
    Triggers, queue drains and [Stop] hold the admission slot, so they follow one
    another; executions, the history writer and the API run beside them.  What
    those do while an operation is under way is its list of [EnvStep]s at each
    point where the operation does not hold [mu]. *)

From S2P Require Import Prelude GoRuntime Model StoreDB StoreQueue StoreDefs StoreHistory StoreInv.
From S2P Require Import History Heap.
Open Scope Z_scope.

(** * Options *)

Record QueueOptions := mkQueueOptions {
  qo_Disabled : bool;
  qo_MaxItems : Z;
  qo_MaxPerJob : Z;
  qo_MaxBytes : Z;
  qo_MaxAge : Duration;
  qo_DrainRate : Z;
  qo_MaxPendingRetries : Z;
  qo_MaxFinalizers : Z
}.

Definition withDefaults (o : QueueOptions) : QueueOptions :=
  let MaxItems := if qo_MaxItems o <=? 0 then 100 else qo_MaxItems o in
  mkQueueOptions (qo_Disabled o) MaxItems
    (if qo_MaxPerJob o <=? 0 then Z.min 25 MaxItems else qo_MaxPerJob o)
    (if qo_MaxBytes o <=? 0 then Z.shiftl 256 10 else qo_MaxBytes o)
    (if qo_MaxAge o <=? 0 then 15 * Minute else qo_MaxAge o)
    (if qo_DrainRate o <=? 0 then 5 else qo_DrainRate o)
    (if qo_MaxPendingRetries o <=? 0 then 500 else qo_MaxPendingRetries o)
    (if qo_MaxFinalizers o <=? 0 then 1024 else qo_MaxFinalizers o).

(** * State *)

(** The two causes a run is cancelled with; the first one wins. *)
Inductive StopCause := CauseStopped | CauseShutdown.

Record activeRun := mkActive {
  a_d : Definition_;             (** the definition [execute] runs *)
  a_unrecorded : bool;
  a_cause : option StopCause
}.

#[export] Instance activeRun_eta : Eta activeRun := fun a => mkActive (a_d a) (a_unrecorded a) (a_cause a).

Record retryItem := mkRetry {
  rt_due : Time;
  rt_runID : string;
  rt_name : string;
  rt_defID : Z;
  rt_revision : Z;
  rt_hash : string;
  rt_attempt : Z;
  rt_scheduled : option Time;
  rt_delay : Duration
}.

#[export] Instance retryItem_eta : Eta retryItem := fun i => mkRetry
  (rt_due i) (rt_runID i) (rt_name i) (rt_defID i) (rt_revision i) (rt_hash i)
  (rt_attempt i) (rt_scheduled i) (rt_delay i).

#[export] Instance retryItem_inhabited : Inhabited retryItem :=
  populate (mkRetry 0 "" "" 0 0 "" 0 None 0).

Definition retryEvidenceCap : Z := 64.
Definition retryBatch : nat := 16.
Definition queueExpireBatch : nat := 100.
Definition queueHeadWindow : nat := 64.
Definition queueBackoffMin : Duration := Second.
Definition queueBackoffMax : Duration := 30 * Second.

Record Exec := mkExec {
  x_h : History;
  x_opt : QueueOptions;
  x_bootID : string;
  x_maxRuns : Z;                     (** cap(capacity) *)
  x_used : Z;                        (** len(capacity) *)
  x_active : gmap string activeRun;
  x_byJob : gmap string Z;
  (* queueState *)
  x_depth : Z;
  x_queueStarted : bool;
  x_served : gmap Z Z;
  x_tick : Z;
  x_nextStart : Time;
  x_expired : Z;
  x_rejected : Z;
  x_unavailable : Z;
  x_queueDropped : Z;
  (* retryState *)
  x_heap : list retryItem;
  x_retryStarted : bool;
  x_retriesDropped : Z;
  x_evidence : list retryItem;
  x_lost : Z;
  (* every run handed to [execute], newest first *)
  x_launched : list string;
  (* those that were registered when shutdown had already begun *)
  x_late : list string
}.

#[export] Instance Exec_eta : Eta Exec := fun x => mkExec
  (x_h x) (x_opt x) (x_bootID x) (x_maxRuns x) (x_used x) (x_active x) (x_byJob x)
  (x_depth x) (x_queueStarted x) (x_served x) (x_tick x) (x_nextStart x) (x_expired x)
  (x_rejected x) (x_unavailable x) (x_queueDropped x)
  (x_heap x) (x_retryStarted x) (x_retriesDropped x) (x_evidence x) (x_lost x) (x_launched x) (x_late x).

Definition x_db (x : Exec) : DB := h_db (x_h x).
Definition set_db (x : Exec) (db : DB) : Exec := x <| x_h ::= fun h => h <| h_db := db |> |>.
Definition isClosing (x : Exec) : bool := h_closing (x_h x).

Definition New (db : DB) (bootID : string) (maxRuns : Z) (opt : QueueOptions) : Exec :=
  let opt := withDefaults opt in
  mkExec (mkHistory db ∅ (qo_MaxFinalizers opt) 0 zeroLag false false false zeroTime 0 0 ∅ [])
    opt bootID (if maxRuns <=? 0 then 32 else maxRuns) 0 ∅ ∅
    0 false ∅ 0 zeroTime 0 0 0 0 [] false 0 [] 0 [] [].

Inductive TErr :=
| EShutdown
| EContext                  (** the caller's context ended *)
| EDisabled
| ECapacity                 (** errCapacity *)
| EQueueFull
| EQueueUnavailable
| ENotExist
| EUnavailable              (** a storage failure *)
| EStore (e : StoreError).

Definition errOf (e : option (option StoreError)) : option TErr :=
  match e with
  | None => None
  | Some None => Some EUnavailable
  | Some (Some e) => Some (EStore e)
  end.

Definition Active (x : Exec) (job : string) : Z := default 0 (x_byJob x !! job).

Definition isJob (d : Definition_) : bool := String.eqb (d_Kind d) KindJob.
Definition skips (d : Definition_) : bool := String.eqb (d_OnOverlap d) "skip".

(** [releaseSlot] and the bare receive from the semaphore. *)
Definition releaseSlot (x : Exec) : Exec := x <| x_used ::= Z.pred |>.

(** * Retries *)

Definition addRetry (x : Exec) (it : retryItem) : Exec :=
  if isClosing x then x else
  let x := x <| x_retryStarted := true |> in
  if qo_MaxPendingRetries (x_opt x) <=? Z.of_nat (length (x_heap x)) then
    let x := x <| x_retriesDropped ::= Z.succ |> in
    let x := if retryEvidenceCap <=? Z.of_nat (length (x_evidence x))
             then x <| x_evidence ::= tail |> <| x_lost ::= Z.succ |> else x in
    x <| x_evidence ::= fun l => l ++ [it] |>
  else x <| x_heap ::= fun h => Push rt_due h it |>.

Definition scheduleRetry (x : Exec) (now : Time) (r : Run) (d : Definition_) : Exec :=
  if negb (isJob d) || negb (String.eqb (r_Status r) "failed") || (d_Retries d <? r_Attempt r) then x else
  let delay := wrap64 (d_RetryDelay d * Second) in
  let delay := if delay <=? 0 then 5 * Second else delay in
  addRetry x (mkRetry (Add now delay) (r_ID r) (d_Name d) (d_ID d) (r_Revision r) (r_DefinitionHash r)
                (r_Attempt r) (r_ScheduledFor r) delay).

Definition PendingRetries (x : Exec) : Z := Z.of_nat (length (x_heap x)).
Definition RetriesDropped (x : Exec) : Z := x_retriesDropped x.

(** [complete] and the retry decisions of the completions it announces. *)
Definition completeRun (x : Exec) (now : Time) (fo : nat -> bool * bool) (stopped unrecorded : bool)
    (victim : string) (r : Run) (d : Definition_) (t : terminal) : Exec :=
  let h := complete (x_h x) now fo stopped unrecorded victim r d t in
  let announced := take (length (h_finished h) - length (h_finished (x_h x))) (h_finished h) in
  foldl (fun (x : Exec) (p : Run * bool) => if p.2 then scheduleRetry x now p.1 d else x) (x <| x_h := h |>) announced.

(** * The end of an execution *)

(** The deferred function of [execute]. *)
Definition executeEnd (x : Exec) (id : string) : Exec :=
  match x_active x !! id with
  | None => x
  | Some a =>
      let name := d_Name (a_d a) in
      let x := x <| x_active ::= delete id |> in
      let x := if Active x name <=? 1 then x <| x_byJob ::= delete name |>
               else x <| x_byJob ::= alter Z.pred name |> in
      if isJob (a_d a) then releaseSlot x else x
  end.

Definition cancel (c : StopCause) (a : activeRun) : activeRun :=
  match a_cause a with Some _ => a | None => a <| a_cause := Some c |> end.

Definition stopActive (x : Exec) (id : string) : Exec * bool :=
  match x_active x !! id with
  | None => (x, false)
  | Some a => (x <| x_active ::= insert id (cancel CauseStopped a) |>, true)
  end.

Definition StopForShutdown (x : Exec) (id : string) : Exec * bool :=
  match x_active x !! id with
  | None => (x, false)
  | Some a => (x <| x_active ::= insert id (cancel CauseShutdown a) |>, true)
  end.

Definition BeginShutdown (x : Exec) : Exec := x <| x_h ::= fun h => h <| h_closing := true |> |>.

(** [Shutdown] up to its joins: no admission from here on, and every active run is
    told to stop.  The daemon calls [BeginShutdown] earlier as well. *)
Definition Shutdown (x : Exec) : Exec :=
  (BeginShutdown x) <| x_active ::= fmap (cancel CauseShutdown) |>.

(** * Interleaving *)

Section codec.
Context `{Codec}.

(** The operations of the API and of housekeeping on the store. *)
Definition api_op (op : Op) : bool :=
  match op with
  | OpSaveIdempotency _ _ _ _ | OpDeleteRuns _ _ | OpSetSchedule _ _ _ _ _ | OpPrune _ _
  | OpPut _ _ _ _ _ | OpImport _ _ _ | OpDeleteDefinition _ _ _ | OpSetEnabled _ _ _ | OpSync _ _ => true
  | _ => false
  end.

Inductive EnvStep :=
| XEnd (id : string)
| XComplete (now : Time) (fo : nat -> bool * bool) (stopped unrecorded : bool) (victim : string)
    (r : Run) (d : Definition_) (t : terminal)
| XStart (now : Time) (fails stopped unrecorded : bool) (r : Run) (d : Definition_) (info : startInfo)
| XTake (id : string)
| XRound (now : Time) (os : nat -> WriteOracle) (global : Duration)
| XStop (id : string)
| XStopShutdown (id : string)
| XBeginShutdown
| XShutdown
| XStore (op : Op).

Definition queueLimits (x : Exec) : QueueLimits :=
  let o := x_opt x in mkQueueLimits (qo_MaxItems o) (qo_MaxPerJob o) (qo_MaxBytes o) (qo_MaxAge o).

Definition envStep (x : Exec) (e : EnvStep) : Exec :=
  match e with
  | XEnd id => executeEnd x id
  | XComplete now fo stopped unrecorded victim r d t => completeRun x now fo stopped unrecorded victim r d t
  | XStart now fails stopped unrecorded r d info =>
      x <| x_h := (persistStart (x_h x) now fails stopped unrecorded r d info).1 |>
  | XTake id => x <| x_h := (TakeOutcome (x_h x) id).1 |>
  | XRound now os global => x <| x_h := (finalizeRound (x_h x) now os global).1 |>
  | XStop id => (stopActive x id).1
  | XStopShutdown id => (StopForShutdown x id).1
  | XBeginShutdown => BeginShutdown x
  | XShutdown => Shutdown x
  | XStore op => if api_op op then set_db x (apply_op (queueLimits x) op (x_db x)) else x
  end.

Definition runEnv (x : Exec) (l : list EnvStep) : Exec := foldl envStep x l.

(** What an operation meets: clock readings, fresh identifiers, which store calls
    find the database unavailable, when the caller's context has ended, how the
    wait for the admission slot ends, and the interleaved steps. *)
Record Oracle := mkOracle {
  o_now : nat -> Time;
  o_id : nat -> string;
  o_fails : nat -> bool;
  o_ctx : nat -> bool;
  o_admit : option TErr;
  o_stopped : bool;
  o_fo : nat -> bool * bool;
  o_env : nat -> list EnvStep
}.

(** * Admission *)

Record IdempotencyRequest := mkIdem {
  ir_Principal : string;
  ir_Operation : string;
  ir_Key : string;
  ir_RequestHash : string
}.

Definition with_key (idem : option IdempotencyRequest) : option Idempotency :=
  match idem with
  | Some i => if String.eqb (ir_Key i) "" then None
              else Some (mkIdempotency (ir_Principal i) (ir_Operation i) (ir_Key i) (ir_RequestHash i))
  | None => None
  end.

(** The arguments of a trigger. *)
Record Trig := mkTrig {
  tg_d : Definition_;
  tg_hash : string;
  tg_trigger : string;
  tg_scheduled : option Time;
  tg_idem : option IdempotencyRequest;
  tg_attempt : Z;
  tg_parent : string
}.

Record TrigResult := mkTrigResult {
  tr_run : Run;
  tr_replay : bool;
  tr_err : option TErr
}.

Definition queueable (x : Exec) (trigger : string) : bool :=
  if qo_Disabled (x_opt x) then false
  else existsb (String.eqb trigger) ["schedule"; "manual"; "retry"].

(** The run row a trigger creates. *)
Definition newRun (x : Exec) (g : Trig) (id status reason : string) (now : Time) (ended : option Time)
    (logRef : string) : Run :=
  let d := tg_d g in
  zeroRun <| r_ID := id |> <| r_DefinitionID := d_ID d |> <| r_Job := d_Name d |> <| r_Kind := d_Kind d |>
          <| r_Revision := d_Revision d |> <| r_DefinitionHash := tg_hash g |> <| r_Status := status |>
          <| r_EndReason := reason |> <| r_Trigger := tg_trigger g |> <| r_Attempt := tg_attempt g |>
          <| r_ParentRunID := tg_parent g |> <| r_ScheduledFor := tg_scheduled g |>
          <| r_BootID := x_bootID x |> <| r_QueuedAt := now |> <| r_EndedAt := ended |> <| r_LogRef := logRef |>.

(** A stored run named by a replayed key. *)
Definition replayed (x : Exec) (fails : bool) (id : string) : TrigResult :=
  if fails then mkTrigResult zeroRun true (Some EUnavailable) else
  match Run_ (x_db x) id with
  | Ok r => mkTrigResult r true None
  | Err e => mkTrigResult zeroRun true (Some (EStore e))
  end.

(** The run that already owns a scheduled occurrence. *)
Definition occurrence (x : Exec) (fails : bool) (g : Trig) : option Run :=
  if String.eqb (tg_trigger g) "schedule" then
    match tg_scheduled g with
    | Some at_ => if fails then None else
                  match ScheduledRun (x_db x) (d_ID (tg_d g)) at_ with Ok r => Some r | Err _ => None end
    | None => None
    end
  else None.

Definition recordSkipped (x : Exec) (o : Oracle) (g : Trig) (reason : string) : Exec * TrigResult :=
  let now := o_now o 1 in
  let r := newRun x g (o_id o 1) "skipped" reason now (Some now) "" in
  match with_key (tg_idem g) with
  | Some i =>
      if o_fails o 10 then (x, mkTrigResult r false (Some EUnavailable)) else
      match AdmitIdempotentRun (x_db x) now now r (idem_key i) (id_RequestHash i) with
      | (_, Err e) => (x, mkTrigResult r false (Some (EStore e)))
      | (db, Ok existing) =>
          let x := set_db x db in
          if negb (String.eqb existing "") then (x, replayed x (o_fails o 11) existing)
          else (x <| x_h ::= fun h => notifyFinished h r false |>, mkTrigResult r false None)
      end
  | None =>
      let '(h, (recorded, err)) := admitRow (x_h x) now (o_ctx o 1) (o_fails o 12) r in
      let x := x <| x_h := h |> in
      match err with
      | Some e =>
          match occurrence x (o_fails o 13) g with
          | Some existing => (x, mkTrigResult existing true None)
          | None => (x, mkTrigResult r false (errOf (Some e)))
          end
      | None =>
          let x := if recorded then x
                   else x <| x_h := deferRecord (x_h x) now (o_stopped o) r (tg_d g) |> in
          (x <| x_h ::= fun h => notifyFinished h r false |>, mkTrigResult r false None)
      end
  end.

Definition RecordMissed (x : Exec) (o : Oracle) (d : Definition_) (hash : string) (count : Z) (scheduled : Time)
  : Exec * TrigResult :=
  let now := o_now o 0 in
  let g := mkTrig d hash "schedule" (Some scheduled) None 1 "" in
  let r := (newRun x g (o_id o 0) "missed" "crash_recovery" now (Some now) "") <| r_MissedCount := count |> in
  let '(h, (recorded, err)) := admitRow (x_h x) now (o_ctx o 0) (o_fails o 0) r in
  let x := x <| x_h := h |> in
  match err with
  | Some e =>
      match occurrence x (o_fails o 1) g with
      | Some existing => (x, mkTrigResult existing false None)
      | None => (x, mkTrigResult r false (errOf (Some e)))
      end
  | None =>
      let x := if recorded then x else x <| x_h := deferRecord (x_h x) now (o_stopped o) r d |> in
      (x <| x_h ::= fun h => notifyFinished h r false |>, mkTrigResult r false None)
  end.

(** * Launch *)

Definition refusedStart (now : Time) : terminal := mkTerminal "failed" "start_error" None "" now 0 false false None.

(** [launch]: register the run or refuse it because shutdown began.  The first
    component of the result is [failedStart]. *)
Definition launch (x : Exec) (o : Oracle) (r : Run) (d : Definition_) (recorded : bool)
  : Exec * (option Run * option TErr) :=
  let release x := if isJob d then releaseSlot x else x in
  if isClosing x then
    let x := x <| x_h ::= fun h => dropFinalizer h (r_ID r) |> in
    let x := if recorded then x <| x_h := (finishRun (x_h x) (o_fo o) (r_ID r) (refusedStart (o_now o 9))).1 |>
             else x in
    (release x, (None, Some EShutdown))
  else
    (x <| x_active ::= insert (r_ID r) (mkActive d (negb recorded) None) |>
       <| x_byJob ::= insert (d_Name d) (Active x (d_Name d) + 1) |>
       <| x_launched ::= cons (r_ID r) |>
       <| x_late ::= fun l => if isClosing x then r_ID r :: l else l |>, (None, None)).

(** Announcing a failed start after the admission slot is free again. *)
Definition announceFailed (x : Exec) (now : Time) (failed : option Run) (d : Definition_) : Exec :=
  match failed with
  | Some r => scheduleRetry (x <| x_h ::= fun h => notifyFinished h r false |>) now r d
  | None => x
  end.

(** * Enqueue and trigger *)

(** The end of [enqueue]: the queue row could not be stored. *)
Definition enqueueFailed (x : Exec) (o : Oracle) (g : Trig) (r : Run) (e : TErr) : Exec * TrigResult :=
  if o_ctx o 2 then (x, mkTrigResult r false (Some e)) else
  match occurrence x (o_fails o 22) g with
  | Some existing => (x, mkTrigResult existing true None)
  | None =>
      let x := x <| x_unavailable ::= Z.succ |> in
      if String.eqb (tg_trigger g) "retry" then (x, mkTrigResult zeroRun false (Some ECapacity))
      else (x, mkTrigResult zeroRun false (Some EQueueUnavailable))
  end.

Definition enqueue (x : Exec) (o : Oracle) (g : Trig) : Exec * TrigResult :=
  let d := tg_d g in
  let id := o_id o 0 in
  let r := newRun x g id "queued" "" (o_now o 0) None (String.append "file:" id) in
  if o_fails o 20 then enqueueFailed x o g r EUnavailable else
  match EnqueueRun (x_db x) (o_now o 2) (o_now o 3) r (with_key (tg_idem g)) (queueLimits x) (skips d) with
  | (db, Ok replay) =>
      let x := set_db x db in
      if negb (String.eqb replay "") then (x, replayed x (o_fails o 21) replay)
      else
        let x := x <| x_depth ::= Z.succ |> in
        let x := runEnv x (o_env o 4) in
        (if isClosing x then x else x <| x_queueStarted := true |>, mkTrigResult r false None)
  | (_, Err ErrQueueDuplicate) => recordSkipped x o g "overlap_skip"
  | (_, Err ErrQueueFull) =>
      let x := x <| x_rejected ::= Z.succ |> in
      if String.eqb (tg_trigger g) "retry" then (x, mkTrigResult zeroRun false (Some ECapacity)) else
      if String.eqb (tg_trigger g) "manual" then (x, mkTrigResult zeroRun false (Some EQueueFull)) else
      recordSkipped x o g "queue_full"
  | (_, Err ErrIdempotencyConflict) => (x, mkTrigResult r false (Some (EStore ErrIdempotencyConflict)))
  | (_, Err ErrIdempotencyKeyExists) => (x, mkTrigResult r false (Some (EStore ErrIdempotencyKeyExists)))
  | (_, Err e) => enqueueFailed x o g r (EStore e)
  end.

(** The part of [trigger] after the capacity slot is taken (for a job). *)
Definition admitted (x : Exec) (o : Oracle) (g : Trig) : Exec * TrigResult :=
  let d := tg_d g in
  let release x := if isJob d then releaseSlot x else x in
  let id := o_id o 0 in
  let r := newRun x g id "pending" "" (o_now o 0) None (String.append "file:" id) in
  let x := runEnv x (o_env o 2) in
  let start x recorded :=
    let '(x, (failed, err)) := launch (runEnv x (o_env o 3)) o r d recorded in
    (announceFailed x (o_now o 8) failed d, mkTrigResult r false err) in
  match with_key (tg_idem g) with
  | Some i =>
      if o_fails o 0 then (release x, mkTrigResult r false (Some EUnavailable)) else
      match AdmitIdempotentRun (x_db x) (o_now o 2) (o_now o 3) r (idem_key i) (id_RequestHash i) with
      | (_, Err e) => (release x, mkTrigResult r false (Some (EStore e)))
      | (db, Ok existing) =>
          let x := set_db x db in
          if negb (String.eqb existing "") then (release x, replayed x (o_fails o 1) existing)
          else start x true
      end
  | None =>
      let '(h, (recorded, err)) := admitRow (x_h x) (o_now o 4) (o_ctx o 1) (o_fails o 2) r in
      let x := x <| x_h := h |> in
      match err with
      | Some e =>
          match occurrence x (o_fails o 3) g with
          | Some existing => (release x, mkTrigResult existing true None)
          | None => (release x, mkTrigResult r false (errOf (Some e)))
          end
      | None =>
          if recorded : bool then start x true else
          if isJob d && String.eqb (d_OnHistoryUnavailable d) "skip" then
            let '(h, r) := skipUnrecorded (x_h (release x)) (o_now o 5) (o_stopped o) r d in
            ((release x) <| x_h := h |>, mkTrigResult r false None)
          else
            let h := (x_h x) <| h_deferred ::= Z.succ |> in
            match spool h (o_now o 5) (o_stopped o) r d [UCreate] with
            | (h, true) => start (x <| x_h := h |>) true
            | (h, false) => start (x <| x_h := historyLost h |>) false
            end
      end
  end.

Definition trigger (x : Exec) (o : Oracle) (g : Trig) : Exec * TrigResult :=
  let d := tg_d g in
  let refuse e := (x, mkTrigResult zeroRun false (Some e)) in
  if isClosing x then refuse EShutdown else
  match o_admit o with
  | Some e => refuse e
  | None =>
      let x := runEnv x (o_env o 0) in
      let refuse e := (x, mkTrigResult zeroRun false (Some e)) in
      if isClosing x then refuse EShutdown else
      if o_ctx o 0 then refuse EContext else
      if negb (IsEnabled d) then refuse EDisabled else
      if isJob d && skips d && (0 <? Active x (d_Name d)) then recordSkipped x o g "overlap_skip" else
      let x := runEnv x (o_env o 1) in
      if isJob d then
        if queueable x (tg_trigger g) && (0 <? x_depth x) then enqueue x o g else
        if x_used x <? x_maxRuns x then admitted (x <| x_used ::= Z.succ |>) o g else
        if queueable x (tg_trigger g) then enqueue x o g else
        if String.eqb (tg_trigger g) "retry" then (x, mkTrigResult zeroRun false (Some ECapacity)) else
        recordSkipped x o g "queue_full"
      else admitted x o g
  end.

Definition Trigger (x : Exec) (o : Oracle) (d : Definition_) (hash trig : string) (scheduled : option Time) :=
  trigger x o (mkTrig d hash trig scheduled None 1 "").

Definition TriggerIdempotent (x : Exec) (o : Oracle) (d : Definition_) (hash trig : string)
    (scheduled : option Time) (idem : IdempotencyRequest) :=
  trigger x o (mkTrig d hash trig scheduled (Some idem) 1 "").

End codec.
