(* ===== verification/ExecLoops.v ===== *)
(** internal/executor: the loops beside admission (queue.go, retries.go) and the
    service as a state machine.

    [drainStep] starts at most one queued run; [retryStep] records dropped retries
    and triggers the due ones.  [execStep] is one operation of the service. *)

From S2P Require Import Prelude GoRuntime Model StoreDB StoreQueue StoreDefs StoreHistory StoreInv.
From S2P Require Import History Heap Executor.
Open Scope Z_scope.

Section codec.
Context `{Codec}.

(** * The execution queue *)

Definition ResumeQueue (x : Exec) (fails : bool) : Exec * option TErr :=
  if fails then (x, Some EUnavailable) else
  let depth := qs_Depth (QueueStats_ (x_db x)) in
  let x := x <| x_depth := depth |> in
  (if (0 <? depth) && negb (isClosing x) then x <| x_queueStarted := true |> else x, None).

Definition untilExpiry (x : Exec) (fails : bool) (now : Time) (base : Duration) : Result TErr Duration :=
  if fails then Err EUnavailable else
  match NextQueueExpiry (x_db x) with
  | None => Ok base
  | Some at_ =>
      let until := Z.max (Sub at_ now) Millisecond in
      Ok (if (base <? 0) || (until <? base) then until else base)
  end.

Definition servedAt (x : Exec) (definitionID : Z) : Z := default 0 (x_served x !! definitionID).

(** The head of the least recently served definition; ties go to the oldest. *)
Definition leastServed (x : Exec) (heads : list QueueRow) : option QueueRow :=
  foldl (fun best h => match best with
                       | None => Some h
                       | Some b => if servedAt x (q_definition_id h) <? servedAt x (q_definition_id b)
                                   then Some h else Some b
                       end) None heads.

Definition nextItem (x : Exec) (fails : bool) : Result TErr (option QueueRow) :=
  if fails then Err EUnavailable else Ok (leastServed x (QueueHeads (x_db x) queueHeadWindow)).

(** [drop] of [startQueued]. *)
Definition dropItem (x : Exec) (o : Oracle) (run : Run) (reason : string) (notify : option Definition_)
  : Exec * Result TErr bool :=
  if o_fails o 33 then (x, Err EUnavailable) else
  let now := o_now o 13 in
  let '(db, res) := DropQueued (x_db x) (r_ID run) reason now in
  let notify := match res with Ok _ => notify | Err _ => None end in
  let x := (set_db x db) <| x_queueDropped ::= Z.succ |> in
  (match notify with
   | Some _ => x <| x_h ::= fun h => notifyFinished h
                   (run <| r_Status := "skipped" |> <| r_EndReason := reason |> <| r_EndedAt := Some now |>) false |>
   | None => x
   end, Ok false).

(** [startQueued]; the result says whether the run was started, with the failed
    start of [launch] and the definition it was launched with. *)
Definition startQueued (x : Exec) (o : Oracle) (item : QueueRow)
  : Exec * Result TErr (option (Definition_ * option Run)) :=
  let ended (res : Exec * Result TErr bool) :=
    match res with
    | (x, Err e) => (x, Err e)
    | (x, Ok _) => (x, Ok None)
    end in
  if o_fails o 30 then (x, Err EUnavailable) else
  match Run_ (x_db x) (q_run_id item) with
  | Err e => (x, Err (EStore e))
  | Ok run =>
      let x := runEnv x (o_env o 13) in
      if negb (String.eqb (r_Status run) "queued") then ended (dropItem x o run "queue_inconsistent" None) else
      let current := if o_fails o 31 then Err EUnavailable else
                     match Definition_of (x_db x) (r_Job run) with
                     | Ok c => Ok c
                     | Err e => Err (EStore e)
                     end in
      let x := runEnv x (o_env o 14) in
      if q_expires_us item <=? UnixMicro_of (o_now o 12) then
        let notify := match current with
                      | Ok (c, _) => if (d_ID c =? q_definition_id item) && IsEnabled c then Some c else None
                      | Err _ => None
                      end in
        ended (dropItem (x <| x_expired ::= Z.succ |>) o run "queue_expired" notify)
      else
      match current with
      | Err (EStore ErrNoRows) => ended (dropItem x o run "definition_removed" None)
      | Err e => (x, Err e)
      | Ok (c, hash) =>
          if negb (d_ID c =? q_definition_id item) || negb (isJob c)
          then ended (dropItem x o run "definition_removed" None) else
          if negb (IsEnabled c) then ended (dropItem x o run "definition_disabled" None) else
          if String.eqb (r_Trigger run) "retry" && (d_Retries c <? r_Attempt run - 1)
          then ended (dropItem x o run "retry_budget" (Some c)) else
          if skips c && (0 <? Active x (d_Name c)) then ended (dropItem x o run "overlap_skip" (Some c)) else
          let x := runEnv x (o_env o 15) in
          if isClosing x then (x, Err EShutdown) else
          if o_fails o 32 then (x, Err EUnavailable) else
          match DequeueRun (x_db x) (r_ID run) (d_Revision c) hash (x_bootID x) with
          | (_, Err _) => (x, Ok None)
          | (db, Ok _) =>
              let run := run <| r_Status := "pending" |> <| r_Revision := d_Revision c |>
                             <| r_DefinitionHash := hash |> <| r_BootID := x_bootID x |> in
              let '(x, (failed, _)) := launch (runEnv (set_db x db) (o_env o 16)) o run c true in
              (x, Ok (Some (c, failed)))
          end
      end
  end.

(** The part of [drainStep] that holds a capacity slot and the admission slot. *)
Definition drainHeld (x : Exec) (o : Oracle) : Exec * Result TErr Duration :=
  match nextItem x (o_fails o 26) with
  | Err e => (releaseSlot x, Err e)
  | Ok None =>
      if o_fails o 27 then (releaseSlot x, Err EUnavailable)
      else (releaseSlot (x <| x_depth := qs_Depth (QueueStats_ (x_db x)) |>), Ok 0)
  | Ok (Some item) =>
      let x := x <| x_tick ::= Z.succ |> in
      let x := x <| x_served ::= insert (q_definition_id item) (x_tick x) |> in
      match startQueued x o item with
      | (x, Err e) => (releaseSlot x, Err e)
      | (x, Ok started) =>
          let x := x <| x_depth ::= Z.pred |> in
          let x := if 4096 <? Z.of_nat (size (x_served x)) then x <| x_served := ∅ |> else x in
          match started with
          | Some (c, failed) =>
              (announceFailed (x <| x_nextStart := Add (o_now o 14) (Second ÷ qo_DrainRate (x_opt x)) |>)
                 (o_now o 15) failed c, Ok 0)
          | None => (releaseSlot x, Ok 0)
          end
      end
  end.

(** [drainStep] up to the point where it holds a capacity slot and the admission
    slot, or its result when it does not get there. *)
Definition drainReady (x : Exec) (o : Oracle) : Exec * option (Result TErr Duration) :=
  if x_depth x <=? 0 then (x, Some (Ok (-1))) else
  if o_fails o 24 then (x, Some (Err EUnavailable)) else
  let '(db, ids) := ExpireQueued (x_db x) (o_now o 10) queueExpireBatch in
  let n := length ids in
  let x := (set_db x db) <| x_depth ::= fun k => k - Z.of_nat n |> <| x_expired ::= fun k => k + Z.of_nat n |> in
  if (n =? queueExpireBatch)%nat then (x, Some (Ok 0)) else
  let x := runEnv x (o_env o 10) in
  if x_depth x <=? 0 then (x, Some (Ok (-1))) else
  let wait := Sub (x_nextStart x) (o_now o 11) in
  if 0 <? wait then (x, Some (untilExpiry x (o_fails o 25) (o_now o 11) wait)) else
  if negb (x_used x <? x_maxRuns x) then (x, Some (untilExpiry x (o_fails o 25) (o_now o 11) (-1))) else
  let x := runEnv (x <| x_used ::= Z.succ |>) (o_env o 11) in
  match o_admit o with
  | Some _ => (releaseSlot x, Some (Ok (-1)))
  | None =>
      let x := runEnv x (o_env o 12) in
      if isClosing x then (releaseSlot x, Some (Ok (-1))) else (x, None)
  end.

Definition drainStep (x : Exec) (o : Oracle) : Exec * Result TErr Duration :=
  match drainReady x o with
  | (x, Some res) => (x, res)
  | (x, None) => drainHeld x o
  end.

(** One round of [queueLoop]: the sleep before the next one (none at 0, until
    woken below) and the next backoff; [None] ends the loop. *)
Definition queueRound (x : Exec) (o : Oracle) (backoff : Duration) : Exec * option (Duration * Duration) :=
  if isClosing x then (x, None) else
  match drainStep x o with
  | (x, Ok next) => (x, Some (next, queueBackoffMin))
  | (x, Err _) => if isClosing x then (x, None) else (x, Some (backoff, Z.min (backoff * 2) queueBackoffMax))
  end.

(** [Stop]: an active run is told to stop, a queued one is cancelled. *)
Definition Stop (x : Exec) (o : Oracle) (id : string) : Exec * option TErr :=
  match stopActive x id with
  | (x, true) => (x, None)
  | (x, false) =>
      match o_admit o with
      | Some _ => (x, Some ENotExist)
      | None =>
          let x := runEnv x (o_env o 0) in
          match stopActive x id with
          | (x, true) => (x, None)
          | (x, false) =>
              if o_fails o 0 then (x, Some ENotExist) else
              match CancelQueued (x_db x) id (o_now o 0) with
              | (db, Ok _) => ((set_db x db) <| x_depth ::= Z.pred |>, None)
              | (db, Err _) => (set_db x db, Some ENotExist)
              end
          end
      end
  end.

(** * The retry scheduler *)

(** The skipped/retry_dropped row of a dropped retry. *)
Definition evidenceRun (x : Exec) (id : string) (now : Time) (it : retryItem) : Run :=
  zeroRun <| r_ID := id |> <| r_DefinitionID := rt_defID it |> <| r_Job := rt_name it |>
          <| r_Kind := KindJob |> <| r_Revision := rt_revision it |> <| r_DefinitionHash := rt_hash it |>
          <| r_Status := "skipped" |> <| r_EndReason := "retry_dropped" |> <| r_Trigger := "retry" |>
          <| r_Attempt := rt_attempt it + 1 |> <| r_ParentRunID := rt_runID it |>
          <| r_ScheduledFor := rt_scheduled it |> <| r_BootID := x_bootID x |> <| r_QueuedAt := now |>
          <| r_EndedAt := Some now |>.

(** Returns how many rows were written as well. *)
Fixpoint recordEvidence (x : Exec) (os : nat -> Oracle) (i : nat) (items : list retryItem) (written : Z)
  : Exec * Z :=
  match items with
  | [] => (x, written)
  | it :: rest =>
      let o := os i in
      let x := runEnv x (o_env o 0) in
      if isClosing x then (x, written) else
      let lose x := (x <| x_lost ::= fun k => k + Z.of_nat (length items) |>, written) in
      if o_fails o 0 then lose x else
      match CreateRun (x_db x) (evidenceRun x (o_id o 0) (o_now o 0) it) with
      | (db, Ok _) => recordEvidence (set_db x db) os (S i) rest (written + 1)
      | (_, Err _) => lose x
      end
  end.

Definition persistRetryEvidence (x : Exec) (os : nat -> Oracle) : Exec * Z :=
  recordEvidence (x <| x_evidence := [] |>) os 0 (x_evidence x) 0.

(** The retries due at [now], at most [n], earliest first. *)
Fixpoint popDue (n : nat) (now : Time) (h : list retryItem) : list retryItem * list retryItem :=
  match n with
  | O => ([], h)
  | S n =>
      match h !! 0%nat with
      | Some top =>
          if After (rt_due top) now then ([], h) else
          match Pop rt_due h with
          | Some (it, h) => let '(due, h) := popDue n now h in (it :: due, h)
          | None => ([], h)
          end
      | None => ([], h)
      end
  end.

Definition retryNow (x : Exec) (o : Oracle) (it : retryItem) : Exec :=
  let current := if o_fails o 40 then Err EUnavailable else
                 match Definition_of (x_db x) (rt_name it) with
                 | Ok c => Ok c
                 | Err e => Err (EStore e)
                 end in
  match current with
  | Err (EStore ErrNoRows) => x
  | Err _ =>
      if isClosing x then x
      else addRetry x (it <| rt_due := Add (o_now o 20) (Z.max (rt_delay it) Second) |>)
  | Ok (c, hash) =>
      if negb (d_ID c =? rt_defID it) || negb (isJob c) || negb (IsEnabled c) || (d_Retries c <? rt_attempt it)
      then x else
      match trigger x o (mkTrig c hash "retry" (rt_scheduled it) None (rt_attempt it + 1) (rt_runID it)) with
      | (x, res) =>
          match tr_err res with
          | Some ECapacity => addRetry x (it <| rt_due := Add (o_now o 21) (rt_delay it) |>)
          | _ => x
          end
      end
  end.

Fixpoint retryAll (x : Exec) (os : nat -> Oracle) (i : nat) (due : list retryItem) : Exec :=
  match due with
  | [] => x
  | it :: due =>
      let x := runEnv x (o_env (os i) 20) in
      if isClosing x then x else retryAll (retryNow x (os i) it) os (S i) due
  end.

(** [evidence] and [os] are the oracles of the evidence writes and of the
    triggers. *)
Definition retryStep (x : Exec) (evidence os : nat -> Oracle) (now : Time) : Exec :=
  let x := (persistRetryEvidence x evidence).1 in
  let '(due, h) := popDue retryBatch now (x_heap x) in
  retryAll (x <| x_heap := h |>) os 0 due.

(** How long [retryLoop] sleeps: not at all while evidence waits or an item is due,
    forever when the heap is empty. *)
Definition retryWait (x : Exec) (now : Time) : Duration :=
  match x_evidence x, x_heap x with
  | _ :: _, _ => 0
  | [], [] => -1
  | [], it :: _ => Z.max (Sub (rt_due it) now) 0
  end.

(** * Diagnostics *)

Record QueueDiagnostics := mkQueueDiagnostics {
  qd_Enabled : bool;
  qd_Depth : Z;
  qd_Bytes : Z;
  qd_OldestAge : Duration;
  qd_Expired : Z;
  qd_Rejected : Z;
  qd_Unavailable : Z;
  qd_Dropped : Z
}.

Record Diagnostics := mkDiagnostics {
  dg_Queue : QueueDiagnostics;
  dg_PendingRetries : Z;
  dg_MaxPendingRetries : Z;
  dg_RetriesDropped : Z;
  dg_Finalizers : Z;
  dg_InlineFinalizers : Z;
  dg_MaxFinalizers : Z;
  dg_StorageDegraded : bool;
  dg_HistoryDeferred : Z;
  dg_HistoryDropped : Z
}.

(** [fails]: the read of the queue statistics. *)
Definition Diagnostics_ (x : Exec) (now : Time) (fails : bool) : Diagnostics :=
  let st := QueueStats_ (x_db x) in
  let read := (negb (qo_Disabled (x_opt x)) || (0 <? x_depth x)) && negb fails in
  let q := mkQueueDiagnostics (negb (qo_Disabled (x_opt x)))
             (if read then qs_Depth st else x_depth x) (if read then qs_Bytes st else 0)
             (if read && (0 <? qs_OldestUS st) then Sub now (of_UnixMicro (qs_OldestUS st)) else 0)
             (x_expired x) (x_rejected x) (x_unavailable x) (x_queueDropped x) in
  let '(background, inline) := Finalizers (x_h x) in
  mkDiagnostics q (PendingRetries x) (qo_MaxPendingRetries (x_opt x)) (RetriesDropped x) background inline
    (qo_MaxFinalizers (x_opt x)) (h_down (x_h x)) (h_deferred (x_h x)) (h_dropped (x_h x)).

(** * The service *)

Inductive Action :=
| ATrigger (o : Oracle) (d : Definition_) (hash trig : string) (scheduled : option Time)
    (idem : option IdempotencyRequest)
| AMissed (o : Oracle) (d : Definition_) (hash : string) (count : Z) (scheduled : Time)
| ADrain (o : Oracle)
| ARetry (evidence os : nat -> Oracle) (now : Time)
| AStop (o : Oracle) (id : string)
| AResume (fails : bool)
| AEnv (e : EnvStep).

Definition execStep (x : Exec) (a : Action) : Exec :=
  match a with
  | ATrigger o d hash trig scheduled idem => (trigger x o (mkTrig d hash trig scheduled idem 1 "")).1
  | AMissed o d hash count scheduled => (RecordMissed x o d hash count scheduled).1
  | ADrain o => (drainStep x o).1
  | ARetry evidence os now => retryStep x evidence os now
  | AStop o id => (Stop x o id).1
  | AResume fails => (ResumeQueue x fails).1
  | AEnv e => envStep x e
  end.

End codec.
