(* ===== verification/ExecInv.v ===== *)
(** Invariants of the executor service: capacity, overlap, single launch and the
    queue mirror, over every sequence of operations. *)

From S2P Require Import Prelude GoRuntime Model StoreDB StoreQueue StoreDefs StoreHistory StoreInv.
From S2P Require Import History HistoryRel Heap Executor ExecLoops.
Open Scope Z_scope.

(** * Counting active runs *)

Definition countA (p : activeRun -> bool) (m : gmap string activeRun) : Z :=
  Z.of_nat (size (filter (fun ka : string * activeRun => p ka.2 = true) m)).

Definition one (b : bool) : Z := if b then 1 else 0.

Lemma countA_nonneg p m : 0 <= countA p m.
Proof. unfold countA. lia. Qed.

Lemma countA_insert p m id a :
  m !! id = None -> countA p (<[id := a]> m) = countA p m + one (p a).
Proof.
  intros Hn. unfold countA, one. destruct (p a) eqn:E.
  - rewrite map_filter_insert_True by done. rewrite map_size_insert_None; [lia|].
    apply map_lookup_filter_None. by left.
  - rewrite map_filter_insert_False, delete_id by (simpl; congruence || done). lia.
Qed.

Lemma countA_delete p m id a :
  m !! id = Some a -> countA p (delete id m) = countA p m - one (p a).
Proof.
  intros Hs. rewrite <-(insert_delete_id m id a Hs) at 2.
  rewrite countA_insert by apply lookup_delete_eq. lia.
Qed.

(** Only the definitions of the runs matter. *)
Lemma countA_definitions (q : Definition_ -> bool) m m' :
  a_d <$> m' = a_d <$> m -> countA (fun a => q (a_d a)) m' = countA (fun a => q (a_d a)) m.
Proof.
  assert (forall m : gmap string activeRun, countA (fun a => q (a_d a)) m =
            Z.of_nat (size (filter (fun kd : string * Definition_ => q kd.2 = true) (a_d <$> m)))) as Hc.
  { intros m0. unfold countA. rewrite map_filter_fmap, map_size_fmap. done. }
  intros E. by rewrite !Hc, E.
Qed.

Lemma countA_pos p m id a : m !! id = Some a -> p a = true -> 0 < countA p m.
Proof.
  intros Hs Hp. pose proof (countA_delete p m id a Hs) as E. rewrite Hp in E. simpl in E.
  pose proof (countA_nonneg p (delete id m)). lia.
Qed.

Definition named (n : string) (a : activeRun) : bool := String.eqb (d_Name (a_d a)) n.
Definition jobs (m : gmap string activeRun) : Z := countA (fun a => isJob (a_d a)) m.

(** * The invariant *)

(** A job run admitted under the overlap policy "skip". *)
Definition exclusive (a : activeRun) : bool := isJob (a_d a) && skips (a_d a).

(** The database the service started with. *)
Class Origin := origin : DB.

(** [held] is the number of capacity slots taken by operations under way. *)
Record exec_inv `{Codec} `{Origin} (held : Z) (x : Exec) : Prop := {
  xi_used : x_used x = held + jobs (x_active x);
  xi_cap : x_used x <= x_maxRuns x;
  xi_byJob : forall n, Active x n = countA (named n) (x_active x);
  xi_overlap : forall id1 id2 a1 a2,
    x_active x !! id1 = Some a1 -> x_active x !! id2 = Some a2 -> exclusive a1 = true -> exclusive a2 = true ->
    d_Name (a_d a1) = d_Name (a_d a2) -> id1 = id2;
  xi_launched : NoDup (x_launched x);
  xi_active : forall id, is_Some (x_active x !! id) -> id ∈ x_launched x;
  xi_queue : forall id, id ∈ x_launched x -> id ∉ queue_run_ids (x_db x);
  xi_items : items_ok (x_h x);
  xi_db : wf (x_db x) /\ bounded (queueLimits x) (x_db x);
  xi_steps : rtc (step (queueLimits x)) origin (x_db x);
  xi_late : x_late x = []
}.

(** The queue mirror never reports less than what is queued. *)
Definition mirrors (x : Exec) : Prop := queue_depth (x_db x) <= x_depth x.

(** What the callers of the service guarantee (executions complete with a terminal
    status, and the runs they report are not queued). *)
Definition envStep_ok (e : EnvStep) : Prop :=
  match e with
  | XComplete _ _ _ _ _ r _ t => r_Status r <> "queued" /\ Terminal (t_status t) = true
  | XStart _ _ _ _ r _ _ => r_Status r <> "queued"
  | XRound _ os _ => forall i, oracle_ok (os i)
  | _ => True
  end.

Section inv.
Context `{Codec} `{Origin}.
Implicit Types x : Exec.

(** ** Interleaved steps *)

(** What every interleaved step does: runs only leave, nothing is launched or
    queued, shutdown is final, and held slots stay held. *)
Record calm (x x' : Exec) : Prop := {
  ca_inv : forall held, exec_inv held x -> exec_inv held x';
  ca_active : forall id a', x_active x' !! id = Some a' -> exists a, x_active x !! id = Some a /\ a_d a = a_d a';
  ca_launched : x_launched x' = x_launched x;
  ca_queue : items_ok (x_h x) -> sublist (exec_queue (x_db x')) (exec_queue (x_db x));
  ca_depth : x_depth x' = x_depth x;
  ca_closing : items_ok (x_h x) -> isClosing x = true -> isClosing x' = true;
  ca_opt : x_opt x' = x_opt x /\ x_maxRuns x' = x_maxRuns x /\ x_bootID x' = x_bootID x;
  ca_items : items_ok (x_h x) -> items_ok (x_h x')
}.

#[export] Instance calm_preorder : PreOrder calm.
Proof.
  split.
  - intros x. split; eauto.
  - intros a b c Hab Hbc. split.
    + intros held Ha. by apply Hbc, Hab.
    + intros id a' Hc. destruct (ca_active _ _ Hbc _ _ Hc) as (b' & Hb & E).
      destruct (ca_active _ _ Hab _ _ Hb) as (a0 & Ha & E'). exists a0. split; [done|congruence].
    + by rewrite (ca_launched _ _ Hbc), (ca_launched _ _ Hab).
    + intros Hi. etrans; [by apply (ca_queue _ _ Hbc), Hab|by apply (ca_queue _ _ Hab)].
    + by rewrite (ca_depth _ _ Hbc), (ca_depth _ _ Hab).
    + intros Hi Hc. apply (ca_closing _ _ Hbc); [by apply (ca_items _ _ Hab)|by apply (ca_closing _ _ Hab)].
    + destruct (ca_opt _ _ Hab) as (<- & <- & <-). apply Hbc.
    + intros Hi. by apply (ca_items _ _ Hbc), (ca_items _ _ Hab).
Qed.

Lemma queueLimits_eq x x' : x_opt x' = x_opt x -> queueLimits x' = queueLimits x.
Proof. unfold queueLimits. by intros ->. Qed.

Lemma Inv_queueLimits x x' db :
  x_opt x' = x_opt x -> wf db /\ bounded (queueLimits x) db -> wf db /\ bounded (queueLimits x') db.
Proof. intros E. by rewrite (queueLimits_eq _ _ E). Qed.

(** History evolves, the rest stays. *)
Lemma calm_history x h' : evolves (queueLimits x) (x_h x) h' -> calm x (x <| x_h := h' |>).
Proof.
  intros He. split; try done.
  - intros held []. destruct (He xi_items0) as [Hi Hd Hq _]. split; try done.
    + intros id Hid. unfold x_db, queue_run_ids in *. simpl. rewrite Hq. by apply xi_queue0.
    + unfold x_db in *. simpl. eapply steps_Inv; [exact Hd|exact xi_db0].
    + unfold x_db in *. simpl. etrans; [exact xi_steps0|exact Hd].
  - intros id a' Ha. by exists a'.
  - intros Hi. unfold x_db. simpl. by rewrite (ev_queue _ _ _ (He Hi)).
  - intros Hi. apply (ev_closing _ _ _ (He Hi)).
  - intros Hi. apply (ev_items _ _ _ (He Hi)).
Qed.

(** The fields of the invariant stay. *)
Definition same_core (x x' : Exec) : Prop :=
  x_h x' = x_h x /\ x_active x' = x_active x /\ x_byJob x' = x_byJob x /\ x_used x' = x_used x /\
  x_launched x' = x_launched x /\ x_depth x' = x_depth x /\ x_opt x' = x_opt x /\
  x_maxRuns x' = x_maxRuns x /\ x_bootID x' = x_bootID x /\ x_late x' = x_late x.

Lemma calm_core x x' : same_core x x' -> calm x x'.
Proof.
  intros (Eh & Ea & Eb & Eu & El & Ed & Eo & Em & Ei & Et). split; try congruence.
  - intros held []. split; unfold x_db, Active in *;
      rewrite ?Eh, ?Ea, ?Eb, ?Eu, ?El, ?Em, ?Et, ?(queueLimits_eq _ _ Eo); done.
  - intros id a'. rewrite Ea. by exists a'.
  - intros _. unfold x_db. by rewrite Eh.
  - intros _. unfold isClosing. by rewrite Eh.
  - done.
  - by rewrite Eh.
Qed.

Lemma addRetry_core x it : same_core x (addRetry x it).
Proof. unfold addRetry. by branches. Qed.

Lemma scheduleRetry_core x now r d : same_core x (scheduleRetry x now r d).
Proof. unfold scheduleRetry. destruct (_ || _); [done|]. apply addRetry_core. Qed.

Lemma completeRun_calm x now fo stopped unrecorded victim r d t :
  r_Status r <> "queued" -> Terminal (t_status t) = true ->
  calm x (completeRun x now fo stopped unrecorded victim r d t).
Proof.
  intros Hr Ht. unfold completeRun.
  pose proof (complete_evolves (queueLimits x) (x_h x) now fo stopped unrecorded victim r d t Hr Ht) as He.
  set (h := complete _ _ _ _ _ _ _ _ _) in *. clearbody h.
  transitivity (x <| x_h := h |>); [by apply calm_history|].
  set (x1 := x <| x_h := h |>). clearbody x1. generalize (take (length (h_finished h) - length (h_finished (x_h x))) (h_finished h)).
  intros l. revert x1. induction l as [|[r1 b] l IH]; intros x1; [done|]. simpl. etrans; [|apply IH].
  destruct b; [|done]. apply calm_core, scheduleRetry_core.
Qed.

(** Runs may stop being active; the bookkeeping follows. *)
Lemma executeEnd_calm x id : calm x (executeEnd x id).
Proof.
  unfold executeEnd. destruct (x_active x !! id) as [a|] eqn:Ha; [|done].
  set (x1 := if Active _ _ <=? 1 then _ else _).
  assert (x_h x1 = x_h x /\ x_active x1 = delete id (x_active x) /\ x_used x1 = x_used x /\
    x_launched x1 = x_launched x /\ x_depth x1 = x_depth x /\ x_opt x1 = x_opt x /\ x_maxRuns x1 = x_maxRuns x /\
    x_bootID x1 = x_bootID x /\ x_late x1 = x_late x) as (Eh & Ea & Eu & El & Ed & Eo & Em & Ei & Et)
    by (unfold x1; by destruct (_ <=? _)).
  assert (forall n, Active x n = countA (named n) (x_active x) ->
                    Active x1 n = countA (named n) (delete id (x_active x))) as Hby.
  { intros n Hn. rewrite (countA_delete _ _ _ _ Ha), <-Hn. clear Eh Ea Eu El Ed Eo Em Ei Et.
    unfold x1, Active, one in *. destruct (named n a) eqn:En.
    - pose proof (countA_pos (named n) _ _ _ Ha En). apply String.eqb_eq in En. rewrite En. simpl.
      destruct (Z.leb_spec (default 0 (x_byJob x !! n)) 1); simpl.
      + rewrite lookup_delete_eq. simpl. lia.
      + rewrite lookup_alter_eq. destruct (x_byJob x !! n); simpl in *; lia.
    - apply String.eqb_neq in En. simpl.
      destruct (_ <=? _); simpl; [rewrite lookup_delete_ne by done|rewrite lookup_alter_ne by done]; lia. }
  clearbody x1.
  assert (forall x2, (x2 = x1 \/ x2 = releaseSlot x1) ->
     x_h x2 = x_h x /\ x_active x2 = delete id (x_active x) /\ x_byJob x2 = x_byJob x1 /\
     x_launched x2 = x_launched x /\ x_depth x2 = x_depth x /\ x_opt x2 = x_opt x /\ x_maxRuns x2 = x_maxRuns x /\
     x_bootID x2 = x_bootID x /\ x_late x2 = x_late x) as Hx2.
  { intros x2 [->| ->]; simpl; split_and!; done. }
  set (x2 := if isJob (a_d a) then releaseSlot x1 else x1).
  assert (x_used x2 = x_used x - one (isJob (a_d a))) as Eu2.
  { unfold x2, one. destruct (isJob _); simpl; lia. }
  destruct (Hx2 x2) as (Eh2 & Ea2 & Eb2 & El2 & Ed2 & Eo2 & Em2 & Ei2 & Et2); [unfold x2; destruct (isJob _); auto|].
  clearbody x2. clear Hx2. split; try congruence.
  - intros held []. unfold jobs in *. split; unfold x_db, jobs in *; rewrite ?Eh2, ?Ea2, ?El2, ?Em2, ?Eu2, ?Et2, ?(queueLimits_eq _ _ Eo2); try done.
    + rewrite (countA_delete _ _ _ _ Ha). lia.
    + unfold one. destruct (isJob _); lia.
    + intros n. unfold Active in *. rewrite Eb2. by apply Hby.
    + intros id1 id2 a1 a2 [_ H1]%lookup_delete_Some [_ H2]%lookup_delete_Some. eauto.
    + intros id1 [a1 [_ H1]%lookup_delete_Some]. apply xi_active0. by eexists.
  - intros id' a'. rewrite Ea2. intros [_ Hl]%lookup_delete_Some. by exists a'.
  - intros _. unfold x_db. by rewrite Eh2.
  - intros _. unfold isClosing. by rewrite Eh2.
  - done.
  - by rewrite Eh2.
Qed.

(** Cancelling runs changes no definition. *)
Lemma calm_cancel x m' : a_d <$> m' = a_d <$> x_active x -> calm x (x <| x_active := m' |>).
Proof.
  intros Em.
  assert (forall id a', m' !! id = Some a' -> exists a, x_active x !! id = Some a /\ a_d a = a_d a') as Hl.
  { intros id a' Ha. assert ((a_d <$> m') !! id = Some (a_d a')) as Hx by by rewrite lookup_fmap, Ha.
    rewrite Em, lookup_fmap in Hx. destruct (x_active x !! id) as [a|]; [|done]. exists a.
    by injection Hx as ->. }
  split; try done.
  intros held []. split; try done; simpl.
  - unfold jobs in *. by rewrite (countA_definitions isJob _ _ Em).
  - intros n. etrans; [apply xi_byJob0|]. symmetry. apply (countA_definitions (fun d => String.eqb (d_Name d) n) _ _ Em).
  - intros id1 id2 a1 a2 (b1 & H1 & E1)%Hl (b2 & H2 & E2)%Hl. unfold exclusive. rewrite <-E1, <-E2. eauto.
  - intros id [a' (b & Hb & _)%Hl]. apply xi_active0. by eexists.
Qed.

Lemma cancel_d c a : a_d (cancel c a) = a_d a.
Proof. unfold cancel. by destruct (a_cause a). Qed.

Lemma insert_cancel c (m : gmap string activeRun) id a : m !! id = Some a -> a_d <$> <[id := cancel c a]> m = a_d <$> m.
Proof.
  intros Ha. rewrite fmap_insert, cancel_d. apply insert_id. by rewrite lookup_fmap, Ha.
Qed.

Lemma stopActive_calm x id : calm x (stopActive x id).1.
Proof.
  unfold stopActive. destruct (x_active x !! id) as [a|] eqn:Ha; [|done].
  by apply (calm_cancel x), insert_cancel.
Qed.

Lemma StopForShutdown_calm x id : calm x (StopForShutdown x id).1.
Proof.
  unfold StopForShutdown. destruct (x_active x !! id) as [a|] eqn:Ha; [|done].
  by apply (calm_cancel x), insert_cancel.
Qed.

Lemma Shutdown_calm x : calm x (Shutdown x).
Proof.
  transitivity (BeginShutdown x).
  - apply (calm_history x). by apply evolves_spool.
  - apply (calm_cancel (BeginShutdown x)). rewrite <-map_fmap_compose. apply map_fmap_ext.
    intros i a _. apply cancel_d.
Qed.

(** The API only removes queue rows. *)
Lemma filter_sublist {A} (p : A -> bool) l : sublist (List.filter p l) l.
Proof. induction l as [|a l IH]; simpl; [constructor|]. destruct (p a); by constructor. Qed.

Lemma tables_queue db db' : same_tables db db' -> sublist (exec_queue db') (exec_queue db).
Proof. intros (_ & -> & _). done. Qed.

Lemma drop_sublist db tx (p : QueueRow -> bool) :
  exec_queue tx = exec_queue db -> sublist (List.filter p (exec_queue tx)) (exec_queue db).
Proof. intros <-. apply filter_sublist. Qed.

Lemma api_queue lim op db :
  api_op op = true -> sublist (exec_queue (apply_op lim op db)) (exec_queue db).
Proof.
  destruct op; simpl; try done; intros _.
  - unfold SaveIdempotency. by branches.
  - apply filter_sublist.
  - unfold setScheduleState. by destruct (negb _).
  - apply tables_queue, putDefinition_tables.
  - apply tables_queue, ImportDefinitions_tables.
  - unfold DeleteDefinition, commit. repeat (case_match; simplify_eq/=); try done. by apply drop_sublist.
  - unfold SetEnabled, commit. repeat (case_match; simplify_eq/=);
      repeat match goal with
      | Hu : update_definition _ _ _ _ = Ok _ |- _ => apply update_definition_tables in Hu
      | Hu : insert_revision _ _ _ _ _ _ _ = Ok _ |- _ => apply insert_revision_tables in Hu
      end; try done.
    + apply tables_queue. match goal with Ht : same_tables _ _ |- _ => apply Ht end.
    + apply drop_sublist. match goal with Ht : same_tables _ _ |- _ => apply Ht end.
  - apply tables_queue, SyncConfigDefinitions_tables.
Qed.

Lemma store_calm x op : api_op op = true -> calm x (set_db x (apply_op (queueLimits x) op (x_db x))).
Proof.
  intros Hop. pose proof (api_queue (queueLimits x) op (x_db x) Hop) as Hs.
  assert (op_ok op) as Hok by by destruct op. split; try done.
  - intros held []. split; try done.
    + intros id Hid Hin. apply (xi_queue0 id Hid). eapply elem_of_sublist; [exact Hin|].
      by apply fmap_sublist.
    + unfold x_db in *. simpl. by apply (apply_op_Inv (queueLimits x) op).
    + unfold x_db in *. simpl. etrans; [exact xi_steps0|]. apply rtc_once. by exists op.
  - intros id a' Ha. by exists a'.
Qed.

Lemma envStep_calm x e : envStep_ok e -> calm x (envStep x e).
Proof.
  destruct e; simpl; intros Hok.
  - apply executeEnd_calm.
  - destruct Hok. by apply completeRun_calm.
  - by apply calm_history, persistStart_evolves.
  - by apply calm_history, evolves_same.
  - by apply calm_history, finalizeRound_evolves.
  - apply stopActive_calm.
  - apply StopForShutdown_calm.
  - apply (calm_history x). by apply evolves_spool.
  - apply Shutdown_calm.
  - destruct (api_op op) eqn:E; [by apply store_calm|done].
Qed.

Lemma runEnv_calm l : forall x, Forall envStep_ok l -> calm x (runEnv x l).
Proof.
  induction l as [|e l IH]; intros x Hl; [done|]. apply Forall_cons in Hl as [He Hl].
  simpl. etrans; [by apply envStep_calm|by apply IH].
Qed.

(** ** Operations *)

(** Identifiers the service has launched or still holds in the queue. *)
Definition seen x (id : string) : Prop := id ∈ x_launched x \/ id ∈ queue_run_ids (x_db x).

(** The outcome of an operation that may launch or queue the run [id] and leaves
    [held] slots taken. *)
Record good (held : Z) (id : string) (x x' : Exec) : Prop := {
  g_inv : exec_inv held x';
  g_mirror : mirrors x';
  g_seen : forall i, seen x' i -> i = id \/ seen x i;
  g_closing : isClosing x = true -> isClosing x' = true /\ x_launched x' = x_launched x
}.

Lemma calm_mirrors x x' : items_ok (x_h x) -> calm x x' -> mirrors x -> mirrors x'.
Proof.
  intros Hi Hc. unfold mirrors, queue_depth. rewrite (ca_depth _ _ Hc).
  pose proof (sublist_length _ _ (ca_queue _ _ Hc Hi)). lia.
Qed.

Lemma calm_seen x x' i : items_ok (x_h x) -> calm x x' -> seen x' i -> seen x i.
Proof.
  intros Hi Hc. unfold seen. rewrite (ca_launched _ _ Hc). intros [|Hq]; [by left|]. right.
  eapply elem_of_sublist; [exact Hq|]. by apply fmap_sublist, Hc.
Qed.

Lemma calm_good held id x x' : exec_inv held x -> mirrors x -> calm x x' -> good held id x x'.
Proof.
  intros Hinv Hm Hc. pose proof (xi_items _ _ Hinv) as Hi. split.
  - by apply Hc.
  - by eapply calm_mirrors.
  - intros i Hs. right. by eapply calm_seen.
  - intros Hcl. split; [by apply Hc|apply Hc].
Qed.

Lemma good_calm held held' id x x1 x2 :
  exec_inv held x -> calm x x1 -> good held' id x1 x2 -> good held' id x x2.
Proof.
  intros Hinv Hc []. pose proof (xi_items _ _ Hinv) as Hi. split; try done.
  - intros i [->|Hs]%g_seen0; [by left|]. right. by eapply calm_seen.
  - intros Hcl. destruct g_closing0 as [? ->]; [by apply Hc|]. split; [done|apply Hc].
Qed.

Lemma good_then held held' id x x1 x2 :
  good held id x x1 -> (exec_inv held x1 -> mirrors x1 -> good held' id x1 x2) -> good held' id x x2.
Proof.
  intros [] Hg. destruct (Hg g_inv0 g_mirror0) as [g1 g2 g3 g4]. split; try done.
  - intros i [->|Hs]%g3; [by left|]. by apply g_seen0.
  - intros Hcl. destruct (g_closing0 Hcl) as [Hc1 <-]. by apply g4.
Qed.

(** Taking a free slot, and giving one back. *)
Lemma take_slot held x : exec_inv held x -> x_used x < x_maxRuns x -> exec_inv (held + 1) (x <| x_used ::= Z.succ |>).
Proof. intros [] Hlt. split; try done; simpl; lia. Qed.

Lemma release_slot held x : exec_inv (held + 1) x -> exec_inv held (releaseSlot x).
Proof. intros []. split; try done; simpl; lia. Qed.

Lemma release_good held id x0 x : good (held + 1) id x0 x -> good held id x0 (releaseSlot x).
Proof.
  intros []. split; [by apply release_slot|done..].
Qed.

Lemma release_if_good b id x0 x : good (one b) id x0 x -> good 0 id x0 (if b then releaseSlot x else x).
Proof. destruct b; [apply (release_good 0)|done]. Qed.

(** *** Launch *)

Definition free_for x (d : Definition_) : Prop :=
  exclusive (mkActive d false None) = true -> countA (named (d_Name d)) (x_active x) = 0.

Lemma free_calm x x' d : calm x x' -> free_for x d -> free_for x' d.
Proof.
  intros Hc Hf Hex. specialize (Hf Hex). pose proof (countA_nonneg (named (d_Name d)) (x_active x')) as Hn.
  destruct (decide (countA (named (d_Name d)) (x_active x') = 0)) as [|Hne]; [done|]. exfalso.
  assert (exists id a, x_active x' !! id = Some a /\ named (d_Name d) a = true) as (id & a & Ha & Hna).
  { unfold countA in Hne. destruct (map_choose (filter (fun ka : string * activeRun => named (d_Name d) ka.2 = true) (x_active x')))
      as (id & a & Hf'); [by intros E; rewrite E, map_size_empty in Hne|].
    apply map_lookup_filter_Some in Hf' as [Hl Hp]. by exists id, a. }
  destruct (ca_active _ _ Hc _ _ Ha) as (a0 & Ha0 & Ed).
  pose proof (countA_pos (named (d_Name d)) _ _ _ Ha0) as Hp. unfold named in Hp, Hna. rewrite Ed in Hp.
  specialize (Hp Hna). unfold named in Hf. lia.
Qed.

Lemma Active_free held x d :
  exec_inv held x -> skips d && (0 <? Active x (d_Name d)) = false -> free_for x d.
Proof.
  intros Hinv Hs Hex. rewrite <-(xi_byJob _ _ Hinv). unfold exclusive in Hex. simpl in Hex.
  pose proof (xi_byJob _ _ Hinv (d_Name d)) as Hb. pose proof (countA_nonneg (named (d_Name d)) (x_active x)).
  destruct (skips d); bools; [|done]. simpl in Hs. bools. lia.
Qed.

Lemma register_inv x r d recorded :
  exec_inv (one (isJob d)) x -> isClosing x = false -> ~ seen x (r_ID r) -> free_for x d ->
  exec_inv 0 (x <| x_active ::= insert (r_ID r) (mkActive d (negb recorded) None) |>
                <| x_byJob ::= insert (d_Name d) (Active x (d_Name d) + 1) |>
                <| x_launched ::= cons (r_ID r) |>
                <| x_late ::= fun l => if isClosing x then r_ID r :: l else l |>).
Proof.
  intros Hinv Hopen Hns Hfree. pose proof Hinv as [].
  assert (x_active x !! r_ID r = None) as Hnone.
  { destruct (x_active x !! r_ID r) eqn:E; [|done]. destruct Hns. left. apply xi_active0. by eexists. }
  split; simpl; try done.
  - unfold jobs in *. rewrite countA_insert by done. simpl. lia.
  - intros n. unfold Active in *. simpl. rewrite countA_insert by done. unfold named at 2. simpl.
    destruct (String.eqb_spec (d_Name d) n) as [->|Hne].
    + rewrite lookup_insert_eq, xi_byJob0. simpl. lia.
    + rewrite lookup_insert_ne by done. simpl. rewrite xi_byJob0. lia.
  - assert (forall id a, x_active x !! id = Some a -> exclusive a = true ->
       exclusive (mkActive d (negb recorded) None) = true -> d_Name (a_d a) = d_Name d -> False) as Hno.
    { intros id a Ha _ Hd Hn. specialize (Hfree Hd).
      pose proof (countA_pos (named (d_Name d)) _ _ _ Ha (proj2 (String.eqb_eq _ _) Hn)). lia. }
    intros id1 id2 a1 a2 H1 H2 E1 E2 En.
    apply lookup_insert_Some in H1 as [[<- <-]|[? H1]]; apply lookup_insert_Some in H2 as [[<- <-]|[? H2]].
    + done.
    + exfalso. eapply Hno; eauto.
    + exfalso. eapply Hno; eauto.
    + eauto.
  - constructor; [|done]. intros Hin. apply Hns. by left.
  - intros id. rewrite elem_of_cons. intros [a [[<- _]|[_ Ha]]%lookup_insert_Some]; [by left|].
    right. apply xi_active0. by eexists.
  - intros id. rewrite elem_of_cons. intros [->|Hid].
    + intros Hq. apply Hns. by right.
    + by apply xi_queue0.
  - by rewrite Hopen.
Qed.

Lemma launch_good x o r d recorded :
  exec_inv (one (isJob d)) x -> mirrors x -> ~ seen x (r_ID r) -> free_for x d ->
  good 0 (r_ID r) x (launch x o r d recorded).1 /\ (launch x o r d recorded).2.1 = None.
Proof.
  intros Hinv Hm Hns Hfree. unfold launch. destruct (isClosing x) eqn:Ec; simpl fst; simpl snd; (split; [|done]).
  - apply release_if_good.
    assert (calm x (x <| x_h := dropFinalizer (x_h x) (r_ID r) |>)) as Hc1
      by apply calm_history, dropFinalizer_evolves.
    set (x1 := x <| x_h := dropFinalizer (x_h x) (r_ID r) |>) in *.
    assert (calm x (if recorded then x1 <| x_h := (finishRun (x_h x1) (o_fo o) (r_ID r) (refusedStart (o_now o 9))).1 |>
                    else x1)) as Hc2.
    { destruct recorded; [|done]. etrans; [exact Hc1|]. by apply calm_history, finishAttempts_evolves. }
    by apply calm_good.
  - pose proof (register_inv x r d recorded Hinv Ec Hns Hfree) as Hr. rewrite Ec in Hr.
    split; [exact Hr|done| |congruence].
    intros i. unfold seen. simpl. rewrite elem_of_cons. intros [[->|]|]; auto.
Qed.

(** *** Recording a declined trigger *)

Lemma insert_run_queue db w db' : insert_run db w = Ok db' -> exec_queue db' = exec_queue db.
Proof. unfold insert_run. destruct (_ || _); [done|]. by intros [= <-]. Qed.

Lemma reserve_queue db now k hs replay tx :
  reserveIdempotency db now k hs = Ok (replay, tx) -> exec_queue tx = exec_queue db.
Proof. unfold reserveIdempotency. repeat case_match; intros [= <- <-]; done. Qed.

Lemma admit_queue db n0 n r k hs : exec_queue (AdmitIdempotentRun db n0 n r k hs).1 = exec_queue db.
Proof.
  unfold AdmitIdempotentRun. destruct (reserveIdempotency db n0 k hs) as [[replay tx]|] eqn:Er; [|done].
  apply reserve_queue in Er. destruct (negb _); [done|].
  destruct (insert_run tx _) as [t1|] eqn:Ei; [|done]. apply insert_run_queue in Ei.
  unfold insert_idem. destruct (bool_decide _); [done|]. simpl. congruence.
Qed.

Lemma admit_calm x n0 n r k hs :
  r_Status r <> "queued" -> calm x (set_db x (AdmitIdempotentRun (x_db x) n0 n r k hs).1).
Proof.
  intros Hr. apply (calm_history x). apply (evolves_op _ _ _ (OpAdmit n0 n r k hs)); try done.
  apply admit_queue.
Qed.

Lemma notify_calm x r : calm x (x <| x_h ::= fun h => notifyFinished h r false |>).
Proof. apply (calm_history x), notify_evolves. Qed.

(** A row that is already terminal: admitted or deferred, then announced. *)
Lemma record_calm x now ctx fails stopped r d :
  r_Status r <> "queued" ->
  let '(h, (recorded, err)) := admitRow (x_h x) now ctx fails r in
  calm x (x <| x_h := h |>) /\
  calm x ((if recorded : bool then x <| x_h := h |> else x <| x_h := h |> <| x_h := deferRecord h now stopped r d |>)
            <| x_h ::= fun h => notifyFinished h r false |>).
Proof.
  intros Hr. pose proof (admitRow_evolves (queueLimits x) (x_h x) now ctx fails r Hr) as He.
  destruct (admitRow _ _ _ _ _) as [h [recorded err]]. cbn [fst] in He.
  assert (calm x (x <| x_h := h |>)) as Hc by by apply calm_history.
  split; [done|]. etrans; [|apply notify_calm]. destruct recorded; [done|]. etrans; [exact Hc|].
  by apply (calm_history (x <| x_h := h |>)), deferRecord_evolves.
Qed.

Lemma recordSkipped_calm x o g reason : calm x (recordSkipped x o g reason).1.
Proof.
  unfold recordSkipped. set (r := newRun _ _ _ _ _ _ _ _).
  assert (r_Status r <> "queued") as Hr by done. clearbody r.
  destruct (with_key (tg_idem g)) as [i|].
  - destruct (o_fails o 10); [done|].
    pose proof (admit_calm x (o_now o 1) (o_now o 1) r (idem_key i) (id_RequestHash i) Hr) as Hc.
    destruct (AdmitIdempotentRun _ _ _ _ _ _) as [db [existing|e]]; [|done]. cbn [fst] in Hc.
    destruct (negb _); [done|]. etrans; [exact Hc|]. apply notify_calm.
  - pose proof (record_calm x (o_now o 1) (o_ctx o 1) (o_fails o 12) (o_stopped o) r (tg_d g) Hr) as Hc.
    destruct (admitRow _ _ _ _ _) as [h [recorded [e|]]]; destruct Hc as [Hc1 Hc2].
    + by destruct (occurrence _ _ _).
    + exact Hc2.
Qed.

Lemma RecordMissed_calm x o d hash count scheduled : calm x (RecordMissed x o d hash count scheduled).1.
Proof.
  unfold RecordMissed.
  set (r := upd r_MissedCount _ _). assert (r_Status r <> "queued") as Hr by done. clearbody r.
  pose proof (record_calm x (o_now o 0) (o_ctx o 0) (o_fails o 0) (o_stopped o) r d Hr) as Hc.
  destruct (admitRow _ _ _ _ _) as [h [recorded [e|]]]; destruct Hc as [Hc1 Hc2].
  - by destruct (occurrence _ _ _).
  - exact Hc2.
Qed.

(** *** Enqueue *)

Lemma insert_queue_queue db id def enq exp size db' :
  insert_queue db id def enq exp size = Ok db' ->
  exists q, q_run_id q = id /\ exec_queue db' = exec_queue db ++ [q].
Proof. unfold insert_queue. destruct (_ || _); [done|]. intros [= <-]. eexists. by split; [|done]. Qed.

Lemma EnqueueRun_queue db n0 n r idem lim unique :
  match EnqueueRun db n0 n r idem lim unique with
  | (db', Ok replay) => if String.eqb replay "" then exists q, q_run_id q = r_ID r /\ exec_queue db' = exec_queue db ++ [q]
                        else exec_queue db' = exec_queue db
  | (db', Err _) => db' = db
  end.
Proof.
  unfold EnqueueRun.
  destruct (match has_key idem with Some _ => _ | None => _ end) as [[replay tx]|e] eqn:Etx; [|done].
  assert (exec_queue tx = exec_queue db) as Htx
    by (destruct (has_key idem); [by eapply reserve_queue|by injection Etx as _ <-]).
  destruct (String.eqb replay "") eqn:Er; simpl; [|by rewrite Er].
  destruct (unique && _); [done|]. destruct (lim_MaxItems lim <=? _); [done|].
  destruct (lim_MaxPerJob lim <=? _); [done|]. destruct (lim_MaxBytes lim <? _); [done|].
  destruct (insert_run tx _) as [t1|] eqn:E1; [|done]. apply insert_run_queue in E1.
  destruct (insert_queue t1 _ _ _ _ _) as [t2|] eqn:E2; [|done].
  apply insert_queue_queue in E2 as (q & Hq & E2).
  assert (exec_queue t2 = exec_queue db ++ [q]) as E by congruence.
  destruct (has_key idem) as [i|]; [|by exists q]. unfold insert_idem.
  destruct (bool_decide _); [done|]. by exists q.
Qed.

Lemma enqueue_good x o g :
  exec_inv 0 x -> mirrors x -> ~ seen x (o_id o 0) -> (forall i, Forall envStep_ok (o_env o i)) ->
  good 0 (o_id o 0) x (enqueue x o g).1.
Proof.
  intros Hinv Hm Hns Henv. unfold enqueue. set (r := newRun _ _ _ _ _ _ _ _).
  assert (r_ID r = o_id o 0) as Hid by done. clearbody r.
  assert (forall e, good 0 (o_id o 0) x (enqueueFailed x o g r e).1) as Hun.
  { intros e. unfold enqueueFailed. apply calm_good; [done..|]. destruct (o_ctx o 2); [done|].
    destruct (occurrence _ _ _); [done|]. destruct (String.eqb _ _); by apply calm_core. }
  destruct (o_fails o 20); [apply Hun|].
  pose proof (EnqueueRun_queue (x_db x) (o_now o 2) (o_now o 3) r (with_key (tg_idem g)) (queueLimits x) (skips (tg_d g))) as Hq.
  pose proof (apply_op_Inv (queueLimits x) (OpEnqueue (o_now o 2) (o_now o 3) r (with_key (tg_idem g)) (skips (tg_d g)))
                (x_db x) I (xi_db _ _ Hinv)) as Hw.
  assert (rtc (step (queueLimits x)) origin (apply_op (queueLimits x)
    (OpEnqueue (o_now o 2) (o_now o 3) r (with_key (tg_idem g)) (skips (tg_d g))) (x_db x))) as Hst
    by (etrans; [apply (xi_steps _ _ Hinv)|]; apply rtc_once; eexists; split; [|reflexivity]; exact I).
  cbn [apply_op] in Hw, Hst.
  assert (forall reason, good 0 (o_id o 0) x (recordSkipped x o g reason).1) as Hskip
    by (intros; apply calm_good; [done..|apply recordSkipped_calm]).
  assert (calm x (x <| x_rejected ::= Z.succ |>)) as Hrej by by apply calm_core.
  destruct (EnqueueRun _ _ _ _ _ _ _) as [db [replay|e]]; cbn [fst] in Hw, Hst.
  2:{ destruct e; try apply Hun; try apply Hskip; try by apply calm_good.
      destruct (String.eqb _ "retry"); [by apply calm_good|].
      destruct (String.eqb _ "manual"); [by apply calm_good|].
      apply calm_good; [done..|]. etrans; [exact Hrej|]. apply recordSkipped_calm. }
  destruct (String.eqb replay "") eqn:Er; cbn [negb].
  2:{ assert (queue_run_ids (x_db (set_db x db)) = queue_run_ids (x_db x)) as Eq
        by (unfold queue_run_ids; f_equal; exact Hq).
      split; [|unfold mirrors, queue_depth, x_db in *; simpl; by rewrite Hq| |done].
      - destruct Hinv. split; try done. by intros id Hl Hin; apply (xi_queue0 id Hl); rewrite <-Eq.
      - intros i [Hl|Hin]; right; [by left|]. right. by rewrite <-Eq. }
  destruct Hq as (q & Hqid & Eq). rewrite Hid in Hqid.
  set (x1 := (set_db x db) <| x_depth ::= Z.succ |>).
  assert (forall i, i ∈ queue_run_ids (x_db x1) -> i ∈ queue_run_ids (x_db x) \/ i = o_id o 0) as Eq1.
  { intros i. unfold queue_run_ids, x_db at 1. simpl. rewrite Eq, fmap_app, elem_of_app. simpl.
    by rewrite list_elem_of_singleton, Hqid. }
  assert (good 0 (o_id o 0) x x1) as Hg1.
  { split; [| | |done].
    - destruct Hinv. split; try done. intros id Hl [Hin| ->]%Eq1; [by apply (xi_queue0 id)|].
      apply Hns. by left.
    - unfold mirrors, queue_depth, x_db in *. simpl. rewrite Eq, length_app. simpl. lia.
    - intros i. unfold seen. intros [?|[?|?]%Eq1]; auto. }
  clearbody x1. eapply good_then; [exact Hg1|]. intros Hi1 Hm1. apply calm_good; [done..|].
  etrans; [by apply runEnv_calm|]. simpl fst. destruct (isClosing _); [done|]. by apply calm_core.
Qed.

(** *** Trigger *)

(** Interleaved steps and then a launch. *)
Lemma start_good x x1 o r d recorded now res :
  exec_inv (one (isJob d)) x -> mirrors x -> ~ seen x (r_ID r) -> free_for x d -> calm x x1 ->
  (forall i, Forall envStep_ok (o_env o i)) ->
  good 0 (r_ID r) x (let '(x, (failed, err)) := launch (runEnv x1 (o_env o 3)) o r d recorded in
                     (announceFailed x now failed d, res err) : Exec * TrigResult).1.
Proof.
  intros Hinv Hm Hns Hfree Hc Henv.
  assert (calm x (runEnv x1 (o_env o 3))) as Hc2 by (etrans; [exact Hc|by apply runEnv_calm]).
  set (x2 := runEnv x1 (o_env o 3)) in *. clearbody x2. pose proof (xi_items _ _ Hinv) as Hi.
  destruct (launch_good x2 o r d recorded) as [Hg Hf].
  - by apply Hc2.
  - by eapply calm_mirrors.
  - intros Hs. by apply Hns, (calm_seen x x2).
  - by eapply free_calm.
  - destruct (launch x2 o r d recorded) as [x3 [failed err]]. simpl in *. subst failed. simpl.
    by eapply good_calm.
Qed.

Lemma admitted_good x o g :
  exec_inv (one (isJob (tg_d g))) x -> mirrors x -> ~ seen x (o_id o 0) -> free_for x (tg_d g) ->
  (forall i, Forall envStep_ok (o_env o i)) ->
  good 0 (o_id o 0) x (admitted x o g).1.
Proof.
  intros Hinv Hm Hns Hfree Henv. unfold admitted. set (r := newRun _ _ _ _ _ _ _ _). set (d := tg_d g) in *.
  assert (r_ID r = o_id o 0) as Hid by done. assert (r_Status r <> "queued") as Hr by done. clearbody r.
  rewrite <-Hid in *. pose proof (runEnv_calm (o_env o 2) x (Henv 2%nat)) as Hc.
  set (x1 := runEnv x (o_env o 2)) in *. clearbody x1.
  assert (forall x2, calm x1 x2 -> good 0 (r_ID r) x (if isJob d then releaseSlot x2 else x2)) as Hrel.
  { intros x2 H2. apply release_if_good, calm_good; [done..|]. by etrans. }
  destruct (with_key (tg_idem g)) as [i|].
  - destruct (o_fails o 0); [by apply Hrel|].
    pose proof (admit_calm x1 (o_now o 2) (o_now o 3) r (idem_key i) (id_RequestHash i) Hr) as Ha.
    destruct (AdmitIdempotentRun _ _ _ _ _ _) as [db [existing|e]]; [|by apply Hrel]. cbn [fst] in Ha.
    destruct (negb _); [by apply Hrel|]. apply start_good; try done. by etrans.
  - pose proof (admitRow_evolves (queueLimits x1) (x_h x1) (o_now o 4) (o_ctx o 1) (o_fails o 2) r Hr) as He.
    destruct (admitRow _ _ _ _ _) as [h [recorded err]]. cbn [fst] in He. apply calm_history in He.
    destruct err as [e|]; [destruct (occurrence _ _ _); by apply Hrel|].
    destruct recorded; [apply start_good; try done; by etrans|].
    set (x2 := x1 <| x_h := h |>) in *.
    destruct (isJob d && _).
    + assert (x_h (if isJob d then releaseSlot x2 else x2) = x_h x2) as -> by by destruct (isJob d).
      pose proof (skipUnrecorded_evolves (queueLimits x2) (x_h x2) (o_now o 5) (o_stopped o) r d Hr) as Hs.
      destruct (skipUnrecorded _ _ _ _ _) as [h2 r2]. apply calm_history in Hs. cbn [fst] in Hs |- *.
      assert ((if isJob d then releaseSlot x2 else x2) <| x_h := h2 |> =
              (if isJob d then releaseSlot (x2 <| x_h := h2 |>) else x2 <| x_h := h2 |>)) as -> by by destruct (isJob d).
      apply Hrel. by etrans.
    + assert (evolves (queueLimits x2) (x_h x2) ((x_h x2) <| h_deferred ::= Z.succ |>)) as Hd by by apply evolves_same.
      pose proof (spool_evolves (queueLimits x2) ((x_h x2) <| h_deferred ::= Z.succ |>) (o_now o 5) (o_stopped o) r d
                    [UCreate] Hr ltac:(by repeat constructor)) as Hs.
      destruct (spool _ _ _ _ _ _) as [h2 []]; cbn [fst] in Hs; apply start_good; try done;
        (etrans; [exact Hc|]); (etrans; [exact He|]); apply (calm_history x2); (etrans; [exact Hd|]); [done|].
      etrans; [exact Hs|]. apply lost_evolves.
Qed.

Lemma trigger_good x o g :
  exec_inv 0 x -> mirrors x -> ~ seen x (o_id o 0) -> (forall i, Forall envStep_ok (o_env o i)) ->
  good 0 (o_id o 0) x (trigger x o g).1.
Proof.
  intros Hinv Hm Hns Henv. unfold trigger. destruct (isClosing x); [by apply calm_good|].
  destruct (o_admit o); [by apply calm_good|].
  pose proof (runEnv_calm (o_env o 0) x (Henv 0%nat)) as Hc0. set (x0 := runEnv x (o_env o 0)) in *. clearbody x0.
  destruct (isClosing x0); [by apply calm_good|]. destruct (o_ctx o 0); [by apply calm_good|].
  destruct (negb (IsEnabled _)); [by apply calm_good|].
  destruct (isJob (tg_d g) && skips (tg_d g) && _) eqn:Eov.
  { apply calm_good; [done..|]. etrans; [exact Hc0|apply recordSkipped_calm]. }
  pose proof (runEnv_calm (o_env o 1) x0 (Henv 1%nat)) as Hc1. set (x1 := runEnv x0 (o_env o 1)) in *. clearbody x1.
  assert (free_for x1 (tg_d g)) as Hfree.
  { apply (free_calm x0); [done|]. intros Hex. eapply (Active_free 0); [by apply Hc0| |done].
    unfold exclusive in Hex. simpl in Hex. bools. destruct (isJob (tg_d g)); [exact Eov|done]. }
  assert (calm x x1) as Hc by (by etrans). pose proof (xi_items _ _ Hinv) as Hi.
  apply (good_calm 0 0 _ x x1); [done..|].
  assert (exec_inv 0 x1) as Hinv1 by by apply Hc. assert (mirrors x1) as Hm1 by by eapply calm_mirrors.
  assert (~ seen x1 (o_id o 0)) as Hns1 by (intros Hs; by apply Hns, (calm_seen x x1)).
  destruct (isJob (tg_d g)) eqn:Ej.
  - destruct (queueable _ _ && _); [by apply enqueue_good|].
    destruct (Z.ltb_spec (x_used x1) (x_maxRuns x1)) as [Hlt|Hge].
    + pose proof (take_slot 0 x1 Hinv1 Hlt) as Ht.
      destruct (admitted_good (x1 <| x_used ::= Z.succ |>) o g) as [g1 g2 g3 g4]; try done. by rewrite Ej.
    + destruct (queueable _ _); [by apply enqueue_good|].
      destruct (String.eqb _ _); [by apply calm_good|].
      apply calm_good; [done..|apply recordSkipped_calm].
  - apply admitted_good; try done. by rewrite Ej.
Qed.

End inv.
