(* ===== verification/ExecLoopInv.v ===== *)
(** The loops of the executor keep the invariants of [ExecInv], and the theorems
    about every history of the service. *)

From S2P Require Import Prelude GoRuntime Model StoreDB StoreQueue StoreDefs StoreHistory StoreInv.
From S2P Require Import History HistoryRel Heap Executor ExecLoops ExecInv.
Open Scope Z_scope.

Section loops.
Context `{Codec} `{Origin}.
Implicit Types x : Exec.

(** * Operations on the queue *)

(** Nothing is launched or queued. *)
Record tidy (held : Z) (x x' : Exec) : Prop := {
  ti_inv : exec_inv held x';
  ti_launched : x_launched x' = x_launched x;
  ti_seen : forall i, seen x' i -> seen x i;
  ti_closing : isClosing x = true -> isClosing x' = true
}.

Lemma tidy_calm held x x' : exec_inv held x -> calm x x' -> tidy held x x'.
Proof.
  intros Hinv Hc. pose proof (xi_items _ _ Hinv) as Hi. split; try by apply Hc.
  intros i. by apply calm_seen.
Qed.

Lemma tidy_trans h h' x y z : tidy h x y -> tidy h' y z -> tidy h' x z.
Proof. intros [] []. split; auto; congruence. Qed.

Lemma tidy_good held id x x' : tidy held x x' -> mirrors x' -> good held id x x'.
Proof. intros [] Hm. split; auto. Qed.

Lemma tidy_release held x x' : tidy (held + 1) x x' -> tidy held x (releaseSlot x').
Proof. intros []. split; try done. by apply release_slot. Qed.

Lemma queue_op_tidy held x op db' f :
  exec_inv held x -> db' = apply_op (queueLimits x) op (x_db x) -> op_ok op ->
  sublist (exec_queue db') (exec_queue (x_db x)) -> tidy held x ((set_db x db') <| x_depth ::= f |>).
Proof.
  intros Hinv -> Hop Hs.
  assert (forall i, i ∈ queue_run_ids (apply_op (queueLimits x) op (x_db x)) -> i ∈ queue_run_ids (x_db x)) as Hsub.
  { intros i Hi. eapply elem_of_sublist; [exact Hi|]. by apply fmap_sublist. }
  split; try done.
  - destruct Hinv as [I1 I2 I3 I4 I5 I6 I7 I8 I9 I10 I11]. split; try done.
    + intros id Hl Hin. by apply (I7 id Hl), Hsub.
    + unfold x_db in *. simpl. by apply (apply_op_Inv (queueLimits x) op).
    + unfold x_db in *. simpl. etrans; [exact I10|]. apply rtc_once. by exists op.
  - intros i [Hl|Hin]; [by left|]. right. by apply Hsub.
Qed.

(** The queue without the rows of [id]. *)
Definition others (id : string) (l : list QueueRow) : list QueueRow :=
  List.filter (fun q => negb (String.eqb (q_run_id q) id)) l.

(** The item [id] is accounted for: without it the mirror has one to spare. *)
Definition claimed (id : string) x : Prop :=
  Z.of_nat (length (others id (exec_queue (x_db x)))) <= x_depth x - 1.
Definition settled x : Prop := queue_depth (x_db x) <= x_depth x - 1.

Lemma sublist_filter_length {A} (p : A -> bool) l l' :
  sublist l l' -> (length (List.filter p l) <= length (List.filter p l'))%nat.
Proof. induction 1 as [|y l l' _ IH|y l l' _ IH]; simpl; [done| |]; destruct (p y); simpl; lia. Qed.

Lemma calm_claimed id x x' : items_ok (x_h x) -> calm x x' -> claimed id x -> claimed id x'.
Proof.
  intros Hi Hc. unfold claimed. rewrite (ca_depth _ _ Hc).
  pose proof (sublist_filter_length (fun q => negb (String.eqb (q_run_id q) id)) _ _ (ca_queue _ _ Hc Hi)).
  unfold others. lia.
Qed.

Lemma calm_settled x x' : items_ok (x_h x) -> calm x x' -> settled x -> settled x'.
Proof.
  intros Hi Hc. unfold settled, queue_depth. rewrite (ca_depth _ _ Hc).
  pose proof (sublist_length _ _ (ca_queue _ _ Hc Hi)). lia.
Qed.

Lemma queued_claimed x q : mirrors x -> q ∈ exec_queue (x_db x) -> claimed (q_run_id q) x.
Proof.
  unfold mirrors, claimed, queue_depth. intros Hm Hq.
  assert (length (others (q_run_id q) (exec_queue (x_db x))) < length (exec_queue (x_db x)))%nat; [|lia].
  revert Hq. clear Hm. induction (exec_queue (x_db x)) as [|y l IH]; [by intros ?%not_elem_of_nil|].
  unfold others in *. simpl. rewrite elem_of_cons. intros [<-|Hq].
  - rewrite String.eqb_refl. simpl.
    pose proof (length_filter_le (fun q0 => negb (String.eqb (q_run_id q0) (q_run_id q))) l). lia.
  - specialize (IH Hq). destruct (negb _); simpl; lia.
Qed.

(** [endQueued] and [DequeueRun] take exactly the rows of [id] out. *)
Lemma endQueued_queue db id status reason now :
  exec_queue (endQueued db id status reason now).1 = others id (exec_queue db).
Proof.
  unfold endQueued. pose proof (update_run_queue db id (status_in ["queued"]) (fun w =>
    w <| rr_status := status |> <| rr_end_reason := Some reason |> <| rr_ended_us := Some (UnixMicro_of now) |>)) as E.
  destruct (update_run _ _ _ _) as [tx res]. simpl in *. by rewrite E.
Qed.

Lemma DequeueRun_queue db id revision hash boot db' :
  DequeueRun db id revision hash boot = (db', Ok tt) -> exec_queue db' = others id (exec_queue db).
Proof.
  unfold DequeueRun. pose proof (update_run_queue db id (status_in ["queued"]) (fun w =>
    w <| rr_status := "pending" |> <| rr_revision := revision |> <| rr_definition_hash := hash |>
      <| rr_boot_id := Some boot |>)) as E.
  destruct (update_run _ _ _ _) as [tx [[]|]]; [|done]. simpl in E. intros [= <-]. simpl. by rewrite E.
Qed.

Lemma others_sublist id l : sublist (others id l) l.
Proof. apply filter_sublist. Qed.

Lemma others_ids id l i : i ∈ q_run_id <$> others id l -> i <> id.
Proof.
  intros (q & -> & [_ Hq]%elem_of_filter_list)%list_elem_of_fmap. bools. by apply String.eqb_neq.
Qed.

Lemma others_absent id l : id ∉ q_run_id <$> l -> others id l = l.
Proof.
  induction l as [|q l IH]; [done|]. rewrite fmap_cons, elem_of_cons. intros Hn. unfold others in *. simpl.
  destruct (String.eqb_spec (q_run_id q) id) as [E|]; [by destruct Hn; left|]. simpl. f_equal. tauto.
Qed.

Lemma dequeued wfdb id revision hash boot db' :
  wf wfdb -> DequeueRun wfdb id revision hash boot = (db', Ok tt) -> id ∈ queue_run_ids wfdb.
Proof.
  intros Hwf. unfold DequeueRun, update_run. destruct (runs wfdb !! id) as [w|] eqn:E; [|done].
  destruct (status_in ["queued"] w) eqn:Es; [|done]. intros _.
  apply (wf_run_queue _ Hwf id w E). by apply status_in_elem, list_elem_of_singleton in Es.
Qed.

Lemma not_dequeued db id revision hash boot db' e :
  wf db -> DequeueRun db id revision hash boot = (db', Err e) -> id ∉ queue_run_ids db.
Proof.
  intros Hwf. unfold DequeueRun, update_run. intros Hd (q & -> & Hq)%list_elem_of_fmap.
  destruct (wf_queue_run _ Hwf q Hq) as (w & E & Es & _). rewrite E in Hd.
  assert (status_in ["queued"] w = true) as Ht by (apply status_in_elem; rewrite Es; by left).
  by rewrite Ht in Hd.
Qed.

(** * Draining the queue *)

Lemma dropItem_tidy held x o run reason notify :
  exec_inv held x -> claimed (r_ID run) x ->
  match dropItem x o run reason notify with
  | (x', Err _) => x' = x
  | (x', Ok _) => tidy held x x' /\ settled x'
  end.
Proof.
  intros Hinv Hcl. unfold dropItem. destruct (o_fails o 33); [done|].
  pose proof (endQueued_queue (x_db x) (r_ID run) "skipped" reason (o_now o 13)) as Eq.
  pose proof (queue_op_tidy held x (OpDrop (r_ID run) reason (o_now o 13)) _ id Hinv eq_refl I) as Ht.
  cbn [apply_op] in Ht. fold (DropQueued (x_db x) (r_ID run) reason (o_now o 13)) in Eq.
  destruct (DropQueued _ _ _ _) as [db res]. cbn [fst] in *.
  assert (sublist (exec_queue db) (exec_queue (x_db x))) as Hs by (rewrite Eq; apply others_sublist).
  specialize (Ht Hs). set (x1 := (set_db x db) <| x_depth ::= id |>) in Ht.
  assert (settled x1) as Hst.
  { unfold settled, queue_depth, x_db, x1, claimed in *. simpl. rewrite Eq. exact Hcl. }
  assert (calm x1 ((set_db x db) <| x_queueDropped ::= Z.succ |>)) as Hc by by apply calm_core.
  clearbody x1. set (x2 := (set_db x db) <| x_queueDropped ::= Z.succ |>) in *. clearbody x2.
  assert (forall x3, calm x2 x3 -> tidy held x x3 /\ settled x3) as Hfin.
  { intros x3 H3. pose proof (ti_inv _ _ _ Ht) as Hi1. pose proof (xi_items _ _ Hi1). split.
    - eapply tidy_trans; [exact Ht|]. apply tidy_calm; [done|]. by etrans.
    - apply (calm_settled x1); [done| |done]. by etrans. }
  destruct res; destruct notify; apply Hfin; try done; apply notify_calm.
Qed.

(** What [startQueued] leaves to its caller, which decrements the mirror unless an
    error is returned. *)
Definition started_spec (id : string) x (res : Exec * Result TErr (option (Definition_ * option Run))) : Prop :=
  match res with
  | (x', Err _) => good 1 id x x'
  | (x', Ok None) => good 1 id x (x' <| x_depth ::= Z.pred |>)
  | (x', Ok (Some (_, failed))) => failed = None /\ good 0 id x (x' <| x_depth ::= Z.pred |>)
  end.

Lemma settled_good held id x x' : tidy held x x' -> settled x' -> good held id x (x' <| x_depth ::= Z.pred |>).
Proof.
  intros [[I1 I2 I3 I4 I5 I6 I7 I8 I9 I10 I11] T2 T3 T4] Hs. apply tidy_good; [|exact Hs].
  split; [by split|done..].
Qed.

Lemma dropped_spec x x1 o run reason notify :
  exec_inv 1 x -> mirrors x -> calm x x1 -> claimed (r_ID run) x ->
  started_spec (r_ID run) x
    (match dropItem x1 o run reason notify with
     | (x, Err e) => (x, Err e)
     | (x, Ok _) => (x, Ok None)
     end).
Proof.
  intros Hinv Hm Hc Hcl. pose proof (xi_items _ _ Hinv) as Hi.
  pose proof (dropItem_tidy 1 x1 o run reason notify) as Hd.
  destruct (dropItem _ _ _ _ _) as [x2 [b|e]]; simpl.
  - destruct Hd as [Ht Hs]; [by apply Hc|by eapply calm_claimed|]. apply settled_good; [|done].
    eapply tidy_trans; [by apply tidy_calm|done].
  - rewrite Hd; [by apply calm_good|by apply Hc|by eapply calm_claimed].
Qed.

Lemma launch_depth f x o r d recorded :
  launch (x <| x_depth ::= f |>) o r d recorded =
  ((launch x o r d recorded).1 <| x_depth ::= f |>, (launch x o r d recorded).2).
Proof.
  unfold launch, isClosing. simpl. destruct (h_closing (x_h x)); [|done].
  by destruct recorded, (isJob d).
Qed.

(** The point of no return: dequeued, then launched or refused. *)
Lemma dequeue_launch x x1 o run c revision hash boot db r' :
  exec_inv 1 x -> calm x x1 -> claimed (r_ID run) x -> isJob c = true -> free_for x1 c ->
  (forall i, Forall envStep_ok (o_env o i)) -> r_ID r' = r_ID run ->
  DequeueRun (x_db x1) (r_ID run) revision hash boot = (db, Ok tt) ->
  started_spec (r_ID run) x
    (let '(x, (failed, _)) := launch (runEnv (set_db x1 db) (o_env o 16)) o r' c true in (x, Ok (Some (c, failed)))).
Proof.
  intros Hinv Hc Hcl Hj Hfree Henv Hid Hd. pose proof (xi_items _ _ Hinv) as Hi.
  assert (exec_inv 1 x1) as Hinv1 by by apply Hc.
  pose proof (calm_claimed _ _ _ Hi Hc Hcl) as Hcl1.
  pose proof (DequeueRun_queue _ _ _ _ _ _ Hd) as Eq.
  pose proof (dequeued _ _ _ _ _ _ (proj1 (xi_db _ _ Hinv1)) Hd) as Hin.
  assert (tidy 1 x1 ((set_db x1 db) <| x_depth ::= id |>)) as Ht.
  { apply (queue_op_tidy 1 x1 (OpDequeue (r_ID run) revision hash boot)); [done| |done|].
    - simpl. by rewrite Hd.
    - rewrite Eq. apply others_sublist. }
  set (x2 := (set_db x1 db) <| x_depth ::= id |>) in *.
  assert (exec_inv 1 x2) as Hinv2 by apply Ht.
  assert (settled x2) as Hs2.
  { unfold settled, queue_depth, x_db, x2, claimed in *. simpl. rewrite Eq. exact Hcl1. }
  assert (~ seen x2 (r_ID run)) as Hns2.
  { intros [Hl|Hq].
    - apply (xi_queue _ _ Hinv1 (r_ID run) Hl Hin).
    - unfold queue_run_ids, x_db, x2 in Hq. simpl in Hq. rewrite Eq in Hq. by apply others_ids in Hq. }
  assert (free_for x2 c) as Hf2 by exact Hfree.
  change (set_db x1 db) with x2. assert (tidy 1 x x2) as Hx2 by (eapply tidy_trans; [by apply tidy_calm|done]).
  clearbody x2. clear Ht Eq Hd Hin.
  pose proof (runEnv_calm (o_env o 16) x2 (Henv 16%nat)) as Hc3. set (x3 := runEnv x2 (o_env o 16)) in *. clearbody x3.
  pose proof (xi_items _ _ Hinv2) as Hi2.
  pose proof (calm_settled _ _ Hi2 Hc3 Hs2) as Hs3.
  destruct (launch_good (x3 <| x_depth ::= Z.pred |>) o r' c true) as [Hg Hfail].
  - rewrite Hj. destruct (ca_inv _ _ Hc3 1 Hinv2) as [I1 I2 I3 I4 I5 I6 I7 I8 I9 I10 I11]. by split.
  - exact Hs3.
  - rewrite Hid. intros Hs. apply Hns2. apply (calm_seen x2 x3); done.
  - by apply (free_calm x2 x3).
  - rewrite launch_depth in Hg, Hfail. simpl in Hfail. rewrite Hid in Hg.
    destruct (launch x3 o r' c true) as [x4 [failed err]]. simpl in *. subst failed. split; [done|].
    destruct Hg as [g1 g2 g3 g4]. destruct Hx2 as [T1 T2 T3 T4]. split; [done|done| |].
    + intros i [->|Hs]%g3; [by left|]. right. apply T3. by apply (calm_seen x2 x3).
    + intros Hcl0. destruct g4 as [? Hl]; [by apply Hc3, T4|]. split; [done|].
      simpl in Hl |- *. rewrite Hl, (ca_launched _ _ Hc3). done.
Qed.

Lemma startQueued_ok x o item :
  exec_inv 1 x -> mirrors x -> item ∈ exec_queue (x_db x) -> (forall i, Forall envStep_ok (o_env o i)) ->
  started_spec (q_run_id item) x (startQueued x o item).
Proof.
  intros Hinv Hm Hin Henv. pose proof (xi_items _ _ Hinv) as Hi.
  pose proof (queued_claimed x item Hm Hin) as Hcl. unfold startQueued.
  destruct (o_fails o 30); [by apply calm_good|].
  unfold Run_. destruct (runs (x_db x) !! q_run_id item) as [w|] eqn:Ew; [|by apply calm_good].
  assert (r_ID (scanRun w) = q_run_id item) as Hid by by apply (wf_keyed _ (proj1 (xi_db _ _ Hinv))).
  set (run := scanRun w) in *. clearbody run. rewrite <-Hid in *.
  pose proof (runEnv_calm (o_env o 13) x (Henv 13%nat)) as Hc1. set (x1 := runEnv x (o_env o 13)) in *. clearbody x1.
  destruct (negb (String.eqb _ _)); [by apply dropped_spec|].
  set (current := if o_fails o 31 then _ else _). clearbody current.
  assert (calm x (runEnv x1 (o_env o 14))) as Hc2 by (etrans; [exact Hc1|by apply runEnv_calm]).
  set (x2 := runEnv x1 (o_env o 14)) in *. clearbody x2.
  destruct (_ <=? _).
  { apply dropped_spec; [done..| |done]. etrans; [exact Hc2|]. by apply calm_core. }
  assert (forall e, started_spec (r_ID run) x (x2, Err e)) as Herr by (intros; by apply calm_good).
  destruct current as [[c hash]|e].
  2:{ destruct e; try apply Herr. destruct e; try apply Herr. by apply dropped_spec. }
  destruct (negb (_ =? _) || _) eqn:Ek; [by apply dropped_spec|].
  destruct (negb (IsEnabled c)); [by apply dropped_spec|].
  destruct (_ && (_ <? _)); [by apply dropped_spec|].
  destruct (skips c && _) eqn:Eov; [by apply dropped_spec|].
  assert (free_for x2 c) as Hf2 by (eapply (Active_free 1); [by apply Hc2|done]).
  pose proof (runEnv_calm (o_env o 15) x2 (Henv 15%nat)) as Hc3. set (x3 := runEnv x2 (o_env o 15)) in *. clearbody x3.
  assert (calm x x3) as Hc by (by etrans).
  destruct (isClosing x3); [by apply calm_good|]. destruct (o_fails o 32); [by apply calm_good|].
  destruct (DequeueRun _ _ _ _ _) as [db [[]|e]] eqn:Ed.
  - bools. eapply dequeue_launch; [done|exact Hc|done|done| |done| |exact Ed]; [exact (free_calm x2 x3 c Hc3 Hf2)|done].
  - simpl. assert (exec_inv 1 x3) as Hinv3 by by apply Hc. apply settled_good; [by apply tidy_calm|].
    apply not_dequeued in Ed; [|apply Hinv3]. pose proof (calm_claimed _ _ _ Hi Hc Hcl) as Hcl3.
    unfold claimed in Hcl3. by rewrite others_absent in Hcl3.
Qed.

(** [ExpireQueued] removes as many rows as it reports. *)
Lemma filter_split_length {A} (p : A -> bool) l :
  (length (List.filter p l) + length (List.filter (fun a => negb (p a)) l) = length l)%nat.
Proof. induction l as [|a l IH]; simpl; [done|]. destruct (p a); simpl; lia. Qed.

Lemma ExpireQueued_depth db now limit :
  wf db ->
  let '(db', ids) := ExpireQueued db now limit in
  queue_depth db' <= queue_depth db - Z.of_nat (length ids) /\ sublist (exec_queue db') (exec_queue db).
Proof.
  intros Hwf. unfold ExpireQueued. set (rows := expired_rows db now limit).
  assert (forall q, q ∈ rows -> q ∈ exec_queue db) as Hin.
  { intros q Hq. apply elem_of_take in Hq as (i & Hq & _). apply list_elem_of_lookup_2 in Hq.
    rewrite merge_sort_Permutation in Hq. by apply elem_of_filter_list in Hq as [Hq _]. }
  assert (NoDup rows) as Hnd.
  { unfold rows, expired_rows. eapply sublist_NoDup; [|apply sublist_take]. rewrite merge_sort_Permutation.
    eapply sublist_NoDup; [|apply filter_sublist]. eapply NoDup_fmap_1, (wf_nodup _ Hwf). }
  clearbody rows. destruct (q_run_id <$> rows) as [|i ids] eqn:Eids.
  { split; [simpl; lia|done]. }
  rewrite <-Eids. unfold queue_depth. simpl. split; [|apply filter_sublist]. rewrite length_fmap.
  set (p := fun q => existsb (String.eqb (q_run_id q)) (q_run_id <$> rows)).
  pose proof (filter_split_length p (exec_queue db)) as Hlen.
  assert (length rows <= length (List.filter p (exec_queue db)))%nat; [|unfold p in *; lia].
  apply submseteq_length, NoDup_submseteq; [done|]. intros q Hq. apply elem_of_filter_list.
  split; [by apply Hin|]. apply existsb_eqb_elem, list_elem_of_fmap. by exists q.
Qed.

(** * One operation of the service *)

(** The invariant holds afterwards, only runs named by [new] were launched or
    queued, and nothing is launched once shutdown has begun. *)
Record sound (new : string -> Prop) x x' : Prop := {
  so_inv : exec_inv 0 x';
  so_mirror : mirrors x';
  so_seen : forall i, seen x' i -> new i \/ seen x i;
  so_closing : isClosing x = true -> isClosing x' = true /\ x_launched x' = x_launched x
}.

Lemma good_sound id (new : string -> Prop) x x' : (new id \/ seen x id) -> good 0 id x x' -> sound new x x'.
Proof.
  intros Hnew []. split; [done..| |done]. intros i [->|?]%g_seen; tauto.
Qed.

Lemma tidy_sound new x x' : tidy 0 x x' -> mirrors x' -> sound new x x'.
Proof. intros [] Hm. split; auto. Qed.

Lemma calm_sound new x x' : exec_inv 0 x -> mirrors x -> calm x x' -> sound new x x'.
Proof.
  intros Hinv Hm Hc. pose proof (xi_items _ _ Hinv). apply tidy_sound; [by apply tidy_calm|by eapply calm_mirrors].
Qed.

Lemma sound_trans (new : string -> Prop) x y z :
  sound new x y -> (exec_inv 0 y -> mirrors y -> sound new y z) -> sound new x z.
Proof.
  intros [a1 a2 a3 a4] Hyz. destruct (Hyz a1 a2) as [b1 b2 b3 b4]. split; [done..| |].
  - intros i [?|Hs]%b3; [by left|]. by apply a3.
  - intros Hc. destruct (a4 Hc) as [Hc1 <-]. by apply b4.
Qed.

Lemma tidy_then (new : string -> Prop) h x y z : tidy h x y -> sound new y z -> sound new x z.
Proof.
  intros [a1 a2 a3 a4] [b1 b2 b3 b4]. split; [done..| |].
  - intros i [?|Hs]%b3; [by left|]. right. by apply a3.
  - intros Hc. destruct (b4 (a4 Hc)) as [? Hl]. split; [done|congruence].
Qed.

(** The heads of the queue are rows of the queue. *)
Lemma leastServed_elem x heads q : leastServed x heads = Some q -> q ∈ heads.
Proof.
  unfold leastServed.
  assert (forall l best q, foldl (fun best h => match best with
            | None => Some h
            | Some b => if servedAt x (q_definition_id h) <? servedAt x (q_definition_id b) then Some h else Some b
            end) best l = Some q -> best = Some q \/ q ∈ l) as Hl.
  { induction l as [|h l IH]; intros best q' Hf; [by left|]. simpl in Hf. rewrite elem_of_cons.
    apply IH in Hf as [Hb|Hq]; [|tauto]. destruct best as [b|]; [|injection Hb as <-; tauto].
    destruct (_ <? _); injection Hb as <-; tauto. }
  intros [?|?]%Hl; done.
Qed.

Lemma QueueHeads_elem db n q : q ∈ QueueHeads db n -> q ∈ exec_queue db.
Proof.
  intros (i & Hq & _)%elem_of_take. apply list_elem_of_lookup_2 in Hq.
  by apply elem_of_filter_list in Hq as [Hq _].
Qed.

Lemma drainHeld_sound x o new :
  exec_inv 1 x -> mirrors x -> (forall i, Forall envStep_ok (o_env o i)) -> sound new x (drainHeld x o).1.
Proof.
  intros Hinv Hm Henv.
  assert (forall x', tidy 1 x x' -> mirrors x' -> sound new x (releaseSlot x')) as Hrel.
  { intros x' Ht Hm'. apply tidy_sound; [by apply (tidy_release 0)|done]. }
  assert (tidy 1 x x) as Hrefl by (by apply tidy_calm).
  unfold drainHeld, nextItem. destruct (o_fails o 26); [by apply Hrel|].
  destruct (leastServed _ _) as [item|] eqn:El.
  2:{ destruct (o_fails o 27); [by apply Hrel|]. apply Hrel; [|unfold mirrors, x_db; simpl; lia].
      destruct Hinv as [I1 I2 I3 I4 I5 I6 I7 I8 I9 I10 I11]. by split. }
  apply leastServed_elem, QueueHeads_elem in El.
  set (x1 := upd x_served _ _). assert (calm x x1) as Hc1 by by apply calm_core.
  pose proof (startQueued_ok x1 o item) as Hs. 
  assert (exec_inv 1 x1) as Hinv1 by by apply Hc1. specialize (Hs Hinv1 Hm El Henv).
  assert (forall i, seen x1 i -> seen x i) as Hseen by done. assert (seen x (q_run_id item)) as Hitem.
  { right. apply list_elem_of_fmap. by exists item. }
  assert (isClosing x1 = isClosing x /\ x_launched x1 = x_launched x) as [Ecl Ela] by done. clearbody x1.
  assert (forall held x', good held (q_run_id item) x1 x' -> good held (q_run_id item) x x') as Hg.
  { intros held x' []. split; [done..| |].
    - intros i [->|?]%g_seen; [by left|]. right. by apply Hseen.
    - rewrite <-Ecl, <-Ela. done. }
  destruct (startQueued x1 o item) as [x2 [started|e]]; simpl in Hs.
  2:{ eapply good_sound; [by right|]. by apply (release_good 0), Hg. }
  set (x3 := if 4096 <? _ then _ else _).
  assert (calm (x2 <| x_depth ::= Z.pred |>) x3) as Hc3.
  { apply calm_core. unfold x3. by destruct (4096 <? _). }
  clearbody x3.
  destruct started as [[c failed]|]; apply (good_sound (q_run_id item)); try (by right); apply Hg.
  - destruct Hs as [-> Hs]. eapply good_then; [exact Hs|]. intros. apply calm_good; [done..|].
    etrans; [exact Hc3|]. by apply calm_core.
  - apply (release_good 0). eapply good_then; [exact Hs|]. intros. by apply calm_good.
Qed.

(** Reaching the slots: one is held in the end, or the pass is over. *)
Lemma drainReady_tidy x o :
  exec_inv 0 x -> mirrors x -> (forall i, Forall envStep_ok (o_env o i)) ->
  match drainReady x o with
  | (y, Some _) => tidy 0 x y /\ mirrors y
  | (y, None) => tidy 1 x y /\ mirrors y
  end.
Proof.
  intros Hinv Hm Henv. unfold drainReady.
  assert (forall h x1 y, tidy 0 x x1 -> mirrors x1 -> exec_inv h x1 -> calm x1 y -> tidy h x y /\ mirrors y) as Hdone.
  { intros h x1 y Ht Hm1 Hi Hc. split; [|exact (calm_mirrors x1 y (xi_items _ _ Hi) Hc Hm1)].
    eapply tidy_trans; [exact Ht|]. by apply tidy_calm. }
  assert (tidy 0 x x) as Hrefl by by apply tidy_calm.
  destruct (x_depth x <=? 0); [by apply (Hdone 0 x)|]. destruct (o_fails o 24); [by apply (Hdone 0 x)|].
  pose proof (ExpireQueued_depth (x_db x) (o_now o 10) queueExpireBatch (proj1 (xi_db _ _ Hinv))) as Hex.
  pose proof (queue_op_tidy 0 x (OpExpire (o_now o 10) queueExpireBatch)) as Ht. cbn [apply_op] in Ht.
  destruct (ExpireQueued _ _ _) as [db ids]. destruct Hex as [Hdep Hsub]. cbn [fst] in Ht.
  specialize (Ht db (fun k => k - Z.of_nat (length ids)) Hinv eq_refl I Hsub).
  set (x1 := (set_db x db) <| x_depth ::= fun k => k - Z.of_nat (length ids) |>) in Ht.
  assert (mirrors x1) as Hm1 by (unfold mirrors, x_db in *; simpl; lia).
  assert (calm x1 (x1 <| x_expired ::= fun k => k + Z.of_nat (length ids) |>)) as Hc1 by by apply calm_core.
  pose proof (ti_inv _ _ _ Ht) as Hinv1.
  change (set_db x db) <| x_depth ::= fun k => k - Z.of_nat (length ids) |> with x1.
  set (x2 := x1 <| x_expired ::= fun k => k + Z.of_nat (length ids) |>) in *. clearbody x1 x2.
  destruct (length ids =? queueExpireBatch)%nat; [by apply (Hdone 0 x1)|].
  assert (calm x1 (runEnv x2 (o_env o 10))) as Hc2 by (etrans; [exact Hc1|by apply runEnv_calm]).
  set (x3 := runEnv x2 (o_env o 10)) in *. clearbody x3.
  destruct (x_depth x3 <=? 0); [by apply (Hdone 0 x1)|]. destruct (0 <? Sub _ _); [by apply (Hdone 0 x1)|].
  destruct (Z.ltb_spec (x_used x3) (x_maxRuns x3)) as [Hlt|]; cbn [negb]; [|by apply (Hdone 0 x1)].
  pose proof (take_slot 0 x3 (ca_inv _ _ Hc2 0 Hinv1) Hlt) as Hinv4.
  destruct (Hdone 0 x1 x3 Ht Hm1 Hinv1 Hc2) as [Ht3 Hm3]. set (x4 := x3 <| x_used ::= Z.succ |>) in *.
  assert (mirrors x4) as Hm4 by exact Hm3.
  assert (tidy 1 x x4) as Ht4 by (eapply tidy_trans; [exact Ht3|by split]). clearbody x4.
  pose proof (runEnv_calm (o_env o 11) x4 (Henv 11%nat)) as Hc5. set (x5 := runEnv x4 (o_env o 11)) in *. clearbody x5.
  assert (forall y, calm x4 y -> tidy 1 x y /\ mirrors y) as Hheld.
  { intros y Hc. split; [|exact (calm_mirrors x4 y (xi_items _ _ Hinv4) Hc Hm4)].
    eapply tidy_trans; [exact Ht4|]. by apply tidy_calm. }
  destruct (o_admit o).
  { destruct (Hheld x5 Hc5) as [H1 H2]. split; [by apply (tidy_release 0)|exact H2]. }
  assert (calm x4 (runEnv x5 (o_env o 12))) as Hc6 by (etrans; [exact Hc5|by apply runEnv_calm]).
  destruct (isClosing _); [|by apply Hheld].
  destruct (Hheld _ Hc6) as [H1 H2]. split; [by apply (tidy_release 0)|exact H2].
Qed.

Lemma drainStep_sound x o new :
  exec_inv 0 x -> mirrors x -> (forall i, Forall envStep_ok (o_env o i)) -> sound new x (drainStep x o).1.
Proof.
  intros Hinv Hm Henv. unfold drainStep. pose proof (drainReady_tidy x o Hinv Hm Henv) as Hr.
  destruct (drainReady x o) as [y [res|]]; destruct Hr as [Ht Hy]; [by apply tidy_sound|].
  eapply (tidy_then _ 1); [exact Ht|]. apply drainHeld_sound; [apply Ht|done|done].
Qed.

Lemma Stop_sound x o id new :
  exec_inv 0 x -> mirrors x -> (forall i, Forall envStep_ok (o_env o i)) -> sound new x (Stop x o id).1.
Proof.
  intros Hinv Hm Henv. unfold Stop. pose proof (stopActive_calm x id) as Hc1.
  destruct (stopActive x id) as [x1 []]; cbn [fst] in Hc1; [by apply calm_sound|].
  destruct (o_admit o); [by apply calm_sound|].
  assert (calm x (runEnv x1 (o_env o 0))) as Hc2 by (etrans; [exact Hc1|by apply runEnv_calm]).
  set (x2 := runEnv x1 (o_env o 0)) in *. clearbody x2.
  assert (calm x (stopActive x2 id).1) as Hc3 by (etrans; [exact Hc2|apply stopActive_calm]).
  destruct (stopActive x2 id) as [x3 []]; cbn [fst] in Hc3; [by apply calm_sound|].
  destruct (o_fails o 0); [by apply calm_sound|]. pose proof (xi_items _ _ Hinv) as Hi.
  assert (exec_inv 0 x3) as Hinv3 by by apply Hc3. assert (mirrors x3) as Hm3 by by eapply calm_mirrors.
  eapply (tidy_then _ 0); [by apply tidy_calm|]. clear Hc1 Hc2 Hc3.
  pose proof (endQueued_queue (x_db x3) id "stopped" "queue_cancelled" (o_now o 0)) as Eq.
  pose proof (fun f => queue_op_tidy 0 x3 (OpCancel id (o_now o 0)) _ f Hinv3 eq_refl I) as Ht.
  cbn [apply_op] in Ht. fold (CancelQueued (x_db x3) id (o_now o 0)) in Eq.
  assert (is_ok (CancelQueued (x_db x3) id (o_now o 0)).2 = true -> claimed id x3) as Hcl.
  { unfold CancelQueued, endQueued, update_run. destruct (runs (x_db x3) !! id) as [w|] eqn:Ew; [|done].
    destruct (status_in ["queued"] w) eqn:Es; [|done]. intros _.
    apply status_in_elem, list_elem_of_singleton in Es.
    pose proof (wf_run_queue _ (proj1 (xi_db _ _ Hinv3)) id w Ew Es) as (q & -> & Hq)%list_elem_of_fmap.
    by apply queued_claimed. }
  destruct (CancelQueued _ _ _) as [db res]. cbn [fst snd] in *.
  assert (sublist (exec_queue db) (exec_queue (x_db x3))) as Hs by (rewrite Eq; apply others_sublist).
  destruct res as [[]|e].
  - apply tidy_sound; [by apply (Ht Z.pred)|]. specialize (Hcl eq_refl).
    unfold mirrors, claimed, queue_depth, x_db in *. simpl. rewrite Eq. lia.
  - apply tidy_sound; [by apply (Ht (fun k => k))|]. apply sublist_length in Hs.
    unfold mirrors, queue_depth, x_db in *. simpl. lia.
Qed.

(** ** Retries *)

Lemma recordEvidence_calm os : (forall i k, Forall envStep_ok (o_env (os i) k)) ->
  forall items i n x, calm x (recordEvidence x os i items n).1.
Proof.
  intros Henv. induction items as [|it items IH]; intros i n x; [done|]. cbn [recordEvidence].
  pose proof (runEnv_calm (o_env (os i) 0) x (Henv i 0%nat)) as Hc. set (x1 := Executor.runEnv x _) in *. clearbody x1.
  destruct (isClosing x1); [done|].
  assert (forall z, calm x (x1 <| x_lost ::= fun k => k + z |>)) as Hl by (intros z; etrans; [exact Hc|by apply calm_core]).
  destruct (o_fails (os i) 0); [apply Hl|].
  pose proof (create_evolves (queueLimits x1) (x_h x1) (evidenceRun x1 (o_id (os i) 0) (o_now (os i) 0) it) ltac:(done)) as He.
  unfold x_db. destruct (CreateRun _ _) as [db [[]|e]]; [|apply Hl]. cbn [fst] in He.
  apply calm_history in He. etrans; [exact Hc|]. etrans; [exact He|]. apply IH.
Qed.

Lemma retryNow_sound x o it :
  exec_inv 0 x -> mirrors x -> ~ seen x (o_id o 0) -> (forall i, Forall envStep_ok (o_env o i)) ->
  sound (eq (o_id o 0)) x (retryNow x o it).
Proof.
  intros Hinv Hm Hns Henv. unfold retryNow. set (current := if o_fails o 40 then _ else _). clearbody current.
  assert (forall it', calm x (addRetry x it')) as Ha by (intros; apply calm_core, addRetry_core).
  destruct current as [[c hash]|e].
  2:{ destruct e; try destruct e; try (by apply calm_sound); destruct (isClosing x); apply calm_sound; done || apply Ha. }
  destruct (_ || _); [by apply calm_sound|].
  set (g := mkTrig _ _ _ _ _ _ _).
  pose proof (good_sound _ (eq (o_id o 0)) _ _ (or_introl eq_refl) (trigger_good x o g Hinv Hm Hns Henv)) as Ht.
  destruct (trigger x o g) as [x1 res]. cbn [fst] in Ht. destruct (tr_err res) as [[]|]; try done.
  eapply sound_trans; [exact Ht|]. intros. apply calm_sound; [done..|]. apply calm_core, addRetry_core.
Qed.

Lemma retryAll_sound os : (forall i k, Forall envStep_ok (o_env (os i) k)) ->
  (forall i j, i <> j -> o_id (os i) 0 <> o_id (os j) 0) ->
  forall due n x, exec_inv 0 x -> mirrors x -> (forall i, (n <= i)%nat -> ~ seen x (o_id (os i) 0)) ->
  sound (fun id => exists i, id = o_id (os i) 0) x (retryAll x os n due).
Proof.
  intros Henv Hinj. induction due as [|it due IH]; intros n x Hinv Hm Hns; [by apply calm_sound|]. cbn [retryAll].
  pose proof (runEnv_calm (o_env (os n) 20) x (Henv n 20%nat)) as Hc. set (x1 := Executor.runEnv x _) in *. clearbody x1.
  pose proof (xi_items _ _ Hinv) as Hi. assert (exec_inv 0 x1) as Hinv1 by by apply Hc.
  assert (mirrors x1) as Hm1 by by eapply calm_mirrors.
  eapply (tidy_then _ 0); [by apply tidy_calm|].
  assert (forall i, (n <= i)%nat -> ~ seen x1 (o_id (os i) 0)) as Hns1.
  { intros i Hle Hs. by apply (Hns i Hle), (calm_seen x x1). }
  destruct (isClosing x1); [by apply calm_sound|].
  destruct (retryNow_sound x1 (os n) it Hinv1 Hm1 (Hns1 n ltac:(lia)) (Henv n)) as [r1 r2 r3 r4].
  eapply sound_trans.
  - split; [exact r1|exact r2| |exact r4]. intros i [<-|?]%r3; [left; by exists n|by right].
  - intros H1 H2. apply IH; [done..|]. intros i Hle [Heq|Hs]%r3; [|by apply (Hns1 i); [lia|]].
    apply (Hinj n i); [lia|done].
Qed.

(** ** Every operation *)

Definition action_ok x (a : Action) : Prop :=
  match a with
  | ATrigger o _ _ _ _ _ => ~ seen x (o_id o 0) /\ forall i, Forall envStep_ok (o_env o i)
  | ADrain o | AStop o _ => forall i, Forall envStep_ok (o_env o i)
  | ARetry evidence os _ =>
      (forall i k, Forall envStep_ok (o_env (evidence i) k)) /\ (forall i k, Forall envStep_ok (o_env (os i) k)) /\
      (forall i, ~ seen x (o_id (os i) 0)) /\ (forall i j, i <> j -> o_id (os i) 0 <> o_id (os j) 0)
  | AEnv e => envStep_ok e
  | AMissed _ _ _ _ _ | AResume _ => True
  end.

Lemma execStep_sound x a :
  exec_inv 0 x -> mirrors x -> action_ok x a -> exists new, sound new x (execStep x a).
Proof.
  intros Hinv Hm Hok. destruct a; simpl in Hok |- *.
  - destruct Hok as [Hns Henv]. exists (eq (o_id o 0)). eapply good_sound; [by left|]. by apply trigger_good.
  - exists (fun _ => False). apply calm_sound; [done..|]. apply RecordMissed_calm.
  - exists (fun _ => False). by apply drainStep_sound.
  - destruct Hok as (He & Hos & Hns & Hinj). exists (fun id => exists i, id = o_id (os i) 0). unfold retryStep.
    set (x1 := (persistRetryEvidence x evidence).1).
    assert (calm x x1) as Hc1.
    { unfold x1, persistRetryEvidence. transitivity (x <| x_evidence := [] |>); [by apply calm_core|].
      by apply recordEvidence_calm. }
    clearbody x1. destruct (popDue _ _ _) as [due h].
    assert (calm x (x1 <| x_heap := h |>)) as Hc2 by (etrans; [exact Hc1|by apply calm_core]).
    set (x2 := x1 <| x_heap := h |>) in *. clearbody x2. pose proof (xi_items _ _ Hinv) as Hi.
    eapply (tidy_then _ 0); [by apply tidy_calm|]. apply retryAll_sound; [done..| | |].
    + by apply Hc2.
    + by eapply calm_mirrors.
    + intros i _ Hs. by apply (Hns i), (calm_seen x x2).
  - exists (fun _ => False). by apply Stop_sound.
  - exists (fun _ => False). unfold ResumeQueue. destruct fails; [by apply calm_sound|].
    set (x1 := x <| x_depth := _ |>). assert (tidy 0 x x1) as Ht.
    { destruct Hinv as [I1 I2 I3 I4 I5 I6 I7 I8 I9 I10 I11]. by split. }
    assert (mirrors x1) as Hm1 by apply Z.le_refl. clearbody x1.
    eapply tidy_then; [exact Ht|]. apply calm_sound; [by apply Ht|done|].
    simpl fst. destruct (_ && _); [by apply calm_core|done].
  - exists (fun _ => False). apply calm_sound; [done..|]. by apply envStep_calm.
Qed.

(** * Histories of the service *)

(** The service over a database, once [ResumeQueue] has counted the queue. *)
Definition resumed (db : DB) (bootID : string) (maxRuns : Z) (opt : QueueOptions) : Exec :=
  (ResumeQueue (New db bootID maxRuns opt) false).1.

(** The states after any sequence of operations. *)
Inductive reach (db : DB) (bootID : string) (maxRuns : Z) (opt : QueueOptions) : Exec -> Prop :=
| reach_start : reach db bootID maxRuns opt (resumed db bootID maxRuns opt)
| reach_step x a : reach db bootID maxRuns opt x -> action_ok x a -> reach db bootID maxRuns opt (execStep x a).

Lemma resumed_inv bootID maxRuns opt (db := origin) :
  wf db -> bounded (queueLimits (New db bootID maxRuns opt)) db ->
  exec_inv 0 (resumed db bootID maxRuns opt) /\ mirrors (resumed db bootID maxRuns opt).
Proof.
  intros Hwf Hb. unfold resumed, ResumeQueue. simpl fst.
  match goal with |- context [if ?b then ?y else ?z] => assert (exec_inv 0 z /\ mirrors z) as [Hi Hm] end.
  { split; [|apply Z.le_refl]. split; try done.
    - simpl. destruct (Z.leb_spec maxRuns 0); lia.
    - apply NoDup_nil_2.
    - intros id [a Ha]. simpl in Ha. by rewrite lookup_empty in Ha.
    - intros id Hid. by apply not_elem_of_nil in Hid. }
  destruct (_ && _); [|done]. destruct Hi as [I1 I2 I3 I4 I5 I6 I7 I8 I9 I10 I11]. split; [by split|done].
Qed.

Lemma exec_reach_inv bootID maxRuns opt x (db := origin) :
  wf db -> bounded (queueLimits (New db bootID maxRuns opt)) db ->
  reach db bootID maxRuns opt x -> exec_inv 0 x /\ mirrors x.
Proof.
  intros Hwf Hb. induction 1 as [|x a _ IH Hok]; [by apply resumed_inv|].
  destruct IH as [Hinv Hm]. destruct (execStep_sound x a Hinv Hm Hok) as [new []]. done.
Qed.

End loops.
