(* ===== verification/ExecFacts.v ===== *)
(** Correctness of the executor service: its safety over every history, the
    fairness of the queue drain and the retry scheduler's budget, order and
    accounting. *)

From S2P Require Import Prelude GoRuntime Model StoreDB StoreQueue StoreDefs StoreHistory StoreInv.
From S2P Require Import History HistoryRel Heap Executor ExecLoops ExecInv ExecLoopInv.
Open Scope Z_scope.

Section histories.
Context `{Codec}.
Context (db : DB) (bootID : string) (maxRuns : Z) (opt : QueueOptions).
Hypothesis db_wf : wf db.
Hypothesis db_bounded : bounded (queueLimits (New db bootID maxRuns opt)) db.
Implicit Types x : Exec.

#[local] Instance started_with : Origin := db.

(** C1: in every history of the service, however executions, storage failures and
    operator requests interleave, each taken capacity slot belongs to exactly one
    active job run, the configured number of concurrent runs is never exceeded,
    and [Active] counts the runs of each job exactly. *)
Theorem capacity_respected x :
  reach db bootID maxRuns opt x ->
  x_used x = jobs (x_active x) /\ x_used x <= x_maxRuns x /\
  forall n, Active x n = countA (named n) (x_active x).
Proof.
  intros Hr. destruct (exec_reach_inv _ _ _ x db_wf db_bounded Hr) as [Hinv _].
  split; [exact (xi_used _ _ Hinv)|]. split; [apply Hinv|apply Hinv].
Qed.

(** C3: two runs of a job admitted under the overlap policy "skip" are never
    active at the same time, whether they were triggered directly, by a retry or
    from the queue. *)
Theorem no_overlap x id1 id2 a1 a2 :
  reach db bootID maxRuns opt x ->
  x_active x !! id1 = Some a1 -> x_active x !! id2 = Some a2 -> exclusive a1 = true -> exclusive a2 = true ->
  d_Name (a_d a1) = d_Name (a_d a2) -> id1 = id2.
Proof. intros Hr. apply (xi_overlap 0). by apply (exec_reach_inv _ _ _ x db_wf db_bounded Hr). Qed.

(** C8: no run is launched twice, and a launched run is no longer in the queue: a
    queued item is started at most once even when its start races with expiry,
    cancellation or changes of its definition. *)
Theorem launched_once x :
  reach db bootID maxRuns opt x ->
  NoDup (x_launched x) /\ forall id, id ∈ x_launched x -> id ∉ queue_run_ids (x_db x).
Proof.
  intros Hr. destruct (exec_reach_inv _ _ _ x db_wf db_bounded Hr) as [Hinv _]. split; apply Hinv.
Qed.

(** C9: the service is a client of the store.  Whatever it does — triggers, the
    drain, retries, the history writer, interleaved requests — its database moves
    only along the store's operations ([StoreInv.step]: each write is one of the
    statements or transactions of the store, called as the store requires); so the
    queue tables stay well formed and within the configured limits.  The in-memory
    mirror never reports fewer items than are queued, so queued work is never
    forgotten. *)
Theorem queue_refinement x :
  reach db bootID maxRuns opt x ->
  rtc (StoreInv.step (queueLimits x)) db (x_db x) /\
  wf (x_db x) /\ bounded (queueLimits x) (x_db x) /\ queue_depth (x_db x) <= x_depth x.
Proof.
  intros Hr. destruct (exec_reach_inv _ _ _ x db_wf db_bounded Hr) as [Hinv Hm].
  destruct (xi_db _ _ Hinv). split; [exact (xi_steps _ _ Hinv)|done].
Qed.

(** One operation whose callers keep their guarantees. *)
Definition next x x' : Prop := exists a, action_ok x a /\ x' = execStep x a.

(** C15: once shutdown has begun it stays, and no run is launched any more: not by
    an operation that starts afterwards, and not by a trigger, a drain or a retry
    that was already past its first check when shutdown began — [launch] looks
    again where it registers the run, so no run is ever registered while the
    service is closing. *)
Theorem shutdown_final x :
  reach db bootID maxRuns opt x ->
  x_late x = [] /\
  (isClosing x = true -> forall x', rtc next x x' -> isClosing x' = true /\ x_launched x' = x_launched x).
Proof.
  intros Hr. split; [apply (xi_late 0); by apply (exec_reach_inv _ _ _ x db_wf db_bounded Hr)|].
  intros Hc x' Hs. induction Hs as [x|x y z (a & Hok & ->) _ IH]; [done|].
  destruct (exec_reach_inv _ _ _ x db_wf db_bounded Hr) as [Hinv Hm].
  destruct (execStep_sound x a Hinv Hm Hok) as [new []]. destruct (so_closing Hc) as [Hc' <-].
  apply IH; [by apply reach_step|done].
Qed.

End histories.

(** * What the loops own *)

Section loops.
Context `{Codec}.
Implicit Types x : Exec.

Definition retries_ok x : Prop :=
  heap rt_due (x_heap x) /\ Z.of_nat (length (x_heap x)) <= Z.max 0 (qo_MaxPendingRetries (x_opt x)) /\
  Z.of_nat (length (x_evidence x)) <= retryEvidenceCap.

(** Dropped retries that are neither lost nor waiting to be recorded. *)
Definition recorded x : Z := x_retriesDropped x - x_lost x - Z.of_nat (length (x_evidence x)).

(** A step outside the drain loop and the retry loop. *)
Record frame x x' : Prop := {
  fr_served : x_served x' = x_served x;
  fr_tick : x_tick x' = x_tick x;
  fr_opt : x_opt x' = x_opt x;
  fr_retries : retries_ok x -> retries_ok x';
  fr_recorded : recorded x' = recorded x
}.

#[export] Instance frame_preorder : PreOrder frame.
Proof.
  split; [by intros x; split|]. intros a b c [] []. split; [congruence..|auto|congruence].
Qed.

(** No loop-owned field is touched. *)
Lemma frame_same x x' :
  x_served x' = x_served x -> x_tick x' = x_tick x -> x_opt x' = x_opt x -> x_heap x' = x_heap x ->
  x_evidence x' = x_evidence x -> x_retriesDropped x' = x_retriesDropped x -> x_lost x' = x_lost x -> frame x x'.
Proof.
  intros E1 E2 E3 E4 E5 E6 E7. split; try done; unfold retries_ok, recorded; by rewrite ?E3, ?E4, ?E5, ?E6, ?E7.
Qed.

Ltac same := by apply frame_same.

Lemma length_tail {A} (l : list A) : length (tail l) = (length l - 1)%nat.
Proof. destruct l; simpl; lia. Qed.

Lemma addRetry_frame x it : frame x (addRetry x it).
Proof.
  unfold addRetry. destruct (isClosing x); [done|]. simpl.
  destruct (Z.leb_spec (qo_MaxPendingRetries (x_opt x)) (Z.of_nat (length (x_heap x)))).
  - destruct (Z.leb_spec retryEvidenceCap (Z.of_nat (length (x_evidence x)))); split; try done.
    + intros (Hh & Hl & He). split; [done|]. split; [done|]. simpl. rewrite length_app, length_tail. simpl.
      unfold retryEvidenceCap in *. lia.
    + unfold recorded. simpl. rewrite length_app, length_tail. simpl. unfold retryEvidenceCap in *. lia.
    + intros (Hh & Hl & He). split; [done|]. split; [done|]. simpl. rewrite length_app. simpl.
      unfold retryEvidenceCap in *. lia.
    + unfold recorded. simpl. rewrite length_app. simpl. lia.
  - split; try done. intros (Hh & Hl & He). destruct (Push_spec rt_due _ it Hh) as [Hp Hperm].
    split; [done|]. split; [|done]. simpl. apply Permutation_length in Hperm. rewrite Hperm. simpl. lia.
Qed.

Lemma scheduleRetry_frame x now r d : frame x (scheduleRetry x now r d).
Proof. unfold scheduleRetry. destruct (_ || _); [done|]. apply addRetry_frame. Qed.

Lemma envStep_frame x e : frame x (envStep x e).
Proof.
  destruct e; simpl; try same.
  - unfold executeEnd, releaseSlot. destruct (x_active x !! id); [|done].
    destruct (_ <=? _), (isJob _); same.
  - unfold completeRun. set (h := complete _ _ _ _ _ _ _ _ _). clearbody h.
    transitivity (x <| x_h := h |>); [same|]. set (x1 := x <| x_h := h |>). clearbody x1.
    generalize (take (length (h_finished h) - length (h_finished (x_h x))) (h_finished h)). intros l. revert x1.
    induction l as [|[r1 []] l IH]; intros x1; [done| |apply IH]. simpl. etrans; [|apply IH].
    apply scheduleRetry_frame.
  - unfold stopActive. destruct (x_active x !! id); [same|done].
  - unfold StopForShutdown. destruct (x_active x !! id); [same|done].
  - destruct (api_op op); [same|done].
Qed.

Lemma runEnv_frame l : forall x, frame x (runEnv x l).
Proof. induction l as [|e l IH]; intros x; [done|]. simpl. etrans; [apply envStep_frame|apply IH]. Qed.

Lemma launch_frame x o r d recorded : frame x (launch x o r d recorded).1.
Proof. unfold launch, releaseSlot. destruct (isClosing x), recorded, (isJob d); same. Qed.

Lemma recordSkipped_frame x o g reason : frame x (recordSkipped x o g reason).1.
Proof.
  unfold recordSkipped. destruct (with_key _).
  - destruct (o_fails o 10); [done|]. destruct (AdmitIdempotentRun _ _ _ _ _ _) as [db [e|e]]; [|done].
    destruct (negb _); same.
  - destruct (admitRow _ _ _ _ _) as [h [b [e|]]]; [destruct (occurrence _ _ _); same|]. destruct b; same.
Qed.

Lemma enqueue_frame x o g : frame x (enqueue x o g).1.
Proof.
  assert (forall r e, frame x (enqueueFailed x o g r e).1) as Hf.
  { intros r e. unfold enqueueFailed. destruct (o_ctx o 2); [done|]. destruct (occurrence _ _ _); [done|].
    destruct (String.eqb _ _); same. }
  unfold enqueue. destruct (o_fails o 20); [apply Hf|].
  destruct (EnqueueRun _ _ _ _ _ _ _) as [db [replay|e]].
  - destruct (negb _); [same|]. transitivity ((set_db x db) <| x_depth ::= Z.succ |>); [same|].
    etrans; [apply runEnv_frame|]. simpl fst. destruct (isClosing _); [done|same].
  - destruct e; try apply Hf; try done; try apply recordSkipped_frame.
    destruct (String.eqb _ "retry"); [same|]. destruct (String.eqb _ "manual"); [same|].
    etrans; [|apply recordSkipped_frame]. same.
Qed.

Lemma announceFailed_frame x now failed d : frame x (announceFailed x now failed d).
Proof. unfold announceFailed. destruct failed; [|done]. etrans; [|apply scheduleRetry_frame]. same. Qed.

Lemma admitted_frame x o g : frame x (admitted x o g).1.
Proof.
  assert (forall x1 r b now (k : option TErr -> TrigResult), frame x1
    (let '(x, (failed, err)) := launch (runEnv x1 (o_env o 3)) o r (tg_d g) b in
     (announceFailed x now failed (tg_d g), k err)).1) as Hs.
  { intros x1 r b now k. pose proof (launch_frame (runEnv x1 (o_env o 3)) o r (tg_d g) b) as Hl.
    destruct (launch _ _ _ _ _) as [x2 [failed err]]. cbn [fst] in *.
    etrans; [apply runEnv_frame|]. etrans; [exact Hl|]. apply announceFailed_frame. }
  unfold admitted. etrans; [apply (runEnv_frame (o_env o 2))|]. set (x1 := runEnv x (o_env o 2)). clearbody x1.
  assert (forall x2, frame x1 x2 -> frame x1 (if isJob (tg_d g) then releaseSlot x2 else x2)) as Hr.
  { intros x2 H2. etrans; [exact H2|]. destruct (isJob _); [same|done]. }
  destruct (with_key _).
  - destruct (o_fails o 0); [by apply Hr|]. destruct (AdmitIdempotentRun _ _ _ _ _ _) as [db [e|e]]; [|by apply Hr].
    destruct (negb _); [apply Hr; same|]. etrans; [|apply Hs]. same.
  - destruct (admitRow _ _ _ _ _) as [h [b [e|]]]; [destruct (occurrence _ _ _); apply Hr; same|].
    destruct b; [etrans; [|apply Hs]; same|]. destruct (_ && _).
    + destruct (skipUnrecorded _ _ _ _ _) as [h2 r2]. transitivity (if isJob (tg_d g) then releaseSlot (x1 <| x_h := h |>) else x1 <| x_h := h |>); [|same].
      apply Hr. same.
    + destruct (spool _ _ _ _ _ _) as [h2 []]; (etrans; [|apply Hs]); same.
Qed.

Lemma trigger_frame x o g : frame x (trigger x o g).1.
Proof.
  unfold trigger. destruct (isClosing x); [done|]. destruct (o_admit o); [done|].
  etrans; [apply (runEnv_frame (o_env o 0))|]. set (x0 := runEnv x _). clearbody x0.
  destruct (isClosing x0); [done|]. destruct (o_ctx o 0); [done|]. destruct (negb _); [done|].
  destruct (_ && _ && _); [apply recordSkipped_frame|].
  etrans; [apply (runEnv_frame (o_env o 1))|]. set (x1 := runEnv x0 _). clearbody x1.
  destruct (isJob _); [|apply admitted_frame].
  destruct (_ && _); [apply enqueue_frame|]. destruct (_ <? _); [etrans; [|apply admitted_frame]; same|].
  destruct (queueable _ _); [apply enqueue_frame|]. destruct (String.eqb _ _); [done|]. apply recordSkipped_frame.
Qed.

Lemma dropItem_frame x o run reason notify : frame x (dropItem x o run reason notify).1.
Proof.
  unfold dropItem. destruct (o_fails o 33); [done|]. destruct (DropQueued _ _ _ _) as [db [[]|]]; destruct notify; same.
Qed.

Lemma startQueued_frame x o item : frame x (startQueued x o item).1.
Proof.
  assert (forall x1 run reason notify, frame x1
    (match dropItem x1 o run reason notify with
     | (x, Err e) => (x, Err e)
     | (x, Ok _) => (x, Ok None)
     end : Exec * Result TErr (option (Definition_ * option Run))).1) as Hd.
  { intros x1 run reason notify. pose proof (dropItem_frame x1 o run reason notify) as Hf.
    by destruct (dropItem _ _ _ _ _) as [x2 []]. }
  unfold startQueued. destruct (o_fails o 30); [done|]. destruct (Run_ _ _) as [run|]; [|done].
  etrans; [apply (runEnv_frame (o_env o 13))|]. set (x1 := runEnv x _). clearbody x1.
  destruct (negb _); [apply Hd|]. set (current := if o_fails o 31 then _ else _). clearbody current.
  etrans; [apply (runEnv_frame (o_env o 14))|]. set (x2 := runEnv x1 _). clearbody x2.
  destruct (_ <=? _); [etrans; [|apply Hd]; same|]. destruct current as [[c hash]|e].
  2:{ destruct e as [| | | | | | | |e]; try done. destruct e; try done. }
  destruct (negb _ || _); [apply Hd|]. destruct (negb (IsEnabled c)); [apply Hd|].
  destruct (_ && (_ <? _)); [apply Hd|]. destruct (skips c && _); [apply Hd|].
  etrans; [apply (runEnv_frame (o_env o 15))|]. set (x3 := runEnv x2 _). clearbody x3.
  destruct (isClosing x3); [done|]. destruct (o_fails o 32); [done|].
  destruct (DequeueRun _ _ _ _ _) as [db [[]|]]; [|done].
  match goal with |- context [launch ?x4 o ?r c true] => pose proof (launch_frame x4 o r c true) as Hl;
    destruct (launch x4 o r c true) as [x5 [failed err]] end. cbn [fst] in *.
  etrans; [|exact Hl]. etrans; [|apply runEnv_frame]. same.
Qed.

(** * Retries *)

Lemma popDue_spec n now : forall h due h',
  heap rt_due h -> popDue n now h = (due, h') ->
  heap rt_due h' /\ due ++ h' ≡ₚ h /\ (length due <= n)%nat /\
  StronglySorted Z.le (rt_due <$> due) /\ Forall (fun it => rt_due it <= now) due /\
  (forall it it', it ∈ due -> it' ∈ h' -> rt_due it <= rt_due it') /\
  ((length due < n)%nat -> Forall (fun it => now < rt_due it) h').
Proof.
  induction n as [|n IH]; intros h due h' Hh; cbn [popDue].
  { intros [= <- <-]. split_and!; try done; [constructor|by intros ? ? ?%not_elem_of_nil|simpl; lia]. }
  pose proof (Pop_spec rt_due h Hh) as Hp. destruct (h !! 0%nat) as [top|] eqn:E0.
  2:{ intros [= <- <-]. destruct h; [|done].
      split_and!; try done; [simpl; lia|constructor|by intros ? ? ?%not_elem_of_nil]. }
  unfold After. destruct (Pop rt_due h) as [[it h1]|]; [|by rewrite Hp in E0].
  destruct Hp as (Hh1 & Hperm & Hroot & Hmin). assert (it = top) as -> by congruence.
  destruct (Z.ltb_spec now (rt_due top)) as [Hlt|Hge].
  { intros [= <- <-]. split_and!; try done; [simpl; lia|constructor|by intros ? ? ?%not_elem_of_nil|].
    intros _. eapply Forall_impl; [exact Hmin|]. simpl. lia. }
  destruct (popDue n now h1) as [due1 h2] eqn:Ep. intros [= <- <-].
  destruct (IH h1 due1 h2 Hh1 Ep) as (P1 & P2 & P3 & P4 & P5 & P6 & P7).
  assert (forall it', it' ∈ h1 -> rt_due top <= rt_due it') as Htop.
  { intros it' Hin. rewrite Forall_forall in Hmin. apply Hmin. rewrite <-Hperm. by right. }
  split_and!; [done| | | | | |].
  - simpl. by rewrite P2.
  - simpl. lia.
  - simpl. constructor; [done|]. apply Forall_forall. intros z (it' & -> & Hin)%list_elem_of_fmap.
    apply Htop. rewrite <-P2. apply elem_of_app. by left.
  - constructor; [lia|done].
  - intros i i' [->|Hi]%elem_of_cons Hi'; [|by apply P6].
    apply Htop. rewrite <-P2. apply elem_of_app. by right.
  - simpl. intros Hl. apply P7. lia.
Qed.

(** A pass of the retry scheduler takes due retries only, at most sixteen, the
    earliest first; what it leaves is not earlier than anything it took, and
    nothing due is left unless the batch is full. *)
Theorem retry_batch now h due h' :
  heap rt_due h -> popDue retryBatch now h = (due, h') ->
  heap rt_due h' /\ due ++ h' ≡ₚ h /\ (length due <= 16)%nat /\
  StronglySorted Z.le (rt_due <$> due) /\ Forall (fun it => rt_due it <= now) due /\
  (forall it it', it ∈ due -> it' ∈ h' -> rt_due it <= rt_due it') /\
  ((length due < 16)%nat -> Forall (fun it => now < rt_due it) h').
Proof. apply popDue_spec. Qed.

Lemma retryNow_frame x o it : frame x (retryNow x o it).
Proof.
  unfold retryNow. set (current := if o_fails o 40 then _ else _). clearbody current.
  destruct current as [[c hash]|e].
  2:{ destruct e as [| | | | | | | |e]; try destruct e; try done;
        destruct (isClosing x); done || apply addRetry_frame. }
  destruct (_ || _); [done|]. set (g := mkTrig _ _ _ _ _ _ _). pose proof (trigger_frame x o g) as Ht.
  destruct (trigger x o g) as [x1 res]. cbn [fst] in Ht. destruct (tr_err res) as [[]|]; try done.
  etrans; [exact Ht|]. apply addRetry_frame.
Qed.

Lemma retryAll_frame os due : forall n x, frame x (retryAll x os n due).
Proof.
  induction due as [|it due IH]; intros n x; [done|]. cbn [retryAll].
  etrans; [apply (runEnv_frame (o_env (os n) 20))|]. destruct (isClosing _); [done|].
  etrans; [apply retryNow_frame|apply IH].
Qed.

Lemma recordEvidence_spec os items : forall i n x x' n',
  recordEvidence x os i items n = (x', n') ->
  (retries_ok x -> retries_ok x') /\
  (isClosing x' = false -> recorded x' = recorded x - Z.of_nat (length items) + (n' - n)).
Proof.
  induction items as [|it items IH]; intros i n x x' n'; cbn [recordEvidence].
  { intros [= <- <-]. split; [done|]. simpl. lia. }
  destruct (runEnv_frame (o_env (os i) 0) x) as [_ _ _ Fr Fe]. set (x1 := runEnv x _) in *. clearbody x1.
  destruct (isClosing x1) eqn:Ec; [intros [= <- <-]; split; [done|congruence]|].
  assert (forall y, y = x1 <| x_lost ::= fun k => k + Z.of_nat (length (it :: items)) |> ->
    (retries_ok x -> retries_ok y) /\ (isClosing y = false -> recorded y = recorded x - Z.of_nat (length (it :: items)) + (n - n))) as Hlose.
  { intros y ->. split; [done|]. intros _. rewrite <-Fe. unfold recorded. simpl. lia. }
  destruct (o_fails (os i) 0); [intros [= <- <-]; by apply Hlose|].
  destruct (CreateRun _ _) as [db [[]|e]]; [|intros [= <- <-]; by apply Hlose].
  intros Hr. apply IH in Hr as [H1 H2]. split; [auto|]. intros Hc. rewrite (H2 Hc).
  change (recorded (set_db x1 db)) with (recorded x1). rewrite Fe. simpl. lia.
Qed.

(** No dropped retry disappears silently.  Over one pass of the evidence
    writer that shutdown does not cut short, whatever fails and however many
    further retries are dropped meanwhile, the dropped retries that are neither
    counted as lost nor still waiting grow by exactly the skipped/retry_dropped
    rows it wrote. *)
Theorem evidence_accounting x os x' written :
  persistRetryEvidence x os = (x', written) -> isClosing x' = false ->
  x_retriesDropped x' - x_lost x' - Z.of_nat (length (x_evidence x')) =
  x_retriesDropped x - x_lost x - Z.of_nat (length (x_evidence x)) + written.
Proof.
  intros Hp Hc. apply recordEvidence_spec in Hp as [_ Hr]. specialize (Hr Hc). unfold recorded in Hr. simpl in Hr. lia.
Qed.

Lemma drainHeld_opt x o : (retries_ok x -> retries_ok (drainHeld x o).1).
Proof.
  unfold drainHeld. destruct (nextItem _ _) as [[item|]|]; [|by destruct (o_fails o 27)|done].
  intros Hok. set (x1 := upd x_served _ _). assert (retries_ok x1) as H1 by done. clearbody x1.
  pose proof (fr_retries _ _ (startQueued_frame x1 o item) H1) as H2.
  destruct (startQueued x1 o item) as [x2 [started|e]]; [|exact H2]. cbn [fst] in H2.
  set (x3 := if 4096 <? _ then _ else _). assert (retries_ok x3) as H3 by (unfold x3; by destruct (4096 <? _)).
  clearbody x3. destruct started as [[c failed]|]; [|exact H3]. by apply announceFailed_frame.
Qed.

Lemma drainReady_frame x o : frame x (drainReady x o).1.
Proof.
  unfold drainReady, releaseSlot. destruct (x_depth x <=? 0); [done|]. destruct (o_fails o 24); [done|].
  destruct (ExpireQueued _ _ _) as [db ids]. set (x1 := upd x_expired _ _).
  assert (frame x x1) as H1 by same. clearbody x1. destruct (length ids =? _)%nat; [done|].
  assert (frame x (runEnv x1 (o_env o 10))) as H2 by (etrans; [exact H1|apply runEnv_frame]).
  set (x2 := runEnv x1 _) in *. clearbody x2.
  destruct (x_depth x2 <=? 0); [done|]. destruct (0 <? Sub _ _); [done|]. destruct (negb _); [done|].
  assert (frame x (runEnv (x2 <| x_used ::= Z.succ |>) (o_env o 11))) as H3.
  { etrans; [exact H2|]. etrans; [|apply runEnv_frame]. same. }
  set (x3 := runEnv _ _) in *. clearbody x3. destruct (o_admit o); [etrans; [exact H3|same]|].
  assert (frame x (runEnv x3 (o_env o 12))) as H4 by (etrans; [exact H3|apply runEnv_frame]).
  set (x4 := runEnv _ _) in *. clearbody x4. destruct (isClosing x4); [etrans; [exact H4|same]|done].
Qed.

Lemma drainStep_retries x o : retries_ok x -> retries_ok (drainStep x o).1.
Proof.
  intros Hok. unfold drainStep. pose proof (fr_retries _ _ (drainReady_frame x o) Hok) as Hy.
  destruct (drainReady x o) as [y [res|]]; [done|]. by apply drainHeld_opt.
Qed.

Lemma execStep_retries x a : retries_ok x -> retries_ok (execStep x a).
Proof.
  intros Hok. destruct a; simpl.
  - by apply (trigger_frame x).
  - unfold RecordMissed. destruct (admitRow _ _ _ _ _) as [h [b [e|]]]; [by destruct (occurrence _ _ _)|by destruct b].
  - by apply drainStep_retries.
  - unfold retryStep. assert (retries_ok (persistRetryEvidence x evidence).1) as H1.
    { unfold persistRetryEvidence. destruct (recordEvidence _ _ _ _ _) as [x1 n] eqn:E.
      apply recordEvidence_spec in E as [Hr _]. apply Hr. destruct Hok as (Hh & Hl & He).
      split; [done|]. split; [done|]. unfold retryEvidenceCap. simpl. lia. }
    set (x1 := (persistRetryEvidence x evidence).1) in *. clearbody x1.
    destruct (popDue _ _ _) as [due h] eqn:Ep. destruct H1 as (Hh & Hl & He).
    destruct (popDue_spec _ _ _ _ _ Hh Ep) as (P1 & P2 & _). apply (retryAll_frame os due 0).
    split; [done|]. split; [|done]. simpl. apply Permutation_length in P2. rewrite length_app in P2. lia.
  - unfold Stop. destruct (stopActive x id) as [x1 b] eqn:E1.
    assert (retries_ok x1) as H1. { replace x1 with (stopActive x id).1 by by rewrite E1. by apply (envStep_frame x (XStop id)). }
    destruct b; [done|]. destruct (o_admit o); [done|]. apply (runEnv_frame (o_env o 0)) in H1.
    set (x2 := runEnv _ _) in *. clearbody x2. destruct (stopActive x2 id) as [x3 b] eqn:E3.
    assert (retries_ok x3) as H3. { replace x3 with (stopActive x2 id).1 by by rewrite E3. by apply (envStep_frame x2 (XStop id)). }
    destruct b; [done|]. destruct (o_fails o 0); [done|]. by destruct (CancelQueued _ _ _) as [db []].
  - unfold ResumeQueue. destruct fails; [done|]. simpl fst. by destruct (_ && _).
  - by apply envStep_frame.
Qed.

(** In every history of the service the pending retries form a heap of at most
    [MaxPendingRetries] items (so the loop's timer is armed for the earliest one)
    and at most 64 dropped retries wait to be recorded. *)
Theorem retry_budget_bounded db bootID maxRuns opt x :
  reach db bootID maxRuns opt x ->
  heap rt_due (x_heap x) /\ PendingRetries x <= Z.max 0 (qo_MaxPendingRetries (x_opt x)) /\
  Z.of_nat (length (x_evidence x)) <= 64.
Proof.
  intros Hr. assert (retries_ok x) as Hok; [|exact Hok].
  induction Hr as [|x a _ IH _]; [|by apply execStep_retries].
  unfold resumed, ResumeQueue. simpl fst. destruct (_ && _);
    (split; [intros i Hi; simpl in Hi; lia|]); split; unfold retryEvidenceCap; simpl; lia.
Qed.

(** * Fairness of the drain *)

Definition ticks_ok x : Prop := 0 <= x_tick x /\ forall d, servedAt x d <= x_tick x.

Lemma frame_ticks x x' : frame x x' -> ticks_ok x -> ticks_ok x'.
Proof. intros []. unfold ticks_ok, servedAt. by rewrite fr_served0, fr_tick0. Qed.

Lemma servedAt_insert x x' d t d' :
  x_served x' = <[d := t]> (x_served x) -> servedAt x' d' = if d' =? d then t else servedAt x d'.
Proof.
  intros E. unfold servedAt. rewrite E. destruct (Z.eqb_spec d' d) as [->|Hne].
  - by rewrite lookup_insert_eq.
  - by rewrite lookup_insert_ne.
Qed.

(** Serving an item stamps its definition, unless the table is full and cleared. *)
Lemma drainHeld_serves x o q :
  nextItem x (o_fails o 26) = Ok (Some q) ->
  let x' := (drainHeld x o).1 in
  x_tick x' = x_tick x + 1 /\
  (x_served x' = <[q_definition_id q := x_tick x + 1]> (x_served x) \/
   x_served x' = ∅ /\ 4096 <= Z.of_nat (size (x_served x))).
Proof.
  intros Hn. unfold drainHeld. rewrite Hn. set (x1 := upd x_served _ _).
  assert (x_tick x1 = x_tick x + 1 /\ x_served x1 = <[q_definition_id q := x_tick x + 1]> (x_served x)) as [Et Es] by done.
  clearbody x1. destruct (startQueued_frame x1 o q) as [Fs Ft _ _ _].
  destruct (startQueued x1 o q) as [x2 [started|e]]; cbn [fst] in Fs, Ft.
  2:{ simpl. rewrite Ft, Fs, Et, Es. auto. }
  set (x3 := if 4096 <? _ then _ else _).
  assert (x_tick x3 = x_tick x + 1 /\ (x_served x3 = <[q_definition_id q := x_tick x + 1]> (x_served x) \/
     x_served x3 = ∅ /\ 4096 <= Z.of_nat (size (x_served x)))) as Hx3.
  { unfold x3. simpl. rewrite Fs, Es. destruct (Z.ltb_spec 4096 (Z.of_nat (size (<[q_definition_id q := x_tick x + 1]> (x_served x))))) as [Hb|Hb];
      simpl; (split; [congruence|]); [right|left; congruence]. split; [done|].
    destruct (x_served x !! q_definition_id q) eqn:E.
    - rewrite map_size_insert_Some in Hb by done. lia.
    - rewrite map_size_insert_None in Hb by done. lia. }
  clearbody x3. destruct started as [[c failed]|]; [|exact Hx3].
  destruct (announceFailed_frame (x3 <| x_nextStart := Add (o_now o 14) (Second ÷ qo_DrainRate (x_opt x3)) |>)
              (o_now o 15) failed c) as [Gs Gt _ _ _]. cbn [fst]. by rewrite Gs, Gt.
Qed.

Lemma drainHeld_ticks x o : ticks_ok x -> ticks_ok (drainHeld x o).1.
Proof.
  intros [Ht Hs]. destruct (nextItem x (o_fails o 26)) as [[q|]|e] eqn:En.
  - destruct (drainHeld_serves x o q En) as [Et [Es|[Es _]]]; (split; [lia|]); intros d; rewrite Et.
    + rewrite (servedAt_insert _ _ _ _ d Es). destruct (_ =? _); [lia|]. specialize (Hs d). lia.
    + unfold servedAt. rewrite Es, lookup_empty. simpl. lia.
  - unfold drainHeld. rewrite En. by destruct (o_fails o 27).
  - unfold drainHeld. by rewrite En.
Qed.

Lemma drainStep_ticks x o : ticks_ok x -> ticks_ok (drainStep x o).1.
Proof.
  intros Hok. unfold drainStep. pose proof (frame_ticks _ _ (drainReady_frame x o) Hok) as Hy.
  destruct (drainReady x o) as [y [res|]]; [done|]. by apply drainHeld_ticks.
Qed.

Lemma execStep_ticks x a : ticks_ok x -> ticks_ok (execStep x a).
Proof.
  intros Hok. destruct a; simpl.
  - eapply frame_ticks; [apply trigger_frame|done].
  - unfold RecordMissed. destruct (admitRow _ _ _ _ _) as [h [b [e|]]]; [by destruct (occurrence _ _ _)|by destruct b].
  - by apply drainStep_ticks.
  - unfold retryStep. set (x1 := (persistRetryEvidence x evidence).1).
    assert (ticks_ok x1) as H1.
    { unfold x1, persistRetryEvidence. generalize 0%nat, 0. assert (ticks_ok (x <| x_evidence := [] |>)) as H0 by done.
      revert H0. generalize (x <| x_evidence := [] |>). clear x1.
      induction (x_evidence x) as [|it l IH]; intros y Hy i n; [done|]. cbn [recordEvidence].
      apply (frame_ticks _ _ (runEnv_frame (o_env (evidence i) 0) y)) in Hy. set (y1 := runEnv y _) in *. clearbody y1.
      destruct (isClosing y1); [done|]. destruct (o_fails (evidence i) 0); [done|].
      destruct (CreateRun _ _) as [db [[]|e]]; [|done]. by apply IH. }
    clearbody x1. destruct (popDue _ _ _) as [due h]. eapply frame_ticks; [apply retryAll_frame|done].
  - unfold Stop. pose proof (frame_ticks _ _ (envStep_frame x (XStop id)) Hok) as H1. cbn [envStep] in H1.
    destruct (stopActive x id) as [x1 b]. cbn [fst] in H1. destruct b; [done|]. destruct (o_admit o); [done|].
    apply (frame_ticks _ _ (runEnv_frame (o_env o 0) x1)) in H1. set (x2 := runEnv _ _) in *. clearbody x2.
    pose proof (frame_ticks _ _ (envStep_frame x2 (XStop id)) H1) as H2. cbn [envStep] in H2.
    destruct (stopActive x2 id) as [x3 b]. cbn [fst] in H2. destruct b; [done|]. destruct (o_fails o 0); [done|].
    by destruct (CancelQueued _ _ _) as [db []].
  - unfold ResumeQueue. destruct fails; [done|]. simpl fst. by destruct (_ && _).
  - eapply frame_ticks; [apply envStep_frame|done].
Qed.

Lemma leastServed_min x heads q :
  leastServed x heads = Some q -> forall h, h ∈ heads -> servedAt x (q_definition_id q) <= servedAt x (q_definition_id h).
Proof.
  unfold leastServed.
  assert (forall l best q, foldl (fun best h => match best with
            | None => Some h
            | Some b => if servedAt x (q_definition_id h) <? servedAt x (q_definition_id b) then Some h else Some b
            end) best l = Some q ->
     (forall b, best = Some b -> servedAt x (q_definition_id q) <= servedAt x (q_definition_id b)) /\
     forall h, h ∈ l -> servedAt x (q_definition_id q) <= servedAt x (q_definition_id h)) as Hl.
  { induction l as [|h l IH]; intros best q' Hf; simpl in Hf.
    - split; [intros b Hb; rewrite Hf in Hb; injection Hb as ->; lia|by intros h ?%not_elem_of_nil].
    - apply IH in Hf as [Hb Hr]. assert (servedAt x (q_definition_id q') <= servedAt x (q_definition_id h) /\
        forall b, best = Some b -> servedAt x (q_definition_id q') <= servedAt x (q_definition_id b)) as [Hh Hbest].
      { destruct best as [b|]; [|split; [by apply Hb|done]].
        destruct (Z.ltb_spec (servedAt x (q_definition_id h)) (servedAt x (q_definition_id b))).
        - specialize (Hb h eq_refl). split; [done|]. intros b' [= ->]. lia.
        - specialize (Hb b eq_refl). split; [lia|]. intros b' [= ->]. lia. }
      split; [done|]. intros h' [->|Hh']%elem_of_cons; [done|by apply Hr]. }
  intros Hf. apply (Hl _ _ _ Hf).
Qed.

(** The state in which a drain pass picks an item — it holds a capacity slot and
    the admission slot by then — and the definition it serves; no other operation
    serves one. *)
Definition servedBy x (a : Action) : option (Exec * Z) :=
  match a with
  | ADrain o =>
      match drainReady x o with
      | (y, None) => match nextItem y (o_fails o 26) with
                     | Ok (Some q) => Some (y, q_definition_id q)
                     | _ => None
                     end
      | _ => None
      end
  | _ => None
  end.

(** Definition [b] waits at one of the heads the drain looks at: the oldest queued
    run of each definition, the 64 oldest of these. *)
Definition waits (b : Z) x : Prop :=
  exists h, h ∈ QueueHeads (x_db x) queueHeadWindow /\ q_definition_id h = b.

(** A history of the service and the definitions its drain passes served, in
    order.  [b] waits at a head whenever one is served, and the table of ticks is
    not full then (it is cleared above 4096 definitions). *)
Inductive services (b : Z) : Exec -> list Z -> Exec -> Prop :=
| sv_nil x : services b x [] x
| sv_quiet x a l z :
    action_ok x a -> servedBy x a = None -> services b (execStep x a) l z -> services b x l z
| sv_serve x a y d l z :
    action_ok x a -> servedBy x a = Some (y, d) -> waits b y -> Z.of_nat (size (x_served y)) < 4096 ->
    services b (execStep x a) l z -> services b x (d :: l) z.

Lemma execStep_served x a : servedBy x a = None -> x_served (execStep x a) = x_served x /\ x_tick (execStep x a) = x_tick x.
Proof.
  intros Ha. destruct a; simpl.
  - destruct (trigger_frame x o (mkTrig d hash trig scheduled idem 1 "")). done.
  - unfold RecordMissed. destruct (admitRow _ _ _ _ _) as [h [b [e|]]]; [by destruct (occurrence _ _ _)|by destruct b].
  - unfold drainStep. destruct (drainReady_frame x o) as [E1 E2 _ _ _]. cbn [servedBy] in Ha.
    destruct (drainReady x o) as [y [res|]]; [done|]. cbn [fst] in E1, E2. rewrite <-E1, <-E2.
    unfold drainHeld. destruct (nextItem y (o_fails o 26)) as [[q|]|e]; [done| |done].
    by destruct (o_fails o 27).
  - unfold retryStep. set (x1 := (persistRetryEvidence x evidence).1).
    assert (x_served x1 = x_served x /\ x_tick x1 = x_tick x) as [<- <-].
    { unfold x1, persistRetryEvidence. generalize 0%nat, 0.
      change (x_served x) with (x_served (x <| x_evidence := [] |>)). change (x_tick x) with (x_tick (x <| x_evidence := [] |>)).
      generalize (x <| x_evidence := [] |>). clear x1.
      induction (x_evidence x) as [|it l IH]; intros y i n; [done|]. cbn [recordEvidence].
      destruct (runEnv_frame (o_env (evidence i) 0) y) as [<- <- _ _ _]. set (y1 := runEnv y _) in *. clearbody y1.
      destruct (isClosing y1); [done|]. destruct (o_fails (evidence i) 0); [done|].
      destruct (CreateRun _ _) as [db [[]|e]]; [|done]. apply (IH (set_db y1 db)). }
    clearbody x1. destruct (popDue _ _ _) as [due h].
    destruct (retryAll_frame os due 0 (x1 <| x_heap := h |>)). done.
  - unfold Stop. destruct (envStep_frame x (XStop id)) as [E1 E2 _ _ _]. cbn [envStep] in *.
    destruct (stopActive x id) as [x1 b]. cbn [fst] in *. rewrite <-E1, <-E2. destruct b; [done|]. destruct (o_admit o); [done|].
    destruct (runEnv_frame (o_env o 0) x1) as [<- <- _ _ _]. set (x2 := runEnv _ _) in *. clearbody x2.
    destruct (envStep_frame x2 (XStop id)) as [E3 E4 _ _ _]. cbn [envStep] in *.
    destruct (stopActive x2 id) as [x3 b]. cbn [fst] in *. rewrite <-E3, <-E4. destruct b; [done|].
    destruct (o_fails o 0); [done|]. by destruct (CancelQueued _ _ _) as [db []].
  - unfold ResumeQueue. destruct fails; [done|]. simpl fst. by destruct (_ && _).
  - destruct (envStep_frame x e). done.
Qed.

(** A pass that serves [d] stamps it with the next tick, and [d] was served least
    recently among the definitions that waited. *)
Lemma served_step b x a y d :
  servedBy x a = Some (y, d) -> waits b y -> Z.of_nat (size (x_served y)) < 4096 ->
  x_served (execStep x a) = <[d := x_tick x + 1]> (x_served x) /\ servedAt x d <= servedAt x b.
Proof.
  destruct a; try done. intros Hs Hw Hsz. cbn [execStep servedBy] in *. unfold drainStep.
  destruct (drainReady_frame x o) as [E1 E2 _ _ _]. destruct (drainReady x o) as [y' [res|]]; [done|].
  destruct (nextItem y' (o_fails o 26)) as [[q|]|] eqn:Hn; [|done|done]. injection Hs as -> <-. cbn [fst] in E1, E2.
  destruct (drainHeld_serves y o q Hn) as [_ [Es|[_ Hbig]]]; [|lia]. split; [by rewrite Es, E1, E2|].
  unfold nextItem in Hn. destruct (o_fails o 26); [done|]. injection Hn as Hn. destruct Hw as (h & Hh & <-).
  pose proof (leastServed_min y _ _ Hn h Hh) as Hmin. unfold servedAt in *. by rewrite E1 in Hmin.
Qed.

Lemma services_distinct b x l z :
  services b x l z -> ticks_ok x -> b ∉ l ->
  NoDup l /\ forall d, servedAt x b < servedAt x d -> d ∉ l.
Proof.
  induction 1 as [x|x a l z _ Ha _ IH|x a y q l z _ Ha Hw Hsz _ IH]; intros Hok Hb.
  - split; [apply NoDup_nil_2|]. intros d _. apply not_elem_of_nil.
  - destruct (execStep_served x a Ha) as [E1 E2]. unfold servedAt in *. rewrite E1 in IH.
    apply IH; [by apply execStep_ticks|done].
  - destruct (served_step b x a y q Ha Hw Hsz) as [Es Hmin].
    apply not_elem_of_cons in Hb as [Hbq Hbl].
    destruct IH as [Hnd Hrest]; [by apply execStep_ticks|done|].
    assert (servedAt (execStep x a) b = servedAt x b) as Eb.
    { rewrite (servedAt_insert _ _ _ _ b Es). by rewrite (proj2 (Z.eqb_neq _ _) Hbq). }
    destruct Hok as [_ Hle]. specialize (Hle b) as Hleb. split.
    + constructor; [|done]. apply Hrest. rewrite Eb, (servedAt_insert _ _ _ _ _ Es), Z.eqb_refl. lia.
    + intros d Hd. apply not_elem_of_cons. assert (d <> q) as Hdq by (intros ->; lia).
      split; [done|]. apply Hrest. rewrite Eb, (servedAt_insert _ _ _ _ _ Es), (proj2 (Z.eqb_neq _ _) Hdq). done.
Qed.

(** C25: the drain is fair.  In every history of the service in which a definition
    waits among the 64 queue heads the drain looks at, and the table of the
    definitions served stays below its 4096 entries, no other definition is served
    twice before it, whatever else the service does in between; so it waits for at
    most as many services as other definitions have queued runs. *)
Theorem drain_fair db bootID maxRuns opt x b l z :
  reach db bootID maxRuns opt x -> services b x l z -> b ∉ l ->
  NoDup l /\ forall D : gset Z, (forall d, d ∈ l -> d ∈ D) -> (length l <= size (D ∖ {[ b ]}))%nat.
Proof.
  intros Hr Hs Hb. assert (ticks_ok x) as Hok.
  { clear Hs. induction Hr as [|x a _ IH _]; [|by apply execStep_ticks].
    unfold resumed, ResumeQueue. simpl fst. destruct (_ && _); (split; [simpl; lia|]); intros d;
      unfold servedAt; simpl; by rewrite lookup_empty. }
  destruct (services_distinct b x l z Hs Hok Hb) as [Hnd _]. split; [done|]. intros D HD.
  rewrite <-(size_list_to_set (C := gset Z) l Hnd). apply subseteq_size. intros d Hd.
  apply elem_of_list_to_set in Hd. apply elem_of_difference. split; [by apply HD|].
  rewrite elem_of_singleton. by intros ->.
Qed.

End loops.
