(* ===== verification/ExecDemo.v ===== *)
(** Concrete histories of the executor service: witnesses of the theorems of
    [ExecFacts]. *)

From S2P Require Import Prelude GoRuntime Model StoreDB StoreQueue StoreDefs StoreHistory StoreInv.
From S2P Require Import History HistoryRel Heap Executor ExecLoops ExecInv ExecLoopInv ExecFacts.
Open Scope Z_scope.

Module ExecDemo.

(** Definitions stored by name; each is a job that must not overlap. *)
#[local] Instance codec : Codec := {|
  encode_definition d := d_Name d;
  decode_definition s := Some (zeroDefinition <| d_Name := s |> <| d_Kind := KindJob |> <| d_OnOverlap := "skip" |>);
  sha256_hex s := s
|}.

Definition now : Time := of_UnixMicro 1000000.
Definition job (id : Z) (name : string) : Definition_ :=
  zeroDefinition <| d_ID := id |> <| d_Name := name |> <| d_Kind := KindJob |> <| d_OnOverlap := "skip" |>.

Definition opt : QueueOptions := mkQueueOptions false 0 0 0 0 0 0 0.
Definition lim : QueueLimits := queueLimits (New emptyDB "boot" 1 opt).
Definition db1 : DB := apply_op lim (OpPut now (job 0 "backup") 0 "api" false) emptyDB.
Definition db2 : DB := apply_op lim (OpPut now (job 0 "clean") 0 "api" false) db1.
Definition db : DB := apply_op lim (OpPut now (job 0 "report") 0 "api" false) db2.

Lemma db_inv : Inv lim db.
Proof.
  unfold db, db2, db1. do 3 (apply apply_op_Inv; [exact I|]).
  split; [apply wf_empty|]. split; [|intros d|]; vm_compute; discriminate.
Qed.

(** An oracle without failures or interleaving: the run it creates is [id]. *)
Definition calmly (id : string) (t : Time) : Oracle :=
  Executor.mkOracle (fun _ => t) (fun i => match i with O => id | _ => String.append id "-skip" end)
    (fun _ => false) (fun _ => false) None false (fun _ => (false, false)) (fun _ => []).

Definition manual (id : string) (d : Definition_) : Action := ATrigger (calmly id now) d "" "manual" None None.

Definition success : terminal := mkTerminal "succeeded" "exit" (Some 0) "" now 0 false true None.
Definition failure : terminal := mkTerminal "failed" "exit" (Some 1) "" now 0 false true None.

(** One slot: "a" runs, "b" and "c" queue, the second backup is skipped; "a" ends
    and the drain starts "b". *)
Definition x0 : Exec := resumed db "boot" 1 opt.
Definition x1 : Exec := execStep x0 (manual "a" (job 1 "backup")).
Definition x2 : Exec := execStep x1 (manual "b" (job 2 "clean")).
Definition x3 : Exec := execStep x2 (manual "c" (job 3 "report")).
Definition x4 : Exec := execStep x3 (manual "a2" (job 1 "backup")).
Definition run_a : Run := zeroRun <| r_ID := "a" |> <| r_Status := "pending" |> <| r_Attempt := 1 |>.
Definition x5 : Exec := execStep x4 (AEnv (XComplete now (fun _ => (false, false)) false false "" run_a
                                             ((job 1 "backup") <| d_Retries := 1 |>) failure)).
Definition x6 : Exec := execStep x5 (AEnv (XEnd "a")).
Definition x7 : Exec := execStep x6 (ADrain (calmly "" now)).

Lemma fresh_seen x id :
  bool_decide (id ∈ x_launched x) || bool_decide (id ∈ queue_run_ids (x_db x)) = false -> ~ seen x id.
Proof. intros [H1 H2]%orb_false_iff. bools. unfold seen. tauto. Qed.

Ltac fresh_id := split; [apply fresh_seen; vm_compute; reflexivity|intros i; constructor].

Lemma reach0 : reach db "boot" 1 opt x0.
Proof. constructor. Qed.
Lemma reach4 : reach db "boot" 1 opt x4.
Proof.
  apply reach_step; [|fresh_id]. apply reach_step; [|fresh_id]. apply reach_step; [|fresh_id]. apply reach_step; [|fresh_id].
  apply reach0.
Qed.
Lemma reach7 : reach db "boot" 1 opt x7.
Proof.
  apply reach_step; [|intros i; constructor]. apply reach_step; [|done]. apply reach_step; [|done]. apply reach4.
Qed.
Lemma capacity_respected_witness : x_used x7 = 1 /\ jobs (x_active x7) = 1 /\ Active x7 "clean" = 1.
Proof.
  destruct (capacity_respected db "boot" 1 opt (proj1 db_inv) (proj2 db_inv) x7 reach7) as (Hu & _ & Hn).
  rewrite <-Hu, Hn. split_and!; vm_compute; reflexivity.
Defined.

Lemma no_overlap_witness :
  exists a, x_active x4 !! "a" = Some a /\ exclusive a = true /\
  forall id a', x_active x4 !! id = Some a' -> exclusive a' = true -> d_Name (a_d a') = "backup" -> id = "a".
Proof.
  eexists. split; [vm_compute; reflexivity|]. split; [reflexivity|]. intros id a' Ha He Hn.
  refine (no_overlap db "boot" 1 opt (proj1 db_inv) (proj2 db_inv) x4 id "a" a' _ reach4 Ha _ He _ _);
    [vm_compute; reflexivity|reflexivity|exact Hn].
Defined.

Lemma launched_once_witness :
  x_launched x7 = ["b"; "a"] /\ queue_run_ids (x_db x7) = ["c"] /\ NoDup (x_launched x7).
Proof.
  split; [vm_compute; reflexivity|]. split; [vm_compute; reflexivity|].
  exact (proj1 (launched_once db "boot" 1 opt (proj1 db_inv) (proj2 db_inv) x7 reach7)).
Defined.

Lemma queue_refinement_witness : queue_depth (x_db x4) = 2 /\ wf (x_db x4) /\ queue_depth (x_db x4) <= x_depth x4.
Proof.
  destruct (queue_refinement db "boot" 1 opt (proj1 db_inv) (proj2 db_inv) x4 reach4) as (_ & Hw & _ & Hd).
  split; [vm_compute; reflexivity|]. done.
Defined.

(** Shutdown begins while a trigger is between taking its slot and launching: the
    run is not registered. *)
Definition racing : Oracle := Executor.mkOracle (fun _ => now) (fun i => match i with O => "e" | _ => "e-skip" end)
  (fun _ => false) (fun _ => false) None false (fun _ => (false, false))
  (fun i => if (i =? 3)%nat then [XBeginShutdown] else []).
Definition race : Action := ATrigger racing (job 1 "backup") "" "manual" None None.
Definition x1' : Exec := execStep x0 race.
Definition x2' : Exec := execStep x1' (manual "d" (job 1 "backup")).

Lemma reach1' : reach db "boot" 1 opt x1'.
Proof.
  apply reach_step; [apply reach0|]. split; [apply fresh_seen; vm_compute; reflexivity|].
  intros i. simpl. destruct (i =? 3)%nat; repeat constructor.
Qed.

Lemma shutdown_final_witness :
  isClosing x1' = true /\ x_used x1' = 0 /\ x_late x1' = [] /\ isClosing x2' = true /\ x_launched x2' = [].
Proof.
  assert (rtc next x1' x2') as Hs.
  { apply rtc_once. exists (manual "d" (job 1 "backup")). split; [fresh_id|reflexivity]. }
  assert (isClosing x1' = true) as Hc1 by (vm_compute; reflexivity).
  destruct (shutdown_final db "boot" 1 opt (proj1 db_inv) (proj2 db_inv) x1' reach1') as [Hl Hf].
  split; [exact Hc1|]. split; [vm_compute; reflexivity|]. split; [exact Hl|].
  destruct (Hf Hc1 x2' Hs) as [Hc ->]. split; [exact Hc|]. vm_compute. reflexivity.
Defined.

(** The retry of the failed run waits in the heap. *)
Lemma retry_budget_bounded_witness : PendingRetries x7 = 1 /\ PendingRetries x7 <= 500.
Proof.
  split; [vm_compute; reflexivity|].
  exact (proj1 (proj2 (retry_budget_bounded db "boot" 1 opt x7 reach7))).
Defined.

Definition retry (due : Time) : retryItem := mkRetry due "r" "backup" 1 1 "" 1 None Second.
Definition pending : list retryItem := foldl (Push rt_due) [] (retry <$> [30; 10; 40; 20]).

Lemma retry_batch_witness :
  let '(due, rest) := popDue retryBatch 25 pending in
  rt_due <$> due = [10; 20] /\ StronglySorted Z.le (rt_due <$> due) /\ Forall (fun it => 25 < rt_due it) rest.
Proof.
  assert (heap rt_due pending) as Hh.
  { unfold pending. simpl. do 4 apply (Push_spec rt_due). intros i Hi. simpl in Hi. lia. }
  destruct (popDue retryBatch 25 pending) as [due rest] eqn:E.
  destruct (retry_batch 25 pending due rest Hh E) as (_ & _ & _ & Hs & _ & _ & Hr).
  assert ((due, rest) = popDue retryBatch 25 pending) as E' by done. vm_compute in E'. injection E' as -> ->.
  split; [reflexivity|]. split; [exact Hs|]. apply Hr. simpl. lia.
Defined.

(** A budget of one retry: the second is dropped and its evidence written. *)
Definition tight : Exec := addRetry (addRetry (New db "boot" 1 (mkQueueOptions false 0 0 0 0 0 1 0)) (retry 10)) (retry 20).

Lemma evidence_accounting_witness :
  x_retriesDropped tight = 1 /\
  let '(x', written) := persistRetryEvidence tight (fun _ => calmly "e" now) in
  x_retriesDropped x' - x_lost x' - Z.of_nat (length (x_evidence x')) = 0 + written /\ written = 1.
Proof.
  split; [vm_compute; reflexivity|].
  destruct (persistRetryEvidence tight (fun _ => calmly "e" now)) as [x' written] eqn:E.
  assert (isClosing x' = false) as Hc.
  { transitivity (isClosing (persistRetryEvidence tight (fun _ => calmly "e" now)).1); [by rewrite E|].
    vm_compute. reflexivity. }
  pose proof (evidence_accounting tight (fun _ => calmly "e" now) x' written E Hc) as Ha.
  assert (written = 1) as ->.
  { transitivity (persistRetryEvidence tight (fun _ => calmly "e" now)).2; [by rewrite E|]. vm_compute. reflexivity. }
  split; [|reflexivity]. rewrite Ha. vm_compute. reflexivity.
Defined.

(** "clean" is served first; "report" waits for that one service only. *)
Lemma drain_fair_witness :
  services 3 x6 [2] x7 /\ NoDup [2] /\
  forall D : gset Z, (forall d, d ∈ [2] -> d ∈ D) -> (1 <= size (D ∖ {[ 3%Z ]}))%nat.
Proof.
  assert (services 3 x6 [2] x7) as Hs.
  { unfold x7. apply (sv_serve 3 x6 (ADrain (calmly "" now)) (drainReady x6 (calmly "" now)).1 2 []).
    - intros i. constructor.
    - vm_compute. reflexivity.
    - exists (default (mkQueueRow 0 "" 0 0 0 0) (exec_queue (x_db x6) !! 1%nat)). split; [|vm_compute; reflexivity].
      apply list_elem_of_In. vm_compute. auto.
    - vm_compute. reflexivity.
    - apply sv_nil. }
  split; [exact Hs|]. apply (drain_fair db "boot" 1 opt x6 3 [2] x7); [|exact Hs|].
  - apply reach_step; [|done]. apply reach_step; [|done]. apply reach4.
  - intros Hin. apply list_elem_of_singleton in Hin. done.
Defined.

End ExecDemo.
