(* ===== verification/ReadGate.v ===== *)
(** Admission of expensive reads (internal/api/readlimit.go).

    [ReadGate]: the slot and byte budget every log page, raw download and
    metrics request passes through.  Each request is a thread of its own: the
    code between [g.mu.Lock] and [g.mu.Unlock] is one step, and the [select]
    of a waiting request wakes by any of its ready cases.  The channel
    [g.changed], closed and replaced at every release, is the number of
    releases so far: a waiter holds the number it read and its channel is closed
    once the gate's number is larger.

    [MetricsShare]: the coalescing of metrics computations, again with one step
    per critical section. *)

From S2P Require Import Prelude GoRuntime.
Open Scope Z_scope.

Module ReadGate.

(** * Limits *)

Definition DefaultReadSlots : Z := 4.
Definition DefaultReadBudgetBytes : Z := Z.shiftl 32 20.
Definition DefaultReadWorkTimeout : Duration := 20 * Second.
Definition logPageCost : Z := Z.shiftl 4 20.
Definition rawPageCost : Z := Z.shiftl 4 20.
Definition metricsCost : Z := Z.shiftl 8 20.
Definition MinReadBudgetBytes : Z := metricsCost.
Definition readAdmitWait : Duration := 500 * Millisecond.

Record ReadLimits := mkReadLimits {
  Slots : Z;
  BudgetBytes : Z;
  WorkTimeout : Duration
}.

#[export] Instance ReadLimits_eta : Eta ReadLimits := fun l => mkReadLimits
  (Slots l) (BudgetBytes l) (WorkTimeout l).

(** * The gate *)

Inductive ReadError := errReadBusy | ctxErr.

Record readGate := mkReadGate {
  slots : Z;
  budget : Z;
  maxWaiters : Z;
  maxDownloads : Z;
  inflight : Z;
  downloads : Z;
  bytes : Z;
  waiting : Z;
  changed : Z;
  peakBytes : Z;
  peakInflight : Z
}.

#[export] Instance readGate_eta : Eta readGate := fun g => mkReadGate
  (slots g) (budget g) (maxWaiters g) (maxDownloads g) (inflight g) (downloads g) (bytes g)
  (waiting g) (changed g) (peakBytes g) (peakInflight g).

Definition newReadGate (l : ReadLimits) : readGate :=
  let l := if Slots l <=? 0 then l <| Slots := DefaultReadSlots |> else l in
  let l := if BudgetBytes l <=? 0 then l <| BudgetBytes := DefaultReadBudgetBytes |> else l in
  mkReadGate (Slots l) (BudgetBytes l) (wrap64 (4 * Slots l)) (Z.max 1 (Slots l - 1))
    0 0 0 0 0 0 0.

(** Where a request is in [acquireKind]: before the lock (having waited or not),
    in the [select] with the channel it read, holding a slot until its
    [release] has run, or refused. *)
Inductive Phase :=
| Entering (waited : bool)
| Waiting (ch : Z)
| Granted (released : bool)
| Refused (e : ReadError).

Record Request := mkRequest {
  rq_cost : Z;
  rq_wait : Duration;
  rq_download : bool;
  rq_phase : Phase
}.

#[export] Instance Request_eta : Eta Request := fun r => mkRequest
  (rq_cost r) (rq_wait r) (rq_download r) (rq_phase r).

(** The capacity test of the loop. *)
Definition admissible (g : readGate) (cost : Z) : bool :=
  (inflight g <? slots g) &&
  ((inflight g =? 0) || (wrap64 (bytes g + cost) <=? budget g)).

Definition downloadsFull (g : readGate) (download : bool) : bool :=
  download && (maxDownloads g <=? downloads g).

(** One critical section of the loop in [acquireKind]. *)
Definition acquireKind (g : readGate) (r : Request) (waited : bool) : readGate * Phase :=
  let g := if waited then g <| waiting ::= Z.pred |> else g in
  if downloadsFull g (rq_download r) then (g, Refused errReadBusy) else
  if admissible g (rq_cost r) then
    let g := g <| inflight ::= Z.succ |> in
    let g := if rq_download r then g <| downloads ::= Z.succ |> else g in
    let g := g <| bytes := wrap64 (bytes g + rq_cost r) |> in
    let g := g <| peakBytes := Z.max (peakBytes g) (bytes g) |> in
    let g := g <| peakInflight := Z.max (peakInflight g) (inflight g) |> in
    (g, Granted false)
  else if (rq_wait r <=? 0) || (maxWaiters g <=? waiting g) then (g, Refused errReadBusy)
  else (g <| waiting ::= Z.succ |>, Waiting (changed g)).

(** The function [release] that an admitted request returns, run once. *)
Definition release (g : readGate) (r : Request) : readGate :=
  let g := g <| inflight ::= Z.pred |> in
  let g := if rq_download r then g <| downloads ::= Z.pred |> else g in
  let g := g <| bytes := wrap64 (bytes g - rq_cost r) |> in
  g <| changed ::= Z.succ |>.

(** Leaving the [select] by the timer or by the context. *)
Definition leave (g : readGate) : readGate := g <| waiting ::= Z.pred |>.

(** * Requests *)

Record GateSys := mkGateSys {
  gs_gate : readGate;
  gs_reqs : gmap nat Request
}.

Inductive GateEvent :=
| Arrive (i : nat) (cost : Z) (wait : Duration) (download : bool)
| Enter (i : nat)
| Wake (i : nat)          (** [<-changed] *)
| Expire (i : nat)        (** [<-timeout] *)
| Cancel (i : nat)        (** [<-ctx.Done()] *)
| Release (i : nat).

Definition gateStep (s : GateSys) (e : GateEvent) : option GateSys :=
  let g := gs_gate s in
  let put i r g := Some (mkGateSys g (<[i := r]> (gs_reqs s))) in
  match e with
  | Arrive i cost wait download =>
      match gs_reqs s !! i with
      | Some _ => None
      | None => put i (mkRequest cost wait download (Entering false)) g
      end
  | Enter i =>
      r ← gs_reqs s !! i;
      match rq_phase r with
      | Entering waited =>
          let '(g, p) := acquireKind g r waited in put i (r <| rq_phase := p |>) g
      | _ => None
      end
  | Wake i =>
      r ← gs_reqs s !! i;
      match rq_phase r with
      | Waiting ch => if ch <? changed g then put i (r <| rq_phase := Entering true |>) g else None
      | _ => None
      end
  | Expire i =>
      r ← gs_reqs s !! i;
      match rq_phase r with
      | Waiting _ => put i (r <| rq_phase := Refused errReadBusy |>) (leave g)
      | _ => None
      end
  | Cancel i =>
      r ← gs_reqs s !! i;
      match rq_phase r with
      | Waiting _ => put i (r <| rq_phase := Refused ctxErr |>) (leave g)
      | _ => None
      end
  | Release i =>
      r ← gs_reqs s !! i;
      match rq_phase r with
      | Granted false => put i (r <| rq_phase := Granted true |>) (release g r)
      | Granted true => Some s
      | _ => None
      end
  end.

(** What the daemon's requests reserve: one of the cost estimates. *)
Definition validEvent (e : GateEvent) : Prop :=
  match e with Arrive _ cost _ _ => 0 < cost <= metricsCost | _ => True end.

Inductive gateReach (l : ReadLimits) : GateSys -> Prop :=
| gate_new : gateReach l (mkGateSys (newReadGate l) ∅)
| gate_next s e s' : gateReach l s -> validEvent e -> gateStep s e = Some s' -> gateReach l s'.

Definition gateRun (l : ReadLimits) (es : list GateEvent) : option GateSys :=
  foldl (fun s e => s ≫= fun s => gateStep s e) (Some (mkGateSys (newReadGate l) ∅)) es.

End ReadGate.

(** * The server's gate *)

Module ReadServer.
Import ReadGate.

(** The fields of [Server] under [readMu]. *)
Record Server := mkServer {
  readGate_ : option readGate;
  readWork : Duration
}.

Definition SetReadLimits (l : ReadLimits) : Server :=
  let l := if WorkTimeout l <=? 0 then l <| WorkTimeout := DefaultReadWorkTimeout |> else l in
  mkServer (Some (newReadGate l)) (WorkTimeout l).

Definition gate (s : Server) : Server * readGate :=
  match readGate_ s with
  | Some g => (s, g)
  | None => let g := newReadGate (mkReadLimits 0 0 0) in
            (mkServer (Some g) DefaultReadWorkTimeout, g)
  end.

Definition workTimeout (s : Server) : Duration := readWork (gate s).1.

(** The response to a failed read; a client that is gone gets none. *)
Inductive ReadFailure := FBusy | FDeadline | FOther.
Inductive Response := NoResponse | Busy (retryAfter : Z) (code : string) | InternalError.

Definition readRetryAfter : Duration := Second.
Definition writeBusy (code : string) : Response :=
  Busy (Z.max 1 (Z.quot (readRetryAfter + Second - 1) Second)) code.

Definition writeReadFailure (clientGone : bool) (e : ReadFailure) : Response :=
  if clientGone then NoResponse else
  match e with
  | FBusy => writeBusy "read_busy"
  | FDeadline => writeBusy "read_timeout"
  | FOther => InternalError
  end.
End ReadServer.

(** * Shared metrics *)

Module MetricsShare.
Section share.
(** What a computation returns, and the view it is for. *)
Context {R : Type} `{Countable K}.

Inductive ShareError := Canceled | Aborted | Failed.

Record metricsFlight := mkFlight {
  fl_key : K;
  fl_done : bool;                          (** [done] is closed *)
  fl_outcome : option (Result ShareError R)
}.

(** A request in [get]: at the head of its loop, computing the flight it made,
    waiting for another's, or back with an answer. *)
Inductive GetPhase :=
| GTop
| GLead (f : nat)
| GWait (f : nat)
| GReturned (r : Result ShareError R)
| GPanicked.

Record Getter := mkGetter { gt_key : K; gt_phase : GetPhase }.

(** [timers] are the expiry functions started by [time.AfterFunc]. *)
Record Share := mkShare {
  flights : gmap K nat;
  flightStore : gmap nat metricsFlight;
  nextFlight : nat;
  getters : gmap nat Getter;
  timers : list (K * nat)
}.

#[export] Instance Share_eta : Eta Share := fun s => mkShare
  (flights s) (flightStore s) (nextFlight s) (getters s) (timers s).

Inductive ShareEvent :=
| SRequest (i : nat) (k : K)
| SEnter (i : nat)                              (** the critical section of [get] *)
| SComputed (i : nat) (r : Result ShareError R) (** [compute] returned *)
| SPanicked (i : nat)
| SFlightDone (i : nat) (ctxErr : bool)         (** [<-flight.done] *)
| SCtxDone (i : nat)                            (** [<-ctx.Done()] *)
| SExpired (k : K) (f : nat).                   (** the expiry timer of a flight *)

Definition setPhase (i : nat) (p : GetPhase) (s : Share) : Share :=
  s <| getters ::= alter (fun g => mkGetter (gt_key g) p) i |>.

(** [get]: join the flight of the key or create it and lead. *)
Definition get (s : Share) (i : nat) (k : K) : Share :=
  match flights s !! k with
  | Some f => setPhase i (GWait f) s
  | None =>
      let f := nextFlight s in
      let s := s <| flightStore ::= insert f (mkFlight k false None) |> <| nextFlight ::= S |>
                 <| flights ::= insert k f |> in
      setPhase i (GLead f) s
  end.

(** [lead] after [compute]: publish, and cache only a success. *)
Definition lead (s : Share) (i : nat) (k : K) (f : nat) (r : Result ShareError R) : Share :=
  let s := match r with
           | Err _ => s <| flights ::= delete k |>
           | Ok _ => s <| timers ::= cons (k, f) |>
           end in
  let s := s <| flightStore ::= insert f (mkFlight k true (Some r)) |> in
  setPhase i (GReturned r) s.

(** The deferred function of [lead] when [compute] panicked. *)
Definition leadAborted (s : Share) (i : nat) (k : K) (f : nat) : Share :=
  let s := s <| flights ::= delete k |>
             <| flightStore ::= insert f (mkFlight k true (Some (Err Aborted))) |> in
  setPhase i GPanicked s.

(** A waiter after [<-flight.done]: retry when the leader was canceled. *)
Definition joined (s : Share) (i : nat) (o : Result ShareError R) (ctxErr : bool) : Share :=
  match o with
  | Err Canceled => if ctxErr then setPhase i (GReturned o) s else setPhase i GTop s
  | _ => setPhase i (GReturned o) s
  end.

(** The expiry function: drop the flight unless another has replaced it. *)
Definition expire (s : Share) (k : K) (f : nat) : Share :=
  let s := s <| timers ::= fun l => List.filter (fun t => negb (bool_decide (t = (k, f)))) l |> in
  if bool_decide (flights s !! k = Some f) then s <| flights ::= delete k |> else s.

Definition shareStep (s : Share) (e : ShareEvent) : option Share :=
  match e with
  | SRequest i k =>
      match getters s !! i with
      | Some _ => None
      | None => Some (s <| getters ::= insert i (mkGetter k GTop) |>)
      end
  | SEnter i =>
      g ← getters s !! i;
      match gt_phase g with GTop => Some (get s i (gt_key g)) | _ => None end
  | SComputed i r =>
      g ← getters s !! i;
      match gt_phase g with GLead f => Some (lead s i (gt_key g) f r) | _ => None end
  | SPanicked i =>
      g ← getters s !! i;
      match gt_phase g with GLead f => Some (leadAborted s i (gt_key g) f) | _ => None end
  | SFlightDone i ctxErr =>
      g ← getters s !! i;
      match gt_phase g with
      | GWait f =>
          fl ← flightStore s !! f;
          if fl_done fl then o ← fl_outcome fl; Some (joined s i o ctxErr) else None
      | _ => None
      end
  | SCtxDone i =>
      g ← getters s !! i;
      match gt_phase g with
      | GWait _ => Some (setPhase i (GReturned (Err Canceled)) s)
      | _ => None
      end
  | SExpired k f =>
      if bool_decide ((k, f) ∈ timers s) then Some (expire s k f) else None
  end.

Definition newShare : Share := mkShare ∅ ∅ 0 ∅ [].

Inductive shareReach : Share -> Prop :=
| share_new : shareReach newShare
| share_next s e s' : shareReach s -> shareStep s e = Some s' -> shareReach s'.
End share.

Arguments metricsFlight : clear implicits.
Arguments Getter : clear implicits.
Arguments Share R K {_ _}.
Arguments ShareEvent : clear implicits.
End MetricsShare.
