(* ===== verification/ReadGateFacts.v ===== *)
(** Theorems on the admission gate of expensive reads: its limits, its
    accounting and that no release is missed by a waiter. *)

From S2P Require Import Prelude GoRuntime ReadGate.
Open Scope Z_scope.
Import ReadGate.

(** * What the counters count *)

Definition holds_ (p : Phase) : Z := match p with Granted false => 1 | _ => 0 end.
Definition waits_ (p : Phase) : Z := match p with Waiting _ | Entering true => 1 | _ => 0 end.
Definition holding (r : Request) : Z := holds_ (rq_phase r).
Definition holdsDownload (r : Request) : Z := if rq_download r then holding r else 0.
Definition heldBytes (r : Request) : Z := rq_cost r * holding r.
Definition waiter (r : Request) : Z := waits_ (rq_phase r).

(** A sleeping waiter whose channel is still open is one the gate refuses, and
    somebody holds capacity whose release will close the channel. *)
Definition refusedBy (g : readGate) (cost ch : Z) : Prop :=
  ch <= changed g /\ (ch = changed g -> 0 < inflight g /\ admissible g cost = false).

(** The range [validateConfig] accepts for the [reads] section (zero selects the
    default, as in [newReadGate]). *)
Definition configured (l : ReadLimits) : Prop :=
  Slots l <= 64 /\ BudgetBytes l <= Z.shiftl 4096 20.

Record gate_inv (s : GateSys) : Prop := {
  gi_inflight : inflight (gs_gate s) = msum holding (gs_reqs s);
  gi_downloads : downloads (gs_gate s) = msum holdsDownload (gs_reqs s);
  gi_bytes : bytes (gs_gate s) = msum heldBytes (gs_reqs s);
  gi_waiting : waiting (gs_gate s) = msum waiter (gs_reqs s);
  gi_slots : inflight (gs_gate s) <= slots (gs_gate s);
  gi_maxDownloads : downloads (gs_gate s) <= maxDownloads (gs_gate s);
  gi_budget : inflight (gs_gate s) <= 1 \/ bytes (gs_gate s) <= budget (gs_gate s);
  gi_waiters : waiting (gs_gate s) <= maxWaiters (gs_gate s);
  gi_peak : peakInflight (gs_gate s) <= slots (gs_gate s);
  gi_cost : forall i r, gs_reqs s !! i = Some r -> 0 < rq_cost r <= metricsCost;
  gi_asleep : forall i r ch, gs_reqs s !! i = Some r -> rq_phase r = Waiting ch ->
      refusedBy (gs_gate s) (rq_cost r) ch
}.

(** The limits of a gate never change. *)
Definition sameLimits (g g' : readGate) : Prop :=
  slots g' = slots g /\ budget g' = budget g /\ maxWaiters g' = maxWaiters g /\
  maxDownloads g' = maxDownloads g.

Definition sizedGate (g : readGate) : Prop :=
  0 < slots g /\ budget g <= Z.shiftl 4096 20 /\ 0 <= maxWaiters g /\ 1 <= maxDownloads g.

Lemma newReadGate_sized l : configured l -> sizedGate (newReadGate l).
Proof.
  intros [Hs Hb]. unfold sizedGate, newReadGate, DefaultReadSlots, DefaultReadBudgetBytes.
  rewrite (Z.shiftl_mul_pow2 32 20), (Z.shiftl_mul_pow2 4096 20) in * by lia.
  destruct (Slots l <=? 0) eqn:E1, (BudgetBytes l <=? 0) eqn:E2; bools; simpl in *;
    rewrite ?E2; repeat (case_match; bools; simpl in * );
    rewrite ?wrap64_id; unfold in64, minInt64, maxInt64; lia.
Qed.

Lemma newReadGate_caps l : configured l ->
  maxWaiters (newReadGate l) = 4 * slots (newReadGate l) /\
  maxDownloads (newReadGate l) = Z.max 1 (slots (newReadGate l) - 1).
Proof.
  intros [Hs Hb]. unfold newReadGate, DefaultReadSlots.
  destruct (Slots l <=? 0) eqn:E1; bools; simpl; repeat (case_match; simpl in * );
    rewrite ?wrap64_id; try done; unfold in64, minInt64, maxInt64; lia.
Qed.

Lemma holding_bounds r : 0 <= holding r <= 1.
Proof. unfold holding, holds_. repeat case_match; lia. Qed.

Lemma waiter_bounds r : 0 <= waiter r <= 1.
Proof. unfold waiter, waits_. repeat case_match; lia. Qed.

Section accounting.
Context (s : GateSys) (I : gate_inv s).

Lemma inflight_nonneg : 0 <= inflight (gs_gate s).
Proof. rewrite (gi_inflight _ I). apply msum_nonneg. intros. apply holding_bounds. Qed.

Lemma waiting_nonneg : 0 <= waiting (gs_gate s).
Proof. rewrite (gi_waiting _ I). apply msum_nonneg. intros. apply waiter_bounds. Qed.

Lemma bytes_nonneg : 0 <= bytes (gs_gate s).
Proof.
  rewrite (gi_bytes _ I). apply msum_nonneg. intros i r Hr. unfold heldBytes.
  pose proof (gi_cost _ I i r Hr). pose proof (holding_bounds r). nia.
Qed.

(** What is reserved is at most the largest cost per request in flight. *)
Lemma bytes_inflight : bytes (gs_gate s) <= metricsCost * inflight (gs_gate s).
Proof.
  rewrite (gi_bytes _ I), (gi_inflight _ I), <- msum_scale. apply msum_le.
  intros i r Hr. unfold heldBytes. pose proof (gi_cost _ I i r Hr).
  pose proof (holding_bounds r). nia.
Qed.

Lemma bytes_in64 c : sizedGate (gs_gate s) -> - metricsCost <= c <= 2 * metricsCost ->
  in64 (bytes (gs_gate s) + c).
Proof.
  intros (_ & Hb & _) Hc. pose proof bytes_nonneg. pose proof bytes_inflight.
  pose proof (gi_budget _ I) as Hor. pose proof inflight_nonneg.
  unfold metricsCost in *. rewrite (Z.shiftl_mul_pow2 8 20), (Z.shiftl_mul_pow2 4096 20) in * by lia.
  unfold in64, minInt64, maxInt64. lia.
Qed.
End accounting.

(** * Every step keeps the invariant *)

Lemma Arrive_inv s i c w d :
  gate_inv s -> 0 < c <= metricsCost -> gs_reqs s !! i = None ->
  gate_inv (mkGateSys (gs_gate s) (<[i := mkRequest c w d (Entering false)]> (gs_reqs s))).
Proof.
  intros I Hc Hi. destruct I as [I1 I2 I3 I4 I5 I6 I7 I8 I9 I10 I11].
  set (r := mkRequest _ _ _ _).
  assert (Hr : holding r = 0 /\ holdsDownload r = 0 /\ heldBytes r = 0 /\ waiter r = 0).
  { subst r. unfold holdsDownload, heldBytes. cbn. by destruct d; rewrite Z.mul_0_r. }
  assert (Hrc : rq_cost r = c) by done. assert (Hrp : rq_phase r = Entering false) by done.
  clearbody r. destruct Hr as (R1 & R2 & R3 & R4).
  split; simpl; rewrite ?msum_new, ?R1, ?R2, ?R3, ?R4 by done; try lia; try done.
  - intros j q [[<- <-]|[_ Hj]]%lookup_insert_Some; [by rewrite Hrc | by apply (I10 j)].
  - intros j q ch [[<- <-]|[_ Hj]]%lookup_insert_Some Hp; [congruence | by apply (I11 j)].
Qed.

(** A step of one request, with the counters moved by the difference. *)
Lemma move_inv s i r p g :
  gate_inv s -> gs_reqs s !! i = Some r -> sameLimits (gs_gate s) g ->
  inflight g = inflight (gs_gate s) - holds_ (rq_phase r) + holds_ p ->
  downloads g = downloads (gs_gate s) +
    (if rq_download r then holds_ p - holds_ (rq_phase r) else 0) ->
  bytes g = bytes (gs_gate s) + rq_cost r * (holds_ p - holds_ (rq_phase r)) ->
  waiting g = waiting (gs_gate s) - waits_ (rq_phase r) + waits_ p ->
  inflight g <= slots g -> downloads g <= maxDownloads g -> waiting g <= maxWaiters g ->
  peakInflight g <= slots g ->
  (inflight g <= 1 \/ bytes g <= budget g) ->
  (forall j q ch, gs_reqs s !! j = Some q -> rq_phase q = Waiting ch ->
     refusedBy g (rq_cost q) ch) ->
  (forall ch, p = Waiting ch -> refusedBy g (rq_cost r) ch) ->
  gate_inv (mkGateSys g (<[i := r <| rq_phase := p |>]> (gs_reqs s))).
Proof.
  intros I Hi (L1 & L2 & L3 & L4) Hin Hdl Hby Hwa Bin Bdl Bwa Bpk Bby Hothers Hself.
  destruct I as [I1 I2 I3 I4 I5 I6 I7 I8 I9 I10 I11].
  split; simpl; rewrite ?(msum_update _ _ _ r) by done; try assumption.
  - rewrite <- I1. done.
  - rewrite <- I2. unfold holdsDownload, holding. simpl. destruct (rq_download r); lia.
  - rewrite <- I3. unfold heldBytes, holding. simpl. lia.
  - rewrite <- I4. done.
  - intros j q [[<- <-]|[_ Hj]]%lookup_insert_Some; [apply (I10 _ _ Hi) | by apply (I10 j)].
  - intros j q ch [[<- <-]|[_ Hj]]%lookup_insert_Some Hp; [by apply Hself | by apply (Hothers j)].
Qed.

(** More reservations refuse what was refused before. *)
Lemma admissible_mono g g' c :
  sameLimits g g' -> 0 < inflight g <= inflight g' -> bytes g <= bytes g' ->
  in64 (bytes g + c) -> in64 (bytes g' + c) ->
  admissible g c = false -> 0 < inflight g' /\ admissible g' c = false.
Proof.
  intros (L1 & L2 & _) Hin Hby H1 H2. unfold admissible. rewrite L1, L2, !wrap64_id by done.
  intros Ha. split; [lia|]. apply andb_false_iff in Ha as [Ha|Ha]; bools; apply andb_false_iff.
  - left. lia.
  - right. apply orb_false_iff. split; lia.
Qed.

(** The three outcomes of a critical section of [acquireKind]. *)
Inductive acquired (g : readGate) (r : Request) (b : Z) (g' : readGate) : Phase -> Prop :=
| acq_refused e :
    inflight g' = inflight g -> downloads g' = downloads g -> bytes g' = bytes g ->
    waiting g' = waiting g - b -> peakInflight g' = peakInflight g ->
    acquired g r b g' (Refused e)
| acq_granted :
    admissible g (rq_cost r) = true ->
    inflight g' = inflight g + 1 ->
    downloads g' = downloads g + (if rq_download r then 1 else 0) ->
    (rq_download r = true -> downloads g < maxDownloads g) ->
    bytes g' = wrap64 (bytes g + rq_cost r) -> waiting g' = waiting g - b ->
    peakInflight g' = Z.max (peakInflight g) (inflight g') ->
    acquired g r b g' (Granted false)
| acq_waits :
    admissible g (rq_cost r) = false ->
    inflight g' = inflight g -> downloads g' = downloads g -> bytes g' = bytes g ->
    waiting g' = waiting g - b + 1 -> waiting g' <= maxWaiters g ->
    peakInflight g' = peakInflight g ->
    acquired g r b g' (Waiting (changed g)).

Lemma acquireKind_cases g r waited :
  let gp := acquireKind g r waited in
  sameLimits g gp.1 /\ changed gp.1 = changed g /\
  acquired g r (if waited then 1 else 0) gp.1 gp.2.
Proof.
  unfold acquireKind, sameLimits, downloadsFull.
  set (h := if waited then _ else _).
  assert (Hh : h = g <| waiting := waiting g - (if waited then 1 else 0) |>).
  { subst h. destruct waited, g; simpl; f_equal; lia. }
  clearbody h. subst h. destruct g as [sl bu mw md inf dl by_ wa ch pb pi], (rq_download r) eqn:Ed;
    unfold admissible; simpl; repeat case_match; bools; simpl;
    (split; [done|]); (split; [done|]); econstructor; simpl; rewrite ?Ed; intros;
    try done; try lia; unfold admissible; simpl; done || lia || idtac.
Qed.

(** A waiter that still sleeps stays refused while reservations only grow. *)
Lemma asleep_mono s g :
  gate_inv s -> sizedGate (gs_gate s) -> sameLimits (gs_gate s) g ->
  changed g = changed (gs_gate s) -> inflight (gs_gate s) <= inflight g ->
  bytes (gs_gate s) <= bytes g ->
  (forall c, 0 < c <= metricsCost -> in64 (bytes g + c)) ->
  forall j q ch, gs_reqs s !! j = Some q -> rq_phase q = Waiting ch -> refusedBy g (rq_cost q) ch.
Proof.
  intros I Z L Hch Hin Hby H64 j q ch Hj Hp. unfold refusedBy. rewrite Hch.
  destruct (gi_asleep _ I j q ch Hj Hp) as [Hle Hfull]. split; [done|]. intros Heq.
  destruct (Hfull Heq) as [Hpos Hadm]. pose proof (gi_cost _ I j q Hj).
  apply (admissible_mono (gs_gate s)); auto with lia. apply bytes_in64; [done..|lia].
Qed.

Lemma Enter_inv s i r waited :
  gate_inv s -> sizedGate (gs_gate s) ->
  gs_reqs s !! i = Some r -> rq_phase r = Entering waited ->
  let gp := acquireKind (gs_gate s) r waited in
  sameLimits (gs_gate s) gp.1 /\
  gate_inv (mkGateSys gp.1 (<[i := r <| rq_phase := gp.2 |>]> (gs_reqs s))).
Proof.
  intros I Z Hi Hp. pose proof (gi_cost _ I i r Hi) as Hcost.
  pose proof (bytes_in64 s I (rq_cost r) Z ltac:(lia)) as Hb.
  destruct (acquireKind_cases (gs_gate s) r waited) as (L & Hch & Hcase).
  destruct (acquireKind (gs_gate s) r waited) as [g p]. simpl in *. split; [done|].
  assert (Hw : waits_ (rq_phase r) = if waited then 1 else 0) by (rewrite Hp; by destruct waited).
  rewrite <- Hw in Hcase. assert (Hh : holds_ (rq_phase r) = 0) by by rewrite Hp.
  pose proof (inflight_nonneg s I) as Hnn. pose proof (waiter_bounds r) as Hwb. unfold waiter in Hwb.
  pose proof (fun c => bytes_in64 s I c Z) as H64.
  destruct (L) as (L1 & L2 & L3 & L4).
  destruct I as [I1 I2 I3 I4 I5 I6 I7 I8 I9 I10 I11] eqn:EI; clear EI.
  destruct Hcase as [e C1 C2 C3 C4 C5 | Ha C1 C2 Cd C3 C4 C5 | Ha C1 C2 C3 C4 C4' C5].
  - apply move_inv; rewrite ?Hh, ?L1, ?L2, ?L3, ?L4; simpl; try done; try lia.
    + destruct (rq_download r); lia.
    + apply asleep_mono; try done; try lia. intros c Hc. rewrite C3. apply H64. lia.
  - rewrite (wrap64_id _ Hb) in C3. unfold admissible in Ha. rewrite (wrap64_id _ Hb) in Ha.
    apply andb_true_iff in Ha as [Ha1 Ha2]. bools. apply orb_true_iff in Ha2.
    apply move_inv; rewrite ?Hh, ?L1, ?L2, ?L3, ?L4; simpl; try done; try lia.
    + destruct (rq_download r); [specialize (Cd eq_refl)|]; lia.
    + apply asleep_mono; try done; try lia. intros c Hc.
      replace (bytes g + c) with (bytes (gs_gate s) + (rq_cost r + c)) by lia. apply H64. lia.
  - apply move_inv; rewrite ?Hh, ?L1, ?L2, ?L3, ?L4; simpl; try done; try lia.
    + destruct (rq_download r); lia.
    + apply asleep_mono; try done; try lia. intros c Hc. rewrite C3. apply H64. lia.
    + intros ch [= <-]. split; [lia|]. intros _.
      assert (admissible g (rq_cost r) = false) as Hg.
      { revert Ha. unfold admissible. by rewrite C1, C3, L1, L2. }
      split; [|done]. unfold admissible in Ha. rewrite C1.
      destruct (Z.eq_dec (inflight (gs_gate s)) 0) as [H0|]; [|lia].
      rewrite H0 in Ha. destruct Z as [Zs _]. simpl in Ha.
      by rewrite (proj2 (Z.ltb_lt 0 _) Zs) in Ha.
Qed.

Lemma Release_inv s i r :
  gate_inv s -> sizedGate (gs_gate s) ->
  gs_reqs s !! i = Some r -> rq_phase r = Granted false ->
  sameLimits (gs_gate s) (release (gs_gate s) r) /\
  gate_inv (mkGateSys (release (gs_gate s) r) (<[i := r <| rq_phase := Granted true |>]> (gs_reqs s))).
Proof.
  intros I Z Hi Hp. pose proof (gi_cost _ I i r Hi) as Hcost.
  pose proof (bytes_in64 s I (- rq_cost r) Z ltac:(lia)) as Hb.
  assert (L : sameLimits (gs_gate s) (release (gs_gate s) r))
    by (unfold release, sameLimits; by destruct (rq_download r)).
  split; [done|]. destruct (L) as (L1 & L2 & L3 & L4).
  pose proof (gi_inflight _ I). pose proof (gi_downloads _ I). pose proof (gi_waiting _ I).
  assert (Hd : downloads (release (gs_gate s) r) = downloads (gs_gate s) - if rq_download r then 1 else 0)
    by (unfold release; destruct (rq_download r); simpl; lia).
  assert (Hy : bytes (release (gs_gate s) r) = bytes (gs_gate s) - rq_cost r).
  { unfold release. destruct (rq_download r); simpl; (rewrite wrap64_id; [done | exact Hb]). }
  assert (Hi' : inflight (release (gs_gate s) r) = inflight (gs_gate s) - 1)
    by (unfold release; destruct (rq_download r); simpl; lia).
  assert (Hc : changed (release (gs_gate s) r) = changed (gs_gate s) + 1)
    by (unfold release; destruct (rq_download r); simpl; lia).
  assert (Hw : waiting (release (gs_gate s) r) = waiting (gs_gate s))
    by (unfold release; by destruct (rq_download r)).
  assert (Hk : peakInflight (release (gs_gate s) r) = peakInflight (gs_gate s))
    by (unfold release; by destruct (rq_download r)).
  generalize dependent (release (gs_gate s) r). intros g L L1 L2 L3 L4 Hd Hy Hi' Hc Hw Hk.
  destruct I as [I1 I2 I3 I4 I5 I6 I7 I8 I9 I10 I11] eqn:EI; clear EI.
  apply move_inv; rewrite ?Hp, ?L1, ?L2, ?L3, ?L4; simpl; try done; try lia.
  - destruct (rq_download r); lia.
  - destruct (rq_download r); lia.
  - intros j q ch Hj Hq. destruct (I11 j q ch Hj Hq) as [Hle _]. split; lia.
Qed.

Lemma Leave_inv s i r ch e :
  gate_inv s -> gs_reqs s !! i = Some r -> rq_phase r = Waiting ch ->
  gate_inv (mkGateSys (leave (gs_gate s)) (<[i := r <| rq_phase := Refused e |>]> (gs_reqs s))).
Proof.
  intros I Hi Hp. destruct I as [I1 I2 I3 I4 I5 I6 I7 I8 I9 I10 I11] eqn:EI; clear EI.
  apply move_inv; rewrite ?Hp; simpl; try done; try lia. destruct (rq_download r); lia.
Qed.

Lemma Wake_inv s i r ch :
  gate_inv s -> gs_reqs s !! i = Some r -> rq_phase r = Waiting ch ->
  gate_inv (mkGateSys (gs_gate s) (<[i := r <| rq_phase := Entering true |>]> (gs_reqs s))).
Proof.
  intros I Hi Hp. destruct I as [I1 I2 I3 I4 I5 I6 I7 I8 I9 I10 I11] eqn:EI; clear EI.
  apply move_inv; rewrite ?Hp; simpl; try done; try lia. destruct (rq_download r); lia.
Qed.

Lemma gateStep_inv s e s' :
  gate_inv s -> sizedGate (gs_gate s) -> validEvent e -> gateStep s e = Some s' ->
  gate_inv s' /\ sameLimits (gs_gate s) (gs_gate s').
Proof.
  intros I Z He. destruct e as [i c w d|i|i|i|i|i]; cbn [gateStep validEvent] in *.
  - destruct (gs_reqs s !! i) eqn:Hi; [done|]. intros [= <-]. split; [by apply Arrive_inv | done].
  - destruct (gs_reqs s !! i) as [r|] eqn:Hi; cbn [mbind option_bind]; [|done].
    destruct (rq_phase r) as [waited| | |] eqn:Hp; try done.
    destruct (Enter_inv s i r waited I Z Hi Hp) as [HL HI].
    destruct (acquireKind (gs_gate s) r waited). intros [= <-]. done.
  - destruct (gs_reqs s !! i) as [r|] eqn:Hi; cbn [mbind option_bind]; [|done].
    destruct (rq_phase r) as [|ch| |] eqn:Hp; try done. case_match; [|done]. intros [= <-].
    split; [by apply (Wake_inv s i r ch) | done].
  - destruct (gs_reqs s !! i) as [r|] eqn:Hi; cbn [mbind option_bind]; [|done].
    destruct (rq_phase r) as [|ch| |] eqn:Hp; try done. intros [= <-].
    split; [by apply (Leave_inv s i r ch) | done].
  - destruct (gs_reqs s !! i) as [r|] eqn:Hi; cbn [mbind option_bind]; [|done].
    destruct (rq_phase r) as [|ch| |] eqn:Hp; try done. intros [= <-].
    split; [by apply (Leave_inv s i r ch) | done].
  - destruct (gs_reqs s !! i) as [r|] eqn:Hi; cbn [mbind option_bind]; [|done].
    destruct (rq_phase r) as [| |[|]|] eqn:Hp; try done; intros [= <-]; [done|].
    destruct (Release_inv s i r I Z Hi Hp). done.
Qed.

Lemma gateReach_inv l s :
  configured l -> gateReach l s ->
  gate_inv s /\ sizedGate (gs_gate s) /\ sameLimits (newReadGate l) (gs_gate s).
Proof.
  intros Hl. pose proof (newReadGate_sized l Hl) as Z0. induction 1 as [|s e s' _ IH He Hs].
  - split; [|done]. destruct Z0 as (Zs & _ & Zw & Zd).
    assert (Hz : let g := newReadGate l in inflight g = 0 /\ downloads g = 0 /\ bytes g = 0 /\
              waiting g = 0 /\ peakInflight g = 0) by (repeat split).
    destruct Hz as (Z1 & Z2 & Z3 & Z4 & Z5).
    split; cbn [gs_gate gs_reqs]; rewrite ?msum_empty, ?Z1, ?Z2, ?Z3, ?Z4, ?Z5; try done; lia.
  - destruct IH as (I & Z & L). destruct (gateStep_inv s e s' I Z He Hs) as [I' L'].
    split; [done|]. unfold sizedGate, sameLimits in *.
    destruct L as (L1 & L2 & L3 & L4), L' as (K1 & K2 & K3 & K4). rewrite K1, K2, K3, K4.
    repeat split; try tauto; congruence.
Qed.

(** A waiter whose channel is closed can take the [<-changed] case. *)
Lemma wake_enabled s i r ch :
  gs_reqs s !! i = Some r -> rq_phase r = Waiting ch -> ch < changed (gs_gate s) ->
  is_Some (gateStep s (Wake i)).
Proof.
  intros Hi Hp Hlt. cbn [gateStep]. rewrite Hi. cbn [mbind option_bind]. rewrite Hp.
  rewrite (proj2 (Z.ltb_lt _ _) Hlt). eauto.
Qed.

(** * Theorems *)

(** C29: whatever requests arrive, wait, time out, go away or release (twice
    or once), the gate's counters are exact: [inflight], [downloads] and
    [bytes] are the number, the downloads and the summed cost of the requests that
    hold a slot, [waiting] is the number of requests waiting.  At most [slots]
    requests and at most [max 1 (slots - 1)] downloads run at once, at most four
    waiters per slot queue, and the reserved bytes stay within the budget unless a
    single request runs alone. *)
Theorem read_gate_limits l s :
  configured l -> gateReach l s ->
  let g := gs_gate s in
  inflight g = msum holding (gs_reqs s) /\
  downloads g = msum holdsDownload (gs_reqs s) /\
  bytes g = msum heldBytes (gs_reqs s) /\
  waiting g = msum waiter (gs_reqs s) /\
  0 <= inflight g <= slots (newReadGate l) /\
  downloads g <= Z.max 1 (slots (newReadGate l) - 1) /\
  0 <= waiting g <= 4 * slots (newReadGate l) /\
  (inflight g <= 1 \/ bytes g <= budget (newReadGate l)).
Proof.
  intros Hl Hs g. destruct (gateReach_inv l s Hl Hs) as (I & Z & L1 & L2 & L3 & L4).
  pose proof (inflight_nonneg s I). pose proof (waiting_nonneg s I).
  destruct (newReadGate_caps l Hl) as [Hw Hd].
  destruct I as [I1 I2 I3 I4 I5 I6 I7 I8 _ _ _]. subst g. repeat split; try done; lia.
Qed.

(** C30: no wakeup is lost.  A request asleep in the [select] of [acquireKind]
    either can wake, because its channel was closed by a release it has not seen, or
    the gate refuses it at this moment and some other request holds a slot, whose
    [release] is enabled and wakes it. *)
Theorem read_gate_wakeup l s i r ch :
  configured l -> gateReach l s ->
  gs_reqs s !! i = Some r -> rq_phase r = Waiting ch ->
  is_Some (gateStep s (Wake i)) \/
  (admissible (gs_gate s) (rq_cost r) = false /\
   exists j s', j <> i /\ gateStep s (Release j) = Some s' /\
     gs_reqs s' !! i = Some r /\ is_Some (gateStep s' (Wake i))).
Proof.
  intros Hl Hs Hi Hp. destruct (gateReach_inv l s Hl Hs) as (I & Z & _).
  destruct (gi_asleep _ I i r ch Hi Hp) as [Hle Hfull].
  destruct (Z.lt_ge_cases ch (changed (gs_gate s))) as [Hlt|Hge].
  { left. apply (wake_enabled s i r ch); done. }
  right. destruct Hfull as [Hpos Hadm]; [lia|]. split; [done|].
  rewrite (gi_inflight _ I) in Hpos. apply msum_pos in Hpos as (j & q & Hj & Hq).
  assert (Hqp : rq_phase q = Granted false).
  { unfold holding, holds_ in Hq. repeat case_match; done || lia. }
  assert (j <> i) by congruence.
  eexists j, _. split; [done|]. split.
  { cbn [gateStep]. rewrite Hj. cbn. by rewrite Hqp. }
  assert (Hi' : <[j := q <| rq_phase := Granted true |>]> (gs_reqs s) !! i = Some r)
    by by rewrite lookup_insert_ne.
  split; [done|]. apply (wake_enabled _ i r ch); [done..|].
  unfold release. destruct (rq_download q); simpl; lia.
Qed.

(** When the slots in use are all downloads, another read finds a slot free, and
    capacity if the budget covers the downloads too. *)
Lemma downloads_leave_room l s c :
  configured l -> gateReach l s -> 2 <= slots (newReadGate l) -> 0 < c <= metricsCost ->
  inflight (gs_gate s) = downloads (gs_gate s) ->
  bytes (gs_gate s) + c <= budget (newReadGate l) ->
  admissible (gs_gate s) c = true.
Proof.
  intros Hl Hs H2 Hc Hall Hb. destruct (gateReach_inv l s Hl Hs) as (I & Z & L1 & L2 & L3 & L4).
  destruct (newReadGate_caps l Hl) as [_ Hd].
  pose proof (gi_maxDownloads _ I). unfold admissible.
  rewrite wrap64_id by (apply bytes_in64; [done..|lia]).
  apply andb_true_iff. split; [lia|]. apply orb_true_iff. right. lia.
Qed.

Module GateDemo.

Definition small : ReadLimits := mkReadLimits 4 (Z.shiftl 8 20) 0.

(** Two downloads fill an 8 MiB budget; a log page then waits. *)
Definition twoDownloads : list GateEvent :=
  [Arrive 0 rawPageCost readAdmitWait true; Enter 0%nat;
   Arrive 1 rawPageCost readAdmitWait true; Enter 1%nat;
   Arrive 2 logPageCost readAdmitWait false; Enter 2%nat].

Definition demo : GateSys := default (mkGateSys (newReadGate small) ∅) (gateRun small twoDownloads).

Lemma gateRun_reach l es s :
  Forall validEvent es -> gateRun l es = Some s -> gateReach l s.
Proof.
  unfold gateRun. revert s. induction es as [|e es IH] using rev_ind; intros s Hes; simpl.
  { intros [= <-]. constructor. }
  rewrite foldl_app. simpl. apply Forall_app in Hes as [Hes He].
  destruct (foldl _ _ es) as [t|]; [|done]. simpl. intros Ht.
  apply (gate_next l t e); [by apply IH | by inversion He | done].
Qed.

Lemma demo_reach : gateReach small demo.
Proof.
  apply (gateRun_reach small twoDownloads); [|vm_compute; reflexivity].
  repeat constructor; cbv; congruence.
Qed.

Lemma read_gate_limits_witness :
  configured small /\ gateReach small demo /\ inflight (gs_gate demo) = 2 /\
  bytes (gs_gate demo) <= budget (newReadGate small).
Proof.
  assert (configured small) as Hc by (split; vm_compute; congruence).
  destruct (read_gate_limits small demo Hc demo_reach) as (_ & _ & _ & _ & _ & _ & _ & Hb).
  split; [done|]. split; [exact demo_reach|]. split; [vm_compute; reflexivity|].
  destruct Hb as [Hb|Hb]; [exfalso; revert Hb; vm_compute; congruence | exact Hb].
Defined.

Lemma read_gate_wakeup_witness :
  is_Some (gateStep demo (Wake 2)) \/
  (admissible (gs_gate demo) logPageCost = false /\
   exists j s', j <> 2%nat /\ gateStep demo (Release j) = Some s' /\
     gs_reqs s' !! 2%nat = Some (mkRequest logPageCost readAdmitWait false (Waiting 0)) /\
     is_Some (gateStep s' (Wake 2))).
Proof.
  apply (read_gate_wakeup small demo 2 (mkRequest logPageCost readAdmitWait false (Waiting 0)) 0).
  - split; vm_compute; congruence.
  - exact demo_reach.
  - vm_compute. reflexivity.
  - reflexivity.
Defined.

(** With more than one slot a read can find no capacity while only downloads run:
    the byte budget is shared. *)
Theorem downloads_starve_reads :
  configured small /\ 1 < slots (newReadGate small) /\ gateReach small demo /\
  inflight (gs_gate demo) = downloads (gs_gate demo) /\
  downloads (gs_gate demo) < maxDownloads (gs_gate demo) /\
  admissible (gs_gate demo) logPageCost = false.
Proof.
  split; [split; vm_compute; congruence|]. split; [vm_compute; reflexivity|].
  split; [exact demo_reach|]. repeat split; vm_compute; reflexivity.
Qed.

End GateDemo.

(** * Shared metrics *)

Module MetricsFacts.
Import MetricsShare.
Section share.
Context {R : Type} `{Countable K}.
Implicit Types (s : Share R K).

Definition leads s i k f : Prop := getters s !! i = Some (mkGetter k (GLead f)).
Definition waitsFor s i k f : Prop := getters s !! i = Some (mkGetter k (GWait f)).

(** A flight of the map is open, or holds a success and waits for its timer. *)
Definition cached s k f : Prop :=
  exists fl, flightStore s !! f = Some fl /\ fl_key fl = k /\
    (fl_done fl = false \/
     fl_done fl = true /\ (exists v, fl_outcome fl = Some (Ok v)) /\ (k, f) ∈ timers s).

Record share_inv s : Prop := {
  si_map : forall k f, flights s !! k = Some f -> cached s k f;
  si_lead : forall i k f, leads s i k f ->
      flights s !! k = Some f /\ flightStore s !! f = Some (mkFlight k false None);
  si_unique : forall i j k k' f, leads s i k f -> leads s j k' f -> i = j;
  si_open : forall f fl, flightStore s !! f = Some fl -> fl_done fl = false ->
      exists i, leads s i (fl_key fl) f;
  si_done : forall f fl, flightStore s !! f = Some fl -> fl_done fl = true -> is_Some (fl_outcome fl);
  si_wait : forall i k f, waitsFor s i k f ->
      exists fl, flightStore s !! f = Some fl /\ fl_key fl = k;
  si_fresh : forall f fl, flightStore s !! f = Some fl -> (f < nextFlight s)%nat;
  si_timer : forall k f, (k, f) ∈ timers s ->
      exists fl, flightStore s !! f = Some fl /\ fl_done fl = true
}.

(** Moving getter [i] to phase [p] without touching flights. *)
Lemma lookup_setPhase s i p j g :
  getters (setPhase i p s) !! j = Some g <->
  (j = i /\ exists g0, getters s !! i = Some g0 /\ g = mkGetter (gt_key g0) p) \/
  (j <> i /\ getters s !! j = Some g).
Proof.
  unfold setPhase. cbn. destruct (decide (j = i)) as [->|Hne].
  - rewrite lookup_alter_eq. destruct (getters s !! i) as [g0|]; simpl; naive_solver.
  - rewrite lookup_alter_ne by done. naive_solver.
Qed.

Lemma idle_inv s i p g0 :
  share_inv s -> getters s !! i = Some g0 -> (forall f, gt_phase g0 <> GLead f) ->
  (forall f, p <> GLead f) ->
  (forall f, p = GWait f -> exists fl, flightStore s !! f = Some fl /\ fl_key fl = gt_key g0) ->
  share_inv (setPhase i p s).
Proof.
  intros I Hi Hg Hp Hw. destruct I as [I1 I2 I3 I4 I5 I6 I7 I8].
  assert (HL : forall j k f, leads (setPhase i p s) j k f <-> leads s j k f).
  { intros j k f. unfold leads. rewrite lookup_setPhase. split.
    - intros [(-> & g1 & Hg1 & [= -> <-])|[_ Hj]]; [by destruct (Hp f) | done].
    - intros Hj. right. split; [|done]. intros ->. rewrite Hi in Hj. injection Hj as ->.
      by apply (Hg f). }
  split; try done.
  - intros j k f. rewrite HL. apply I2.
  - intros j j' k k' f. rewrite !HL. apply I3.
  - intros f fl Hf Hd. destruct (I4 f fl Hf Hd) as [j Hj]. exists j. by apply HL.
  - intros j k f. unfold waitsFor. rewrite lookup_setPhase.
    intros [(-> & g1 & Hg1 & [= -> <-])|[_ Hj]]; [|by apply (I6 j)].
    rewrite Hi in Hg1. injection Hg1 as <-. by apply Hw.
Qed.

(** Creating a flight makes its getter the leader. *)
Lemma create_inv s i k :
  share_inv s -> getters s !! i = Some (mkGetter k GTop) -> flights s !! k = None ->
  share_inv (get s i k).
Proof.
  intros I Hi Hk. unfold get. rewrite Hk. destruct I as [I1 I2 I3 I4 I5 I6 I7 I8].
  destruct s as [m st n gs ts]. cbn -[setPhase] in *.
  assert (Hn : st !! n = None).
  { destruct (st !! n) as [fl|] eqn:E; [|done]. pose proof (I7 n fl E). lia. }
  assert (HL : forall j k' f, leads (get (mkShare m st n gs ts) i k) j k' f <->
      (j = i /\ k' = k /\ f = n) \/ (j <> i /\ leads (mkShare m st n gs ts) j k' f)).
  { intros j k' f. unfold leads, get. cbn -[setPhase]. rewrite Hk, lookup_setPhase. cbn. split.
    - intros [(-> & g1 & Hg1 & [= -> <-])|[? Hj]]; [|by right].
      rewrite Hi in Hg1. injection Hg1 as <-. by left.
    - intros [(-> & -> & ->)|[? Hj]]; [left; eauto | by right]. }
  unfold get in HL. cbn -[setPhase] in HL. rewrite Hk in HL. split; cbn in *.
  - intros k' f [[<- <-]|[Hne Hf]]%lookup_insert_Some.
    + exists (mkFlight k false None). cbn. rewrite lookup_insert_eq. auto.
    + destruct (I1 k' f Hf) as (fl & Hs & Hkey & Hd). exists fl. cbn in *.
      rewrite lookup_insert_ne by congruence. auto.
  - intros j k' f [(-> & -> & ->)|[Hj Hl]]%HL; [by rewrite !lookup_insert_eq|].
    destruct (I2 j k' f Hl) as [Hm Hs]. rewrite !lookup_insert_ne by congruence. auto.
  - intros j j' k1 k2 f [(-> & -> & ->)|[Hj Hl]]%HL [(-> & -> & E)|[Hj' Hl']]%HL; try done.
    + apply I2 in Hl' as [_ Hl']. congruence.
    + apply I2 in Hl as [_ Hl]. congruence.
    + by apply (I3 j j' k1 k2 f).
  - intros f fl [[<- <-]|[Hne Hf]]%lookup_insert_Some Hd.
    + exists i. apply HL. by left.
    + destruct (I4 f fl Hf Hd) as [j Hj]. exists j. apply HL. right. split; [|done].
      intros ->. unfold leads in Hj. cbn in Hj. congruence.
  - intros f fl [[<- <-]|[Hne Hf]]%lookup_insert_Some Hd; [done | by apply (I5 f)].
  - intros j k' f Hw. unfold waitsFor in Hw. apply lookup_setPhase in Hw as [(_ & ? & _ & [=])|[_ Hw]].
    destruct (I6 j k' f Hw) as (fl & Hf & Hkey). exists fl.
    rewrite lookup_insert_ne by congruence. auto.
  - intros f fl [[<- <-]|[Hne Hf]]%lookup_insert_Some; [lia | apply I7 in Hf; lia].
  - intros k' f Ht. destruct (I8 k' f Ht) as (fl & Hf & Hd). exists fl.
    rewrite lookup_insert_ne by congruence. auto.
Qed.

(** Publishing an outcome: cached with a timer if it is a success, dropped from
    the map otherwise. *)
Lemma publish_inv s i k f o p m t :
  share_inv s -> leads s i k f -> (forall f, p <> GLead f /\ p <> GWait f) ->
  (exists v, o = Ok v) /\ m = flights s /\ t = (k, f) :: timers s \/
  m = delete k (flights s) /\ t = timers s ->
  share_inv (setPhase i p (s <| flights := m |> <| timers := t |>
                             <| flightStore ::= insert f (mkFlight k true (Some o)) |>)).
Proof.
  intros I Hi Hp Hm. destruct I as [I1 I2 I3 I4 I5 I6 I7 I8].
  set (s' := setPhase i p _).
  destruct (I2 i k f Hi) as [Hmk Hsf].
  assert (HL : forall j k' f', leads s' j k' f' <-> j <> i /\ leads s j k' f').
  { intros j k' f'. unfold leads, s'. rewrite lookup_setPhase. cbn. split; [|by right].
    intros [(_ & g1 & _ & [= _ E])|?]; [|done]. by destruct (Hp f'). }
  assert (HF : forall j k' f', leads s' j k' f' -> f' <> f /\ k' <> k).
  { intros j k' f' [Hj Hl]%HL. split; intros ->.
    - apply Hj. by apply (I3 j i k' k f).
    - destruct (I2 _ _ _ Hl) as [Hl' _]. assert (f' = f) by congruence. subst.
      apply Hj. by apply (I3 j i k k f). }
  assert (Hsub : forall k' f', m !! k' = Some f' -> flights s !! k' = Some f').
  { destruct Hm as [(_ & -> & _)|(-> & _)]; [done|]. by intros k' f' [_ ?]%lookup_delete_Some. }
  assert (Htim : forall x, x ∈ t -> x = (k, f) \/ x ∈ timers s).
  { destruct Hm as [(_ & _ & ->)|(_ & ->)]; [|by right]. intros x. by rewrite elem_of_cons. }
  assert (Htim' : forall x, x ∈ timers s -> x ∈ t).
  { destruct Hm as [(_ & _ & ->)|(_ & ->)]; [|done]. intros x. rewrite elem_of_cons. by right. }
  split.
  - intros k' f' Hk'. change (m !! k' = Some f') in Hk'. unfold cached. cbn.
    destruct (decide (f' = f)) as [->|Hne].
    + exists (mkFlight k true (Some o)). rewrite lookup_insert_eq. split; [done|]. cbn.
      destruct Hm as [((v & ->) & -> & ->)|(-> & _)].
      * destruct (I1 k' f Hk') as (fl & Hf & Hkey & _). rewrite Hsf in Hf. injection Hf as <-. cbn in Hkey.
        subst k'. split; [done|]. right. split; [done|]. split; [eauto|]. apply list_elem_of_here.
      * apply lookup_delete_Some in Hk' as [Hkk Hk']. exfalso.
        destruct (I1 k' f Hk') as (fl & Hf & Hkey & _). rewrite Hsf in Hf. injection Hf as <-. done.
    + destruct (I1 k' f' (Hsub _ _ Hk')) as (fl & Hf & Hkey & Hd). exists fl.
      rewrite lookup_insert_ne by done. naive_solver.
  - intros j k' f' Hl. destruct (HF _ _ _ Hl) as [Hf' Hk']. apply HL in Hl as [_ Hl].
    destruct (I2 j k' f' Hl) as [Hm' Hs']. cbn. rewrite lookup_insert_ne by done. split; [|done].
    destruct Hm as [(_ & -> & _)|(-> & _)]; [done|]. by rewrite lookup_delete_ne by done.
  - intros j j' k1 k2 f' [_ H1]%HL [_ H2]%HL. by apply (I3 j j' k1 k2 f').
  - intros f' fl. cbn. intros [[<- <-]|[Hne Hf]]%lookup_insert_Some Hd; [done|].
    destruct (I4 f' fl Hf Hd) as [j Hj]. exists j. apply HL. split; [|done].
    intros ->. unfold leads in Hi, Hj. congruence.
  - intros f' fl. cbn. intros [[<- <-]|[Hne Hf]]%lookup_insert_Some Hd; [cbn; eauto | by apply (I5 f')].
  - intros j k' f' Hw. unfold waitsFor, s' in Hw.
    apply lookup_setPhase in Hw as [(_ & ? & _ & [= _ E])|[_ Hw]]; [by destruct (Hp f')|].
    destruct (I6 j k' f' Hw) as (fl & Hf & Hkey). cbn. destruct (decide (f' = f)) as [->|].
    + rewrite lookup_insert_eq. eexists. split; [done|]. rewrite Hsf in Hf. by injection Hf as <-.
    + rewrite lookup_insert_ne by done. eauto.
  - intros f' fl. cbn. intros [[<- <-]|[Hne Hf]]%lookup_insert_Some; [by apply (I7 _ _ Hsf) | by apply (I7 _ fl)].
  - intros k' f' [[= -> ->]|Ht]%Htim; cbn; [rewrite lookup_insert_eq; eauto|].
    destruct (I8 k' f' Ht) as (fl & Hf & Hd). destruct (decide (f' = f)) as [->|].
    + rewrite lookup_insert_eq. eauto.
    + rewrite lookup_insert_ne by done. eauto.
Qed.

Lemma expire_inv s k f : share_inv s -> (k, f) ∈ timers s -> share_inv (expire s k f).
Proof.
  intros I Ht. destruct I as [I1 I2 I3 I4 I5 I6 I7 I8]. unfold expire.
  destruct (I8 k f Ht) as (fl & Hf & Hd).
  assert (Hlead : forall i k' f', leads s i k' f' -> f' <> f).
  { intros i k' f' Hl ->. apply I2 in Hl as [_ Hl]. rewrite Hf in Hl. injection Hl as ->. done. }
  case_bool_decide as Hk; cbn in Hk; split; try done; cbn.
  - intros k' f' [Hne Hk']%lookup_delete_Some.
    destruct (I1 k' f' Hk') as (fl' & Hs & Hkey & Hor). exists fl'. split; [done|]. split; [done|].
    destruct Hor as [|(? & ? & Hin)]; [by left|]. right. split; [done|]. split; [done|].
    apply elem_of_filter_list. split; [done|]. rewrite bool_decide_eq_false_2; [done | congruence].
  - intros i k' f' Hl. destruct (I2 i k' f' Hl) as [Hm Hs]. split; [|done].
    rewrite lookup_delete_ne; [done|]. intros <-. apply (Hlead i k f' Hl). congruence.
  - intros k' f' [Hin _]%elem_of_filter_list. by apply (I8 k').
  - intros k' f' Hk'. destruct (I1 k' f' Hk') as (fl' & Hs & Hkey & Hor). exists fl'.
    split; [done|]. split; [done|].
    destruct Hor as [|(? & ? & Hin)]; [by left|]. right. split; [done|]. split; [done|].
    apply elem_of_filter_list. split; [done|]. rewrite bool_decide_eq_false_2; [done | congruence].
  - intros k' f' [Hin _]%elem_of_filter_list. by apply (I8 k').
Qed.

Lemma request_inv s i k :
  share_inv s -> getters s !! i = None -> share_inv (s <| getters ::= insert i (mkGetter k GTop) |>).
Proof.
  intros I Hi. destruct I as [I1 I2 I3 I4 I5 I6 I7 I8].
  assert (HL : forall j g, gt_phase g <> GTop ->
      <[i := mkGetter k GTop]> (getters s) !! j = Some g <-> getters s !! j = Some g).
  { intros j g Hg. destruct (decide (j = i)) as [->|]; [|by rewrite lookup_insert_ne].
    rewrite lookup_insert_eq, Hi. split; [intros [= <-]; done | done]. }
  split; try done; unfold leads, waitsFor in *; cbn in *.
  - intros j k' f Hl. apply HL in Hl; [by apply (I2 j) | done].
  - intros j j' k1 k2 f Hl Hl'. apply HL in Hl, Hl'; [by apply (I3 j j' k1 k2 f) | done..].
  - intros f fl Hf Hd. destruct (I4 f fl Hf Hd) as [j Hj]. exists j. by apply HL.
  - intros j k' f Hl. apply HL in Hl; [by apply (I6 j) | done].
Qed.

Lemma shareStep_inv s e s' : share_inv s -> shareStep s e = Some s' -> share_inv s'.
Proof.
  intros I. destruct e as [i k|i|i r|i|i c|i|k f]; cbn [shareStep].
  - destruct (getters s !! i) eqn:Hi; [done|]. intros [= <-]. by apply request_inv.
  - destruct (getters s !! i) as [[k p]|] eqn:Hi; cbn [mbind option_bind gt_phase gt_key]; [|done].
    destruct p; try done. intros [= <-]. destruct (flights s !! k) as [f|] eqn:Hk.
    + unfold get. rewrite Hk. apply (idle_inv s i _ _ I Hi); try done. intros f' [= <-].
      destruct (si_map _ I k f Hk) as (fl & Hf & Hkey & _). eauto.
    + by apply create_inv.
  - destruct (getters s !! i) as [[k p]|] eqn:Hi; cbn [mbind option_bind gt_phase gt_key]; [|done].
    destruct p as [|f| | |]; try done. intros [= <-]. unfold lead. destruct r as [v|e].
    + apply (publish_inv s i k f (Ok v) _ (flights s) ((k, f) :: timers s)); try done. left. eauto.
    + apply (publish_inv s i k f (Err e) _ (delete k (flights s)) (timers s)); try done. by right.
  - destruct (getters s !! i) as [[k p]|] eqn:Hi; cbn [mbind option_bind gt_phase gt_key]; [|done].
    destruct p as [|f| | |]; try done. intros [= <-]. unfold leadAborted.
    apply (publish_inv s i k f (Err Aborted) _ (delete k (flights s)) (timers s)); try done. by right.
  - destruct (getters s !! i) as [[k p]|] eqn:Hi; cbn [mbind option_bind gt_phase gt_key]; [|done].
    destruct p as [| |f| |]; try done.
    destruct (flightStore s !! f) as [fl|]; cbn [mbind option_bind]; [|done].
    destruct (fl_done fl), (fl_outcome fl) as [o|]; cbn [mbind option_bind]; try done.
    intros [= <-]. unfold joined. repeat case_match; by apply (idle_inv s i _ _ I Hi).
  - destruct (getters s !! i) as [[k p]|] eqn:Hi; cbn [mbind option_bind gt_phase gt_key]; [|done].
    destruct p; try done. intros [= <-]. by apply (idle_inv s i _ _ I Hi).
  - case_bool_decide; [|done]. intros [= <-]. by apply expire_inv.
Qed.

Lemma shareReach_inv s : shareReach s -> share_inv s.
Proof.
  induction 1 as [|s e s' _ IH Hs]; [|by apply (shareStep_inv s e)].
  split; unfold leads, waitsFor; cbn; intros; try done;
    first [by rewrite lookup_empty in * | set_solver].
Qed.

(** Metrics requests for one view share one computation.  In every
    interleaving of requests, computations (successful, failed, canceled or
    panicking), departures and expiry timers: two requests never compute the same view at
    once; what later requests find cached is a success with an expiry timer
    pending, never a failure; and a request waiting for a flight is not stranded: its
    flight is done and it can continue, or its computation is still running. *)
Theorem metrics_single_flight s :
  shareReach s ->
  (forall i j k f f', leads s i k f -> leads s j k f' -> i = j /\ f = f') /\
  (forall k f fl, flights s !! k = Some f -> flightStore s !! f = Some fl -> fl_done fl = true ->
     (exists v, fl_outcome fl = Some (Ok v)) /\ is_Some (shareStep s (SExpired k f))) /\
  (forall i k f, waitsFor s i k f ->
     is_Some (shareStep s (SFlightDone i true)) \/ exists j, leads s j k f).
Proof.
  intros [I1 I2 I3 I4 I5 I6 I7 I8]%shareReach_inv. split; [|split].
  - intros i j k f f' Hi Hj. destruct (I2 _ _ _ Hi), (I2 _ _ _ Hj).
    assert (f' = f) by congruence. subst. split; [by apply (I3 i j k k f) | done].
  - intros k f fl Hk Hf Hd. destruct (I1 k f Hk) as (fl' & Hf' & _ & Hor).
    assert (fl' = fl) by congruence. subst. destruct Hor as [|(_ & Hv & Ht)]; [congruence|].
    split; [done|]. cbn. rewrite bool_decide_eq_true_2 by done. eauto.
  - intros i k f Hw. destruct (I6 i k f Hw) as (fl & Hf & <-).
    destruct (fl_done fl) eqn:Hd; [left | by right; apply I4].
    destruct (I5 f fl Hf Hd) as [o Ho]. unfold waitsFor in Hw. cbn. rewrite Hw. cbn.
    rewrite Hf. cbn. rewrite Hd, Ho. cbn. eauto.
Qed.
End share.

Module ShareDemo.
(** One leader and one waiter for the same view. *)
Definition shareRun (es : list (ShareEvent nat Z)) : option (Share nat Z) :=
  foldl (fun s e => s ≫= fun s => shareStep s e) (Some newShare) es.
Definition shared : Share nat Z :=
  default newShare (shareRun [SRequest 0 60; SEnter 0; SRequest 1 60; SEnter 1]).

Lemma shareRun_reach es s : shareRun es = Some s -> shareReach s.
Proof.
  unfold shareRun. revert s. induction es as [|e es IH] using rev_ind; intros s; simpl.
  { intros [= <-]. constructor. }
  rewrite foldl_app. simpl. destruct (foldl _ _ es) as [t|]; [|done]. simpl.
  apply (share_next t e). by apply IH.
Qed.

Lemma shared_reach : shareReach shared.
Proof.
  apply (shareRun_reach [SRequest 0 60; SEnter 0; SRequest 1 60; SEnter 1]). vm_compute. reflexivity.
Qed.

Lemma metrics_single_flight_witness :
  shareReach shared /\ leads shared 0 60 0 /\
  (is_Some (shareStep shared (SFlightDone 1 true)) \/ exists j, leads shared j 60 0).
Proof.
  split; [exact shared_reach|]. split; [vm_compute; reflexivity|].
  apply (metrics_single_flight shared shared_reach). vm_compute. reflexivity.
Defined.
End ShareDemo.
End MetricsFacts.
