(* ===== verification/Alerts.v ===== *)
(** The alert dispatcher (internal/alerts/alerts.go).

    [AlertText] is the message text with its length, [StatusSet] the bit set of
    notified statuses, [Dispatcher] the asynchronous pipeline: [Notify] puts
    deliveries into a bounded queue or notes a drop, the batch goroutine groups
    them by channel and window and splits the groups by message size, four
    workers send the groups with at most three attempts.

    Each goroutine is a program counter; one step is the code between two
    points where another goroutine can interfere (a channel operation, a
    lock, an atomic counter).  Clock readings and the results of [Send] are
    arguments of the steps.  A [Channel] is the telegram transport, a pointer
    allocated by [Prepare]; what it sends over HTTP is not modelled. *)

From S2P Require Import Prelude GoRuntime Model.
From stdpp Require Import pretty.
Open Scope Z_scope.
Import AlertChannels.

(** * Text *)

Module AlertText.

(** [time.Duration.Round]. *)
Definition lessThanHalf (x y : Z) : bool := x + x <? y.

Definition Round (d m : Duration) : Duration :=
  if m <=? 0 then d else
  let r := Z.rem d m in
  if d <? 0 then
    let r := - r in
    if lessThanHalf r m then wrap64 (d + r) else
    let d1 := wrap64 (d - m + r) in
    if d1 <? d then d1 else minInt64
  else
    if lessThanHalf r m then wrap64 (d - r) else
    let d1 := wrap64 (d + m - r) in
    if d <? d1 then d1 else maxInt64.

(** [time.Duration.String]: [fmtFrac] prints [prec] digits after the point
    without trailing zeros and returns the integer part. *)
Fixpoint fmtFrac (prec : nat) (v : Z) (print : bool) (acc : string) : string * Z :=
  match prec with
  | O => ((if print then "." +:+ acc else acc), v)
  | S prec =>
      let digit := v mod 10 in
      let print := print || negb (digit =? 0) in
      fmtFrac prec (v / 10) print (if print then pretty digit +:+ acc else acc)
  end.

Definition micro_s : string := String (Ascii.ascii_of_nat 194) (String (Ascii.ascii_of_nat 181) "s").

Definition magnitude (u : Z) : string :=
  if u =? 0 then "0s" else
  if u <? Second then
    if u <? Microsecond then pretty u +:+ "ns" else
    let '(prec, unit_) := if u <? Millisecond then (3%nat, micro_s) else (6%nat, "ms") in
    let '(frac, v) := fmtFrac prec u false "" in pretty v +:+ frac +:+ unit_
  else
    let '(frac, v) := fmtFrac 9 u false "" in
    let secs := pretty (v mod 60) +:+ frac +:+ "s" in
    let v := v / 60 in
    if v =? 0 then secs else
    let mins := pretty (v mod 60) +:+ "m" +:+ secs in
    let v := v / 60 in
    if v =? 0 then mins else pretty v +:+ "h" +:+ mins.

Definition DurationString (d : Duration) : string :=
  if d <? 0 then "-" +:+ magnitude (- d) else magnitude d.

Definition nl : string := String (Ascii.ascii_of_nat 10) "".

Definition formatTelegram (run : Run) : string :=
  let b := "minicrond alert" +:+ nl +:+ "Definition: " +:+ r_Job run +:+ nl +:+
           "Status: " +:+ r_Status run +:+ nl +:+ "Run: " +:+ r_ID run in
  let b := if String.eqb (r_EndReason run) "" then b
           else b +:+ nl +:+ "Reason: " +:+ r_EndReason run in
  let b := match r_ExitCode run with
           | None => b | Some c => b +:+ nl +:+ "Exit code: " +:+ pretty c end in
  match r_StartedAt run, r_EndedAt run with
  | Some s, Some e => b +:+ nl +:+ "Duration: " +:+ DurationString (Round (Sub e s) Millisecond)
  | _, _ => b
  end.

(** [strings.TrimPrefix]. *)
Definition TrimPrefix (s prefix : string) : string :=
  if String.prefix prefix s
  then String.substring (String.length prefix) (String.length s - String.length prefix) s
  else s.

Fixpoint formatRuns (first : bool) (runs : list Run) : string :=
  match runs with
  | [] => ""
  | run :: rest =>
      (if first then "" else nl +:+ nl) +:+
      TrimPrefix (formatTelegram run) ("minicrond alert" +:+ nl) +:+ formatRuns false rest
  end.

(** A batched alert; a single run without a batch is [formatTelegram]. *)
Definition formatAlert (run : Run) (runs : list Run) : string :=
  match runs with
  | [] => formatTelegram run
  | _ => "minicrond alerts" +:+ nl +:+ formatRuns true runs
  end.

Definition blen (s : string) : Z := Z.of_nat (String.length s).
End AlertText.

(** * Status sets *)

Module StatusSet.

(** [slices.Index]. *)
Fixpoint slicesIndex (l : list string) (x : string) : Z :=
  match l with
  | [] => -1
  | y :: l => if String.eqb y x then 0 else
              let i := slicesIndex l x in if i <? 0 then i else i + 1
  end.

Fixpoint statusBits (i : Z) (all statuses : list string) (set : Z) : Z :=
  match all with
  | [] => set
  | status :: all =>
      statusBits (i + 1) all statuses
        (if contains status statuses then Z.lor set (Z.shiftl 1 i mod 2 ^ 8) else set)
  end.

Definition newStatusSet (statuses : list string) : Z := statusBits 0 AlertStatuses statuses 0.

Definition has (s : Z) (status : string) : bool :=
  let i := slicesIndex AlertStatuses status in
  (0 <=? i) && negb (Z.land s (Z.shiftl 1 i mod 2 ^ 8) =? 0).

Definition defaultNotifyOn : Z := newStatusSet DefaultNotifyOn.
End StatusSet.

(** * The dispatcher *)

Module Dispatcher.
Import AlertText StatusSet.

(** A telegram transport; the pointer is its identity. *)
Record telegram := mkTelegram {
  tg_ptr : nat;
  tg_token : string;
  tg_chatID : string;
  tg_disableNotification : bool
}.

Definition sameChannel (a b : telegram) : bool := Nat.eqb (tg_ptr a) (tg_ptr b).

Record Record_ := mkRecord {
  rec_RunID : string;
  rec_Channel : string;
  rec_Status : string;
  rec_Attempts : Z;
  rec_Reason : string
}.

Record delivery := mkDelivery {
  dl_channel : telegram;
  dl_run : Run;
  dl_name : string;
  dl_window : Duration
}.

Record Registry := mkRegistry {
  rg_channels : gmap string telegram;
  rg_windows : gmap string Duration;
  rg_notifyOn : gmap string Z
}.

Inductive AlertError :=
| BadChannel (e : ChannelError) | DuplicateChannel | DispatcherClosed | UnknownChannel.

(** [Prepare]; [alloc] is the next fresh pointer. *)
Fixpoint Prepare (alloc : nat) (configs : list AlertChannel) (r : Registry)
    : Result AlertError (Registry * nat) :=
  match configs with
  | [] => Ok (r, alloc)
  | cfg :: configs =>
      match Normalize cfg with
      | Err e => Err (BadChannel e)
      | Ok cfg =>
          match rg_channels r !! ac_Name cfg with
          | Some _ => Err DuplicateChannel
          | None =>
              let window := wrap64 (ac_BatchWindow cfg * Second) in
              Prepare (S alloc) configs (mkRegistry
                (<[ac_Name cfg := mkTelegram alloc (ac_BotToken cfg) (ac_ChatID cfg)
                                    (ac_DisableNotification cfg)]> (rg_channels r))
                (<[ac_Name cfg := window]> (rg_windows r))
                (<[ac_Name cfg := newStatusSet (ac_NotifyOn cfg)]> (rg_notifyOn r)))
          end
      end
  end.

Definition emptyRegistry : Registry := mkRegistry ∅ ∅ ∅.

Record Pending := mkPending { p_items : list delivery; p_until : Time }.

Definition maxDropObservations : Z := 256.
Definition queueCap : Z := 256.
Definition workCap : Z := 256.
Definition batchMax : Z := 256.
Definition messageMax : Z := 3500.
Definition maxAttempts : Z := 3.

(** Where the batch goroutine is. *)
Inductive BatchPc :=
| BSelect                                       (** in the [select] *)
| BDrain (items : list delivery)                (** taking what else is waiting *)
| BAdd (items : list delivery)                  (** adding the items one by one *)
| BFlush (keys : list string) (final : bool)    (** flushing batches; [final] after [Close] *)
| BOut (groups : list (list delivery)) (k : BatchPc)  (** in [enqueue] *)
| BDiscard                                      (** canceled: emptying the queue *)
| BExited.

(** Where a worker is with its batch: [attempts] sends have been started. *)
Inductive WorkerPc :=
| WHead (b : list delivery) (attempts : Z)
| WReady (b : list delivery) (attempts : Z)     (** "sending" has been recorded *)
| WSending (b : list delivery) (attempts : Z)
| WFinish (b : list delivery) (attempts : Z) (err : option string).

(** Where a call of [Notify] is: it holds the read lock of [d.mu] throughout. *)
Inductive Producer :=
| PLoop (run : Run) (names : list string)       (** at the head of its loop *)
| PSelect (run : Run) (item : delivery) (names : list string)  (** counted, before the [select] *)
| PFull (run : Run) (name : string) (names : list string)      (** the [select] took [default] *)
| PDrop (run : Run) (name reason : string) (names : list string)  (** before [observeDrop] *).

(** [reports] are the groups given to [d.record]; [accepted], [finished] and
    [abandoned] are the history of the deliveries. *)
Record Disp := mkDisp {
  channels : gmap string telegram;
  windows : gmap string Duration;
  notifyOn : gmap string Z;
  queue : list delivery;
  work : list (list delivery);
  closed : bool;
  canceled : bool;
  pending : Z;
  drops : list Record_;
  dropStart : Z;
  dropOverflow : Z;
  dropWake : bool;
  batches : gmap string Pending;
  deadline : option Time;
  bpc : BatchPc;
  workers : gmap nat WorkerPc;
  producers : gmap nat Producer;
  alloc : nat;
  reports : list (list Record_);
  discarded : Z;                          (** overwritten drops that were logged *)
  accepted : list delivery;
  finished : list (delivery * string);
  abandoned : list delivery
}.

#[export] Instance Disp_eta : Eta Disp := fun d => mkDisp
  (channels d) (windows d) (notifyOn d) (queue d) (work d) (closed d) (canceled d) (pending d)
  (drops d) (dropStart d) (dropOverflow d) (dropWake d) (batches d) (deadline d) (bpc d)
  (workers d) (producers d) (alloc d) (reports d) (discarded d) (accepted d) (finished d) (abandoned d).

(** [Apply] and [Reload]. *)
Definition Apply (d : Disp) (r : Registry) : Disp * Result AlertError unit :=
  if closed d then (d, Err DispatcherClosed) else
  (d <| channels := rg_channels r |> <| windows := rg_windows r |> <| notifyOn := rg_notifyOn r |>,
   Ok tt).

Definition Reload (d : Disp) (configs : list AlertChannel) : Disp * Result AlertError unit :=
  match Prepare (alloc d) configs emptyRegistry with
  | Err e => (d, Err e)
  | Ok (r, a) => Apply (d <| alloc := a |>) r
  end.

Definition newDisp : Disp := mkDisp ∅ ∅ ∅ [] [] false false 0 [] 0 0 false ∅ None BSelect ∅ ∅ 0
  [] 0 [] [] [].

Definition New (configs : list AlertChannel) : Result AlertError Disp :=
  match Reload newDisp configs with
  | (d, Ok _) => Ok d
  | (_, Err e) => Err e
  end.

(** ** Observations *)

Definition deliveryRecordName (name : string) (run : Run) : string :=
  if String.eqb (r_Status run) "exhausted" then name +:+ "~worker_exhausted" else name.

(** [observeDrop]: a ring of the newest drops. *)
Definition observeDrop (d : Disp) (runID name reason : string) : Disp :=
  let rec_ := mkRecord runID name "dropped" 0 reason in
  let d := if Z.of_nat (length (drops d)) <? maxDropObservations
           then d <| drops ::= fun l => l ++ [rec_] |>
           else d <| drops ::= <[Z.to_nat (dropStart d) := rec_]> |>
                  <| dropStart := (dropStart d + 1) mod maxDropObservations |>
                  <| dropOverflow ::= Z.succ |> in
  d <| dropWake := true |>.

(** [reportAll]: observations without a run are only logged. *)
Definition reportAll (d : Disp) (records : list Record_) : Disp :=
  let persistable := List.filter (fun r => negb (String.eqb (rec_RunID r) "")) records in
  match persistable with
  | [] => d
  | _ => if canceled d then d else d <| reports ::= fun l => l ++ [persistable] |>
  end.

(** The pending drops, oldest first. *)
Definition dropRecords (d : Disp) : list Record_ :=
  if 0 <? dropStart d
  then drop (Z.to_nat (dropStart d)) (drops d) ++ take (Z.to_nat (dropStart d)) (drops d)
  else drops d.

Definition flushDrops (d : Disp) : Disp :=
  let records := dropRecords d in
  let overflow := dropOverflow d in
  let d := d <| drops := [] |> <| dropStart := 0 |> <| dropOverflow := 0 |> in
  let d := d <| discarded ::= Z.add overflow |> in
  reportAll d records.

Definition statusRecords (batch : list delivery) (status : string) (attempts : Z) (reason : string)
    : list Record_ :=
  map (fun i => mkRecord (r_ID (dl_run i)) (deliveryRecordName (dl_name i) (dl_run i))
                  status attempts reason) batch.

(** ** Notify *)

(** A call of [Notify] by the goroutine [i]: the checks before its loop. *)
Definition Notify (d : Disp) (i : nat) (run : Run) (definition : Definition_) : option Disp :=
  match producers d !! i, default [] (d_Alerts definition) with
  | Some _, _ => None
  | None, [] => Some d
  | None, names => Some (if closed d then d else d <| producers ::= insert i (PLoop run names) |>)
  end.

Definition NotifyExhausted (d : Disp) (i : nat) (definition : Definition_) (outcome : WorkerExhaustion)
    : option Disp :=
  Notify d i (zeroRun <| r_ID := we_LastRunID outcome |> <| r_Job := d_Name definition |>
                    <| r_Kind := "worker" |> <| r_Status := "exhausted" |>
                    <| r_EndReason := we_Reason outcome |> <| r_EndedAt := Some (we_At outcome) |>)
    definition.

(** The steps of its loop: the counter is incremented before the [select] and
    decremented again when the queue is full. *)
Definition producerStep (d : Disp) (i : nat) : option Disp :=
  let put w d := Some (d <| producers ::= insert i w |>) in
  match producers d !! i with
  | None => None
  | Some (PLoop run []) => Some (d <| producers ::= delete i |>)
  | Some (PLoop run (name :: names)) =>
      let on := default defaultNotifyOn (notifyOn d !! name) in
      if negb (has on (r_Status run)) then put (PLoop run names) d else
      match channels d !! name with
      | None => put (PDrop run name "alert channel is unavailable" names) d
      | Some channel =>
          put (PSelect run (mkDelivery channel run name (default 0 (windows d !! name))) names)
            (d <| pending ::= Z.succ |>)
      end
  | Some (PSelect run item names) =>
      if Z.of_nat (length (queue d)) <? queueCap
      then put (PLoop run names) (d <| queue ::= fun q => q ++ [item] |> <| accepted ::= fun a => a ++ [item] |>)
      else put (PFull run (dl_name item) names) d
  | Some (PFull run name names) =>
      put (PDrop run name "alert queue is full" names) (d <| pending ::= Z.pred |>)
  | Some (PDrop run name reason names) =>
      put (PLoop run names) (observeDrop d (r_ID run) (deliveryRecordName name run) reason)
  end.

(** ** The batch goroutine *)

(** The groups [flush] sends: a group is closed before the message would exceed
    3500 bytes. *)
Fixpoint splitGroups (group : list delivery) (length_ : Z) (items : list delivery)
    : list (list delivery) :=
  match items with
  | [] => match group with [] => [] | _ => [group] end
  | item :: items =>
      let n := blen (formatTelegram (dl_run item)) + 2 in
      let header := blen ("minicrond alerts" +:+ nl) in
      match group with
      | [] => splitGroups [item] (length_ + n) items
      | _ => if messageMax <? length_ + n
             then group :: splitGroups [item] (header + n) items
             else splitGroups (group ++ [item]) (length_ + n) items
      end
  end.

Definition flushGroups (items : list delivery) : list (list delivery) :=
  splitGroups [] (blen ("minicrond alerts" +:+ nl)) items.

Definition batchOf (d : Disp) (key : string) : list delivery :=
  match batches d !! key with Some p => p_items p | None => [] end.

(** [flush]: remove the batch; its groups go to [enqueue]. *)
Definition flush (d : Disp) (key : string) : Disp * list (list delivery) :=
  (d <| batches ::= delete key |>, flushGroups (batchOf d key)).

(** [add]; [now1] and [now2] are its clock readings. *)
Definition add (d : Disp) (item : delivery) (now1 now2 : Time) : Disp * list (list delivery) :=
  let name := dl_name item in
  let p := default (mkPending [] zeroTime) (batches d !! name) in
  let stale := match p_items p with
               | [] => false
               | first :: _ => negb (Before now1 (p_until p)) ||
                               negb (sameChannel (dl_channel first) (dl_channel item))
               end in
  let '(d, out) := if stale then flush d name else (d, []) in
  let p := if stale then mkPending [] zeroTime else p in
  let until := match p_items p with [] => GoRuntime.Add now2 (dl_window item) | _ => p_until p end in
  let p := mkPending (p_items p ++ [item]) until in
  let d := d <| batches ::= insert name p |> in
  if batchMax <=? Z.of_nat (length (p_items p))
  then let '(d, out') := flush d name in (d, out ++ out')
  else (d, out).

(** [resetDeadline]: the earliest end of a window. *)
Definition resetDeadline (d : Disp) : Disp :=
  d <| deadline := map_fold (fun _ p next =>
        match next with
        | None => Some (p_until p)
        | Some t => if Before (p_until p) t then Some (p_until p) else Some t
        end) None (batches d) |>.

(** The keys whose window has ended. *)
Definition dueKeys (d : Disp) (now : Time) : list string :=
  (map_to_list (batches d)).*1 ≫= fun k =>
    match batches d !! k with
    | Some p => if Before now (p_until p) then [] else [k]
    | None => []
    end.

(** Deliveries that leave the pipeline undelivered because it was canceled. *)
Definition abandon (d : Disp) (items : list delivery) : Disp :=
  d <| pending := pending d - Z.of_nat (length items) |> <| abandoned ::= fun a => a ++ items |>.

Inductive BatchEvent :=
| EvCtxDone
| EvDropWake
| EvReceive                       (** an item, or the closed queue *)
| EvDrained                       (** nothing else is waiting *)
| EvAdd (now1 now2 : Time)
| EvDeadline (now : Time)
| EvFlush (key : string)          (** the next key of the map iteration *)
| EvEnqueue                       (** [d.work <- group] *)
| EvEnqueueCanceled.

Definition batchStep (d : Disp) (e : BatchEvent) : option Disp :=
  match bpc d, e with
  | BSelect, EvCtxDone =>
      if canceled d then
        let items := concat ((fun kp => p_items kp.2) <$> map_to_list (batches d)) in
        Some ((abandon d items) <| batches := ∅ |> <| bpc := BDiscard |>)
      else None
  | BSelect, EvDropWake =>
      if dropWake d then Some (flushDrops (d <| dropWake := false |>)) else None
  | BSelect, EvReceive =>
      match queue d with
      | item :: q => Some (d <| queue := q |> <| bpc := BDrain [item] |>)
      | [] => if closed d then Some (d <| bpc := BFlush (map_to_list (batches d)).*1 true |>) else None
      end
  | BSelect, EvDeadline now =>
      match deadline d with
      | Some _ => Some (d <| bpc := BFlush (dueKeys d now) false |>)
      | None => None
      end
  | BDrain items, EvReceive =>
      if Z.of_nat (length items) <? batchMax then
        match queue d with
        | item :: q => Some (d <| queue := q |> <| bpc := BDrain (items ++ [item]) |>)
        | [] => None
        end
      else None
  | BDrain items, EvDrained =>
      match queue d with
      | _ :: _ => if Z.of_nat (length items) <? batchMax then None
                  else Some ((reportAll d (statusRecords items "queued" 0 "")) <| bpc := BAdd items |>)
      | [] => Some ((reportAll d (statusRecords items "queued" 0 "")) <| bpc := BAdd items |>)
      end
  | BAdd (item :: items), EvAdd now1 now2 =>
      let '(d, out) := add d item now1 now2 in Some (d <| bpc := BOut out (BAdd items) |>)
  | BAdd [], EvAdd _ _ => Some ((resetDeadline d) <| bpc := BSelect |>)
  | BFlush keys final, EvFlush key =>
      if bool_decide (key ∈ keys) then
        let '(d, out) := flush d key in
        Some (d <| bpc := BOut out (BFlush (List.filter (fun k => negb (String.eqb k key)) keys) final) |>)
      else None
  | BFlush [] true, EvDrained => Some ((flushDrops d) <| bpc := BExited |>)
  | BFlush [] false, EvDrained => Some ((resetDeadline d) <| bpc := BSelect |>)
  | BOut (g :: gs) k, EvEnqueue =>
      if Z.of_nat (length (work d)) <? workCap
      then Some (d <| work ::= fun w => w ++ [g] |> <| bpc := BOut gs k |>) else None
  | BOut (g :: gs) k, EvEnqueueCanceled =>
      if canceled d then Some ((abandon d g) <| bpc := BOut gs k |>) else None
  | BOut [] k, EvDrained => Some (d <| bpc := k |>)
  | BDiscard, EvReceive =>
      match queue d with
      | item :: q => Some ((abandon d [item]) <| queue := q |>)
      | [] => if closed d then Some (d <| bpc := BExited |>) else None
      end
  | _, _ => None
  end.

(** ** The workers *)

Inductive SendOutcome := SendOk | SendErr (reason : string) | SendPanic (reason : string).

Definition ctxReason : string := "context canceled".

Inductive WorkerEvent :=
| EvTake
| EvReport                        (** the head of the attempt loop *)
| EvStart                         (** the check before [Send] *)
| EvSent (o : SendOutcome)
| EvFinish.

Definition workerStep (d : Disp) (i : nat) (e : WorkerEvent) : option Disp :=
  let put w d := Some (d <| workers ::= insert i w |>) in
  match workers d !! i, e with
  | None, EvTake =>
      if (i <? 4)%nat then
        match work d with
        | b :: w =>
            let d := d <| work := w |> in
            if canceled d then Some (abandon d b) else put (WHead b 0) d
        | [] => None
        end
      else None
  | Some (WHead b n), EvReport =>
      if canceled d then put (WFinish b n (Some ctxReason)) d
      else put (WReady b (n + 1)) (reportAll d (statusRecords b "sending" (n + 1) ""))
  | Some (WReady b n), EvStart =>
      if canceled d then put (WFinish b n (Some ctxReason)) d else put (WSending b n) d
  | Some (WSending b n), EvSent o =>
      match o with
      | SendOk => put (WFinish b n None) d
      | SendPanic r => put (WFinish b n (Some r)) d
      | SendErr r => if canceled d || (maxAttempts <=? n) then put (WFinish b n (Some r)) d
                     else put (WHead b n) d
      end
  | Some (WFinish b n err), EvFinish =>
      let '(status, reason) := match err with None => ("sent", "") | Some r => ("failed", r) end in
      let d := reportAll d (statusRecords b status n reason) in
      let d := d <| pending := pending d - Z.of_nat (length b) |>
                 <| finished ::= fun f => f ++ ((fun i => (i, status)) <$> b) |> in
      Some (d <| workers ::= delete i |>)
  | _, _ => None
  end.

Definition QueueDepth (d : Disp) : Z := pending d.

(** [Test]: one synthetic message, outside the queue; [sent] is the result of its [Send]. *)
Definition Test_ (d : Disp) (name : string) (sent : SendOutcome) : Result AlertError SendOutcome :=
  if closed d then Err DispatcherClosed else
  match channels d !! name with
  | None => Err UnknownChannel
  | Some _ => Ok sent
  end.

(** [Close] under the lock: no further producer, the queue is closed. *)
Definition Close (d : Disp) : Disp := d <| closed := true |>.

(** [Apply] and [Close] take the write lock: no call of [Notify] is under way. *)
Definition unlocked (d : Disp) : bool := bool_decide (producers d = ∅).

Inductive DispEvent :=
| DNotify (i : nat) (run : Run) (definition : Definition_)
| DNotifyExhausted (i : nat) (definition : Definition_) (outcome : WorkerExhaustion)
| DProducer (i : nat)
| DReload (configs : list AlertChannel)
| DBatch (e : BatchEvent)
| DWorker (i : nat) (e : WorkerEvent)
| DClose
| DCancel.

Definition dispStep (d : Disp) (e : DispEvent) : option Disp :=
  match e with
  | DNotify i run definition => Notify d i run definition
  | DNotifyExhausted i definition outcome => NotifyExhausted d i definition outcome
  | DProducer i => producerStep d i
  | DReload configs => if unlocked d then Some (Reload d configs).1 else None
  | DBatch e => batchStep d e
  | DWorker i e => workerStep d i e
  | DClose => if unlocked d then Some (Close d) else None
  | DCancel => Some (d <| canceled := true |>)
  end.

Inductive dispReach : Disp -> Prop :=
| disp_new configs d : New configs = Ok d -> dispReach d
| disp_next d e d' : dispReach d -> dispStep d e = Some d' -> dispReach d'.

End Dispatcher.
