(* ===== verification/AlertFacts.v ===== *)
(** Theorems on the alert dispatcher: the registry encodes the stored channels,
    messages stay within the size limit, drops are kept newest first out and
    counted, and no delivery is lost or duplicated in the pipeline. *)

From S2P Require Import Prelude GoRuntime Model Alerts.
From stdpp Require Import pretty.
Open Scope Z_scope.
Import AlertChannels AlertText StatusSet Dispatcher.

(** * Status sets and the registry *)

Lemma has_newStatusSet l s :
  has (newStatusSet l) s = contains s AlertStatuses && contains s l.
Proof.
  unfold newStatusSet, has.
  destruct (decide (s ∈ AlertStatuses)) as [Hs|Hs].
  - unfold AlertStatuses in Hs. rewrite !elem_of_cons, elem_of_nil in Hs.
    unfold AlertStatuses, statusBits.
    destruct (contains "succeeded" l) eqn:E1, (contains "failed" l) eqn:E2,
      (contains "timeout" l) eqn:E3, (contains "skipped" l) eqn:E4, (contains "missed" l) eqn:E5,
      (contains "exhausted" l) eqn:E6;
      destruct Hs as [->|[->|[->|[->|[->|[->|[]]]]]]];
      rewrite ?E1, ?E2, ?E3, ?E4, ?E5, ?E6; vm_compute; reflexivity.
  - assert (Hc : contains s AlertStatuses = false).
    { apply not_true_iff_false. by rewrite AlertChannelFacts.contains_true. }
    rewrite Hc. cbn [andb].
    enough (slicesIndex AlertStatuses s = -1) as -> by done.
    unfold AlertStatuses in Hs. rewrite !elem_of_cons in Hs. unfold AlertStatuses. cbn [slicesIndex].
    repeat (rewrite (proj2 (String.eqb_neq _ s)) by (intros <-; tauto)). done.
Qed.

(** Decoding the bit set over the display order gives the normalized list back. *)
Lemma decode_newStatusSet l :
  List.filter (has (newStatusSet l)) AlertStatuses = List.filter (fun s => contains s l) AlertStatuses.
Proof.
  apply List.filter_ext_in. intros s Hs. rewrite has_newStatusSet.
  apply list_elem_of_In, AlertChannelFacts.contains_true in Hs. by rewrite Hs.
Qed.

(** What the registry holds for a channel. *)
Definition registered (r : Registry) (c : AlertChannel) : Prop :=
  (exists tg, rg_channels r !! ac_Name c = Some tg /\ tg_token tg = ac_BotToken c /\
     tg_chatID tg = ac_ChatID c /\ tg_disableNotification tg = ac_DisableNotification c) /\
  rg_windows r !! ac_Name c = Some (ac_BatchWindow c * Second) /\
  exists set, rg_notifyOn r !! ac_Name c = Some set /\
     List.filter (has set) AlertStatuses = ac_NotifyOn c.

Lemma registered_insert r c n tg w set :
  registered r c -> n <> ac_Name c ->
  registered (mkRegistry (<[n := tg]> (rg_channels r)) (<[n := w]> (rg_windows r))
                (<[n := set]> (rg_notifyOn r))) c.
Proof.
  unfold registered. cbn [rg_channels rg_windows rg_notifyOn].
  intros H Hn. by rewrite !lookup_insert_ne by done.
Qed.

Lemma Prepare_registers configs : forall a r r' a',
  Prepare a configs r = Ok (r', a') ->
  (forall c, registered r c -> registered r' c) /\
  Forall (fun cfg => exists c, Normalize cfg = Ok c /\ registered r' c) configs.
Proof.
  induction configs as [|cfg configs IH]; intros a r r' a'; cbn [Prepare].
  { intros [= <- <-]. done. }
  destruct (Normalize cfg) as [c|] eqn:En; [|done].
  destruct (rg_channels r !! ac_Name c) eqn:Ec; [done|]. intros Hp.
  apply IH in Hp as [Hkeep Hall].
  destruct (AlertChannelFacts.Normalize_accepts _ _ En) as (_ & Hw & _ & Hf & _).
  assert (Hnew : registered r' c).
  { apply Hkeep. unfold registered. cbn [rg_channels rg_windows rg_notifyOn].
    rewrite !lookup_insert_eq. split; [eexists; split; [done|]; done|].
    rewrite wrap64_id by (unfold in64, minInt64, maxInt64, Second; lia).
    split; [done|]. eexists. split; [done|]. by rewrite decode_newStatusSet. }
  split; [|constructor; eauto].
  intros c0 Hc0. apply Hkeep, registered_insert; [done|].
  destruct Hc0 as [(tg & Htg & _) _]. intros Heq. rewrite <- Heq in Htg. congruence.
Qed.

(** An accepted registry encodes exactly the stored channels: for every
    configured channel, in normal form, it holds a transport with its token and
    chat, its window in nanoseconds, and a bit set that decodes to its list of
    statuses. *)
Theorem registry_roundtrip a configs r a' :
  Prepare a configs emptyRegistry = Ok (r, a') ->
  Forall (fun cfg => exists c, Normalize cfg = Ok c /\ registered r c) configs.
Proof. intros H. by apply Prepare_registers in H as [_ H]. Qed.

Definition opsChannel : AlertChannel :=
  mkAlertChannel "ops" "telegram" "12:ab-C" true "7" false 0 ["timeout"; "failed"; "failed"].

Lemma registry_roundtrip_witness :
  exists r a', Prepare 0 [opsChannel] emptyRegistry = Ok (r, a') /\
    Forall (fun cfg => exists c, Normalize cfg = Ok c /\ registered r c) [opsChannel].
Proof.
  destruct (Prepare 0 [opsChannel] emptyRegistry) as [[r a']|] eqn:E; [|vm_compute in E; discriminate].
  exists r, a'. split; [reflexivity|]. exact (registry_roundtrip 0 [opsChannel] r a' E).
Defined.

(** * Message size *)

Lemma length_append s t : String.length (s +:+ t) = (String.length s + String.length t)%nat.
Proof. induction s as [|c s IH]; [done|]. exact (f_equal S IH). Qed.

Lemma append_assoc (a b c : string) : (a +:+ b) +:+ c = a +:+ (b +:+ c).
Proof. induction a as [|x a IH]; [done|]. exact (f_equal (String x) IH). Qed.

Lemma blen_app s t : blen (s +:+ t) = blen s + blen t.
Proof. unfold blen. rewrite length_append. lia. Qed.

Lemma blen_nonneg s : 0 <= blen s.
Proof. unfold blen. lia. Qed.

Lemma length_substring s n m : (n + m <= String.length s)%nat -> String.length (String.substring n m s) = m.
Proof.
  revert n m. induction s as [|c s IH]; intros [|n] [|m]; simpl; intros H; try lia; try done.
  - rewrite IH; lia.
  - apply IH. lia.
  - apply IH. lia.
Qed.

Lemma prefix_app p s : String.prefix p (p +:+ s) = true.
Proof.
  induction p as [|c p IH]; [by destruct s|].
  change (String.prefix (String c p) (String c (p +:+ s)) = true). simpl.
  by destruct (Ascii.ascii_dec c c).
Qed.

Definition alertHead : string := "minicrond alert" +:+ nl.

Lemma formatTelegram_head run : exists t, formatTelegram run = alertHead +:+ t.
Proof.
  unfold formatTelegram, alertHead.
  repeat case_match; eexists; rewrite !append_assoc; reflexivity.
Qed.

(** Without the header the text of a run is 16 bytes shorter. *)
Lemma TrimPrefix_head run :
  blen (TrimPrefix (formatTelegram run) ("minicrond alert" +:+ nl)) = blen (formatTelegram run) - 16.
Proof.
  destruct (formatTelegram_head run) as [t ->]. fold alertHead. unfold TrimPrefix.
  rewrite prefix_app. unfold blen. rewrite length_substring by (rewrite length_append; lia).
  rewrite length_append. simpl. lia.
Qed.

(** The bytes [flush] charges for a list of deliveries. *)
Definition charged (items : list delivery) : Z :=
  foldr (fun i acc => blen (formatTelegram (dl_run i)) + 2 + acc) 0 items.

Lemma charged_app k l : charged (k ++ l) = charged k + charged l.
Proof. induction k as [|x k IH]; simpl; lia. Qed.

Lemma formatRuns_bound runs first :
  blen (formatRuns first (dl_run <$> runs)) <= charged runs.
Proof.
  revert first. induction runs as [|x runs IH]; intros first; [done|].
  rewrite fmap_cons. cbn [formatRuns charged foldr]. fold (charged runs). rewrite !blen_app, TrimPrefix_head. specialize (IH false).
  assert (blen (if first then "" else nl +:+ nl) <= 2) by (destruct first; vm_compute; congruence).
  lia.
Qed.

Lemma formatAlert_bound run items : items <> [] ->
  blen (formatAlert run (dl_run <$> items)) <= 17 + charged items.
Proof.
  intros Hne. unfold formatAlert. pose proof (formatRuns_bound items true) as Hb.
  destruct items as [|x items]; [done|]. cbn [fmap list_fmap] in *.
  rewrite !blen_app. change (blen "minicrond alerts") with 16. change (blen nl) with 1. lia.
Qed.

Definition sized (g : list delivery) : Prop :=
  g <> [] /\ (2 <= Z.of_nat (length g) -> 17 + charged g <= messageMax).

Lemma splitGroups_spec items : forall group len_,
  len_ = 17 + charged group ->
  (2 <= Z.of_nat (length group) -> len_ <= messageMax) ->
  concat (splitGroups group len_ items) = group ++ items /\
  Forall sized (splitGroups group len_ items).
Proof.
  induction items as [|x items IH]; intros group len_ Hlen Hsz; cbn [splitGroups].
  - destruct group as [|y group]; [done|]. cbn [concat]. rewrite !app_nil_r. split; [done|].
    constructor; [|done]. split; [done|]. intros H2. rewrite <- Hlen. by apply Hsz.
  - set (n := blen (formatTelegram (dl_run x)) + 2).
    change (blen ("minicrond alerts" +:+ nl)) with 17.
    destruct group as [|y group].
    + destruct (IH [x] (len_ + n)) as [Hc Hf]; [simpl in *; subst n; lia | simpl; lia | done].
    + destruct (messageMax <? len_ + n) eqn:E; bools.
      * destruct (IH [x] (17 + n)) as [Hc Hf]; [simpl; subst n; lia | simpl; lia |].
        cbn [concat]. rewrite Hc. split; [done|].
        constructor; [|done]. split; [done|]. intros H2. rewrite <- Hlen. by apply Hsz.
      * destruct (IH ((y :: group) ++ [x]) (len_ + n)) as [Hc Hf]; [|done|].
        { rewrite charged_app. simpl in *. subst n. lia. }
        rewrite Hc, <- app_assoc. done.
Qed.

Lemma flushGroups_spec items :
  concat (flushGroups items) = items /\ Forall sized (flushGroups items).
Proof. apply (splitGroups_spec items []); [reflexivity | simpl; lia]. Qed.

(** [flush] sends every delivery of a batch once and in order, in non-empty
    groups, and the text of a group of several alerts never exceeds 3500 bytes. *)
Theorem flush_messages d key :
  let '(d', groups) := flush d key in
  batches d' = delete key (batches d) /\
  concat groups = batchOf d key /\
  Forall (fun g => g <> [] /\
    (2 <= Z.of_nat (length g) -> forall run, blen (formatAlert run (dl_run <$> g)) <= 3500)) groups.
Proof.
  unfold flush. destruct (flushGroups_spec (batchOf d key)) as [Hc Hf].
  split; [done|]. split; [done|]. eapply Forall_impl; [exact Hf|]. intros g [Hne Hsz]. simpl.
  split; [done|]. intros H2 run. pose proof (formatAlert_bound run g Hne).
  specialize (Hsz H2). unfold messageMax in Hsz. lia.
Qed.

(** * The ring of drops *)

Definition rot {A} (k : nat) (l : list A) : list A := drop k l ++ take k l.

(** Overwriting the oldest entry of a full ring and advancing its start drops
    the oldest and appends the newest. *)
Lemma rot_overwrite {A} (l : list A) k x n :
  length l = n -> (k < n)%nat -> rot ((k + 1) mod n)%nat (<[k := x]> l) = tail (rot k l) ++ [x].
Proof.
  intros Hl Hk.
  destruct (lookup_lt_is_Some_2 l k) as [y Hy]; [lia|].
  rewrite <- (take_drop_middle l k y Hy). set (a := take k l). set (b := drop (S k) l).
  assert (Ha : length a = k) by (subst a; rewrite length_take; lia).
  assert (Hb : length b = (n - k - 1)%nat) by (subst b; rewrite length_drop; lia).
  clearbody a b. subst k. rewrite insert_app_r_alt by lia. rewrite Nat.sub_diag. simpl.
  unfold rot at 2. rewrite drop_app_length, take_app_length. simpl.
  destruct (decide (length a + 1 = n)%nat) as [Heq|Hne].
  - rewrite Heq, Nat.Div0.mod_same. unfold rot. rewrite drop_0, take_0, app_nil_r.
    destruct b; [done|]. simpl in Hb. lia.
  - rewrite Nat.mod_small by lia. unfold rot.
    replace (length a + 1)%nat with (length (a ++ [x])) by (rewrite length_app; simpl; lia).
    replace (a ++ x :: b) with ((a ++ [x]) ++ b) by by rewrite <- app_assoc.
    rewrite drop_app_length, take_app_length. by rewrite app_assoc.
Qed.

(** The ring holds the newest 256 of the drops [h] noted since the last flush. *)
Record ring (d : Disp) (h : list Record_) : Prop := {
  ring_records : dropRecords d = drop (length h - 256) h;
  ring_length : length (drops d) = Nat.min 256 (length h);
  ring_start : 0 <= dropStart d < 256;
  ring_partial : (length (drops d) < 256)%nat -> dropStart d = 0;
  ring_overflow : dropOverflow d = Z.of_nat (length h - 256)
}.

Lemma dropRecords_rot d : 0 <= dropStart d -> dropRecords d = rot (Z.to_nat (dropStart d)) (drops d).
Proof.
  intros H. unfold dropRecords, rot. destruct (0 <? dropStart d) eqn:E; bools; [done|].
  replace (dropStart d) with 0 by lia. by rewrite drop_0, take_0, app_nil_r.
Qed.

Definition dropRecord (o : string * string * string) : Record_ :=
  mkRecord o.1.1 o.1.2 "dropped" 0 o.2.

Lemma observeDrop_ring d h o :
  ring d h -> ring (observeDrop d o.1.1 o.1.2 o.2) (h ++ [dropRecord o]).
Proof.
  intros [R1 R2 R3 R4 R5]. unfold observeDrop, maxDropObservations. fold (dropRecord o).
  set (x := dropRecord o). pose proof (length_app h [x]) as Hl. simpl in Hl.
  destruct (Z.of_nat (length (drops d)) <? 256) eqn:E; bools.
  - assert (dropStart d = 0) as Hs by (apply R4; lia).
    rewrite dropRecords_rot, Hs in R1 by lia. unfold rot in R1.
    rewrite drop_0, take_0, app_nil_r in R1.
    replace (length h - 256)%nat with 0%nat in R1 by lia. rewrite drop_0 in R1.
    split; rewrite ?dropRecords_rot; cbn -[Nat.min Nat.sub]; rewrite ?Hs; try lia.
    + rewrite R1, Hl. replace (length h + 1 - 256)%nat with 0%nat by lia.
      unfold rot. simpl. by rewrite app_nil_r.
    + rewrite R1, length_app. cbn [length]. rewrite R1 in E. lia.
  - rewrite dropRecords_rot in R1 by lia.
    assert (length (drops d) = 256%nat) as H256 by lia.
    pose proof (Z.mod_pos_bound (dropStart d + 1) 256 ltac:(lia)).
    split; try (cbn -[Nat.min Nat.sub]; lia).
    + rewrite dropRecords_rot by (simpl; lia). cbn [drops dropStart upd].
      replace (Z.to_nat ((dropStart d + 1) mod 256)) with ((Z.to_nat (dropStart d) + 1) mod 256)%nat.
      2:{ apply Nat2Z.inj. rewrite Nat2Z.inj_mod, (Z2Nat.id ((dropStart d + 1) mod 256)) by lia.
          f_equal. lia. }
      simpl drops. rewrite rot_overwrite by lia. rewrite R1.
      rewrite Hl. replace (length h + 1 - 256)%nat with (length h - 256 + 1)%nat by lia.
      rewrite drop_app_le by lia. f_equal.
      rewrite <- (drop_drop h 1 (length h - 256)). by destruct (drop (length h - 256) h).
    + cbn -[Nat.min]. rewrite length_insert. lia.
    + cbn -[Nat.min]. rewrite length_insert. lia.
Qed.

(** Between two flushes the drops noted by the completion path are kept
    newest first: the flush reports exactly the newest 256 of them, oldest of these
    first, logs the number of older ones, and leaves the ring empty. *)
Theorem drop_ring d obs :
  drops d = [] -> dropStart d = 0 -> dropOverflow d = 0 ->
  let d' := foldl (fun d o => observeDrop d o.1.1 o.1.2 o.2) d obs in
  let kept := drop (length obs - 256) (dropRecord <$> obs) in
  dropRecords d' = kept /\
  discarded (flushDrops d') = discarded d + Z.of_nat (length obs - 256) /\
  drops (flushDrops d') = [] /\
  (canceled d = false -> Forall (fun o => o.1.1 <> "") obs -> obs <> [] ->
     reports (flushDrops d') = reports d ++ [kept]).
Proof.
  intros H1 H2 H3 d' kept.
  assert (Hr : ring d' (dropRecord <$> obs) /\ discarded d' = discarded d /\
               reports d' = reports d /\ canceled d' = canceled d).
  { subst d'. clear kept. induction obs as [|o obs IH] using rev_ind.
    - simpl. split; [|done]. split; unfold dropRecords; rewrite ?H1, ?H2, ?H3; simpl; lia || done.
    - rewrite foldl_app, fmap_app. simpl. destruct IH as (IH & I2 & I3 & I4).
      split; [by apply observeDrop_ring|]. unfold observeDrop. by case_match. }
  destruct Hr as ([R1 R2 R3 R4 R5] & Hd & Hrep & Hc). rewrite length_fmap in *.
  split; [done|]. unfold flushDrops. rewrite R1. fold kept.
  assert (Hf : forall d0, discarded (reportAll d0 kept) = discarded d0 /\ drops (reportAll d0 kept) = drops d0).
  { intros d0. unfold reportAll. repeat case_match; done. }
  split; [destruct (Hf (d' <| drops := [] |> <| dropStart := 0 |> <| dropOverflow := 0 |>
             <| discarded ::= Z.add (dropOverflow d') |>)) as [-> _]; simpl; lia|].
  split; [by apply Hf|].
  intros Hcan Hids Hne. unfold reportAll.
  assert (List.filter (fun r => negb (String.eqb (rec_RunID r) "")) kept = kept) as ->.
  { assert (Hk : Forall (fun r => negb (String.eqb (rec_RunID r) "") = true) kept).
    { apply Forall_drop, Forall_fmap. eapply Forall_impl; [exact Hids|]. intros o Ho. simpl.
      apply negb_true_iff. by apply String.eqb_neq. }
    clear -Hk. induction Hk as [|r k Hr _ IH]; simpl; [done|]. by rewrite Hr, IH. }
  destruct kept as [|x k] eqn:Ek.
  { exfalso. apply (f_equal length) in Ek. subst kept. rewrite length_drop, length_fmap in Ek.
    destruct obs; [done|]. simpl in Ek. lia. }
  simpl. rewrite Hc, Hcan. simpl. by rewrite Hrep.
Qed.
