(* ===== verification/AlertPipe.v ===== *)
(** Conservation of deliveries in the alert pipeline, in every interleaving of
    producers, the batch goroutine and the workers. *)

From S2P Require Import Prelude GoRuntime Model Alerts AlertFacts.
Open Scope Z_scope.
Import AlertChannels AlertText Dispatcher.

(** * Where a delivery is *)

(** What the batch goroutine holds outside its batches. *)
Fixpoint hand (pc : BatchPc) : list delivery :=
  match pc with
  | BDrain items | BAdd items => items
  | BOut groups k => concat groups ++ hand k
  | _ => []
  end.

Definition workerItems (w : WorkerPc) : list delivery :=
  match w with
  | WHead b _ | WReady b _ | WSending b _ | WFinish b _ _ => b
  end.

Definition workerAttempts (w : WorkerPc) : Z :=
  match w with WHead _ n | WReady _ n | WSending _ n | WFinish _ n _ => n end.

(** A call of [Notify] that has counted a delivery it has not queued. *)
Definition counted (w : Producer) : Z := match w with PSelect _ _ _ | PFull _ _ _ => 1 | _ => 0 end.

(** How many deliveries of the class [p] are in the pipeline. *)
Definition inPipe (p : delivery -> bool) (d : Disp) : Z :=
  cnt p (queue d) + cnt p (hand (bpc d)) + msum (fun b => cnt p (p_items b)) (batches d) +
  cnt p (concat (work d)) + msum (fun w => cnt p (workerItems w)) (workers d).

(** Everything the batch goroutine sends is a group [flush] made, and when it
    leaves through [Close] the queue and the batches are empty. *)
Fixpoint exitOK (d : Disp) (pc : BatchPc) : Prop :=
  match pc with
  | BOut groups k => Forall sized groups /\ exitOK d k
  | BFlush keys true =>
      closed d = true /\ queue d = [] /\ forall k, is_Some (batches d !! k) -> k ∈ keys
  | BDiscard => canceled d = true /\ batches d = ∅
  | BExited => closed d = true /\ queue d = [] /\ batches d = ∅
  | _ => True
  end.

Definition workerOK (w : WorkerPc) : Prop :=
  sized (workerItems w) /\
  match w with
  | WHead _ n => 0 <= n < maxAttempts
  | WReady _ n | WSending _ n => 0 < n <= maxAttempts
  | WFinish _ n _ => 0 <= n <= maxAttempts
  end.

Record pipe_inv (d : Disp) : Prop := {
  pi_conserved : forall p, cnt p (accepted d) = inPipe p d + cnt p (finished d).*1 + cnt p (abandoned d);
  pi_pending : pending d = inPipe (fun _ => true) d + msum counted (producers d);
  pi_closed : closed d = true -> producers d = ∅;
  pi_abandon : abandoned d <> [] -> canceled d = true;
  pi_exit : exitOK d (bpc d);
  pi_queue : Z.of_nat (length (queue d)) <= queueCap;
  pi_work : Z.of_nat (length (work d)) <= workCap /\ Forall sized (work d);
  pi_workers : forall i w, workers d !! i = Some w -> (i < 4)%nat /\ workerOK w
}.

(** The fields the invariant speaks of. *)
Definition core (d : Disp) :=
  (queue d, work d, closed d, canceled d, pending d, batches d, bpc d, workers d,
   (accepted d, finished d, abandoned d, producers d)).

Lemma exitOK_core d d' pc :
  closed d' = closed d -> canceled d' = canceled d -> queue d' = queue d -> batches d' = batches d ->
  exitOK d pc -> exitOK d' pc.
Proof. intros H1 H4 H2 H3. induction pc; simpl; rewrite ?H1, ?H2, ?H3, ?H4; naive_solver. Qed.

(** Closing and canceling only help. *)
Lemma exitOK_mono d d' pc :
  (closed d = true -> closed d' = true) -> (canceled d = true -> canceled d' = true) ->
  queue d' = queue d -> batches d' = batches d -> exitOK d pc -> exitOK d' pc.
Proof.
  intros H1 H4 H2 H3.
  induction pc as [| | |keys [|]|gs k IH| |]; simpl; rewrite ?H2, ?H3; try done.
  - intros (? & ? & ?). auto.
  - intros [? ?]. auto.
  - intros [? ?]. auto.
  - intros (? & ? & ?). auto.
Qed.

(** Before [Close] the queue may change under the batch goroutine. *)
Lemma exitOK_open d d' pc :
  closed d = false -> canceled d' = canceled d -> batches d' = batches d ->
  exitOK d pc -> exitOK d' pc.
Proof.
  intros H1 H3 H2. induction pc as [| | |keys [|]|gs k IH| |]; simpl; rewrite ?H1, ?H2, ?H3; try done.
  - by intros [? _].
  - intros [? ?]. auto.
  - by intros [? _].
Qed.

Lemma core_inv d d' : core d' = core d -> pipe_inv d -> pipe_inv d'.
Proof.
  unfold core. intros H. injection H as H1 H2 H3 H4 H5 H6 H7 H8 H9 H10 H11 H12.
  intros [I1 I2 Ic I3 I4 I5 I6 I7]. split; unfold inPipe in *; rewrite ?H1, ?H2, ?H4, ?H5, ?H6, ?H7, ?H8, ?H9, ?H10, ?H11, ?H12; auto.
  - by rewrite H3.
  - by apply (exitOK_core d).
Qed.

Lemma reportAll_core d rs : core (reportAll d rs) = core d.
Proof. unfold reportAll. repeat case_match; done. Qed.
Lemma observeDrop_core d r n x : core (observeDrop d r n x) = core d.
Proof. unfold observeDrop. case_match; done. Qed.
Lemma flushDrops_core d : core (flushDrops d) = core d.
Proof. unfold flushDrops. by rewrite reportAll_core. Qed.
Lemma resetDeadline_core d : core (resetDeadline d) = core d.
Proof. done. Qed.
Lemma Apply_core d r : core (Apply d r).1 = core d.
Proof. unfold Apply. by case_match. Qed.
Lemma Reload_core d c : core (Reload d c).1 = core d.
Proof. unfold Reload. repeat case_match; [|done]. by rewrite Apply_core. Qed.

(** [bpc] set after a step that keeps the core. *)
Lemma bpc_core d d' pc : core d' = core d -> core (d' <| bpc := pc |>) = core (d <| bpc := pc |>).
Proof. unfold core. intros H. injection H as H1 H2 H3 H4 H5 H6 H7 H8 H9 H10 H11 H12. simpl. congruence. Qed.

(** A step of the batch goroutine that moves deliveries between its hand and the
    other places it owns. *)
Lemma batch_move d q w b pc :
  pipe_inv d ->
  (forall p, cnt p q + cnt p (hand pc) + msum (fun b => cnt p (p_items b)) b + cnt p (concat w) =
     cnt p (queue d) + cnt p (hand (bpc d)) + msum (fun b => cnt p (p_items b)) (batches d) +
     cnt p (concat (work d))) ->
  exitOK (d <| queue := q |> <| batches := b |>) pc ->
  Z.of_nat (length q) <= queueCap -> Z.of_nat (length w) <= workCap -> Forall sized w ->
  pipe_inv (d <| queue := q |> <| work := w |> <| batches := b |> <| bpc := pc |>).
Proof.
  intros [I1 I2 Ic I3 I4 I5 I6 I7] Hp He Hq Hw Hs. split; try done; unfold inPipe in *; cbn -[cnt] in *.
  - intros p. rewrite (I1 p). specialize (Hp p). lia.
  - rewrite I2. specialize (Hp (fun _ => true)). lia.
  - by apply (exitOK_core (d <| queue := q |> <| batches := b |>)).
Qed.

(** ** Producers *)

(** A call of [Notify] that moves on without touching the queue. *)
Lemma producer_put d d0 i w n :
  pipe_inv d -> closed d = false -> core d0 = core (d <| pending := pending d + n |>) ->
  (n = counted w - from_option counted 0 (producers d !! i)) ->
  pipe_inv (d0 <| producers ::= insert i w |>).
Proof.
  intros [I1 I2 Ic I3 I4 I5 I6 I7] Hopen Hc Hn.
  unfold core in Hc. injection Hc as H1 H2 H3 H4 H5 H6 H7 H8 H9 H10 H11 H12.
  cbn in H1, H2, H3, H4, H5, H6, H7, H8, H9, H10, H11, H12.
  split; unfold inPipe in *; cbn -[cnt]; rewrite ?H1, ?H2, ?H3, ?H4, ?H6, ?H7, ?H8, ?H9, ?H10, ?H11, ?H12; auto.
  - rewrite H5, I2. destruct (producers d !! i) as [v|] eqn:E; simpl in Hn.
    + rewrite (msum_update _ _ _ v) by done. lia.
    + rewrite msum_new by done. lia.
  - by rewrite Hopen.
  - by apply (exitOK_core d).
Qed.

Lemma Notify_inv d i run def d' : pipe_inv d -> Notify d i run def = Some d' -> pipe_inv d'.
Proof.
  intros I. unfold Notify. destruct (producers d !! i) eqn:Ei; [done|].
  destruct (default [] _) as [|x l]; [by intros [= <-]|]. destruct (closed d) eqn:Ec; intros [= <-]; [done|].
  apply (producer_put d d i _ 0); [done..| |by rewrite Ei]. destruct d. unfold core. cbn. by rewrite Z.add_0_r.
Qed.

Lemma producer_open d i w : pipe_inv d -> producers d !! i = Some w -> closed d = false.
Proof.
  intros I Hw. destruct (closed d) eqn:Ec; [|done]. by rewrite (pi_closed d I Ec), lookup_empty in Hw.
Qed.

Lemma accept_inv d i run item names :
  pipe_inv d -> producers d !! i = Some (PSelect run item names) -> Z.of_nat (length (queue d)) < queueCap ->
  pipe_inv (d <| queue ::= fun q => q ++ [item] |> <| accepted ::= fun a => a ++ [item] |>
              <| producers ::= insert i (PLoop run names) |>).
Proof.
  intros I Hw Hroom. pose proof (producer_open d i _ I Hw) as Hopen.
  destruct I as [I1 I2 Ic I3 I4 I5 I6 I7]. split; try done; unfold inPipe in *; cbn -[cnt] in *.
  - intros p. rewrite !cnt_app, (I1 p). lia.
  - rewrite cnt_app, cnt_cons, cnt_nil, I2, (msum_update _ _ _ _ _ Hw). cbn [counted]. lia.
  - by rewrite Hopen.
  - by apply (exitOK_open d).
  - rewrite length_app. simpl. lia.
Qed.

Lemma producer_done d i run :
  pipe_inv d -> producers d !! i = Some (PLoop run []) -> pipe_inv (d <| producers ::= delete i |>).
Proof.
  intros I Hw. pose proof (producer_open d i _ I Hw) as Hopen.
  destruct I as [I1 I2 Ic I3 I4 I5 I6 I7]. split; try done; unfold inPipe in *; cbn -[cnt] in *.
  - rewrite I2, (msum_delete _ _ _ _ Hw). cbn [counted]. lia.
  - by rewrite Hopen.
  - by apply (exitOK_core d).
Qed.

Lemma core_pending0 d : core d = core (d <| pending := pending d + 0 |>).
Proof. unfold core. cbn. by rewrite Z.add_0_r. Qed.

Lemma producerStep_inv d i d' : pipe_inv d -> producerStep d i = Some d' -> pipe_inv d'.
Proof.
  intros I. unfold producerStep. destruct (producers d !! i) as [w|] eqn:Hw; [|done].
  pose proof (producer_open d i w I Hw) as Ho.
  destruct w as [run [|name names]|run item names|run name names|run name reason names]; cbv zeta.
  - intros Hd%(inj Some); rewrite <-Hd; clear Hd. by eapply producer_done.
  - destruct (negb _); [|destruct (channels d !! name)]; intros Hd%(inj Some); rewrite <-Hd; clear Hd.
    + apply (producer_put d d i _ 0); [done..|apply core_pending0|by rewrite Hw].
    + apply (producer_put d (d <| pending ::= Z.succ |>) i _ 1); [done..|by rewrite Hw].
    + apply (producer_put d d i _ 0); [done..|apply core_pending0|by rewrite Hw].
  - case_match eqn:E; intros Hd%(inj Some); rewrite <-Hd; clear Hd; bools; [by apply accept_inv|].
    apply (producer_put d d i _ 0); [done..|apply core_pending0|by rewrite Hw].
  - intros Hd%(inj Some); rewrite <-Hd; clear Hd. apply (producer_put d (d <| pending ::= Z.pred |>) i _ (-1)); [done..|by rewrite Hw].
  - intros Hd%(inj Some); rewrite <-Hd; clear Hd. apply (producer_put d (observeDrop d (r_ID run) (deliveryRecordName name run) reason) i _ 0); [done..| |by rewrite Hw].
    rewrite observeDrop_core. apply core_pending0.
Qed.

(** ** The batch goroutine *)

(** Deliveries taken out of the pipeline because it was canceled. *)
Lemma abandon_inv d items q b pc :
  pipe_inv d -> canceled d = true ->
  (forall p, cnt p q + cnt p (hand pc) + msum (fun b => cnt p (p_items b)) b + cnt p items =
     cnt p (queue d) + cnt p (hand (bpc d)) + msum (fun b => cnt p (p_items b)) (batches d)) ->
  exitOK (d <| queue := q |> <| batches := b |>) pc ->
  Z.of_nat (length q) <= queueCap ->
  pipe_inv ((abandon d items) <| queue := q |> <| batches := b |> <| bpc := pc |>).
Proof.
  intros [I1 I2 Ic I3 I4 I5 I6 I7] Hc Hp He Hq. split; try done; unfold inPipe in *; cbn -[cnt] in *.
  - intros p. rewrite (I1 p), cnt_app. specialize (Hp p). lia.
  - rewrite I2, <- cnt_all. specialize (Hp (fun _ => true)). lia.
  - by apply (exitOK_core (d <| queue := q |> <| batches := b |>)).
Qed.

Lemma batches_id d : d = d <| batches := batches d |>.
Proof. by destruct d. Qed.

Lemma flush_spec d key :
  let '(d', out) := flush d key in
  d' = d <| batches ::= delete key |> /\ Forall sized out /\
  forall p, cnt p (concat out) + msum (fun b => cnt p (p_items b)) (batches d') =
    msum (fun b => cnt p (p_items b)) (batches d).
Proof.
  unfold flush. destruct (flushGroups_spec (batchOf d key)) as [Hc Hs].
  split; [done|]. split; [done|]. intros p. rewrite Hc. unfold batchOf. cbn -[cnt].
  destruct (batches d !! key) as [b|] eqn:E.
  - rewrite (msum_delete _ _ _ b) by done. lia.
  - rewrite delete_id by done. rewrite cnt_nil. lia.
Qed.

Lemma add_spec d item now1 now2 :
  let '(d', out) := add d item now1 now2 in
  (exists b, d' = d <| batches := b |>) /\ Forall sized out /\
  forall p, cnt p (concat out) + msum (fun b => cnt p (p_items b)) (batches d') =
    cnt p [item] + msum (fun b => cnt p (p_items b)) (batches d).
Proof.
  unfold add. set (p0 := default _ _). set (stale := match p_items p0 with [] => _ | _ => _ end).
  pose proof (flush_spec d (dl_name item)) as Hf.
  set (d1 := (if stale then flush d (dl_name item) else (d, [])).1).
  set (out1 := (if stale then flush d (dl_name item) else (d, [])).2).
  set (p1 := if stale then mkPending [] zeroTime else p0).
  assert (H1 : (exists b, d1 = d <| batches := b |>) /\ Forall sized out1 /\
    (forall p, cnt p (concat out1) + msum (fun b => cnt p (p_items b)) (batches d1) =
       msum (fun b => cnt p (p_items b)) (batches d)) /\
    (forall p, cnt p (p_items p1) = match batches d1 !! dl_name item with
                                    | Some b => cnt p (p_items b) | None => 0 end)).
  { subst d1 out1 p1. destruct stale.
    - destruct (flush d (dl_name item)) as [d' out]. destruct Hf as (-> & Hs & Hc). simpl.
      split; [eauto|]. split; [done|]. split; [done|]. intros p. by rewrite lookup_delete_eq.
    - simpl. split; [exists (batches d); apply batches_id|]. split; [done|]. split; [done|].
      intros p. subst p0. by destruct (batches d !! dl_name item). }
  replace (if stale then flush d (dl_name item) else (d, [])) with (d1, out1)
    by (subst d1 out1; symmetry; apply surjective_pairing).
  clearbody d1 out1 p1. clear Hf stale p0. destruct H1 as ((b1 & ->) & Hs1 & Hc1 & Hp1).
  set (until := match p_items p1 with [] => _ | _ => _ end).
  set (p2 := mkPending (p_items p1 ++ [item]) until). cbv zeta.
  set (d2 := _ <| batches ::= insert (dl_name item) p2 |>).
  assert (H2 : forall p, msum (fun b => cnt p (p_items b)) (batches d2) =
                         msum (fun b => cnt p (p_items b)) b1 + cnt p [item]).
  { intros p. subst d2. cbn -[cnt] in *. specialize (Hp1 p).
    destruct (b1 !! dl_name item) as [b|] eqn:E.
    - rewrite (msum_update _ _ _ b) by done. subst p2. cbn -[cnt]. rewrite cnt_app. lia.
    - rewrite msum_new by done. subst p2. cbn -[cnt]. rewrite cnt_app. lia. }
  cbn -[cnt] in Hc1. destruct (batchMax <=? _).
  - pose proof (flush_spec d2 (dl_name item)) as Hf.
    destruct (flush d2 (dl_name item)) as [d3 out3]. destruct Hf as (-> & Hs3 & Hc3).
    split; [subst d2; by eexists|]. split; [by apply Forall_app|].
    intros p. rewrite concat_app, cnt_app. specialize (Hc3 p). specialize (H2 p). specialize (Hc1 p). lia.
  - split; [subst d2; by eexists|]. split; [done|].
    intros p. specialize (H2 p). specialize (Hc1 p). lia.
Qed.

Lemma msum_items_empty p : msum (fun b => cnt p (p_items b)) (∅ : gmap string Pending) = 0.
Proof. apply msum_empty. Qed.

Ltac counts := intros p; cbn -[cnt]; autorewrite with minicrond; cbn -[cnt]; lia.

(** A step that only moves the program counter between empty hands. *)
Lemma bpc_inv d pc :
  pipe_inv d -> (forall p, cnt p (hand pc) = cnt p (hand (bpc d))) -> exitOK d pc ->
  pipe_inv (d <| bpc := pc |>).
Proof.
  intros I Hh He. pose proof I as [_ _ _ _ _ Hq [Hw Hs] _].
  apply (batch_move d (queue d) (work d) (batches d) pc); try done.
  - intros p. rewrite (Hh p). lia.
  - by apply (exitOK_core d).
Qed.

Lemma receive_inv d item q items pc :
  pipe_inv d -> queue d = item :: q -> bpc d = pc -> exitOK d pc -> hand pc = items ->
  pipe_inv (d <| queue := q |> <| bpc := BDrain (items ++ [item]) |>).
Proof.
  intros I Hq Hpc He <-. pose proof I as [_ _ _ _ _ Hc [Hw Hs] _]. rewrite Hq in Hc. simpl in Hc.
  apply (batch_move d q (work d) (batches d)); try done; [|lia].
  intros p. rewrite Hq, Hpc. autorewrite with minicrond. cbn [hand]. autorewrite with minicrond. lia.
Qed.

Lemma drained_inv d items :
  pipe_inv d -> bpc d = BDrain items ->
  pipe_inv ((reportAll d (statusRecords items "queued" 0 "")) <| bpc := BAdd items |>).
Proof.
  intros I Hpc. eapply core_inv; [apply bpc_core, reportAll_core|].
  apply bpc_inv; [done | by rewrite Hpc | done].
Qed.

Lemma added_inv d item items now1 now2 :
  pipe_inv d -> bpc d = BAdd (item :: items) ->
  let '(d', out) := add d item now1 now2 in pipe_inv (d' <| bpc := BOut out (BAdd items) |>).
Proof.
  intros I Hpc. pose proof (add_spec d item now1 now2) as Ha.
  destruct (add d item now1 now2) as [d' out]. destruct Ha as ((b & ->) & Hs & Hc).
  pose proof I as [_ _ _ _ _ Hq [Hw Hs'] _].
  apply (batch_move d (queue d) (work d) b); try done.
  intros p. rewrite Hpc. cbn [hand]. autorewrite with minicrond. specialize (Hc p).
  autorewrite with minicrond in Hc. cbn -[cnt] in Hc. lia.
Qed.

(** Removing a flushed key from the keys left to flush. *)
Lemma flushed_inv d keys final key :
  pipe_inv d -> bpc d = BFlush keys final -> key ∈ keys ->
  let '(d', out) := flush d key in
  pipe_inv (d' <| bpc := BOut out (BFlush (List.filter (fun k => negb (String.eqb k key)) keys) final) |>).
Proof.
  intros I Hpc Hk. pose proof (flush_spec d key) as Hf.
  destruct (flush d key) as [d' out]. destruct Hf as (-> & Hs & Hc).
  pose proof I as [_ _ _ _ He Hq [Hw Hs'] _]. rewrite Hpc in He.
  apply (batch_move d (queue d) (work d) (delete key (batches d))); try done.
  - intros p. rewrite Hpc. cbn [hand]. autorewrite with minicrond. specialize (Hc p).
    cbn -[cnt] in Hc. lia.
  - split; [done|]. simpl in *. destruct final; [|done]. destruct He as (H1 & H2 & H3).
    split; [done|]. split; [done|]. intros k [b [Hne Hb]%lookup_delete_Some].
    apply elem_of_filter_list. split; [apply H3; eauto|].
    apply negb_true_iff, String.eqb_neq. congruence.
Qed.

Lemma enqueued_inv d g gs k :
  pipe_inv d -> bpc d = BOut (g :: gs) k -> Z.of_nat (length (work d)) < workCap ->
  pipe_inv (d <| work ::= fun w => w ++ [g] |> <| bpc := BOut gs k |>).
Proof.
  intros I Hpc Hroom. pose proof I as [_ _ _ _ He Hq [Hw Hs] _]. rewrite Hpc in He.
  destruct He as [Hg He]. apply Forall_cons in Hg as [Hg Hgs].
  apply (batch_move d (queue d) (work d ++ [g]) (batches d)); try done.
  - intros p. rewrite Hpc. cbn [hand concat]. rewrite concat_app. cbn [concat].
    autorewrite with minicrond. lia.
  - split; [done|]. by apply (exitOK_core d).
  - rewrite length_app. simpl. lia.
  - apply Forall_app. split; [done|]. by constructor.
Qed.

Lemma exited_inv d pc : pipe_inv d -> bpc d = pc -> hand pc = [] -> exitOK d BExited ->
  pipe_inv (d <| bpc := BExited |>).
Proof. intros I Hpc Hh He. apply bpc_inv; [done | | done]. intros p. by rewrite Hpc, Hh. Qed.

Lemma batches_flushed d : (forall k, is_Some (batches d !! k) -> k ∈ ([] : list string)) -> batches d = ∅.
Proof.
  intros H. apply map_empty. intros k. destruct (batches d !! k) eqn:E; [|done].
  exfalso. eapply not_elem_of_nil, (H k). rewrite E. eauto.
Qed.

Lemma batchStep_inv d e d' : pipe_inv d -> batchStep d e = Some d' -> pipe_inv d'.
Proof.
  intros I. pose proof I as [_ _ _ _ He Hq [Hw Hs] _]. unfold batchStep.
  destruct (bpc d) as [|items|items|keys final|gs k| |] eqn:Hpc.
  - destruct e; try done.
    + destruct (canceled d) eqn:Ec; [|done]. intros [= <-].
      apply (abandon_inv d _ (queue d) ∅ BDiscard); try done.
      intros p. rewrite Hpc, msum_items_empty, <- msum_concat. cbn [hand]. lia.
    + destruct (dropWake d); [|done]. intros [= <-].
      eapply core_inv; [apply flushDrops_core | by eapply core_inv; [|exact I]].
    + destruct (queue d) as [|item q] eqn:Eq.
      * destruct (closed d) eqn:Ec; [|done]. intros [= <-]. apply bpc_inv; [done | by rewrite Hpc |].
        simpl. split; [done|]. split; [done|]. intros k [b Hb]. apply list_elem_of_fmap.
        exists (k, b). split; [done|]. by apply elem_of_map_to_list.
      * intros [= <-]. by apply (receive_inv d item q [] BSelect).
    + destruct (deadline d); [|done]. intros [= <-]. apply bpc_inv; [done | by rewrite Hpc | done].
  - destruct e; try done.
    + destruct (Z.of_nat (length items) <? batchMax); [|done].
      destruct (queue d) as [|item q] eqn:Eq; [done|]. intros [= <-].
      by apply (receive_inv d item q items (BDrain items)).
    + destruct (queue d); [|case_match; [done|]]; intros [= <-]; by apply drained_inv.
  - destruct e; try done; destruct items as [|item items]; try done.
    + intros [= <-]. eapply core_inv; [apply bpc_core, resetDeadline_core|].
      apply bpc_inv; [done | by rewrite Hpc | done].
    + pose proof (added_inv d item items now1 now2 I Hpc) as Ha.
      destruct (add d item now1 now2). intros [= <-]. done.
  - destruct e; try by destruct keys, final.
    + destruct keys, final; try done; intros [= <-].
      * eapply core_inv; [apply bpc_core, flushDrops_core|].
        destruct He as (H1 & H2 & H3). apply (exited_inv d (BFlush [] true)); try done.
        split; [done|]. split; [done|]. by apply batches_flushed.
      * eapply core_inv; [apply bpc_core, resetDeadline_core|].
        apply bpc_inv; [done | by rewrite Hpc | done].
    + intros Hd'. assert (key ∈ keys /\ (let '(d0, out) := flush d key in
        Some (d0 <| bpc := BOut out (BFlush (List.filter (fun k => negb (String.eqb k key)) keys) final) |>))
          = Some d') as [Hk Hd].
      { destruct keys, final; case_bool_decide; done. }
      pose proof (flushed_inv d keys final key I Hpc Hk) as Hf.
      destruct (flush d key). injection Hd as <-. done.
  - destruct e; try by destruct gs.
    + destruct gs; [|done]. intros [= <-]. destruct He as [_ He].
      apply bpc_inv; [done | by rewrite Hpc | done].
    + destruct gs as [|g gs]; [done|]. case_match eqn:E; [|done]. bools. intros [= <-].
      by apply enqueued_inv.
    + destruct gs as [|g gs]; [done|]. destruct (canceled d) eqn:Ec; [|done]. intros [= <-].
      destruct He as [Hg He]. apply Forall_cons in Hg as [Hg Hgs].
      apply (abandon_inv d g (queue d) (batches d)); try done.
      * intros p. rewrite Hpc. cbn [hand concat]. autorewrite with minicrond. lia.
      * split; [done|]. by apply (exitOK_core d).
  - destruct e; try done. destruct (queue d) as [|item q] eqn:Eq.
    + destruct (closed d) eqn:Ec; [|done]. intros [= <-]. destruct He as [_ He]. by apply (exited_inv d BDiscard).
    + intros [= <-]. destruct He as [Hc Hb].
      eapply core_inv; [|apply (abandon_inv d [item] q (batches d) BDiscard); try done].
      * unfold core. cbn. by rewrite Hpc.
      * intros p. rewrite Hpc, Eq. cbn [hand]. autorewrite with minicrond. lia.
      * simpl in Hq. lia.
  - by destruct e.
Qed.

(** ** The workers *)

(** A worker that keeps its batch. *)
Lemma worker_put d d0 i w w' :
  pipe_inv d -> core d0 = core d -> workers d !! i = Some w -> workerItems w' = workerItems w ->
  workerOK w' -> pipe_inv (d0 <| workers ::= insert i w' |>).
Proof.
  intros I Hc Hi Hw Hok. assert (pipe_inv d0) as I0 by by eapply core_inv.
  unfold core in Hc. injection Hc as H1 H2 H3 H4 H5 H6 H7 H8 H9 H10 H11 H12. rewrite <- H8 in Hi.
  destruct I0 as [I1 I2 Ic I3 I4 I5 I6 I7].
  assert (Hsum : forall p, msum (fun w => cnt p (workerItems w)) (<[i := w']> (workers d0)) =
                           msum (fun w => cnt p (workerItems w)) (workers d0)).
  { intros p. rewrite (msum_update _ _ _ w) by done. rewrite Hw. lia. }
  split; try done; unfold inPipe in *; cbn -[cnt] in *.
  - intros p. by rewrite Hsum.
  - by rewrite Hsum.
  - by apply (exitOK_core d0).
  - intros j v [[<- <-]|[_ Hj]]%lookup_insert_Some; [split; [by apply (I7 i w)|done] | by apply (I7 j)].
Qed.

Lemma take_inv d i b w :
  pipe_inv d -> workers d !! i = None -> (i < 4)%nat -> work d = b :: w ->
  pipe_inv (d <| work := w |> <| workers ::= insert i (WHead b 0) |>).
Proof.
  intros [I1 I2 Ic I3 I4 I5 [I6 I6'] I7] Hi Hlt Hw. rewrite Hw in I6, I6'.
  apply Forall_cons in I6' as [Hb Hs]. simpl in I6.
  assert (Hsum : forall p, cnt p (concat w) +
      msum (fun w => cnt p (workerItems w)) (<[i := WHead b 0]> (workers d)) =
      cnt p (concat (work d)) + msum (fun w => cnt p (workerItems w)) (workers d)).
  { intros p. rewrite msum_new, Hw by done. cbn [concat workerItems]. rewrite cnt_app. lia. }
  split; try done; unfold inPipe in *; cbn -[cnt] in *.
  - intros p. rewrite (I1 p). specialize (Hsum p). lia.
  - rewrite I2. specialize (Hsum (fun _ => true)). lia.
  - by apply (exitOK_core d).
  - split; [lia | done].
  - intros j v [[<- <-]|[_ Hj]]%lookup_insert_Some; [|by apply (I7 j)].
    split; [done|]. split; [done|]. unfold maxAttempts. simpl. lia.
Qed.

Lemma take_canceled_inv d b w :
  pipe_inv d -> canceled d = true -> work d = b :: w ->
  pipe_inv (abandon (d <| work := w |>) b).
Proof.
  intros [I1 I2 Ic I3 I4 I5 [I6 I6'] I7] Hc Hw. rewrite Hw in I6, I6'.
  apply Forall_cons in I6' as [Hb Hs]. simpl in I6.
  split; try done; unfold inPipe in *; rewrite Hw in *; cbn -[cnt] in *.
  - intros p. rewrite (I1 p), !cnt_app. lia.
  - rewrite I2, cnt_app, <- cnt_all. lia.
  - by apply (exitOK_core d).
  - split; [lia | done].
Qed.

Lemma finish_inv d d0 i b n err status :
  pipe_inv d -> core d0 = core d -> workers d !! i = Some (WFinish b n err) ->
  pipe_inv (d0 <| pending := pending d0 - Z.of_nat (length b) |>
              <| finished ::= fun f => f ++ ((fun i => (i, status)) <$> b) |>
              <| workers ::= delete i |>).
Proof.
  intros I Hc Hi. assert (pipe_inv d0) as I0 by by eapply core_inv.
  unfold core in Hc. injection Hc as H1 H2 H3 H4 H5 H6 H7 H8 H9 H10 H11 H12. rewrite <- H8 in Hi.
  destruct I0 as [I1 I2 Ic I3 I4 I5 I6 I7].
  assert (Hfst : (((fun i => (i, status)) <$> b) : list (delivery * string)).*1 = b).
  { rewrite <- list_fmap_compose. by rewrite list_fmap_id. }
  split; try done; unfold inPipe in *; cbn -[cnt] in *.
  - intros p. rewrite (I1 p), fmap_app, Hfst, cnt_app, (msum_delete _ _ _ (WFinish b n err)) by done.
    cbn -[cnt]. lia.
  - rewrite I2, (msum_delete _ _ _ (WFinish b n err)) by done. cbn -[cnt]. rewrite <- cnt_all. lia.
  - by apply (exitOK_core d0).
  - intros j v [_ Hj]%lookup_delete_Some. by apply (I7 j).
Qed.

Ltac worker_step d w :=
  intros [= <-]; apply (worker_put d _ _ w); try done;
  try (apply reportAll_core); try (split; [done|]; simpl; unfold maxAttempts; bools; lia).

Lemma workerStep_inv d i e d' : pipe_inv d -> workerStep d i e = Some d' -> pipe_inv d'.
Proof.
  intros I. unfold workerStep. destruct (workers d !! i) as [w|] eqn:Hi.
  2:{ destruct e; try done. destruct (i <? 4)%nat eqn:E4; [|done]. apply Nat.ltb_lt in E4.
      destruct (work d) as [|b w] eqn:Ew; [done|]. cbn zeta. destruct (canceled _) eqn:Ec; intros [= <-].
      - by apply take_canceled_inv.
      - by apply take_inv. }
  destruct (pi_workers _ I i w Hi) as (_ & Hsz & Hok). unfold maxAttempts in *.
  destruct w as [b n|b n|b n|b n err]; destruct e; try done; simpl in Hok.
  - destruct (canceled d); worker_step d (WHead b n).
  - destruct (canceled d); worker_step d (WReady b n).
  - destruct o as [|r|r]; [| |].
    + worker_step d (WSending b n).
    + destruct (canceled d || (3 <=? n)) eqn:Eo; worker_step d (WSending b n).
    + worker_step d (WSending b n).
  - destruct err as [r|]; intros [= <-];
      (apply (finish_inv d _ i b n (Some r)) || apply (finish_inv d _ i b n None));
      done || apply reportAll_core.
Qed.

(** * Every interleaving *)

Lemma core_new d : core d = core newDisp -> pipe_inv d.
Proof.
  intros H. eapply core_inv; [exact H|].
  split; cbn; try done; intros; rewrite ?msum_empty in *; try done.
Qed.

Lemma New_core configs d : New configs = Ok d -> core d = core newDisp.
Proof.
  unfold New. pose proof (Reload_core newDisp configs) as H.
  destruct (Reload newDisp configs) as [d0 [|]]; [|done]. by intros [= <-].
Qed.

Lemma dispStep_inv d e d' : pipe_inv d -> dispStep d e = Some d' -> pipe_inv d'.
Proof.
  intros I. destruct e as [i run def|i def o|i|configs|e|i e| |]; cbn [dispStep].
  - by apply Notify_inv.
  - by apply Notify_inv.
  - by apply producerStep_inv.
  - destruct (unlocked d); [|done]. intros [= <-]. eapply core_inv; [apply Reload_core | done].
  - by apply batchStep_inv.
  - by apply workerStep_inv.
  - unfold unlocked. case_bool_decide as Hp; [|done].
    intros [= <-]. destruct I as [I1 I2 Ic I3 I4 I5 I6 I7]. split; try done. by apply (exitOK_mono d).
  - intros [= <-]. destruct I as [I1 I2 Ic I3 I4 I5 I6 I7]. split; try done. by apply (exitOK_mono d).
Qed.

Lemma dispReach_inv d : dispReach d -> pipe_inv d.
Proof.
  induction 1 as [configs d Hn|d e d' _ IH He]; [|by apply (dispStep_inv d e)].
  by apply core_new, (New_core configs).
Qed.

(** C21: in every interleaving of completions, reloads, the batch goroutine, the
    four workers, shutdown and cancellation, no accepted delivery is lost or
    duplicated: however deliveries are classified, as many were accepted as are in
    the pipeline, finished or abandoned — and only a canceled dispatcher (its
    context ended before the pipeline drained) abandons any.  The reported queue
    depth is the number in the pipeline plus the calls of [Notify] that have
    counted a delivery and not queued it yet; the channels stay within their
    capacity and a batch is sent at most three times.  Once the pipeline has
    drained the depth is zero and, if the dispatcher was not canceled, exactly the
    accepted deliveries have been finished. *)
Theorem alerts_conserved d :
  dispReach d ->
  (forall p, cnt p (accepted d) = inPipe p d + cnt p (finished d).*1 + cnt p (abandoned d)) /\
  (abandoned d <> [] -> canceled d = true) /\
  QueueDepth d = inPipe (fun _ => true) d + msum counted (producers d) /\
  Z.of_nat (length (queue d)) <= 256 /\ Z.of_nat (length (work d)) <= 256 /\
  (forall i w, workers d !! i = Some w -> (i < 4)%nat /\ 0 <= workerAttempts w <= 3) /\
  (bpc d = BExited -> work d = [] -> workers d = ∅ ->
     QueueDepth d = 0 /\
     (canceled d = false -> forall p, cnt p (accepted d) = cnt p (finished d).*1)).
Proof.
  intros [I1 I2 Ic I3 I4 I5 [I6 _] I7]%dispReach_inv. unfold queueCap, workCap in *.
  split; [done|]. split; [done|]. split; [done|]. split; [done|]. split; [done|]. split.
  - intros i w Hw. destruct (I7 i w Hw) as (Hi & _ & Hn). split; [done|].
    unfold maxAttempts in Hn. destruct w; simpl; lia.
  - intros Hb Hw Hk. rewrite Hb in I4. destruct I4 as (Hcl & Hq & Hbs).
    assert (H0 : forall p, inPipe p d = 0).
    { intros p. unfold inPipe. rewrite Hq, Hb, Hbs, Hw, Hk, !msum_empty. done. }
    split; [unfold QueueDepth; by rewrite I2, H0, (Ic Hcl), msum_empty|]. intros Hc p. rewrite (I1 p), H0.
    destruct (abandoned d) as [|x l]; [rewrite cnt_nil; lia|]. rewrite I3 in Hc; done.
Qed.

Module PipeDemo.
Import AlertFacts.

Definition dispRun (configs : list AlertChannel) (es : list DispEvent) : option Disp :=
  match New configs with
  | Err _ => None
  | Ok d => foldl (fun d e => d ≫= fun d => dispStep d e) (Some d) es
  end.

Lemma dispRun_reach configs es d : dispRun configs es = Some d -> dispReach d.
Proof.
  unfold dispRun. destruct (New configs) as [d0|] eqn:En; [|done]. revert d.
  induction es as [|e es IH] using rev_ind; intros d; simpl.
  { intros [= <-]. by eapply disp_new. }
  rewrite foldl_app. simpl. destruct (foldl _ _ es) as [t|]; [|done]. simpl.
  apply (disp_next t e). by apply IH.
Qed.

Definition failedRun : Run := zeroRun <| r_ID := "r1" |> <| r_Job := "backup" |> <| r_Status := "failed" |>.

(** One alert, sent at the second attempt after the window, then [Close]. *)
Definition oneAlert : list DispEvent :=
  [DNotify 0 failedRun (zeroDefinition <| d_Alerts := Some ["ops"] |>); DProducer 0; DProducer 0; DProducer 0;
   DBatch EvReceive; DBatch EvDrained; DBatch (EvAdd 5 5);
   DBatch EvDrained; DBatch (EvAdd 5 5); DBatch (EvDeadline (20 * Second)); DBatch (EvFlush "ops");
   DBatch EvEnqueue; DBatch EvDrained; DBatch EvDrained;
   DWorker 2 EvTake; DWorker 2 EvReport; DWorker 2 EvStart; DWorker 2 (EvSent (SendErr "timeout"));
   DWorker 2 EvReport; DWorker 2 EvStart; DWorker 2 (EvSent SendOk); DWorker 2 EvFinish;
   DClose; DBatch EvReceive; DBatch EvDrained].

Definition delivered : Disp := default newDisp (dispRun [opsChannel] oneAlert).

Lemma alerts_conserved_witness :
  dispReach delivered /\ (finished delivered).*2 = ["sent"] /\ QueueDepth delivered = 0 /\
  map (map rec_Status) (reports delivered) = [["queued"]; ["sending"]; ["sending"]; ["sent"]].
Proof.
  assert (Hr : dispReach delivered).
  { apply (dispRun_reach [opsChannel] oneAlert). vm_compute. reflexivity. }
  split; [exact Hr|]. split; [vm_compute; reflexivity|]. split; [|vm_compute; reflexivity].
  destruct (alerts_conserved delivered Hr) as (_ & _ & _ & _ & _ & _ & Hend).
  refine (proj1 (Hend _ _ _)); vm_compute; reflexivity.
Defined.

Definition overload : list (string * string * string) := replicate 300 ("r", "ops", "alert queue is full").

Lemma drop_ring_witness :
  drops delivered = [] /\
  dropRecords (foldl (fun d o => observeDrop d o.1.1 o.1.2 o.2) delivered overload) =
    drop (length overload - 256) (dropRecord <$> overload).
Proof.
  assert (H1 : drops delivered = []) by (vm_compute; reflexivity).
  assert (H2 : dropStart delivered = 0) by (vm_compute; reflexivity).
  assert (H3 : dropOverflow delivered = 0) by (vm_compute; reflexivity).
  split; [exact H1|]. exact (proj1 (drop_ring delivered overload H1 H2 H3)).
Defined.
End PipeDemo.
