(* ===== verification/AlertStore.v ===== *)
(** Alert delivery observations: the alert_deliveries table
    (internal/store/alerts.go) and the observations parked for runs whose row the
    history writer has not stored yet (internal/daemon/alert_park.go). *)

From S2P Require Import Prelude GoRuntime Model StoreDB.
Open Scope Z_scope.

(** * The table *)

Module AlertTable.

Record AlertRow := mkAlertRow {
  ar_status : string;
  ar_attempts : Z;
  ar_last_error : string;
  ar_updated_us : Z
}.

(** alert_deliveries, keyed by its primary key (run_id, channel). *)
Abbreviation Deliveries := (gmap (string * string) AlertRow) (only parsing).

Record AlertUpdate := mkAlertUpdate {
  up_RunID : string;
  up_Channel : string;
  up_Status : string;
  up_Attempts : Z;
  up_LastError : string;
  up_At : Time
}.

#[export] Instance AlertUpdate_eta : Eta AlertUpdate := fun u => mkAlertUpdate
  (up_RunID u) (up_Channel u) (up_Status u) (up_Attempts u) (up_LastError u) (up_At u).

Definition stamp (u : AlertUpdate) (now : Z) : Z :=
  if IsZero (up_At u) then now else UnixMicro_of (up_At u).

(** The statement [recordAlert]: an upsert that never overwrites a newer row. *)
Definition upsert (t : Deliveries) (u : AlertUpdate) (us : Z) : Deliveries :=
  let row := mkAlertRow (up_Status u) (up_Attempts u) (up_LastError u) us in
  match t !! (up_RunID u, up_Channel u) with
  | None => <[(up_RunID u, up_Channel u) := row]> t
  | Some old => if ar_updated_us old <=? us then <[(up_RunID u, up_Channel u) := row]> t else t
  end.

(** The foreign key run_id REFERENCES runs. *)
Definition stored (db : DB) (runID : string) : bool := bool_decide (is_Some (runs db !! runID)).

Definition RecordAlert (db : DB) (t : Deliveries) (u : AlertUpdate) (now : Time)
    : Deliveries * Result StoreError unit :=
  if stored db (up_RunID u) then (upsert t u (UnixMicro_of now), Ok tt) else (t, Err ErrConstraint).

(** [RecordAlerts]: one transaction, in order; a failed statement rolls it back. *)
Fixpoint recordAll (db : DB) (t : Deliveries) (updates : list AlertUpdate) (now : Z)
    : Result StoreError Deliveries :=
  match updates with
  | [] => Ok t
  | u :: updates =>
      if stored db (up_RunID u) then recordAll db (upsert t u (stamp u now)) updates now
      else Err ErrConstraint
  end.

Definition RecordAlerts (db : DB) (t : Deliveries) (updates : list AlertUpdate) (now : Time)
    : Deliveries * Result StoreError unit :=
  match recordAll db t updates (UnixMicro_of now) with
  | Ok t' => (t', Ok tt)
  | Err e => (t, Err e)
  end.

(** [RecordAlertsForStoredRuns]: updates of missing runs are returned, in order. *)
Fixpoint recordStored (db : DB) (t : Deliveries) (updates : list AlertUpdate) (now : Z)
    : Deliveries * list AlertUpdate :=
  match updates with
  | [] => (t, [])
  | u :: updates =>
      if stored db (up_RunID u) then recordStored db (upsert t u (stamp u now)) updates now
      else let '(t, missing) := recordStored db t updates now in (t, u :: missing)
  end.

Definition RecordAlertsForStoredRuns (db : DB) (t : Deliveries) (updates : list AlertUpdate) (now : Time)
    : Deliveries * list AlertUpdate := recordStored db t updates (UnixMicro_of now).

(** [InterruptAlerts]: deliveries stranded by a restart. *)
Definition InterruptAlerts (t : Deliveries) (now : Time) : Deliveries :=
  (fun row => if String.eqb (ar_status row) "queued" || String.eqb (ar_status row) "sending"
    then mkAlertRow "interrupted" (ar_attempts row) "daemon restarted before delivery completed"
           (UnixMicro_of now)
    else row) <$> t.

(** [AlertMetrics]: deliveries per status. *)
Definition AlertMetrics (t : Deliveries) (status : string) : Z :=
  Z.of_nat (size (filter (fun kr => ar_status kr.2 = status) t)).
End AlertTable.

(** * Parked observations *)

Module AlertPark.
Import AlertTable.

Definition maxParkedAlerts : Z := 256.

Record alertPark := mkPark {
  byRun : gmap string (list AlertUpdate);
  count : Z
}.

Definition parkedOf (p : alertPark) (runID : string) : list AlertUpdate := default [] (byRun p !! runID).

Definition append (p : alertPark) (u : AlertUpdate) : alertPark :=
  mkPark (<[up_RunID u := parkedOf p (up_RunID u) ++ [u]]> (byRun p)) (count p + 1).

(** One iteration of the loop in [park], under [p.mu]: the new park, the run to
    check again if any, and whether the observation was discarded as overflow. *)
Definition parkOne (p : alertPark) (rowPending : bool) (u : AlertUpdate)
    : alertPark * option string * bool :=
  if negb rowPending then
    (append p u, match parkedOf p (up_RunID u) with [] => Some (up_RunID u) | _ => None end, false)
  else if maxParkedAlerts <=? count p then (p, None, true)
  else (append p u, None, false).

(** The critical section of [flush]: take a run's observations out. *)
Definition flushTake (p : alertPark) (runID : string) : alertPark * list AlertUpdate :=
  let updates := parkedOf p runID in
  (mkPark (delete runID (byRun p)) (count p - Z.of_nat (length updates)), updates).

(** [record] stamps the observations before writing them. *)
Definition stampAll (now : Time) (updates : list AlertUpdate) : list AlertUpdate :=
  (fun u => if IsZero (up_At u) then u <| up_At := now |> else u) <$> updates.

(** The daemon's use of the park.  [writing]: observations given to [record],
    not yet looked up; [missing]: updates [RecordAlertsForStoredRuns] returned to
    a caller about to [park] them; [parking]: the caller holding [p.mu], the rest
    of its updates and the runs it will check again; [flushes]: calls of [flush] to
    come, from the writer's callback or from a check; [taken]: flushes between
    their critical section and their write.  [pendingRows] are the runs
    [RowPending] answers for.  The last four fields are the history of the
    observations. *)
Record ParkSys := mkParkSys {
  ps_db : DB;
  ps_table : gmap (string * string) AlertRow;
  ps_park : alertPark;
  pendingRows : gset string;
  missing : list (list AlertUpdate);
  parking : option (list AlertUpdate * list string);
  flushes : list string;
  taken : list (list AlertUpdate);
  given : list AlertUpdate;
  written : list AlertUpdate;
  overflowed : list AlertUpdate;
  dropped : list AlertUpdate
}.

#[export] Instance ParkSys_eta : Eta ParkSys := fun s => mkParkSys
  (ps_db s) (ps_table s) (ps_park s) (pendingRows s) (missing s) (parking s) (flushes s) (taken s)
  (given s) (written s) (overflowed s) (dropped s).

Inductive ParkEvent :=
| ERecord (updates : list AlertUpdate) (now : Time) (failed : bool)
| ELock (i : nat)                     (** a caller of [park] takes [p.mu] *)
| EPark                               (** one iteration of its loop *)
| EUnlock
| EFlush (i : nat)                    (** the critical section of [flush] *)
| EWrite (i : nat) (now : Time) (failed : bool)   (** its write *)
| EDefer (runID : string)             (** a run is admitted without a stored row *)
| EStored (r : Run)                   (** the writer inserts the row *)
| ECallback (runID : string)          (** it clears its flag and calls [runStored] *)
| EDropped (runID : string).          (** it gives the run's history up *)

Definition removeAt {A} (i : nat) (l : list A) : list A := take i l ++ drop (S i) l.

(** The observations a write stored: those of stored runs. *)
Definition storedOnes (db : DB) (updates : list AlertUpdate) : list AlertUpdate :=
  List.filter (fun u => stored db (up_RunID u)) updates.

Definition parkStep (s : ParkSys) (e : ParkEvent) : option ParkSys :=
  match e with
  | ERecord updates now failed =>
      let updates := stampAll now updates in
      let s := s <| given ::= fun g => g ++ updates |> in
      if failed then Some (s <| dropped ::= fun x => x ++ updates |>) else
      let '(t, miss) := RecordAlertsForStoredRuns (ps_db s) (ps_table s) updates now in
      Some (s <| ps_table := t |> <| written ::= fun w => w ++ storedOnes (ps_db s) updates |>
              <| missing ::= fun m => m ++ [miss] |>)
  | ELock i =>
      match parking s, missing s !! i with
      | None, Some m => Some (s <| parking := Some (m, []) |> <| missing ::= removeAt i |>)
      | _, _ => None
      end
  | EPark =>
      match parking s with
      | Some (u :: rest, recheck) =>
          let '(p, again, over) := parkOne (ps_park s) (bool_decide (up_RunID u ∈ pendingRows s)) u in
          let recheck := match again with Some r => recheck ++ [r] | None => recheck end in
          let s := s <| ps_park := p |> <| parking := Some (rest, recheck) |> in
          Some (if over then s <| overflowed ::= fun o => o ++ [u] |> else s)
      | _ => None
      end
  | EUnlock =>
      match parking s with
      | Some ([], recheck) => Some (s <| parking := None |> <| flushes ::= fun f => f ++ recheck |>)
      | _ => None
      end
  | EFlush i =>
      match parking s, flushes s !! i with
      | None, Some r =>
          let '(p, updates) := flushTake (ps_park s) r in
          Some (s <| ps_park := p |> <| flushes ::= removeAt i |> <| taken ::= fun t => t ++ [updates] |>)
      | _, _ => None
      end
  | EWrite i now failed =>
      match taken s !! i with
      | Some updates =>
          let s := s <| taken ::= removeAt i |> in
          if failed then Some (s <| dropped ::= fun x => x ++ updates |>) else
          let '(t, miss) := RecordAlertsForStoredRuns (ps_db s) (ps_table s) updates now in
          Some (s <| ps_table := t |> <| written ::= fun w => w ++ storedOnes (ps_db s) updates |>
                  <| dropped ::= fun x => x ++ miss |>)
      | None => None
      end
  | EDefer r => Some (s <| pendingRows ::= fun p => {[ r ]} ∪ p |>)
  | EStored r =>
      if bool_decide (r_ID r ∈ pendingRows s) then
        Some (s <| ps_db := (CreateRun (ps_db s) r).1 |>)
      else None
  | ECallback r =>
      if bool_decide (r ∈ pendingRows s) && stored (ps_db s) r then
        Some (s <| pendingRows ::= fun p => p ∖ {[ r ]} |> <| flushes ::= fun f => f ++ [r] |>)
      else None
  | EDropped r => Some (s <| pendingRows ::= fun p => p ∖ {[ r ]} |>)
  end.

Definition newPark (db : DB) : ParkSys :=
  mkParkSys db ∅ (mkPark ∅ 0) ∅ [] None [] [] [] [] [] [].

Inductive parkReach (db : DB) (ok : ParkEvent -> Prop) : ParkSys -> Prop :=
| park_new : parkReach db ok (newPark db)
| park_next s e s' : parkReach db ok s -> ok e -> parkStep s e = Some s' -> parkReach db ok s'.
End AlertPark.
