(* ===== verification/AlertStoreFacts.v ===== *)
(** Theorems on alert delivery observations: the newest observation of a delivery
    wins in whatever order observations are written, and no observation handed to
    the park disappears unaccounted. *)

From S2P Require Import Prelude GoRuntime Model StoreDB AlertStore.
Open Scope Z_scope.
Import AlertTable AlertPark.

(** * Newest wins *)

Definition upsertAll (t : gmap (string * string) AlertRow) (us : list (AlertUpdate * Z)) :=
  foldl (fun t ui => upsert t ui.1 ui.2) t us.

Definition key (u : AlertUpdate) : string * string := (up_RunID u, up_Channel u).

Lemma upsert_other t u us k : k <> key u -> upsert t u us !! k = t !! k.
Proof. intros Hk. unfold upsert, key in *. repeat case_match; by rewrite ?lookup_insert_ne. Qed.

Lemma upsert_same t u us :
  upsert t u us !! key u =
  let row := mkAlertRow (up_Status u) (up_Attempts u) (up_LastError u) us in
  match t !! key u with
  | None => Some row
  | Some old => if ar_updated_us old <=? us then Some row else Some old
  end.
Proof.
  unfold upsert, key. destruct (t !! _) as [old|] eqn:E; [case_match|];
    by rewrite ?lookup_insert_eq.
Qed.

(** Two observations of one delivery at different instants, or of two
    deliveries, can be written in either order. *)
Lemma upsert_comm t u a v b :
  key u <> key v \/ a <> b -> upsert (upsert t u a) v b = upsert (upsert t v b) u a.
Proof.
  intros Hne. apply map_eq. intros k.
  destruct (decide (key u = key v)) as [Huv|Huv].
  - destruct Hne as [|Hab]; [done|]. destruct (decide (k = key u)) as [->|Hk].
    + rewrite upsert_same, Huv, upsert_same. cbv zeta. rewrite <- Huv, upsert_same. cbv zeta.
      rewrite Huv, upsert_same. cbv zeta.
      destruct (t !! key v) as [old|]; repeat (case_match; simplify_eq/=; bools); done || lia.
    + by rewrite !upsert_other by congruence.
  - destruct (decide (k = key u)) as [->|Hk].
    + rewrite upsert_other by done. rewrite !upsert_same. cbv zeta. by rewrite upsert_other.
    + destruct (decide (k = key v)) as [->|Hk'].
      * rewrite (upsert_other _ u) by done. rewrite !upsert_same. cbv zeta. by rewrite upsert_other.
      * by rewrite !upsert_other by done.
Qed.

(** Distinct observations of one delivery carry distinct instants. *)
Definition distinct (us : list (AlertUpdate * Z)) : Prop :=
  NoDup ((fun ui => (key ui.1, ui.2)) <$> us).

Lemma upsertAll_perm t us us' :
  distinct us -> us ≡ₚ us' -> upsertAll t us = upsertAll t us'.
Proof.
  intros Hd Hp. revert t. unfold distinct in Hd.
  induction Hp as [|x us us' Hp IH|x y us|us us' us'' H1 IH1 H2 IH2]; intros t; simpl in *.
  - done.
  - apply NoDup_cons in Hd as [_ Hd]. by apply IH.
  - rewrite upsert_comm; [done|]. apply NoDup_cons in Hd as [Hy _]. apply not_elem_of_cons in Hy as [Hy _].
    destruct (decide (key y.1 = key x.1)) as [He|]; [right | by left]. intros Hz. apply Hy.
    by rewrite He, Hz.
  - rewrite IH1 by done. apply IH2. by rewrite <- H1.
Qed.

(** A later row is never replaced by an earlier observation. *)
Lemma upsert_mono t u us k row :
  t !! k = Some row -> exists row', upsert t u us !! k = Some row' /\ ar_updated_us row <= ar_updated_us row'.
Proof.
  intros Hk. destruct (decide (k = key u)) as [->|Hne].
  - rewrite upsert_same, Hk. cbv zeta. case_match; bools; eexists; split; [done|..|done|]; simpl; lia.
  - rewrite upsert_other by done. eauto with lia.
Qed.

Lemma upsertAll_mono us : forall t k row,
  t !! k = Some row -> exists row', upsertAll t us !! k = Some row' /\ ar_updated_us row <= ar_updated_us row'.
Proof.
  induction us as [|[u i] us IH]; intros t k row Hk; [by exists row|].
  destruct (upsert_mono t u i k row Hk) as (r1 & H1 & L1).
  destruct (IH (upsert t u i) k r1 H1) as (r2 & H2 & L2). exists r2. split; [exact H2|lia].
Qed.

(** The row an observation writes. *)
Definition rowOf (u : AlertUpdate) (us : Z) : AlertRow :=
  mkAlertRow (up_Status u) (up_Attempts u) (up_LastError u) us.

(** Nothing newer was observed than what the row shows. *)
Lemma upsertAll_newest us : forall t u i,
  (u, i) ∈ us -> exists row, upsertAll t us !! key u = Some row /\ i <= ar_updated_us row.
Proof.
  induction us as [|[v j] us IH]; intros t u i Hin; [by apply elem_of_nil in Hin|].
  apply elem_of_cons in Hin as [Hx|Hin]; [|by apply IH]. injection Hx as <- <-.
  assert (exists row, upsert t u i !! key u = Some row /\ i <= ar_updated_us row) as (r1 & H1 & L1).
  { rewrite upsert_same. cbv zeta. destruct (t !! key u); [case_match|]; bools; eexists; (split; [done|]); simpl; lia. }
  destruct (upsertAll_mono us _ _ _ H1) as (r2 & H2 & L2). exists r2. split; [exact H2|lia].
Qed.

(** Every row is an old one or the row of an observation. *)
Lemma upsertAll_from us : forall t k row,
  upsertAll t us !! k = Some row ->
  t !! k = Some row \/ exists u i, (u, i) ∈ us /\ key u = k /\ row = rowOf u i.
Proof.
  induction us as [|[v j] us IH]; intros t k row Hk; [by left|].
  destruct (IH (upsert t v j) k row Hk) as [H1|(u & i & Hin & Hu)]; [|right; exists u, i; set_solver].
  destruct (decide (k = key v)) as [->|Hne]; [|left; by rewrite <-(upsert_other t v j)].
  assert (t !! key v = Some row \/ row = rowOf v j) as [Ho|Ho]; [|by left|right; exists v, j; set_solver].
  rewrite upsert_same in H1. cbv zeta in H1. repeat case_match; simplify_eq; by (left + right).
Qed.

(** Calls of [RecordAlertsForStoredRuns], each with the database it finds, its
    updates and its time. *)
Definition recordCalls (t : gmap (string * string) AlertRow) (calls : list (DB * list AlertUpdate * Time)) :=
  foldl (fun t c => (RecordAlertsForStoredRuns c.1.1 t c.1.2 c.2).1) t calls.

(** The observations they write, with their instants. *)
Definition observed (calls : list (DB * list AlertUpdate * Time)) : list (AlertUpdate * Z) :=
  c ← calls; (fun u => (u, stamp u (UnixMicro_of c.2))) <$> List.filter (fun u => stored c.1.1 (up_RunID u)) c.1.2.

Lemma recordStored_upserts db updates now : forall t,
  (recordStored db t updates now).1 =
  upsertAll t ((fun u => (u, stamp u now)) <$> List.filter (fun u => stored db (up_RunID u)) updates).
Proof.
  induction updates as [|u updates IH]; intros t; [done|]. cbn [recordStored List.filter].
  destruct (stored db (up_RunID u)); [apply IH|]. specialize (IH t).
  destruct (recordStored db t updates now). exact IH.
Qed.

Lemma recordCalls_upserts calls : forall t, recordCalls t calls = upsertAll t (observed calls).
Proof.
  induction calls as [|[[db us] now] calls IH]; intros t; [done|].
  change (recordCalls (RecordAlertsForStoredRuns db t us now).1 calls = upsertAll t (observed ((db, us, now) :: calls))).
  rewrite IH. unfold RecordAlertsForStoredRuns. rewrite recordStored_upserts. unfold upsertAll, observed.
  rewrite bind_cons, foldl_app. done.
Qed.

(** C39: the newest observation of a delivery wins, in whatever order and in
    whatever batches observations are written (parked ones are written after newer
    ones).  After any calls of [RecordAlertsForStoredRuns] a delivery's row is no
    older than any observation written for it and no older than the row that was
    there, and it is the row of one of them — so it shows the newest; and if no two
    observations of one delivery carry the same instant, any other order and
    batching of the same observations leaves the same table. *)
Theorem alert_newest_wins t calls :
  let t' := recordCalls t calls in
  (forall u i, (u, i) ∈ observed calls -> exists row, t' !! key u = Some row /\ i <= ar_updated_us row) /\
  (forall k old, t !! k = Some old -> exists row, t' !! k = Some row /\ ar_updated_us old <= ar_updated_us row) /\
  (forall k row, t' !! k = Some row ->
     t !! k = Some row \/ exists u i, (u, i) ∈ observed calls /\ key u = k /\ row = rowOf u i) /\
  (forall calls', distinct (observed calls) -> observed calls ≡ₚ observed calls' -> t' = recordCalls t calls').
Proof.
  cbv zeta. rewrite recordCalls_upserts. split_and!.
  - intros u i. apply upsertAll_newest.
  - intros k old. apply upsertAll_mono.
  - intros k row. apply upsertAll_from.
  - intros calls' Hd Hp. rewrite recordCalls_upserts. by apply upsertAll_perm.
Qed.

(** * Accounting *)

Lemma recordStored_spec db updates now : forall t,
  (recordStored db t updates now).2 = List.filter (fun u => negb (stored db (up_RunID u))) updates.
Proof.
  induction updates as [|u updates IH]; intros t; simpl; [done|].
  destruct (stored db (up_RunID u)); simpl; [apply IH|].
  specialize (IH t). destruct (recordStored db t updates now). simpl in *. congruence.
Qed.

Lemma cnt_partition {A} (q p : A -> bool) l :
  cnt p (List.filter q l) + cnt p (List.filter (fun x => negb (q x)) l) = cnt p l.
Proof.
  induction l as [|x l IH]; simpl; [done|].
  destruct (q x); simpl; rewrite !cnt_cons; lia.
Qed.

Lemma record_counts db t updates now p :
  let '(_, miss) := RecordAlertsForStoredRuns db t updates now in
  cnt p (storedOnes db updates) + cnt p miss = cnt p updates.
Proof.
  unfold RecordAlertsForStoredRuns, storedOnes.
  pose proof (recordStored_spec db updates (UnixMicro_of now) t) as H.
  destruct (recordStored db t updates _) as [t' miss]. simpl in H. subst miss. apply cnt_partition.
Qed.

Definition parkingTodo (s : ParkSys) : list AlertUpdate :=
  match parking s with Some (todo, _) => todo | None => [] end.
Definition rechecks (s : ParkSys) : list string :=
  match parking s with Some (_, r) => r | None => [] end.

(** Observations somewhere between [record] and the table. *)
Definition inFlight (p : AlertUpdate -> bool) (s : ParkSys) : Z :=
  cnt p (concat (missing s)) + cnt p (parkingTodo s) + msum (cnt p) (byRun (ps_park s)) +
  cnt p (concat (taken s)).

Record park_inv (s : ParkSys) : Prop := {
  ki_conserved : forall p, cnt p (given s) =
      inFlight p s + cnt p (written s) + cnt p (overflowed s) + cnt p (dropped s);
  ki_count : count (ps_park s) = msum (fun l => Z.of_nat (length l)) (byRun (ps_park s))
}.

Lemma cnt_concat_removeAt {A} (p : A -> bool) (l : list (list A)) i x :
  l !! i = Some x -> cnt p (concat (removeAt i l)) + cnt p x = cnt p (concat l).
Proof.
  intros Hi. unfold removeAt. rewrite <- (take_drop_middle l i x Hi) at 3.
  rewrite !concat_app. cbn [concat]. rewrite !cnt_app. lia.
Qed.

Lemma append_counts f p u :
  f [] = 0 -> (forall l, f (l ++ [u]) = f l + f [u]) ->
  msum f (byRun (append p u)) = msum f (byRun p) + f [u].
Proof.
  intros H0 Happ. unfold append, parkedOf. cbn [byRun].
  destruct (byRun p !! up_RunID u) as [l|] eqn:E; cbn [default from_option].
  - rewrite (msum_update _ _ _ l) by done. unfold id. rewrite Happ. lia.
  - rewrite msum_new by done. cbn [app]. lia.
Qed.

Lemma append_cnt p u q : msum (cnt q) (byRun (append p u)) = msum (cnt q) (byRun p) + cnt q [u].
Proof. apply append_counts; [done|]. intros l. by rewrite cnt_app. Qed.

Lemma append_count p u :
  count p = msum (fun l => Z.of_nat (length l)) (byRun p) ->
  count (append p u) = msum (fun l => Z.of_nat (length l)) (byRun (append p u)).
Proof.
  intros H. rewrite append_counts; [simpl; lia | done |]. intros l. rewrite length_app. simpl. lia.
Qed.

Lemma flushTake_counts f p r :
  f [] = 0 -> let '(p', updates) := flushTake p r in msum f (byRun p') + f updates = msum f (byRun p).
Proof.
  intros H0. unfold flushTake, parkedOf. cbn [byRun].
  destruct (byRun p !! r) as [l|] eqn:E; cbn [default from_option].
  - rewrite (msum_delete _ _ _ l) by done. unfold id. lia.
  - rewrite delete_id by done. lia.
Qed.

Lemma parkOne_cases p b u :
  let '(p', again, over) := parkOne p b u in
  if over then p' = p /\ again = None /\ b = true else
  p' = append p u /\
  again = (if b then None else match parkedOf p (up_RunID u) with [] => Some (up_RunID u) | _ => None end).
Proof. unfold parkOne. destruct b; cbn [negb]; [destruct (maxParkedAlerts <=? count p)|]; done. Qed.

Lemma parkStep_inv s e s' : park_inv s -> parkStep s e = Some s' -> park_inv s'.
Proof.
  intros [I1 I2]. destruct e as [updates now failed|i| | |i|i now failed|r|r|r|r]; cbn [parkStep].
  - set (us := stampAll now updates). destruct failed.
    + intros [= <-]. split; [|done]. unfold inFlight, parkingTodo in *; cbn -[cnt] in *. intros p. rewrite !cnt_app, (I1 p). lia.
    + cbn [ps_db ps_table upd]. pose proof (fun p => record_counts (ps_db s) (ps_table s) us now p) as Hc.
      cbn -[cnt RecordAlertsForStoredRuns storedOnes] in *.
      destruct (RecordAlertsForStoredRuns (ps_db s) (ps_table s) us now) as [t miss].
      intros [= <-]. split; [|done]. unfold inFlight, parkingTodo in *; cbn -[cnt storedOnes] in *.
      intros p. rewrite !concat_app, !cnt_app, (I1 p). cbn [concat]. rewrite app_nil_r.
      specialize (Hc p). lia.
  - destruct (parking s) eqn:Ep; [done|]. destruct (missing s !! i) as [m|] eqn:Em; [|done].
    intros [= <-]. split; [|done]. unfold inFlight, parkingTodo in *; cbn -[cnt] in *.
    intros p. rewrite (I1 p), Ep. pose proof (cnt_concat_removeAt p _ i m Em). rewrite cnt_nil. lia.
  - destruct (parking s) as [[[|u rest] recheck]|] eqn:Ep; try done.
    pose proof (parkOne_cases (ps_park s) (bool_decide (up_RunID u ∈ pendingRows s)) u) as Hp.
    destruct (parkOne (ps_park s) _ u) as [[p' again] over]. destruct over.
    + destruct Hp as (-> & _). intros [= <-]. split; [|done].
      unfold inFlight, parkingTodo in *; cbn -[cnt] in *.
      intros p. rewrite (I1 p), Ep, cnt_app, !cnt_cons, cnt_nil. lia.
    + destruct Hp as (-> & _). intros [= <-]. split; cbn -[cnt append] in *; [|by apply append_count].
      unfold inFlight, parkingTodo in *; cbn -[cnt append] in *. intros p.
      rewrite (I1 p), Ep, append_cnt, !cnt_cons, cnt_nil. lia.
  - destruct (parking s) as [[[|u rest] recheck]|] eqn:Ep; try done. intros [= <-]. split; [|done].
    unfold inFlight, parkingTodo in *; cbn -[cnt] in *. intros p. by rewrite (I1 p), Ep.
  - destruct (parking s) eqn:Ep; [done|]. destruct (flushes s !! i) as [r|]; [|done].
    pose proof (fun p => flushTake_counts (cnt p) (ps_park s) r eq_refl) as Hc.
    pose proof (flushTake_counts (fun l => Z.of_nat (length l)) (ps_park s) r eq_refl) as Hl.
    assert (Hk : count (flushTake (ps_park s) r).1 =
                 count (ps_park s) - Z.of_nat (length (flushTake (ps_park s) r).2)) by done.
    destruct (flushTake (ps_park s) r) as [p' us]. intros [= <-]. split; cbn -[cnt] in *; [|lia].
    unfold inFlight, parkingTodo in *; cbn -[cnt] in *. intros p.
    rewrite (I1 p), concat_app, cnt_app. cbn [concat]. rewrite app_nil_r. specialize (Hc p).
    cbn -[cnt] in Hc. lia.
  - destruct (taken s !! i) as [us|] eqn:Et; [|done].
    pose proof (fun p => cnt_concat_removeAt p _ i us Et) as Hr. destruct failed.
    + intros [= <-]. split; [|done]. unfold inFlight, parkingTodo in *; cbn -[cnt] in *.
      intros p. rewrite cnt_app, (I1 p). specialize (Hr p). lia.
    + cbn [ps_db ps_table upd]. pose proof (fun p => record_counts (ps_db s) (ps_table s) us now p) as Hc.
      cbn -[cnt RecordAlertsForStoredRuns storedOnes] in *.
      destruct (RecordAlertsForStoredRuns (ps_db s) (ps_table s) us now) as [t miss].
      intros [= <-]. split; [|done]. unfold inFlight, parkingTodo in *; cbn -[cnt storedOnes] in *.
      intros p. rewrite !cnt_app, (I1 p). specialize (Hc p). specialize (Hr p). lia.
  - intros [= <-]. by split.
  - case_bool_decide; [|done]. intros [= <-]. by split.
  - case_match; [|done]. intros [= <-]. by split.
  - intros [= <-]. by split.
Qed.

(** No delivery observation handed to the daemon disappears unaccounted:
    however observations are classified, those given to [record] are exactly those
    written, discarded with a log line (overflow, failed writes, runs without stored
    history), or still under way; and the park's count is exact. *)
Theorem park_accounts db s :
  parkReach db (fun _ => True) s ->
  (forall p, cnt p (given s) =
     inFlight p s + cnt p (written s) + cnt p (overflowed s) + cnt p (dropped s)) /\
  count (ps_park s) = msum (fun l => Z.of_nat (length l)) (byRun (ps_park s)).
Proof.
  intros H. enough (park_inv s) as [I1 I2] by done.
  induction H as [|s e s' _ IH _ Hs]; [|by apply (parkStep_inv s e)].
  split; [|done]. intros p. unfold inFlight. cbn -[cnt]. by rewrite msum_empty.
Qed.

(** * Parked observations are flushed *)

(** Somebody will flush the run: the writer when it stores the row, or a
    scheduled call. *)
Definition willFlush (s : ParkSys) (r : string) : Prop :=
  r ∈ pendingRows s \/ r ∈ flushes s \/ r ∈ rechecks s.

Definition noStrand (s : ParkSys) : Prop :=
  forall r, parkedOf (ps_park s) r <> [] -> willFlush s r.

Definition historyKept (e : ParkEvent) : Prop := match e with EDropped _ => False | _ => True end.

Lemma elem_removeAt {A} (l : list A) i x y : l !! i = Some x -> y ∈ l -> y = x \/ y ∈ removeAt i l.
Proof.
  intros Hi Hy. rewrite <- (take_drop_middle l i x Hi) in Hy. unfold removeAt.
  rewrite elem_of_app, elem_of_cons in Hy. rewrite elem_of_app. tauto.
Qed.

Lemma parkedOf_append p u r :
  parkedOf (append p u) r = if decide (r = up_RunID u) then parkedOf p r ++ [u] else parkedOf p r.
Proof.
  unfold append, parkedOf. cbn [byRun]. case_decide as Hr.
  - subst. by rewrite lookup_insert_eq.
  - by rewrite lookup_insert_ne.
Qed.

Lemma parkStep_noStrand s e s' :
  historyKept e -> noStrand s -> parkStep s e = Some s' -> noStrand s'.
Proof.
  unfold noStrand, willFlush, rechecks. intros Hok N.
  destruct e as [updates now failed|i| | |i|i now failed|r|r|r|r]; cbn [parkStep]; [..|done].
  - destruct failed; [by intros [= <-]|].
    cbv zeta. destruct (RecordAlertsForStoredRuns _ _ _ _). by intros [= <-].
  - destruct (parking s) eqn:Ep; [done|]. destruct (missing s !! i); [|done]. intros [= <-] r Hr.
    cbn in *. destruct (N r Hr) as [|[|H]]; [tauto..|]. by rewrite elem_of_nil in H.
  - destruct (parking s) as [[[|u rest] recheck]|] eqn:Ep; try done.
    pose proof (parkOne_cases (ps_park s) (bool_decide (up_RunID u ∈ pendingRows s)) u) as Hp.
    destruct (parkOne (ps_park s) _ u) as [[p' again] over]. destruct over.
    { destruct Hp as (-> & -> & _). intros [= <-]. done. }
    destruct Hp as [-> ->]. intros [= <-] r Hr. cbn -[append] in *. rewrite parkedOf_append in Hr.
    assert (Hmono : forall x, x ∈ recheck ->
      x ∈ match (if bool_decide (up_RunID u ∈ pendingRows s) then None
                 else match parkedOf (ps_park s) (up_RunID u) with [] => Some (up_RunID u) | _ => None end)
          with Some r0 => recheck ++ [r0] | None => recheck end).
    { intros x Hx. repeat case_match; rewrite ?elem_of_app; tauto. }
    destruct (parkedOf (ps_park s) r) as [|u0 l] eqn:Er.
    + case_decide as Hru; [|done]. subst r. rewrite Er.
      case_bool_decide; [tauto|]. right. right. rewrite elem_of_app, list_elem_of_singleton. tauto.
    + destruct (N r) as [|[|]]; [by rewrite Er | tauto | tauto | right; right; auto].
  - destruct (parking s) as [[[|u rest] recheck]|] eqn:Ep; try done. intros [= <-] r Hr.
    cbn in *. rewrite elem_of_app. destruct (N r Hr); tauto.
  - destruct (parking s) eqn:Ep; [done|]. destruct (flushes s !! i) as [r0|] eqn:Ef; [|done].
    intros [= <-] r Hr. cbn in *. rewrite Ep in *.
    assert (Hne : r <> r0).
    { intros ->. apply Hr. unfold parkedOf. cbn [byRun]. by rewrite lookup_delete_eq. }
    assert (Hr' : parkedOf (ps_park s) r <> []).
    { intros E. apply Hr. unfold parkedOf in *. cbn [byRun]. by rewrite lookup_delete_ne. }
    destruct (N r Hr') as [|[H|]]; [tauto | | tauto].
    destruct (elem_removeAt _ i r0 r Ef H); tauto.
  - destruct (taken s !! i); [|done]. destruct failed; [by intros [= <-]|].
    cbv zeta. destruct (RecordAlertsForStoredRuns _ _ _ _). by intros [= <-].
  - intros [= <-] r' Hr. cbn in *. destruct (N r' Hr); set_solver.
  - case_bool_decide; [|done]. by intros [= <-].
  - destruct (bool_decide _ && _); [|done]. intros [= <-] r' Hr. cbn in *. rewrite elem_of_app, list_elem_of_singleton.
    destruct (decide (r' = r)) as [->|]; [tauto|]. destruct (N r' Hr) as [|[|]]; [|tauto..]. set_solver.
Qed.

(** As long as the history writer stores every row it announced as pending, a
    parked observation is never forgotten: its run's row is still pending, so that the
    writer's callback will flush it, or a flush of the run is scheduled. *)
Theorem parked_will_flush db s r :
  parkReach db historyKept s -> parkedOf (ps_park s) r <> [] -> willFlush s r.
Proof.
  intros H. enough (noStrand s) as N by apply N.
  induction H as [|s e s' _ IH Hok Hs]; [|by apply (parkStep_noStrand s e)].
  intros r'. unfold parkedOf. cbn. by rewrite lookup_empty.
Qed.

Module ParkDemo.

Definition parkRun (es : list ParkEvent) : option ParkSys :=
  foldl (fun s e => s ≫= fun s => parkStep s e) (Some (newPark emptyDB)) es.

Lemma parkRun_reach ok es s : Forall ok es -> parkRun es = Some s -> parkReach emptyDB ok s.
Proof.
  unfold parkRun. revert s. induction es as [|e es IH] using rev_ind; intros s Hes; simpl.
  { intros [= <-]. constructor. }
  rewrite foldl_app. simpl. apply Forall_app in Hes as [Hes He].
  destruct (foldl _ _ es) as [t|]; [|done]. simpl. intros Ht.
  apply (park_next _ _ t e); [by apply IH | by inversion He | done].
Qed.

Definition observation : AlertUpdate := mkAlertUpdate "r1" "ops" "queued" 0 "" 0.

(** A run is admitted without a row; its alert is observed and parked. *)
Definition parkOneAlert : list ParkEvent :=
  [EDefer "r1"; ERecord [observation] 7 false; ELock 0; EPark; EUnlock].

Definition parkedState : ParkSys := default (newPark emptyDB) (parkRun parkOneAlert).

Lemma parked_will_flush_witness :
  parkedOf (ps_park parkedState) "r1" <> [] /\ willFlush parkedState "r1".
Proof.
  assert (H : parkedOf (ps_park parkedState) "r1" <> []) by (vm_compute; congruence).
  split; [exact H|]. apply (parked_will_flush emptyDB parkedState "r1"); [|exact H].
  apply (parkRun_reach historyKept parkOneAlert); [repeat constructor | vm_compute; reflexivity].
Defined.

Lemma park_accounts_witness :
  parkReach emptyDB (fun _ => True) parkedState /\ count (ps_park parkedState) =
    msum (fun l => Z.of_nat (length l)) (byRun (ps_park parkedState)).
Proof.
  assert (H : parkReach emptyDB (fun _ => True) parkedState).
  { apply (parkRun_reach (fun _ => True) parkOneAlert); [repeat constructor | vm_compute; reflexivity]. }
  split; [exact H|]. exact (proj2 (park_accounts emptyDB parkedState H)).
Defined.

(** A delivery observed as sent, then the parked observation that it was queued. *)
Definition lateCalls : list (DB * list AlertUpdate * Time) :=
  let db := emptyDB <| runs := {[ "r1" := runArgs (zeroRun <| r_ID := "r1" |>) ]} |> in
  [(db, [observation <| up_Status := "sent" |> <| up_At := 9000 |>], 9000);
   (db, [observation <| up_At := 5000 |>], 10000)].

Lemma alert_newest_wins_witness :
  exists row, recordCalls ∅ lateCalls !! ("r1", "ops") = Some row /\ UnixMicro_of 9000 <= ar_updated_us row.
Proof.
  refine (proj1 (alert_newest_wins ∅ lateCalls) (observation <| up_Status := "sent" |> <| up_At := 9000 |>) (UnixMicro_of 9000) _).
  apply (list_elem_of_lookup_2 _ 0). vm_compute. reflexivity.
Defined.

(** When the writer gives a deferred run's history up, the observations parked for
    it stay for good: nobody will flush them and they keep their place in the
    park. *)
Definition strandedState : ParkSys :=
  default (newPark emptyDB) (parkRun (parkOneAlert ++ [EDropped "r1"])).

Theorem park_stranded :
  parkReach emptyDB (fun _ => True) strandedState /\
  parkedOf (ps_park strandedState) "r1" <> [] /\ ~ willFlush strandedState "r1" /\
  count (ps_park strandedState) = 1 /\ parking strandedState = None /\ taken strandedState = [].
Proof.
  split.
  { apply (parkRun_reach _ (parkOneAlert ++ [EDropped "r1"])); [repeat constructor | vm_compute; reflexivity]. }
  split; [vm_compute; congruence|]. split; [|repeat split; vm_compute; reflexivity].
  unfold willFlush. intros [H|[H|H]]; apply (bool_decide_pack _) in H; vm_compute in H; exact H.
Qed.
End ParkDemo.
