(* ===== verification/Config.v ===== *)
(** Configuration (internal/config/config.go): limits and their unit
    conversions, defaults of the daemon's settings and of definitions, their
    validation, and the form of a definition exchanged with API clients.

    Decoding TOML and JSON is third-party or library code: the model starts from
    the decoded values.  What the code asks of its environment are parameters of
    the section: the time zone database, the cron parser, [time.ParseDuration],
    the user database, the effective user, the trusted-path check and the
    loopback test of a parsed IP address.

    An error is its check; a check over a Go map reports whichever entry the
    iteration meets first, the model the first in its own order. *)

From S2P Require Import Prelude GoRuntime Model.
From Stdlib Require Import Ascii.
Open Scope Z_scope.

(** * Strings *)

(** [strings.CutPrefix], [strings.TrimPrefix] and [strings.HasPrefix]. *)
Fixpoint CutPrefix (prefix s : string) : option string :=
  match prefix, s with
  | EmptyString, _ => Some s
  | String p prefix, String c s => if Ascii.eqb p c then CutPrefix prefix s else None
  | _, EmptyString => None
  end.

Definition trimPrefix (prefix s : string) : string := default s (CutPrefix prefix s).

(** [filepath.IsAbs] on Unix. *)
Definition IsAbs (path : string) : bool :=
  match path with String "/"%char _ => true | _ => false end.

(** [strings.ContainsAny(s, "=\x00")]. *)
Definition hasEqOrNul (s : string) : bool :=
  negb (AlertChannels.string_forallb
          (fun c => negb (Ascii.eqb c "="%char || Ascii.eqb c "000"%char)) s).

(** The first half of [strings.Cut(s, ":")]. *)
Definition beforeColon (s : string) : string :=
  match AlertChannels.cut_colon s with Some (a, _) => a | None => s end.

(** [strconv.Atoi] succeeds: an optional sign, digits, and a value of 64 bits. *)
Fixpoint digitsValue (acc : Z) (s : string) : option Z :=
  match s with
  | EmptyString => Some acc
  | String c s => if AlertChannels.is_digit c
                  then digitsValue (acc * 10 + (Z.of_N (N_of_ascii c) - 48)) s else None
  end.

Definition Atoi (s : string) : option Z :=
  let '(neg, digits) := match s with
                        | String "-"%char d => (true, d)
                        | String "+"%char d => (false, d)
                        | _ => (false, s)
                        end in
  match digits with
  | EmptyString => None
  | _ => match digitsValue 0 digits with
         | None => None
         | Some v => let v := if neg then - v else v in
                     if (minInt64 <=? v) && (v <=? maxInt64) then Some v else None
         end
  end.

(** * Units *)

Definition MaxDBMaxSizeMiB : Z := Z.shiftl 1 30.
Definition DefaultDiskMinFreeMiB : Z := 512.

(** Saturating conversion of mebibytes to bytes. *)
Definition mebibytes (v : Z) : Z :=
  if v <=? 0 then 0 else
  if Z.shiftr maxInt64 20 <? v then maxInt64 else
  wrap64 (Z.shiftl v 20).

(** [validateDuration]: [value * unit] fits 64 bits. *)
Definition validateDuration (value : Z) (unit_ : Duration) : bool := negb (maxInt64 / unit_ <? value).

(** * The daemon's settings *)

Record Server := mkServer {
  Bind : string;
  TCPEnabled : option bool;
  UnixSocket : option bool;
  AllowInsecureRemote : bool
}.

Record Scheduler_ := mkScheduler {
  TrustedPath : option (list string);
  sc_Timezone : string;
  MaxConcurrentRuns : Z;
  ShutdownGrace : Z
}.

Record Queue := mkQueue {
  Enabled : option bool;
  MaxItems : Z;
  MaxPerJob : Z;
  MaxBytes : Z;
  MaxAge : Z;
  DrainRate : Z;
  MaxPendingRetries : Z
}.

Record Storage := mkStorage {
  KeepRunsDefault : Z;
  KeepForDefault : Z;
  AuditKeep : Z;
  Synchronous : string
}.

Record Logs := mkLogs {
  Backend : string;
  MaxLine : Z;
  WorkerFlushInterval : Z;
  DBKeepFor : Z;
  DBPruneAt : string;
  DBMaxSize : Z;
  Durability : string;
  SyncInterval : Z;
  SyncMaxDirty : Z;
  DiskBudget : Z;
  DiskMinFree : option Z;
  QuarantineKeepFor : Z;
  QuarantineMaxSize : Z
}.

Record Reads := mkReads {
  rd_Slots : Z;
  rd_Budget : Z;
  rd_WorkTimeout : Z
}.

Record Config := mkConfig {
  c_Server : Server;
  c_Scheduler : Scheduler_;
  c_Queue : Queue;
  c_Storage : Storage;
  c_Logs : Logs;
  c_Reads : Reads;
  c_Defaults : Definition_;
  c_Init : list Definition_;
  c_Jobs : list Definition_;
  c_Workers : list Definition_
}.

Definition on (b : option bool) : bool := default true b.
Definition TCPOn (s : Server) : bool := on (TCPEnabled s).
Definition UnixOn (s : Server) : bool := on (UnixSocket s).
Definition QueueOn (q : Queue) : bool := on (Enabled q).

(** The byte conversions of [Logs]. *)
Definition MaxSizeBytes (l : Logs) : Z :=
  if DBMaxSize l <=? 0 then 0 else
  if Z.shiftr maxInt64 20 <? DBMaxSize l then maxInt64 else wrap64 (Z.shiftl (DBMaxSize l) 20).
Definition DiskBudgetBytes (l : Logs) : Z := mebibytes (DiskBudget l).
Definition DiskMinFreeBytes (l : Logs) : Z := mebibytes (default DefaultDiskMinFreeMiB (DiskMinFree l)).
Definition QuarantineMaxBytes (l : Logs) : Z := mebibytes (QuarantineMaxSize l).
Definition QuarantineKeepDuration (l : Logs) : Duration :=
  wrap64 (wrap64 (Z.max (QuarantineKeepFor l) 0 * 24) * Hour).

(** [cmp.Or]. *)
Definition orZ (a b : Z) : Z := if a =? 0 then b else a.
Definition orS (a b : string) : string := if String.eqb a "" then b else a.
Definition orP {A} (a b : option A) : option A := match a with None => b | Some _ => a end.

Definition applyConfigDefaults (c : Config) : Config :=
  let s := c_Server c in let sc := c_Scheduler c in let q := c_Queue c in
  let st := c_Storage c in let l := c_Logs c in let r := c_Reads c in
  let items := orZ (MaxItems q) 100 in
  mkConfig
    (mkServer (orS (Bind s) "127.0.0.1:7423") (TCPEnabled s) (UnixSocket s) (AllowInsecureRemote s))
    (mkScheduler (TrustedPath sc) (orS (sc_Timezone sc) "UTC") (orZ (MaxConcurrentRuns sc) 32)
       (ShutdownGrace sc))
    (mkQueue (Enabled q) items (orZ (MaxPerJob q) (Z.min 25 items)) (orZ (MaxBytes q) 256)
       (orZ (MaxAge q) 900) (orZ (DrainRate q) 5) (orZ (MaxPendingRetries q) 500))
    (mkStorage (orZ (KeepRunsDefault st) 10000) (orZ (KeepForDefault st) 7) (orZ (AuditKeep st) 10000)
       (orS (Synchronous st) "full"))
    (mkLogs (orS (Backend l) "file") (orZ (MaxLine l) 256) (orZ (WorkerFlushInterval l) 15)
       (orZ (DBKeepFor l) 30) (orS (DBPruneAt l) "03:30") (DBMaxSize l) (orS (Durability l) "batch")
       (orZ (SyncInterval l) 2000) (orZ (SyncMaxDirty l) 1024) (DiskBudget l)
       (orP (DiskMinFree l) (Some DefaultDiskMinFreeMiB)) (QuarantineKeepFor l) (QuarantineMaxSize l))
    (mkReads (orZ (rd_Slots r) 4) (orZ (rd_Budget r) 32) (orZ (rd_WorkTimeout r) 20))
    (c_Defaults c) (c_Init c) (c_Jobs c) (c_Workers c).

(** * Definition defaults *)

Record explicit := mkExplicit { ex_timeout : bool; ex_retries : bool }.

Definition isJob (d : Definition_) : bool := String.eqb (d_Kind d) KindJob.
Definition isWorker (d : Definition_) : bool := String.eqb (d_Kind d) KindWorker.

(** No step changes the kind, so it is read once, by the caller. *)
Definition mergeFields (job worker : bool) (d defaults : Definition_) (ex : explicit) : Definition_ :=
  let d := d <| d_Shell := orS (d_Shell d) (d_Shell defaults) |>
             <| d_Timezone := orS (d_Timezone d) (d_Timezone defaults) |>
             <| d_CatchUp := orS (d_CatchUp d) (d_CatchUp defaults) |>
             <| d_OnOverlap := orS (d_OnOverlap d) (d_OnOverlap defaults) |> in
  let d := if job then
             (if ex_retries ex then d else d <| d_Retries := orZ (d_Retries d) (d_Retries defaults) |>)
               <| d_RetryDelay := orZ (d_RetryDelay d) (d_RetryDelay defaults) |>
               <| d_OnHistoryUnavailable := orS (d_OnHistoryUnavailable d) (d_OnHistoryUnavailable defaults) |>
           else d in
  let d := d <| d_RunAs := orS (d_RunAs d) (d_RunAs defaults) |>
             <| d_WorkingDir := orS (d_WorkingDir d) (d_WorkingDir defaults) |>
             <| d_EnvBase := orS (d_EnvBase d) (d_EnvBase defaults) |>
             <| d_Env := orP (d_Env d) (d_Env defaults) |>
             <| d_SecretEnv := orP (d_SecretEnv d) (d_SecretEnv defaults) |>
             <| d_EnvFile := orS (d_EnvFile d) (d_EnvFile defaults) |> in
  let d := if ex_timeout ex then d else d <| d_Timeout := orZ (d_Timeout d) (d_Timeout defaults) |> in
  let d := d <| d_Grace := orZ (d_Grace d) (d_Grace defaults) |>
             <| d_StopSignal := orS (d_StopSignal d) (d_StopSignal defaults) |>
             <| d_SuccessCodes := orP (d_SuccessCodes d) (d_SuccessCodes defaults) |>
             <| d_KeepRuns := orZ (d_KeepRuns d) (d_KeepRuns defaults) |>
             <| d_KeepFor := orZ (d_KeepFor d) (d_KeepFor defaults) |>
             <| d_LogMax := orZ (d_LogMax d) (d_LogMax defaults) |>
             <| d_LogOnFull := orS (d_LogOnFull d) (d_LogOnFull defaults) |>
             <| d_Labels := orP (d_Labels d) (d_Labels defaults) |>
             <| d_Alerts := orP (d_Alerts d) (d_Alerts defaults) |>
             <| d_Enabled := orP (d_Enabled d) (d_Enabled defaults) |> in
  if worker then
    d <| d_Autostart := orP (d_Autostart d) (d_Autostart defaults) |>
      <| d_Restart := orS (d_Restart d) (d_Restart defaults) |>
      <| d_RestartDelay := orZ (d_RestartDelay d) (d_RestartDelay defaults) |>
      <| d_HealthyAfter := orZ (d_HealthyAfter d) (d_HealthyAfter defaults) |>
      <| d_MaxRestartAttempts := orZ (d_MaxRestartAttempts d) (d_MaxRestartAttempts defaults) |>
      <| d_RestartBackoffMax := orZ (d_RestartBackoffMax d) (d_RestartBackoffMax defaults) |>
  else d.

Definition mergeDefinitionDefaults (d defaults : Definition_) (ex : explicit) : Definition_ :=
  mergeFields (isJob d) (isWorker d) d defaults ex.

(** The built-in defaults. *)
Definition builtinDefaults (job : bool) (d : Definition_) : Definition_ :=
  let d := d <| d_Shell := orS (d_Shell d) "/bin/sh" |>
             <| d_CatchUp := orS (d_CatchUp d) "none" |>
             <| d_OnOverlap := orS (d_OnOverlap d) "skip" |> in
  let d := if job then d <| d_RetryDelay := orZ (d_RetryDelay d) 5 |> else d in
  d <| d_EnvBase := orS (d_EnvBase d) "clean" |>
    <| d_Grace := orZ (d_Grace d) 10 |>
    <| d_StopSignal := orS (d_StopSignal d) "SIGTERM" |>
    <| d_Restart := orS (d_Restart d) "always" |>
    <| d_RestartDelay := orZ (d_RestartDelay d) 5 |>
    <| d_HealthyAfter := orZ (d_HealthyAfter d) 30 |>
    <| d_LogOnFull := orS (d_LogOnFull d) "drop_old" |>
    <| d_SuccessCodes := match default [] (d_SuccessCodes d) with [] => Some [0] | l => Some l end |>
    <| d_MaxRestartAttempts := orZ (d_MaxRestartAttempts d) 5 |>.

Definition applyDefinitionDefaults (d defaults : Definition_) (ex : explicit) : Definition_ :=
  builtinDefaults (isJob d) (mergeDefinitionDefaults d defaults ex).

(** * Validation *)

Inductive ConfigError :=
| BadDefinition (name check : string)
| BadSetting (field : string)
| BadDefaults.

(** A chain of checks: the first that fails is the error. *)
Fixpoint checks (err : string -> ConfigError) (l : list (bool * string)) : Result ConfigError unit :=
  match l with
  | [] => Ok tt
  | (ok, what) :: l => if ok then checks err l else Err (err what)
  end.

Definition validSignal (v : string) : bool :=
  existsb (String.eqb (trimPrefix "SIG" v)) ["INT"; "HUP"; "QUIT"; "USR1"; "USR2"; "TERM"; "KILL"].

Definition validSecretRef (ref : string) : bool :=
  match CutPrefix "env:" ref with
  | Some name => negb (String.eqb name "") && negb (hasEqOrNul name)
  | None => match CutPrefix "file:" ref with
            | Some path => IsAbs path
            | None => false
            end
  end.

(** [clockPattern]: HH:MM. *)
Definition ValidateClock (v : string) : bool :=
  match String.list_ascii_of_string v with
  | [h1; h2; c; m1; m2] =>
      ((Ascii.eqb h1 "0"%char || Ascii.eqb h1 "1"%char) && AlertChannels.is_digit h2 ||
       Ascii.eqb h1 "2"%char && AlertChannels.char_between "0"%char "3"%char h2) &&
      Ascii.eqb c ":"%char && AlertChannels.char_between "0"%char "5"%char m1 && AlertChannels.is_digit m2
  | _ => false
  end.

Definition between (lo hi v : Z) : bool := (lo <=? v) && (v <=? hi).

Section environment.
Context (loadLocation : string -> bool) (parseCron : string -> bool)
        (parseDuration : string -> option Duration)
        (lookupUser lookupId : string -> bool) (euid : Z)
        (trustedPathOK : option (list string) -> bool)
        (splitHostPort : string -> option string) (loopbackIP : string -> bool).

Definition ValidateSchedule (v : string) : bool :=
  match CutPrefix "@every " v with
  | Some rest => match parseDuration rest with Some d => Second <=? d | None => false end
  | None => parseCron v
  end.

Definition validateRunAs (v : string) : bool :=
  if negb (String.eqb v "") && negb (euid =? 0) then false else
  if String.eqb v "" then true else
  let name := beforeColon v in
  match Atoi name with Some _ => lookupId name | None => lookupUser name end.

(** The seconds fields checked in one loop. *)
Definition secondsOK (d : Definition_) : bool :=
  forallb (fun v => (0 <? v) && validateDuration v Second)
    [d_Grace d; d_RestartDelay d; d_HealthyAfter d] &&
  (0 <=? d_Timeout d) && validateDuration (d_Timeout d) Second.

(** The checks of one definition after its name, in the source's order; the
    definition gets the scheduler's time zone if it has none. *)
Definition definitionChecks (d : Definition_) (tz : string) : list (bool * string) :=
  [ (negb (Bool.eqb (String.eqb (d_Command d) "") (Nat.eqb (length (default [] (d_Argv d))) 0)), "command");
    (secondsOK d, "seconds");
    (String.eqb (d_EnvBase d) "clean" || String.eqb (d_EnvBase d) "inherit", "env_base");
    (existsb (String.eqb (d_Restart d)) ["always"; "on-failure"; "never"], "restart");
    (between 0 1000 (d_Retries d), "retries");
    (negb (isJob d) || between 1 86400 (d_RetryDelay d), "retry_delay");
    (negb (isWorker d) || (d_Retries d =? 0), "worker_retries");
    (negb (isWorker d) || (d_RetryDelay d =? 0), "worker_retry_delay");
    (between 1 1000 (d_MaxRestartAttempts d), "max_restart_attempts");
    ((d_RestartBackoffMax d =? 0) || between (d_RestartDelay d) 86400 (d_RestartBackoffMax d),
     "restart_backoff_max");
    (forallb (between 0 255) (default [] (d_SuccessCodes d)), "success_codes");
    (0 <=? d_KeepRuns d, "keep_runs");
    (d_Priority d =? 0, "priority");
    (negb (d_RunOnStart d) ||
       (String.eqb (d_Source d) "config" && isJob d && String.eqb (d_Schedule d) ""), "run_on_start");
    (negb (isJob d) || String.eqb (d_Schedule d) "" || ValidateSchedule (d_Schedule d), "schedule");
    (loadLocation tz, "timezone");
    (String.eqb (d_CatchUp d) "none" || String.eqb (d_CatchUp d) "latest", "catch_up");
    (String.eqb (d_OnOverlap d) "skip" || String.eqb (d_OnOverlap d) "parallel", "on_overlap");
    (negb (isWorker d) || String.eqb (d_OnHistoryUnavailable d) "", "worker_history");
    (existsb (String.eqb (d_OnHistoryUnavailable d)) [""; "run"; "skip"], "on_history_unavailable");
    (String.eqb (d_LogOnFull d) "drop_old" || String.eqb (d_LogOnFull d) "drop_new", "log_on_full");
    (validSignal (d_StopSignal d), "stop_signal");
    (0 <=? d_KeepFor d, "keep_for");
    (validateDuration (d_KeepFor d) (24 * Hour), "keep_for_range");
    (between 0 (Z.shiftl 1 20) (d_LogMax d), "log_max");
    (String.eqb (d_EnvFile d) "" || IsAbs (d_EnvFile d), "env_file");
    (forallb (fun kv => negb (String.eqb kv.1 "") && validSecretRef kv.2)
       (map_to_list (default ∅ (d_SecretEnv d))), "secret_env");
    (negb (isWorker d) || String.eqb (d_Schedule d) "", "worker_schedule");
    (validateRunAs (d_RunAs d), "run_as") ].

Definition validateOne (d : Definition_) (schedulerTimezone : string) : Result ConfigError Definition_ :=
  let tz := orS (d_Timezone d) schedulerTimezone in
  let! _ := checks (BadDefinition (d_Name d)) (definitionChecks d tz) in
  Ok (d <| d_Timezone := tz |>).

Fixpoint validateLoop (seen : gset string) (definitions : list Definition_) (tz : string)
    : Result ConfigError (list Definition_) :=
  match definitions with
  | [] => Ok []
  | d :: rest =>
      if negb (AlertChannels.alertNamePattern (d_Name d)) then Err (BadDefinition (d_Name d) "name") else
      if bool_decide (d_Name d ∈ seen) then Err (BadDefinition (d_Name d) "duplicate") else
      let! d' := validateOne d tz in
      let! rest' := validateLoop ({[d_Name d]} ∪ seen) rest tz in
      Ok (d' :: rest')
  end.

Definition validateDefinitions (definitions : list Definition_) (tz : string)
    : Result ConfigError (list Definition_) := validateLoop ∅ definitions tz.

(** ** Settings *)

Definition serverChecks (s : Server) : list (bool * string) :=
  [ (TCPOn s || UnixOn s, "server");
    (negb (TCPOn s) ||
       match splitHostPort (Bind s) with
       | None => false
       | Some host => AllowInsecureRemote s || String.eqb host "localhost" || loopbackIP host
       end, "server.bind") ].

Definition schedulerChecks (s : Scheduler_) : list (bool * string) :=
  [ (between 1 1024 (MaxConcurrentRuns s), "scheduler.max_concurrent_runs");
    (between 0 3600 (ShutdownGrace s), "scheduler.shutdown_grace") ].

Definition queueChecks (q : Queue) : list (bool * string) :=
  [ (between 1 10000 (MaxItems q), "queue.max_items");
    (between 1 (MaxItems q) (MaxPerJob q), "queue.max_per_job");
    (between 1 65536 (MaxBytes q), "queue.max_bytes");
    (between 1 (7 * 24 * 3600) (MaxAge q), "queue.max_age");
    (between 1 1000 (DrainRate q), "queue.drain_rate");
    (between 1 100000 (MaxPendingRetries q), "queue.max_pending_retries") ].

Definition storageChecks (s : Storage) : list (bool * string) :=
  [ ((1 <=? KeepRunsDefault s) && (1 <=? AuditKeep s), "storage.keep");
    (1 <=? KeepForDefault s, "storage.keep_for_default");
    (validateDuration (KeepForDefault s) (24 * Hour), "storage.keep_for_default_range") ].

Definition logsChecks (l : Logs) : list (bool * string) :=
  [ (String.eqb (Backend l) "file", "logs.backend");
    (between 1 (Z.shiftl 16 10) (MaxLine l), "logs.max_line");
    (1 <=? WorkerFlushInterval l, "logs.worker_flush_interval");
    (validateDuration (WorkerFlushInterval l) Minute, "logs.worker_flush_interval_range");
    (1 <=? DBKeepFor l, "logs.db_keep_for");
    (validateDuration (DBKeepFor l) (24 * Hour), "logs.db_keep_for_range");
    (ValidateClock (DBPruneAt l), "logs.db_prune_at");
    (between 0 MaxDBMaxSizeMiB (DBMaxSize l), "logs.db_max_size");
    (String.eqb (Durability l) "batch" || String.eqb (Durability l) "frame", "logs.durability");
    (between 100 60000 (SyncInterval l), "logs.sync_interval");
    (between 1 65536 (SyncMaxDirty l), "logs.sync_max_dirty");
    (between 0 MaxDBMaxSizeMiB (DiskBudget l), "logs.disk_budget");
    (between 0 MaxDBMaxSizeMiB (QuarantineMaxSize l), "logs.quarantine_max_size");
    (match DiskMinFree l with None => true | Some v => between 0 MaxDBMaxSizeMiB v end, "logs.disk_min_free");
    (0 <=? QuarantineKeepFor l, "logs.quarantine_keep_for");
    (validateDuration (QuarantineKeepFor l) (24 * Hour), "logs.quarantine_keep_for_range") ].

Definition readsChecks (r : Reads) : list (bool * string) :=
  [ (between 1 64 (rd_Slots r), "reads.slots");
    (between 8 4096 (rd_Budget r), "reads.budget");
    (between 1 300 (rd_WorkTimeout r), "reads.work_timeout") ].

Definition defaultsChecks (d : Definition_) : list (bool * string) :=
  [ (String.eqb (d_Name d) "" && String.eqb (d_Command d) "" && Nat.eqb (length (default [] (d_Argv d))) 0
     && String.eqb (d_Schedule d) "" && negb (bool_decide (is_Some (d_Autostart d)))
     && String.eqb (d_Restart d) "" && (d_RestartDelay d =? 0) && (d_HealthyAfter d =? 0)
     && (d_MaxRestartAttempts d =? 0) && (d_RestartBackoffMax d =? 0), "defaults") ].

Definition validateConfig (c : Config) : Result ConfigError unit :=
  let! _ := checks BadSetting
    ([(trustedPathOK (TrustedPath (c_Scheduler c)), "scheduler.trusted_path")] ++
     serverChecks (c_Server c) ++ schedulerChecks (c_Scheduler c) ++ queueChecks (c_Queue c) ++
     storageChecks (c_Storage c) ++ [(loadLocation (sc_Timezone (c_Scheduler c)), "scheduler.timezone")] ++
     logsChecks (c_Logs c) ++ readsChecks (c_Reads c) ++
     [(String.eqb (Synchronous (c_Storage c)) "full" || String.eqb (Synchronous (c_Storage c)) "normal",
       "storage.synchronous")] ++ defaultsChecks (c_Defaults c)) in
  let probe := zeroDefinition <| d_Name := "defaults" |> <| d_Kind := KindJob |> <| d_Command := "true" |> in
  let probe := applyDefinitionDefaults probe (c_Defaults c) (mkExplicit false false) in
  match validateDefinitions [probe] (sc_Timezone (c_Scheduler c)) with
  | Ok _ => Ok tt
  | Err _ => Err BadDefaults
  end.

(** ** Load *)

(** [presenceAt]. *)
Definition presenceAt (present : list explicit) (i : nat) : explicit :=
  default (mkExplicit false false) (present !! i).

Fixpoint loadEach (f : nat -> Definition_ -> Result ConfigError Definition_) (i : nat)
    (l : list Definition_) : Result ConfigError (list Definition_) :=
  match l with
  | [] => Ok []
  | d :: l => let! d' := f i d in let! l' := loadEach f (S i) l in Ok (d' :: l')
  end.

Definition loadInit (c : Config) (present : list explicit) (i : nat) (d : Definition_)
    : Result ConfigError Definition_ :=
  if negb (String.eqb (d_Schedule d) "") then Err (BadDefinition (d_Name d) "init_schedule") else
  if negb (d_Retries d =? 0) then Err (BadDefinition (d_Name d) "init_retries") else
  let d := d <| d_Kind := KindJob |> <| d_Source := "config" |> <| d_RunOnStart := true |> in
  Ok ((applyDefinitionDefaults d (c_Defaults c) (presenceAt present i)) <| d_Retries := 0 |>).

Definition loadJob (c : Config) (present : list explicit) (i : nat) (d : Definition_)
    : Result ConfigError Definition_ :=
  if d_RunOnStart d then Err (BadDefinition (d_Name d) "job_run_on_start") else
  if String.eqb (d_Schedule d) "" then Err (BadDefinition (d_Name d) "job_schedule") else
  let d := d <| d_Kind := KindJob |> <| d_Source := "config" |> in
  Ok (applyDefinitionDefaults d (c_Defaults c) (presenceAt present i)).

Definition loadWorker (c : Config) (present : list explicit) (i : nat) (d : Definition_)
    : Result ConfigError Definition_ :=
  let d := d <| d_Kind := KindWorker |> <| d_Source := "config" |> in
  Ok (applyDefinitionDefaults d (c_Defaults c) (presenceAt present i)).

(** [Load] after decoding: [present] tells which timeout and retries keys the file
    has in its init, job and worker tables. *)
Definition Load (decoded : Config) (presentInit presentJobs presentWorkers : list explicit)
    : Result ConfigError Config :=
  let c := applyConfigDefaults decoded in
  let! _ := validateConfig c in
  let! init := loadEach (loadInit c presentInit) 0 (c_Init c) in
  let! jobs := loadEach (loadJob c presentJobs) 0 (c_Jobs c) in
  let! workers := loadEach (loadWorker c presentWorkers) 0 (c_Workers c) in
  let! defs := validateDefinitions (init ++ jobs ++ workers) (sc_Timezone (c_Scheduler c)) in
  let n := length init in
  let m := length jobs in
  Ok (mkConfig (c_Server c) (c_Scheduler c) (c_Queue c) (c_Storage c) (c_Logs c) (c_Reads c)
        (c_Defaults c) (take n defs) (take m (drop n defs)) (drop (n + m) defs)).

Definition Definitions (c : Config) : list Definition_ := c_Init c ++ c_Jobs c ++ c_Workers c.

(** ** API definitions *)

(** [DefinitionInput]: the definition with presence-aware timeout and retries. *)
Record DefinitionInput := mkInput {
  in_Definition : Definition_;
  in_Timeout : option Z;
  in_Retries : option Z
}.

Definition Resolve (i : DefinitionInput) : Definition_ :=
  let d := in_Definition i in
  let d := match in_Timeout i with Some v => d <| d_Timeout := v |> | None => d end in
  match in_Retries i with Some v => d <| d_Retries := v |> | None => d end.

Definition present {A} (o : option A) : bool := match o with Some _ => true | None => false end.

Definition inputExplicit (i : DefinitionInput) : explicit :=
  mkExplicit (present (in_Timeout i)) (present (in_Retries i)).

Definition validateDefinition (d : Definition_) (ex : explicit) (jobDefaults : option Definition_)
    : Result ConfigError Definition_ :=
  let d := if String.eqb (d_Kind d) "" then d <| d_Kind := KindJob |> else d in
  let d := applyDefinitionDefaults d (default zeroDefinition jobDefaults) ex in
  match validateDefinitions [d] "UTC" with
  | Ok (d' :: _) => Ok d'
  | Ok [] => Err (BadDefinition (d_Name d) "")
  | Err e => Err e
  end.

Definition ValidateDefinitionInput (i : DefinitionInput) (jobDefaults : option Definition_)
    : Result ConfigError Definition_ :=
  validateDefinition (Resolve i) (inputExplicit i) jobDefaults.

Definition EditableInput (d : Definition_) (jobDefaults : option Definition_) : DefinitionInput :=
  let defaults := default zeroDefinition jobDefaults in
  mkInput (d <| d_Timeout := 0 |> <| d_Retries := 0 |>)
    (if negb (d_Timeout d =? 0) || negb (d_Timeout defaults =? 0) then Some (d_Timeout d) else None)
    (if isJob d && (negb (d_Retries d =? 0) || negb (d_Retries defaults =? 0))
     then Some (d_Retries d) else None).

(** [ParseImport] after decoding. *)
Definition importOne (kind : string) (bundle : Definition_) (jobDefaults : option Definition_)
    (i : DefinitionInput) : Definition_ :=
  let d := (Resolve i) <| d_Kind := kind |> in
  let ex := inputExplicit i in
  match jobDefaults with
  | Some defaults => applyDefinitionDefaults (mergeDefinitionDefaults d bundle ex) defaults ex
  | None => applyDefinitionDefaults d bundle ex
  end.

Definition ParseImport (bundle : Definition_) (jobs workers : list DefinitionInput)
    (jobDefaults : option Definition_) : Result ConfigError (list Definition_) :=
  validateDefinitions
    (map (importOne KindJob bundle jobDefaults) jobs ++
     map (importOne KindWorker bundle jobDefaults) workers) "UTC".

End environment.

(** What a definition keeps through JSON: [omitempty] drops an empty slice or
    map, which reads back as nil. *)
Definition omitEmpty {A} (isEmpty : A -> bool) (o : option A) : option A :=
  match o with Some x => if isEmpty x then None else Some x | None => None end.

Definition emptyList {A} (l : list A) : bool := Nat.eqb (length l) 0.
Definition emptyMap (m : gmap string string) : bool := Nat.eqb (size m) 0.

Definition wire (d : Definition_) : Definition_ :=
  d <| d_Argv ::= omitEmpty emptyList |> <| d_Env ::= omitEmpty emptyMap |>
    <| d_SecretEnv ::= omitEmpty emptyMap |> <| d_SuccessCodes ::= omitEmpty emptyList |>
    <| d_Labels ::= omitEmpty emptyMap |> <| d_Alerts ::= omitEmpty emptyList |>.

(** The input as the client sends it back. *)
Definition wireInput (i : DefinitionInput) : DefinitionInput :=
  mkInput (wire (in_Definition i)) (in_Timeout i) (in_Retries i).
