(* ===== verification/Wiring.v ===== *)
(** How the daemon hands its configuration to the components
    (internal/daemon/daemon.go), and the executor's reading of a stop signal. *)

From S2P Require Import Prelude GoRuntime Model Executor ReadGate Config.
Open Scope Z_scope.

(** The executor's options of the [queue] settings. *)
Definition queueOptions (q : Config.Queue) : QueueOptions :=
  mkQueueOptions (negb (QueueOn q)) (MaxItems q) (MaxPerJob q) (wrap64 (Z.shiftl (MaxBytes q) 10))
    (wrap64 (MaxAge q * Second)) (DrainRate q) (MaxPendingRetries q) 0.

(** [queueEqual] compares settings by value. *)
Definition queueEqual (a b : Config.Queue) : bool :=
  Bool.eqb (QueueOn a) (QueueOn b) && (MaxItems a =? MaxItems b) && (MaxPerJob a =? MaxPerJob b) &&
  (MaxBytes a =? MaxBytes b) && (MaxAge a =? MaxAge b) && (DrainRate a =? DrainRate b) &&
  (MaxPendingRetries a =? MaxPendingRetries b).

(** The read limits [SetReadLimits] is called with. *)
Definition readLimits (r : Reads) : ReadGate.ReadLimits :=
  ReadGate.mkReadLimits (rd_Slots r) (wrap64 (Z.shiftl (rd_Budget r) 20)) (wrap64 (rd_WorkTimeout r * Second)).

(** [parseSignal] of the executor: the numbers of the signals. *)
Inductive Signal := SIGHUP | SIGINT | SIGQUIT | SIGKILL | SIGUSR1 | SIGUSR2 | SIGTERM.

Definition parseSignal (v : string) : Signal :=
  let s := trimPrefix "SIG" v in
  if String.eqb s "INT" then SIGINT else
  if String.eqb s "HUP" then SIGHUP else
  if String.eqb s "QUIT" then SIGQUIT else
  if String.eqb s "USR1" then SIGUSR1 else
  if String.eqb s "USR2" then SIGUSR2 else
  if String.eqb s "KILL" then SIGKILL else SIGTERM.

Definition signalName (s : Signal) : string :=
  match s with
  | SIGHUP => "HUP" | SIGINT => "INT" | SIGQUIT => "QUIT" | SIGKILL => "KILL"
  | SIGUSR1 => "USR1" | SIGUSR2 => "USR2" | SIGTERM => "TERM"
  end.
