(* ===== verification/ConfigFacts.v ===== *)
(** Theorems on the configuration: unit conversions, what a validated definition
    guarantees the components that use it, the limits an accepted configuration
    gives them, and the round trip of a definition through an API client. *)

From S2P Require Import Prelude GoRuntime Model Executor ReadGate ReadGateFacts Config Wiring.
Open Scope Z_scope.

(** * Units *)

Lemma shiftl20 v : Z.shiftl v 20 = v * 2 ^ 20.
Proof. by rewrite Z.shiftl_mul_pow2. Qed.

(** Mebibytes are converted exactly or saturate. *)
Lemma mebibytes_spec v : mebibytes v = Z.max 0 (Z.min (v * 2 ^ 20) maxInt64).
Proof.
  unfold mebibytes. change (Z.shiftr maxInt64 20) with (2 ^ 43 - 1).
  destruct (v <=? 0) eqn:E1; bools; [unfold maxInt64; lia|].
  destruct (2 ^ 43 - 1 <? v) eqn:E2; bools; [unfold maxInt64; lia|].
  rewrite wrap64_id; rewrite shiftl20; unfold in64, minInt64, maxInt64; lia.
Qed.

Lemma validateDuration_ok v u :
  0 < u -> 0 <= v -> validateDuration v u = true -> 0 <= v * u <= maxInt64.
Proof.
  intros Hu Hv Hd. unfold validateDuration in Hd. bools.
  assert (v * u <= maxInt64 / u * u) by nia.
  pose proof (Z.mul_div_le maxInt64 u Hu). nia.
Qed.

(** * Checks *)

Lemma checks_ok err l u : checks err l = Ok u <-> u = tt /\ Forall (fun c => c.1 = true) l.
Proof.
  induction l as [|[ok what] l IH]; simpl.
  - destruct u. split; [done | intros [_ _]; done].
  - destruct ok; [rewrite IH, Forall_cons; simpl; tauto|].
    split; [done|]. intros [_ H]. inversion H. done.
Qed.

Lemma between_true lo hi v : between lo hi v = true <-> lo <= v <= hi.
Proof. unfold between. rewrite andb_true_iff, !Z.leb_le. done. Qed.

Lemma orS_eq a b : orS a b = if String.eqb a "" then b else a.
Proof. done. Qed.

Section well_formed.
Context (loadLocation : string -> bool) (parseCron : string -> bool)
        (parseDuration : string -> option Duration)
        (lookupUser lookupId : string -> bool) (euid : Z).

(** A schedule is an interval of at least a second, or a cron expression. *)
Definition scheduleOk (v : string) : Prop :=
  match CutPrefix "@every " v with
  | Some rest => exists every, parseDuration rest = Some every /\ Second <= every
  | None => parseCron v = true
  end.

(** Only root may run as another user, who must exist. *)
Definition runAsOk (v : string) : Prop :=
  v <> "" -> euid = 0 /\
  match Atoi (beforeColon v) with
  | Some _ => lookupId (beforeColon v) = true
  | None => lookupUser (beforeColon v) = true
  end.

(** What the components rely on. *)
Record wellFormed (d : Definition_) : Prop := {
  wf_command : d_Command d = "" <-> default [] (d_Argv d) <> [];
  wf_timeout : 0 <= d_Timeout d * Second <= maxInt64;
  wf_grace : 0 < d_Grace d /\ d_Grace d * Second <= maxInt64;
  wf_restart_delay : 0 < d_RestartDelay d /\ d_RestartDelay d * Second <= maxInt64;
  wf_healthy : 0 < d_HealthyAfter d /\ d_HealthyAfter d * Second <= maxInt64;
  wf_env_base : d_EnvBase d ∈ ["clean"; "inherit"];
  wf_restart : d_Restart d ∈ ["always"; "on-failure"; "never"];
  wf_attempts : 1 <= d_MaxRestartAttempts d <= 1000;
  wf_backoff : d_RestartBackoffMax d = 0 \/ d_RestartDelay d <= d_RestartBackoffMax d <= 86400;
  wf_retries : 0 <= d_Retries d <= 1000;
  wf_job : isJob d = true -> 1 <= d_RetryDelay d <= 86400 /\ (d_Schedule d <> "" -> scheduleOk (d_Schedule d));
  wf_worker : isWorker d = true -> d_Retries d = 0 /\ d_RetryDelay d = 0 /\ d_Schedule d = "" /\
      d_OnHistoryUnavailable d = "";
  wf_run_on_start : d_RunOnStart d = true -> d_Source d = "config" /\ isJob d = true /\ d_Schedule d = "";
  wf_codes : Forall (fun c => 0 <= c <= 255) (default [] (d_SuccessCodes d));
  wf_keep : 0 <= d_KeepRuns d /\ 0 <= d_KeepFor d * (24 * Hour) <= maxInt64;
  wf_log : 0 <= d_LogMax d <= 2 ^ 20;
  wf_log_full : d_LogOnFull d ∈ ["drop_old"; "drop_new"];
  wf_timezone : loadLocation (d_Timezone d) = true;
  wf_catch_up : d_CatchUp d ∈ ["none"; "latest"];
  wf_overlap : d_OnOverlap d ∈ ["skip"; "parallel"];
  wf_history : d_OnHistoryUnavailable d ∈ [""; "run"; "skip"];
  wf_signal : signalName (parseSignal (d_StopSignal d)) = trimPrefix "SIG" (d_StopSignal d);
  wf_env_file : d_EnvFile d <> "" -> IsAbs (d_EnvFile d) = true;
  wf_secrets : map_Forall (fun name ref => name <> "" /\ validSecretRef ref = true) (default ∅ (d_SecretEnv d));
  wf_run_as : runAsOk (d_RunAs d);
  wf_priority : d_Priority d = 0
}.
End well_formed.

(** Every accepted stop signal is one the executor sends by that name. *)
Lemma validSignal_parsed v : validSignal v = true -> signalName (parseSignal v) = trimPrefix "SIG" v.
Proof.
  unfold validSignal, parseSignal. generalize (trimPrefix "SIG" v). intros s.
  rewrite existsb_eqb_elem, !elem_of_cons, elem_of_nil.
  intros [->|[->|[->|[->|[->|[->|[->|[]]]]]]]]; done.
Qed.

(** * Defaults are settled by one application *)

Lemma orS2 a b : orS (orS a b) b = orS a b.
Proof. unfold orS. destruct (String.eqb a "") eqn:E; [by destruct (String.eqb b "")|by rewrite E]. Qed.
Lemma orS3 a b c : orS (orS (orS (orS a b) c) b) c = orS (orS a b) c.
Proof.
  unfold orS. destruct (String.eqb a "") eqn:E; [|by rewrite !E].
  destruct (String.eqb b "") eqn:E'; [|by rewrite !E'].
  by destruct (String.eqb c "") eqn:E''; rewrite ?E', ?E''.
Qed.
Lemma orZ2 a b : orZ (orZ a b) b = orZ a b.
Proof. unfold orZ. destruct (a =? 0) eqn:E; [by destruct (b =? 0)|by rewrite E]. Qed.
Lemma orZ3 a b c : orZ (orZ (orZ (orZ a b) c) b) c = orZ (orZ a b) c.
Proof.
  unfold orZ. destruct (a =? 0) eqn:E; [|by rewrite !E].
  destruct (b =? 0) eqn:E'; [|by rewrite !E'].
  by destruct (c =? 0) eqn:E''; rewrite ?E', ?E''.
Qed.
Lemma orZ1 a c : orZ (orZ a c) c = orZ a c.
Proof. apply orZ2. Qed.
Lemma orP2 {A} (a b : option A) : orP (orP a b) b = orP a b.
Proof. by destruct a, b. Qed.

Lemma omit2 {A} e (o : option A) : omitEmpty e (omitEmpty e o) = omitEmpty e o.
Proof. destruct o as [x|]; [|done]. simpl. destruct (e x) eqn:E; simpl; [done | by rewrite E]. Qed.

(** A setting sent as an empty list or map reads back as missing; it stays so
    unless the defaults would fill it in. *)
Lemma omit_or {A} e (o b : option A) :
  (omitEmpty e o = None -> omitEmpty e b = None) -> omitEmpty e (orP (omitEmpty e o) b) = omitEmpty e o.
Proof.
  intros H. destruct (omitEmpty e o) as [x|] eqn:E; simpl; [|auto].
  destruct o as [y|]; [|done]. simpl in E. destruct (e y) eqn:Ey; [done|]. injection E as ->.
  by rewrite Ey.
Qed.

Definition codesOr (o : option (list Z)) : option (list Z) :=
  match default [] o with [] => Some [0] | l => Some l end.

(** The results of merging the defaults and of the built-in values, field by
    field. *)
Definition merged (job wrk : bool) (d D : Definition_) (ex : explicit) : Definition_ :=
  mkDefinition (d_ID d) (d_Name d) (d_Kind d) (d_Revision d) (d_Source d)
    (orP (d_Enabled d) (d_Enabled D)) (d_Command d) (d_Argv d)
    (orS (d_Shell d) (d_Shell D)) (d_Schedule d) (orS (d_Timezone d) (d_Timezone D))
    (orS (d_CatchUp d) (d_CatchUp D)) (orS (d_OnOverlap d) (d_OnOverlap D))
    (if job then orS (d_OnHistoryUnavailable d) (d_OnHistoryUnavailable D) else d_OnHistoryUnavailable d)
    (if job then if ex_retries ex then d_Retries d else orZ (d_Retries d) (d_Retries D) else d_Retries d)
    (if job then orZ (d_RetryDelay d) (d_RetryDelay D) else d_RetryDelay d)
    (d_RunOnStart d) (orS (d_RunAs d) (d_RunAs D)) (orS (d_WorkingDir d) (d_WorkingDir D))
    (orS (d_EnvBase d) (d_EnvBase D)) (orP (d_Env d) (d_Env D))
    (orP (d_SecretEnv d) (d_SecretEnv D)) (orS (d_EnvFile d) (d_EnvFile D))
    (if ex_timeout ex then d_Timeout d else orZ (d_Timeout d) (d_Timeout D))
    (orZ (d_Grace d) (d_Grace D)) (orS (d_StopSignal d) (d_StopSignal D))
    (orP (d_SuccessCodes d) (d_SuccessCodes D))
    (orZ (d_KeepRuns d) (d_KeepRuns D)) (orZ (d_KeepFor d) (d_KeepFor D)) (orZ (d_LogMax d) (d_LogMax D))
    (orS (d_LogOnFull d) (d_LogOnFull D)) (orP (d_Labels d) (d_Labels D))
    (orP (d_Alerts d) (d_Alerts D))
    (if wrk then orP (d_Autostart d) (d_Autostart D) else d_Autostart d)
    (if wrk then orS (d_Restart d) (d_Restart D) else d_Restart d)
    (if wrk then orZ (d_RestartDelay d) (d_RestartDelay D) else d_RestartDelay d)
    (if wrk then orZ (d_MaxRestartAttempts d) (d_MaxRestartAttempts D) else d_MaxRestartAttempts d)
    (if wrk then orZ (d_RestartBackoffMax d) (d_RestartBackoffMax D) else d_RestartBackoffMax d)
    (if wrk then orZ (d_HealthyAfter d) (d_HealthyAfter D) else d_HealthyAfter d)
    (d_Priority d) (d_NextFireAt d).

Lemma merged_eq job wrk d D ex : mergeFields job wrk d D ex = merged job wrk d D ex.
Proof. destruct job, wrk, ex as [[|] [|]]; reflexivity. Qed.
(** The built-in values, field by field. *)
Definition builtin (job : bool) (d : Definition_) : Definition_ :=
  mkDefinition (d_ID d) (d_Name d) (d_Kind d) (d_Revision d) (d_Source d) (d_Enabled d) (d_Command d)
    (d_Argv d) (orS (d_Shell d) "/bin/sh") (d_Schedule d) (d_Timezone d) (orS (d_CatchUp d) "none")
    (orS (d_OnOverlap d) "skip") (d_OnHistoryUnavailable d) (d_Retries d)
    (if job then orZ (d_RetryDelay d) 5 else d_RetryDelay d)
    (d_RunOnStart d) (d_RunAs d) (d_WorkingDir d) (orS (d_EnvBase d) "clean") (d_Env d) (d_SecretEnv d)
    (d_EnvFile d) (d_Timeout d) (orZ (d_Grace d) 10) (orS (d_StopSignal d) "SIGTERM")
    (codesOr (d_SuccessCodes d)) (d_KeepRuns d) (d_KeepFor d) (d_LogMax d) (orS (d_LogOnFull d) "drop_old")
    (d_Labels d) (d_Alerts d) (d_Autostart d) (orS (d_Restart d) "always") (orZ (d_RestartDelay d) 5)
    (orZ (d_MaxRestartAttempts d) 5) (d_RestartBackoffMax d) (orZ (d_HealthyAfter d) 30)
    (d_Priority d) (d_NextFireAt d).

Lemma builtin_eq job d : builtinDefaults job d = builtin job d.
Proof. destruct job; reflexivity. Qed.

Lemma applied_eq d D ex :
  applyDefinitionDefaults d D ex = builtin (isJob d) (merged (isJob d) (isWorker d) d D ex).
Proof.
  unfold applyDefinitionDefaults, mergeDefinitionDefaults. by rewrite builtin_eq, merged_eq.
Qed.

Lemma definition_ext (a b : Definition_) :
  d_ID a = d_ID b -> d_Name a = d_Name b -> d_Kind a = d_Kind b -> d_Revision a = d_Revision b ->
  d_Source a = d_Source b -> d_Enabled a = d_Enabled b -> d_Command a = d_Command b -> d_Argv a = d_Argv b ->
  d_Shell a = d_Shell b -> d_Schedule a = d_Schedule b -> d_Timezone a = d_Timezone b -> d_CatchUp a = d_CatchUp b ->
  d_OnOverlap a = d_OnOverlap b -> d_OnHistoryUnavailable a = d_OnHistoryUnavailable b -> d_Retries a = d_Retries b ->
  d_RetryDelay a = d_RetryDelay b -> d_RunOnStart a = d_RunOnStart b -> d_RunAs a = d_RunAs b ->
  d_WorkingDir a = d_WorkingDir b -> d_EnvBase a = d_EnvBase b -> d_Env a = d_Env b -> d_SecretEnv a = d_SecretEnv b ->
  d_EnvFile a = d_EnvFile b -> d_Timeout a = d_Timeout b -> d_Grace a = d_Grace b -> d_StopSignal a = d_StopSignal b ->
  d_SuccessCodes a = d_SuccessCodes b -> d_KeepRuns a = d_KeepRuns b -> d_KeepFor a = d_KeepFor b ->
  d_LogMax a = d_LogMax b -> d_LogOnFull a = d_LogOnFull b -> d_Labels a = d_Labels b -> d_Alerts a = d_Alerts b ->
  d_Autostart a = d_Autostart b -> d_Restart a = d_Restart b -> d_RestartDelay a = d_RestartDelay b ->
  d_MaxRestartAttempts a = d_MaxRestartAttempts b -> d_RestartBackoffMax a = d_RestartBackoffMax b ->
  d_HealthyAfter a = d_HealthyAfter b -> d_Priority a = d_Priority b -> d_NextFireAt a = d_NextFireAt b ->
  a = b.
Proof. destruct a, b. cbn. intros. by subst. Qed.

Lemma orS_id a b : a <> "" -> orS a b = a.
Proof. intros H. unfold orS. by rewrite (proj2 (String.eqb_neq a "") H). Qed.

(** A number is kept when it was given explicitly or there is nothing to inherit. *)
Lemma explicit_or1 (ex : bool) v b : (ex = false -> v = 0 /\ b = 0) -> (if ex then v else orZ v b) = v.
Proof. destruct ex; [done|]. intros H. by destruct (H eq_refl) as [-> ->]. Qed.
Lemma explicit_or (j ex : bool) v b :
  (j = true -> ex = false -> v = 0 /\ b = 0) -> (if j then if ex then v else orZ v b else v) = v.
Proof. destruct j; [|done]. intros H. apply explicit_or1, H, eq_refl. Qed.

Lemma explicit_zero (v b : Z) :
  present (if negb (v =? 0) || negb (b =? 0) then Some v else None) = false -> v = 0 /\ b = 0.
Proof. destruct (v =? 0) eqn:E1, (b =? 0) eqn:E2; cbn; try done. bools. done. Qed.

(** The defaults do not fill in a list or map that reads back as missing. *)
Definition keepsEmpty (d D : Definition_) : Prop :=
  (omitEmpty emptyMap (d_Env d) = None -> omitEmpty emptyMap (d_Env D) = None) /\
  (omitEmpty emptyMap (d_SecretEnv d) = None -> omitEmpty emptyMap (d_SecretEnv D) = None) /\
  (omitEmpty emptyMap (d_Labels d) = None -> omitEmpty emptyMap (d_Labels D) = None) /\
  (omitEmpty emptyList (d_Alerts d) = None -> omitEmpty emptyList (d_Alerts D) = None).

Lemma codesOr_wire o b : omitEmpty emptyList (codesOr (orP (omitEmpty emptyList (codesOr o)) b)) =
  omitEmpty emptyList (codesOr o).
Proof. unfold codesOr. by destruct (default [] o) as [|x l]. Qed.

(** Applying the defaults again to a definition that has them changes nothing
    that the wire form shows. *)
Lemma settled d D ex tz ex' :
  let w := wire ((applyDefinitionDefaults d D ex) <| d_Timezone := tz |>) in
  tz <> "" -> keepsEmpty (applyDefinitionDefaults d D ex) D ->
  (ex_timeout ex' = false -> d_Timeout w = 0 /\ d_Timeout D = 0) ->
  (isJob d = true -> ex_retries ex' = false -> d_Retries w = 0 /\ d_Retries D = 0) ->
  wire (applyDefinitionDefaults w D ex') = w.
Proof.
  intros w Htz (K1 & K2 & K3 & K4) Ht Hr. subst w.
  rewrite (applied_eq (wire _)). rewrite applied_eq in *.
  set (j := isJob d) in *. set (k := isWorker d) in *.
  change (isJob (wire _)) with j. change (isWorker (wire _)) with k.
  assert (Hj : j = true -> ex_retries ex' = false ->
    d_Retries (builtin j (merged j k d D ex)) = 0 /\ d_Retries D = 0) by exact Hr.
  assert (Hto : ex_timeout ex' = false ->
    d_Timeout (builtin j (merged j k d D ex)) = 0 /\ d_Timeout D = 0) by exact Ht.
  clear Hr Ht. clearbody j k.
  apply definition_ext; lazy -[orS orZ orP omitEmpty codesOr].
  - reflexivity.
  - reflexivity.
  - reflexivity.
  - reflexivity.
  - reflexivity.
  - exact (orP2 (d_Enabled d) (d_Enabled D)).
  - reflexivity.
  - exact (omit2 emptyList (d_Argv d)).
  - exact (orS3 (d_Shell d) (d_Shell D) "/bin/sh").
  - reflexivity.
  - exact (orS_id _ _ Htz).
  - exact (orS3 (d_CatchUp d) (d_CatchUp D) "none").
  - exact (orS3 (d_OnOverlap d) (d_OnOverlap D) "skip").
  - destruct j; [exact (orS2 (d_OnHistoryUnavailable d) (d_OnHistoryUnavailable D)) | reflexivity].
  - exact (explicit_or _ _ _ _ Hj).
  - destruct j; [exact (orZ3 (d_RetryDelay d) (d_RetryDelay D) 5) | reflexivity].
  - reflexivity.
  - exact (orS2 (d_RunAs d) (d_RunAs D)).
  - exact (orS2 (d_WorkingDir d) (d_WorkingDir D)).
  - exact (orS3 (d_EnvBase d) (d_EnvBase D) "clean").
  - exact (omit_or _ _ _ K1).
  - exact (omit_or _ _ _ K2).
  - exact (orS2 (d_EnvFile d) (d_EnvFile D)).
  - exact (explicit_or1 _ _ _ Hto).
  - exact (orZ3 (d_Grace d) (d_Grace D) 10).
  - exact (orS3 (d_StopSignal d) (d_StopSignal D) "SIGTERM").
  - exact (codesOr_wire (orP (d_SuccessCodes d) (d_SuccessCodes D)) (d_SuccessCodes D)).
  - exact (orZ2 (d_KeepRuns d) (d_KeepRuns D)).
  - exact (orZ2 (d_KeepFor d) (d_KeepFor D)).
  - exact (orZ2 (d_LogMax d) (d_LogMax D)).
  - exact (orS3 (d_LogOnFull d) (d_LogOnFull D) "drop_old").
  - exact (omit_or _ _ _ K3).
  - exact (omit_or _ _ _ K4).
  - destruct k; [exact (orP2 (d_Autostart d) (d_Autostart D)) | reflexivity].
  - destruct k; [exact (orS3 (d_Restart d) (d_Restart D) "always") | exact (orS2 (d_Restart d) "always")].
  - destruct k; [exact (orZ3 (d_RestartDelay d) (d_RestartDelay D) 5) | exact (orZ2 (d_RestartDelay d) 5)].
  - destruct k; [exact (orZ3 (d_MaxRestartAttempts d) (d_MaxRestartAttempts D) 5) | exact (orZ2 (d_MaxRestartAttempts d) 5)].
  - destruct k; [exact (orZ2 (d_RestartBackoffMax d) (d_RestartBackoffMax D)) | reflexivity].
  - destruct k; [exact (orZ3 (d_HealthyAfter d) (d_HealthyAfter D) 30) | exact (orZ2 (d_HealthyAfter d) 30)].
  - reflexivity.
  - reflexivity.
Qed.

Section environment.
Context (loadLocation : string -> bool) (parseCron : string -> bool)
        (parseDuration : string -> option Duration)
        (lookupUser lookupId : string -> bool) (euid : Z).

Abbreviation validateOne_ := (validateOne loadLocation parseCron parseDuration lookupUser lookupId euid).
Abbreviation validateLoop_ := (validateLoop loadLocation parseCron parseDuration lookupUser lookupId euid).
Abbreviation validateDefinitions_ :=
  (validateDefinitions loadLocation parseCron parseDuration lookupUser lookupId euid).
Abbreviation Validate_ :=
  (ValidateDefinitionInput loadLocation parseCron parseDuration lookupUser lookupId euid).

Lemma secondsOK_spec d : secondsOK d = true ->
  (0 <= d_Timeout d * Second <= maxInt64) /\
  (0 < d_Grace d /\ d_Grace d * Second <= maxInt64) /\
  (0 < d_RestartDelay d /\ d_RestartDelay d * Second <= maxInt64) /\
  (0 < d_HealthyAfter d /\ d_HealthyAfter d * Second <= maxInt64).
Proof.
  assert (Hone : forall v, (0 <? v) && validateDuration v Second = true -> 0 < v /\ v * Second <= maxInt64).
  { intros v [H1%Z.ltb_lt H2]%andb_true_iff. split; [exact H1|].
    apply validateDuration_ok; [reflexivity | lia | exact H2]. }
  unfold secondsOK. cbn [forallb]. rewrite !andb_true_iff, Z.leb_le.
  intros [[(H1 & H2 & H3 & _) H4] H5].
  split; [by apply validateDuration_ok|]. split; [|split]; apply Hone; by apply andb_true_iff.
Qed.

(** All checks of a passed chain, as a conjunction. *)
Lemma checks_all err l u :
  checks err l = Ok u -> foldr (fun c P => c.1 = true /\ P) True l.
Proof.
  induction l as [|[b what] l IH]; cbn [checks foldr fst]; [done|]. destruct b; [auto | discriminate].
Qed.

Lemma or_b2p a b : (negb a || b)%bool = true -> a = true -> b = true.
Proof. by destruct a. Qed.

Abbreviation wellFormed_ := (wellFormed loadLocation parseCron parseDuration lookupUser lookupId euid).

Lemma ValidateSchedule_ok v :
  ValidateSchedule parseCron parseDuration v = true -> scheduleOk parseCron parseDuration v.
Proof.
  unfold ValidateSchedule, scheduleOk. destruct (CutPrefix "@every " v) as [rest|]; [|done].
  destruct (parseDuration rest) as [every|]; [|done]. intros H. bools. eauto.
Qed.

Lemma validateRunAs_ok v :
  validateRunAs lookupUser lookupId euid v = true -> runAsOk lookupUser lookupId euid v.
Proof.
  unfold validateRunAs, runAsOk. intros H Hv. apply String.eqb_neq in Hv. rewrite Hv in H. cbn [negb andb] in H.
  destruct (euid =? 0) eqn:He; [|done]. apply Z.eqb_eq in He. split; [done|].
  by destruct (Atoi (beforeColon v)).
Qed.

Lemma eqb_elem2 v a b : (String.eqb v a || String.eqb v b)%bool = true -> v ∈ [a; b].
Proof. rewrite orb_true_iff, !String.eqb_eq. set_solver. Qed.

Lemma or_string_p a b : (String.eqb a "" || b)%bool = true -> a <> "" -> b = true.
Proof. intros H Ha. apply String.eqb_neq in Ha. by rewrite Ha in H. Qed.

(** The settings only one kind of definition has. *)
Lemma kind_checks d :
  (negb (isJob d) || between 1 86400 (d_RetryDelay d))%bool = true ->
  (negb (isJob d) || String.eqb (d_Schedule d) "" ||
     ValidateSchedule parseCron parseDuration (d_Schedule d))%bool = true ->
  (negb (isWorker d) || (d_Retries d =? 0))%bool = true ->
  (negb (isWorker d) || (d_RetryDelay d =? 0))%bool = true ->
  (negb (isWorker d) || String.eqb (d_OnHistoryUnavailable d) "")%bool = true ->
  (negb (isWorker d) || String.eqb (d_Schedule d) "")%bool = true ->
  (isJob d = true -> 1 <= d_RetryDelay d <= 86400 /\
     (d_Schedule d <> "" -> scheduleOk parseCron parseDuration (d_Schedule d))) /\
  (isWorker d = true -> d_Retries d = 0 /\ d_RetryDelay d = 0 /\ d_Schedule d = "" /\
     d_OnHistoryUnavailable d = "").
Proof.
  intros J1 J2 W1 W2 W3 W4. split; intros Hk; rewrite Hk in *; cbn [negb orb] in *.
  - split; [by apply between_true|]. intros Hs. by apply ValidateSchedule_ok, (or_string_p _ _ J2).
  - apply Z.eqb_eq in W1, W2. apply String.eqb_eq in W3, W4. done.
Qed.

Lemma run_on_start_ok d :
  (negb (d_RunOnStart d) ||
     (String.eqb (d_Source d) "config" && isJob d && String.eqb (d_Schedule d) ""))%bool = true ->
  d_RunOnStart d = true -> d_Source d = "config" /\ isJob d = true /\ d_Schedule d = "".
Proof. intros H Hr. rewrite Hr in H. cbn [negb orb] in H. rewrite !andb_true_iff, !String.eqb_eq in H.
  tauto. Qed.

Lemma secrets_ok (m : gmap string string) :
  forallb (fun kv => negb (String.eqb kv.1 "") && validSecretRef kv.2) (map_to_list m) = true ->
  map_Forall (fun name ref => name <> "" /\ validSecretRef ref = true) m.
Proof.
  intros H name ref Hl. rewrite forallb_forall in H.
  apply elem_of_map_to_list, list_elem_of_In, H in Hl. cbn [fst snd] in Hl.
  apply andb_true_iff in Hl as [Hn Hv]. split; [by intros ->|done].
Qed.

Lemma validateOne_wf d tz d' :
  validateOne_ d tz = Ok d' -> d' = d <| d_Timezone := orS (d_Timezone d) tz |> /\ wellFormed_ d'.
Proof.
  unfold validateOne. destruct (checks _ _) as [u|e] eqn:Hc; [|done]. intros [= <-]. split; [done|].
  apply checks_all in Hc.
  destruct Hc as (C1 & C2 & C3 & C4 & C5 & C6 & C7 & C8 & C9 & C10 & C11 & C12 & C13 & C14 & C15 & C16 &
    C17 & C18 & C19 & C20 & C21 & C22 & C23 & C24 & C25 & C26 & C27 & C28 & C29 & _).
  cbn [fst] in *. apply secondsOK_spec in C2 as (Ht & Hg & Hr & Hh). apply Z.leb_le in C12, C23.
  rewrite between_true in C5, C9, C25. apply Z.eqb_eq in C13.
  apply existsb_eqb_elem in C4, C20. apply eqb_elem2 in C3, C17, C18, C21.
  destruct (kind_checks d C6 C15 C7 C8 C19 C28) as [Hjob Hworker].
  constructor; cbn [d_Command d_Argv d_Timeout d_Grace d_RestartDelay d_HealthyAfter d_MaxRestartAttempts
         d_RestartBackoffMax d_Retries d_RetryDelay d_Schedule d_OnHistoryUnavailable d_SuccessCodes
         d_KeepRuns d_KeepFor d_LogMax d_Timezone d_StopSignal d_Priority d_EnvBase d_Restart d_RunOnStart
         d_Source d_LogOnFull d_CatchUp d_OnOverlap d_EnvFile d_SecretEnv d_RunAs upd]; try eassumption.
  - clear -C1. destruct (String.eqb_spec (d_Command d) "") as [E|E], (default [] (d_Argv d)); simpl in C1; done.
  - apply orb_true_iff in C10 as [C10|C10]; [left; by apply Z.eqb_eq | right; by apply between_true].
  - exact (run_on_start_ok d C14).
  - apply Forall_forall. intros c Hc%list_elem_of_In. apply between_true.
    rewrite forallb_forall in C11. by apply C11.
  - split; [exact C12|]. apply validateDuration_ok; [reflexivity | exact C23 | exact C24].
  - apply validSignal_parsed. exact C22.
  - exact (or_string_p _ _ C26).
  - exact (secrets_ok _ C27).
  - exact (validateRunAs_ok _ C29).
Qed.

(** The only change validation makes: a definition without a time zone gets the
    scheduler's. *)
Definition withTimezone (tz : string) (d : Definition_) : Definition_ :=
  d <| d_Timezone := orS (d_Timezone d) tz |>.

Lemma withTimezone_names tz (defs : list Definition_) : d_Name <$> (withTimezone tz <$> defs) = d_Name <$> defs.
Proof. by rewrite <-list_fmap_compose. Qed.

Lemma validateLoop_wf defs : forall seen tz defs',
  validateLoop_ seen defs tz = Ok defs' ->
  defs' = withTimezone tz <$> defs /\
  Forall wellFormed_ defs' /\
  NoDup (d_Name <$> defs) /\ (forall n, n ∈ d_Name <$> defs -> n ∉ seen) /\
  Forall (fun d => AlertChannels.alertNamePattern (d_Name d) = true) defs'.
Proof.
  induction defs as [|d defs IH]; intros seen tz defs'; cbn [validateLoop].
  { intros [= <-]. repeat split; try constructor. set_solver. }
  destruct (AlertChannels.alertNamePattern (d_Name d)) eqn:En; cbn [negb]; [|done].
  case_bool_decide as Hs; [done|]. destruct (validateOne_ d tz) as [d'|] eqn:E1; [|done].
  destruct (validateLoop_ _ defs tz) as [l|] eqn:E2; [|done]. intros [= <-].
  apply validateOne_wf in E1 as [-> Hwf]. apply IH in E2 as (Hn & Hw & Hnd & Hns & Hp).
  rewrite !fmap_cons. split; [by rewrite Hn|]. split; [by constructor|]. split; [|split].
  - constructor; [|done]. intros H. apply Hns in H. set_solver.
  - intros n [->|Hin]%elem_of_cons; [done|]. apply Hns in Hin. set_solver.
  - by constructor.
Qed.

(** C37: definitions that pass validation are unchanged but for the scheduler's time
    zone where they name none; their names are distinct and of the allowed form, and each of them satisfies every check of the validator:
    exactly one of command and argv; every duration positive where the components need
    it and convertible to nanoseconds without overflow; restart, retry and retention
    limits in range; restart policy, environment base, overlap, catch-up, log and
    history policies among the words the components know; a job's schedule an interval
    of at least a second or an expression the cron library accepts; workers without
    job-only settings and run_on_start only for unscheduled configuration jobs; exit
    codes between 0 and 255; a loadable time zone; an absolute env file; named secrets
    with a valid reference; another user only for root, and an existing one; and a
    stop signal the executor sends by that very name. *)
Theorem validated_definitions defs tz defs' :
  validateDefinitions_ defs tz = Ok defs' ->
  defs' = withTimezone tz <$> defs /\ NoDup (d_Name <$> defs') /\
  Forall (fun d => AlertChannels.alertNamePattern (d_Name d) = true) defs' /\
  Forall wellFormed_ defs'.
Proof.
  intros H. apply validateLoop_wf in H as (Hn & Hw & Hnd & _ & Hp).
  split; [done|]. split; [by rewrite Hn, withTimezone_names | done].
Qed.

(** * Limits of an accepted configuration *)

Section settings.
Context (trustedPathOK : option (list string) -> bool)
        (splitHostPort : string -> option string) (loopbackIP : string -> bool).

Abbreviation Load_ := (Load loadLocation parseCron parseDuration lookupUser lookupId euid
                         trustedPathOK splitHostPort loopbackIP).

Abbreviation validateConfig_ := (validateConfig loadLocation parseCron parseDuration lookupUser lookupId euid
                                   trustedPathOK splitHostPort loopbackIP).

Lemma validateConfig_checks c u :
  validateConfig_ c = Ok u ->
  Forall (fun k => k.1 = true) (serverChecks splitHostPort loopbackIP (c_Server c)) /\
  Forall (fun k => k.1 = true) (schedulerChecks (c_Scheduler c)) /\
  Forall (fun k => k.1 = true) (queueChecks (c_Queue c)) /\
  Forall (fun k => k.1 = true) (storageChecks (c_Storage c)) /\
  Forall (fun k => k.1 = true) (logsChecks (c_Logs c)) /\
  Forall (fun k => k.1 = true) (readsChecks (c_Reads c)).
Proof.
  unfold validateConfig. destruct (checks _ _) as [v|] eqn:Hc; [|done]. intros _.
  apply checks_ok in Hc as [_ Hc]. rewrite !Forall_app in Hc. tauto.
Qed.

Lemma queueOptions_exact q :
  Forall (fun k => k.1 = true) (queueChecks q) ->
  qo_MaxBytes (queueOptions q) = MaxBytes q * 1024 /\
  qo_MaxAge (queueOptions q) = MaxAge q * Second /\
  1 <= MaxPerJob q <= MaxItems q /\ MaxItems q <= 10000 /\
  withDefaults (queueOptions q) =
    mkQueueOptions (negb (QueueOn q)) (MaxItems q) (MaxPerJob q) (MaxBytes q * 1024) (MaxAge q * Second)
      (DrainRate q) (MaxPendingRetries q) 1024.
Proof.
  unfold queueChecks. rewrite !Forall_cons. cbn [fst]. rewrite !between_true.
  intros (Q1 & Q2 & Q3 & Q4 & Q5 & Q6 & _). unfold queueOptions.
  rewrite (Z.shiftl_mul_pow2 (MaxBytes q) 10), !wrap64_id by (unfold in64, minInt64, maxInt64, Second in *; lia).
  change (2 ^ 10) with 1024. unfold withDefaults.
  cbn [qo_Disabled qo_MaxItems qo_MaxPerJob qo_MaxBytes qo_MaxAge qo_DrainRate qo_MaxPendingRetries qo_MaxFinalizers].
  assert (0 < Second) by done.
  repeat split; try lia. f_equal; case_match; bools; try lia; done.
Qed.

Lemma readLimits_exact r :
  Forall (fun k => k.1 = true) (readsChecks r) ->
  configured (readLimits r) /\
  ReadGate.slots (ReadGate.newReadGate (readLimits r)) = rd_Slots r /\
  ReadGate.budget (ReadGate.newReadGate (readLimits r)) = rd_Budget r * 2 ^ 20 /\
  ReadGate.MinReadBudgetBytes <= rd_Budget r * 2 ^ 20.
Proof.
  unfold readsChecks. rewrite !Forall_cons. cbn [fst]. rewrite !between_true.
  intros (R1 & R2 & R3 & _).
  unfold configured, readLimits, ReadGate.newReadGate. cbn [ReadGate.Slots ReadGate.BudgetBytes].
  rewrite shiftl20, wrap64_id by (unfold in64, minInt64, maxInt64; lia).
  rewrite (Z.shiftl_mul_pow2 4096 20) by lia.
  destruct (rd_Slots r <=? 0) eqn:E; bools; [lia|]. cbn [ReadGate.BudgetBytes].
  destruct (rd_Budget r * 2 ^ 20 <=? 0) eqn:E2; bools; [lia|].
  cbn [ReadGate.slots ReadGate.budget ReadGate.Slots ReadGate.BudgetBytes].
  change ReadGate.MinReadBudgetBytes with (8 * 2 ^ 20). lia.
Qed.

(** The sizes and ages of the log settings are converted without loss. *)
Lemma logs_exact l :
  Forall (fun k => k.1 = true) (logsChecks l) ->
  MaxSizeBytes l = DBMaxSize l * 2 ^ 20 /\ DiskBudgetBytes l = DiskBudget l * 2 ^ 20 /\
  QuarantineMaxBytes l = QuarantineMaxSize l * 2 ^ 20 /\
  QuarantineKeepDuration l = QuarantineKeepFor l * (24 * Hour) /\ 0 <= QuarantineKeepDuration l.
Proof.
  unfold logsChecks. rewrite !Forall_cons. cbn [fst]. rewrite !between_true.
  change MaxDBMaxSizeMiB with (2 ^ 30).
  intros (_ & _ & _ & _ & _ & _ & _ & L8 & _ & _ & _ & L12 & L13 & _ & L15 & L16 & _).
  apply Z.leb_le in L15. pose proof (validateDuration_ok _ (24 * Hour) eq_refl L15 L16) as Hd.
  assert (Hm : forall v, 0 <= v <= 2 ^ 30 -> mebibytes v = v * 2 ^ 20).
  { intros v Hv. rewrite mebibytes_spec. unfold maxInt64. lia. }
  assert (Hq : QuarantineKeepDuration l = QuarantineKeepFor l * (24 * Hour)).
  { unfold QuarantineKeepDuration. rewrite Z.max_l by lia. unfold Hour, Second in *.
    rewrite (wrap64_id (QuarantineKeepFor l * 24)) by (unfold in64, minInt64, maxInt64 in *; lia).
    rewrite wrap64_id; unfold in64, minInt64, maxInt64 in *; lia. }
  split; [exact (Hm _ L8)|]. split; [exact (Hm _ L12)|]. split; [exact (Hm _ L13)|].
  split; [done|]. rewrite Hq. lia.
Qed.

Lemma loadEach_length f l : forall i l', loadEach f i l = Ok l' -> length l' = length l.
Proof.
  induction l as [|d l IH]; intros i l'; cbn [loadEach]; [by intros [= <-]|].
  destruct (f i d); [|done]. destruct (loadEach f (S i) l) eqn:E; [|done]. intros [= <-].
  simpl. f_equal. by apply (IH (S i)).
Qed.

Lemma split3 {A} (l : list A) n m : take n l ++ take m (drop n l) ++ drop (n + m) l = l.
Proof. rewrite <- (drop_drop l m n), take_drop. apply take_drop. Qed.

(** A configuration file that [Load] accepts gives every component limits in
    its range and converts every size and duration without loss: the queue options
    are the configured ones (no fallback of the executor's own defaults applies), with
    the per-job share within the total; the read gate gets its slots and a budget
    that admits every single request; the log tiers' byte budgets and the
    quarantine age are exact; and the definitions are well formed with distinct
    names. *)
Theorem load_limits decoded pi pj pw c :
  Load_ decoded pi pj pw = Ok c ->
  1 <= MaxConcurrentRuns (c_Scheduler c) <= 1024 /\
  withDefaults (queueOptions (c_Queue c)) =
    mkQueueOptions (negb (QueueOn (c_Queue c))) (MaxItems (c_Queue c)) (MaxPerJob (c_Queue c))
      (MaxBytes (c_Queue c) * 1024) (MaxAge (c_Queue c) * Second) (DrainRate (c_Queue c))
      (MaxPendingRetries (c_Queue c)) 1024 /\
  1 <= MaxPerJob (c_Queue c) <= MaxItems (c_Queue c) /\
  configured (readLimits (c_Reads c)) /\
  ReadGate.slots (ReadGate.newReadGate (readLimits (c_Reads c))) = rd_Slots (c_Reads c) /\
  ReadGate.MinReadBudgetBytes <= ReadGate.budget (ReadGate.newReadGate (readLimits (c_Reads c))) /\
  DiskBudgetBytes (c_Logs c) = DiskBudget (c_Logs c) * 2 ^ 20 /\
  MaxSizeBytes (c_Logs c) = DBMaxSize (c_Logs c) * 2 ^ 20 /\
  0 <= QuarantineKeepDuration (c_Logs c) /\
  Forall wellFormed_ (Definitions c) /\ NoDup (d_Name <$> Definitions c).
Proof.
  unfold Load. set (c0 := applyConfigDefaults decoded).
  destruct (validateConfig_ c0) as [u|] eqn:Hv; [|done].
  destruct (loadEach _ 0 (c_Init c0)) as [init|] eqn:Hi; [|done].
  destruct (loadEach _ 0 (c_Jobs c0)) as [jobs|] eqn:Hj; [|done].
  destruct (loadEach _ 0 (c_Workers c0)) as [workers|] eqn:Hw; [|done].
  destruct (validateDefinitions_ _ _) as [defs|] eqn:Hd; [|done].
  apply validateConfig_checks in Hv as (_ & Hs & Hq & _ & Hl & Hr).
  apply queueOptions_exact in Hq as (_ & _ & Hpj & _ & Hq).
  apply readLimits_exact in Hr as (Hr1 & Hr2 & Hr3 & Hr4).
  apply logs_exact in Hl as (Hl1 & Hl2 & _ & _ & Hl5).
  apply validateLoop_wf in Hd as (Hn & Hwf & Hnd & _).
  unfold schedulerChecks in Hs. rewrite !Forall_cons in Hs. cbn [fst] in Hs. destruct Hs as [Hs _].
  rewrite between_true in Hs. clearbody c0. intros [= <-].
  unfold Definitions. cbn [c_Scheduler c_Queue c_Reads c_Logs c_Init c_Jobs c_Workers].
  subst defs. rewrite split3, withTimezone_names, Hr3. auto 12.
Qed.
End settings.

(** * The round trip through an API client *)

Lemma omit_list {A} (o o' : option (list A)) :
  omitEmpty emptyList o = omitEmpty emptyList o' -> default [] o = default [] o'.
Proof. destruct o as [[|x l]|], o' as [[|y k]|]; cbn; congruence. Qed.

Lemma omit_map (o o' : option (gmap string string)) :
  omitEmpty emptyMap o = omitEmpty emptyMap o' -> default ∅ o = default ∅ o'.
Proof.
  assert (He : forall m, emptyMap m = true -> m = ∅).
  { intros m Hm. apply Nat.eqb_eq in Hm. by apply map_size_empty_iff in Hm. }
  destruct o as [m|], o' as [m'|]; cbn; repeat case_match; intros; simplify_eq; try done;
    repeat match goal with H : emptyMap _ = true |- _ => apply He in H; subst end; done.
Qed.

(** Validation does not see the difference between empty and missing. *)
Lemma wire_checks a b tz : wire a = wire b ->
  definitionChecks loadLocation parseCron parseDuration lookupUser lookupId euid a tz =
  definitionChecks loadLocation parseCron parseDuration lookupUser lookupId euid b tz.
Proof.
  intros H.
  pose proof (f_equal d_Kind H : d_Kind a = d_Kind b) as HKind.
  pose proof (f_equal d_Command H : d_Command a = d_Command b) as HCommand.
  pose proof (f_equal d_EnvBase H : d_EnvBase a = d_EnvBase b) as HEnvBase.
  pose proof (f_equal d_Restart H : d_Restart a = d_Restart b) as HRestart.
  pose proof (f_equal d_Retries H : d_Retries a = d_Retries b) as HRetries.
  pose proof (f_equal d_RetryDelay H : d_RetryDelay a = d_RetryDelay b) as HRetryDelay.
  pose proof (f_equal d_MaxRestartAttempts H : d_MaxRestartAttempts a = d_MaxRestartAttempts b) as HMaxRestartAttempts.
  pose proof (f_equal d_RestartBackoffMax H : d_RestartBackoffMax a = d_RestartBackoffMax b) as HRestartBackoffMax.
  pose proof (f_equal d_RestartDelay H : d_RestartDelay a = d_RestartDelay b) as HRestartDelay.
  pose proof (f_equal d_KeepRuns H : d_KeepRuns a = d_KeepRuns b) as HKeepRuns.
  pose proof (f_equal d_Priority H : d_Priority a = d_Priority b) as HPriority.
  pose proof (f_equal d_RunOnStart H : d_RunOnStart a = d_RunOnStart b) as HRunOnStart.
  pose proof (f_equal d_Source H : d_Source a = d_Source b) as HSource.
  pose proof (f_equal d_Schedule H : d_Schedule a = d_Schedule b) as HSchedule.
  pose proof (f_equal d_CatchUp H : d_CatchUp a = d_CatchUp b) as HCatchUp.
  pose proof (f_equal d_OnOverlap H : d_OnOverlap a = d_OnOverlap b) as HOnOverlap.
  pose proof (f_equal d_OnHistoryUnavailable H : d_OnHistoryUnavailable a = d_OnHistoryUnavailable b) as HOnHistoryUnavailable.
  pose proof (f_equal d_LogOnFull H : d_LogOnFull a = d_LogOnFull b) as HLogOnFull.
  pose proof (f_equal d_StopSignal H : d_StopSignal a = d_StopSignal b) as HStopSignal.
  pose proof (f_equal d_KeepFor H : d_KeepFor a = d_KeepFor b) as HKeepFor.
  pose proof (f_equal d_LogMax H : d_LogMax a = d_LogMax b) as HLogMax.
  pose proof (f_equal d_EnvFile H : d_EnvFile a = d_EnvFile b) as HEnvFile.
  pose proof (f_equal d_RunAs H : d_RunAs a = d_RunAs b) as HRunAs.
  pose proof (f_equal d_Timeout H : d_Timeout a = d_Timeout b) as HTimeout.
  pose proof (f_equal d_Grace H : d_Grace a = d_Grace b) as HGrace.
  pose proof (f_equal d_HealthyAfter H : d_HealthyAfter a = d_HealthyAfter b) as HHealthyAfter.
  pose proof (omit_list (d_Argv a) (d_Argv b) (f_equal d_Argv H)) as HArgv.
  pose proof (omit_list (d_SuccessCodes a) (d_SuccessCodes b) (f_equal d_SuccessCodes H)) as HCodes.
  pose proof (omit_map (d_SecretEnv a) (d_SecretEnv b) (f_equal d_SecretEnv H)) as HSecret.
  unfold definitionChecks, secondsOK, isJob, isWorker.
  clear H. rewrite HKind, HCommand, HEnvBase, HRestart, HRetries, HRetryDelay, HMaxRestartAttempts, HRestartBackoffMax, HRestartDelay, HKeepRuns, HPriority, HRunOnStart, HSource, HSchedule, HCatchUp, HOnOverlap, HOnHistoryUnavailable, HLogOnFull, HStopSignal, HKeepFor, HLogMax, HEnvFile, HRunAs, HTimeout, HGrace, HHealthyAfter, HArgv, HCodes, HSecret.
  reflexivity.
Qed.

Lemma validateDefinition_ok d ex jd d0 :
  validateDefinition loadLocation parseCron parseDuration lookupUser lookupId euid d ex jd = Ok d0 ->
  exists d', d_Kind d' <> "" /\
  let r := applyDefinitionDefaults d' (default zeroDefinition jd) ex in
  d0 = r <| d_Timezone := orS (d_Timezone r) "UTC" |> /\
  AlertChannels.alertNamePattern (d_Name r) = true /\
  checks (BadDefinition (d_Name r)) (definitionChecks loadLocation parseCron parseDuration lookupUser
    lookupId euid r (orS (d_Timezone r) "UTC")) = Ok tt.
Proof.
  unfold validateDefinition. set (d' := if String.eqb (d_Kind d) "" then _ else _).
  assert (Hk : d_Kind d' <> "").
  { subst d'. destruct (String.eqb_spec (d_Kind d) ""); [done | done]. }
  clearbody d'. set (r := applyDefinitionDefaults d' _ ex). intros H. exists d'. split; [done|].
  cbv zeta. fold r. clearbody r. revert H. unfold validateDefinitions. cbn [validateLoop].
  destruct (AlertChannels.alertNamePattern (d_Name r)); cbn [negb]; [|done].
  rewrite bool_decide_eq_false_2 by apply not_elem_of_empty. unfold validateOne.
  destruct (checks _ _) as [[]|e] eqn:Hc; [|done]. intros [= <-]. auto.
Qed.

(** And conversely. *)
Lemma validateDefinition_intro d ex jd :
  d_Kind d <> "" ->
  let r := applyDefinitionDefaults d (default zeroDefinition jd) ex in
  AlertChannels.alertNamePattern (d_Name r) = true ->
  checks (BadDefinition (d_Name r)) (definitionChecks loadLocation parseCron parseDuration lookupUser
    lookupId euid r (orS (d_Timezone r) "UTC")) = Ok tt ->
  validateDefinition loadLocation parseCron parseDuration lookupUser lookupId euid d ex jd =
    Ok (r <| d_Timezone := orS (d_Timezone r) "UTC" |>).
Proof.
  intros Hk r Hn Hc. unfold validateDefinition.
  rewrite (proj2 (String.eqb_neq _ _) Hk). cbv zeta. fold r. clearbody r.
  unfold validateDefinitions. cbn [validateLoop]. rewrite Hn. cbn [negb].
  rewrite bool_decide_eq_false_2 by apply not_elem_of_empty. unfold validateOne. by rewrite Hc.
Qed.

(** [EditableInput] resolves to the definition it was made from. *)
Lemma Resolve_Editable w jd :
  (isJob w = false -> d_Retries w = 0) -> Resolve (EditableInput w jd) = w.
Proof.
  intros Hr. unfold EditableInput.
  set (ot := if negb _ || _ then Some _ else None). set (or_ := if isJob w && _ then Some _ else None).
  assert (Ht : default 0 ot = d_Timeout w).
  { subst ot. destruct (d_Timeout w =? 0) eqn:E; [apply Z.eqb_eq in E|]; cbn; [|done].
    rewrite E. by case_match. }
  assert (Hz : default 0 or_ = d_Retries w).
  { subst or_. destruct (isJob w); cbn; [|by rewrite Hr].
    destruct (d_Retries w =? 0) eqn:E; [apply Z.eqb_eq in E|]; cbn; [|done]. rewrite E. by case_match. }
  clearbody ot or_. transitivity (w <| d_Timeout := default 0 ot |> <| d_Retries := default 0 or_ |>).
  - by destruct ot, or_.
  - rewrite Ht, Hz. by destruct w.
Qed.

Lemma wireInput_Editable d jd : wireInput (EditableInput (wire d) jd) = EditableInput (wire d) jd.
Proof.
  assert (H : wire ((wire d) <| d_Timeout := 0 |> <| d_Retries := 0 |>) =
              (wire d) <| d_Timeout := 0 |> <| d_Retries := 0 |>).
  { apply definition_ext; lazy -[omitEmpty]; first [apply omit2 | reflexivity]. }
  unfold wireInput. cbn [in_Definition EditableInput]. rewrite H. reflexivity.
Qed.

Lemma Validate_eq i jd : Validate_ i jd =
  validateDefinition loadLocation parseCron parseDuration lookupUser lookupId euid (Resolve i) (inputExplicit i) jd.
Proof. reflexivity. Qed.

Lemma isJob_applied d D ex tz : isJob ((applyDefinitionDefaults d D ex) <| d_Timezone := tz |>) = isJob d.
Proof. rewrite applied_eq. lazy -[String.eqb]. reflexivity. Qed.
Lemma isJob_wire d : isJob (wire d) = isJob d.
Proof. unfold isJob. f_equal. Qed.
Lemma Retries_wire d : d_Retries (wire d) = d_Retries d.
Proof. lazy. reflexivity. Qed.

Lemma wire_timezone a b tz : wire a = wire b -> d_Timezone b = tz -> wire (a <| d_Timezone := tz |>) = wire b.
Proof.
  intros H <-. pose proof (f_equal d_Timezone H : d_Timezone a = d_Timezone b) as Ht. rewrite <- Ht.
  rewrite <- H. by destruct a.
Qed.

Lemma worker_no_retries err r tz tz' :
  checks err (definitionChecks loadLocation parseCron parseDuration lookupUser lookupId euid r tz) = Ok tt ->
  let d := r <| d_Timezone := tz' |> in
  isJob d || isWorker d = true -> isJob d = false -> d_Retries d = 0.
Proof.
  intros Hchk d Hk Hj. rewrite Hj in Hk. change (isWorker r = true) in Hk.
  destruct (checks_all _ _ _ Hchk) as (_ & _ & _ & _ & _ & _ & C7 & _). cbn [fst] in C7.
  apply Z.eqb_eq. exact (or_b2p _ _ C7 Hk).
Qed.

(** A definition settled under the defaults validates again. *)
Lemma settled_again r w D ex jd tz :
  D = default zeroDefinition jd -> tz <> "" ->
  AlertChannels.alertNamePattern (d_Name r) = true ->
  checks (BadDefinition (d_Name r)) (definitionChecks loadLocation parseCron parseDuration lookupUser
    lookupId euid r tz) = Ok tt ->
  w = wire (r <| d_Timezone := tz |>) -> d_Kind w <> "" ->
  wire (applyDefinitionDefaults w D ex) = w ->
  exists d1, validateDefinition loadLocation parseCron parseDuration lookupUser lookupId euid w ex jd = Ok d1 /\
    wire d1 = w.
Proof.
  intros -> Htz Hn Hc Hw Hk Hs. set (r1 := applyDefinitionDefaults w (default zeroDefinition jd) ex) in *.
  assert (Hname : d_Name r1 = d_Name r) by (rewrite Hw in Hs; exact (f_equal d_Name Hs)).
  assert (Hz : d_Timezone r1 = tz) by (rewrite Hw in Hs; exact (f_equal d_Timezone Hs)).
  assert (Hut : orS (d_Timezone r1) "UTC" = tz) by (rewrite Hz; by apply orS_id).
  exists (r1 <| d_Timezone := tz |>). split.
  - rewrite <- Hut. apply validateDefinition_intro; fold r1; [done | by rewrite Hname|].
    rewrite Hname, Hut, (wire_checks r1 (r <| d_Timezone := tz |>)); [exact Hc|]. by rewrite <- Hw.
  - rewrite Hw in Hs |- *. apply wire_timezone; [exact Hs | reflexivity].
Qed.

(** C36: a GET followed by a PUT preserves a definition.  For a definition the API
    accepted, of one of the two kinds, the form handed to a client, sent back
    unchanged under the same defaults, is accepted again and stored as the same
    definition, explicit zero timeouts and retries included, unless the defaults would
    fill in a list or map that the definition had set to empty. *)
Theorem get_put_roundtrip i jd d0 :
  Validate_ i jd = Ok d0 ->
  isJob d0 || isWorker d0 = true ->
  keepsEmpty d0 (default zeroDefinition jd) ->
  exists d1, Validate_ (wireInput (EditableInput (wire d0) jd)) jd = Ok d1 /\ wire d1 = wire d0.
Proof.
  intros H Hk Hkeep. rewrite Validate_eq in H. apply validateDefinition_ok in H as (d & Hdk & Hd0 & Hname & Hchk).
  set (D := default zeroDefinition jd) in *.
  remember (applyDefinitionDefaults d D (inputExplicit i)) as r eqn:Er.
  remember (orS (d_Timezone r) "UTC") as tz eqn:Etz.
  assert (Htz : tz <> "") by (rewrite Etz; unfold orS; by destruct (String.eqb_spec (d_Timezone r) "")).
  rewrite wireInput_Editable. setoid_rewrite Validate_eq. rewrite Resolve_Editable.
  2:{ rewrite isJob_wire, Retries_wire. rewrite Hd0 in *. by apply (worker_no_retries _ _ _ _ Hchk). }
  apply (settled_again r (wire d0) D _ jd tz eq_refl Htz Hname Hchk (f_equal wire Hd0)).
  - intros Hz. change (d_Kind (wire d0)) with (d_Kind d0) in Hz.
    unfold isJob, isWorker in Hk. by rewrite Hz in Hk.
  - rewrite Hd0, Er. apply settled; [exact Htz | rewrite <- Er; rewrite Hd0 in Hkeep; exact Hkeep | |].
    + rewrite <- Er, <- Hd0. unfold inputExplicit, EditableInput. cbn [ex_timeout in_Timeout]. apply explicit_zero.
    + intros Hj. rewrite <- Er, <- Hd0. intros Hf. apply explicit_zero. revert Hf.
      unfold inputExplicit, EditableInput. cbn [ex_retries in_Retries]. rewrite isJob_wire.
      assert (isJob d0 = true) as -> by (rewrite Hd0, Er, isJob_applied; exact Hj). done.
Qed.
End environment.

(** * Examples *)

Module ConfigDemo.

(** An environment that knows two zones and takes every other check as passed. *)
Definition zones (tz : string) : bool := String.eqb tz "UTC" || String.eqb tz "Asia/Tokyo".
Definition cronOK (_ : string) : bool := true.
Definition durations (s : string) : option Duration := if String.eqb s "1m" then Some Minute else None.
Definition nobody (_ : string) : bool := false.

Abbreviation Validate := (ValidateDefinitionInput zones cronOK durations nobody nobody 0).

Definition backupInput : DefinitionInput :=
  mkInput (zeroDefinition <| d_Name := "backup" |> <| d_Command := "true" |> <| d_Schedule := "@every 1m" |>)
    (Some 0) None.

Definition siteDefaults : Definition_ :=
  zeroDefinition <| d_Timeout := 60 |> <| d_Retries := 3 |> <| d_Alerts := Some ["ops"] |>.

Definition backup : Definition_ :=
  match Validate backupInput (Some siteDefaults) with Ok d => d | Err _ => zeroDefinition end.

(** The explicit zero timeout survives the round trip; the retries are inherited. *)
Lemma get_put_roundtrip_witness :
  Validate backupInput (Some siteDefaults) = Ok backup /\ d_Timeout backup = 0 /\ d_Retries backup = 3 /\
  exists d1, Validate (wireInput (EditableInput (wire backup) (Some siteDefaults))) (Some siteDefaults) = Ok d1 /\
    wire d1 = wire backup.
Proof.
  assert (H : Validate backupInput (Some siteDefaults) = Ok backup) by (vm_compute; reflexivity).
  split; [exact H|]. split; [vm_compute; reflexivity|]. split; [vm_compute; reflexivity|].
  apply (get_put_roundtrip zones cronOK durations nobody nobody 0 backupInput (Some siteDefaults) backup H).
  - vm_compute. reflexivity.
  - repeat split; vm_compute; congruence.
Defined.

(** A client that clears the alerts of a definition whose defaults name a channel:
    the stored definition has none, and sending it back unchanged names the
    channel again. *)
Definition silentInput : DefinitionInput :=
  mkInput (zeroDefinition <| d_Name := "backup" |> <| d_Command := "true" |> <| d_Alerts := Some [] |>)
    None None.

Definition silent : Definition_ :=
  match Validate silentInput (Some siteDefaults) with Ok d => d | Err _ => zeroDefinition end.
Definition silentAgain : Definition_ :=
  match Validate (wireInput (EditableInput (wire silent) (Some siteDefaults))) (Some siteDefaults) with
  | Ok d => d | Err _ => zeroDefinition end.

Theorem get_put_restores_defaults :
  Validate silentInput (Some siteDefaults) = Ok silent /\ d_Alerts (wire silent) = None /\
  Validate (wireInput (EditableInput (wire silent) (Some siteDefaults))) (Some siteDefaults) = Ok silentAgain /\
  d_Alerts silentAgain = Some ["ops"].
Proof. split; [|split; [|split]]; vm_compute; reflexivity. Qed.

Definition validated : list Definition_ :=
  match validateDefinitions zones cronOK durations nobody nobody 0 [backup] "UTC" with
  | Ok l => l | Err _ => [] end.

Lemma validated_definitions_witness :
  validateDefinitions zones cronOK durations nobody nobody 0 [backup] "UTC" = Ok validated /\
  length validated = 1%nat /\ Forall (wellFormed zones cronOK durations nobody nobody 0) validated.
Proof.
  assert (H : validateDefinitions zones cronOK durations nobody nobody 0 [backup] "UTC" = Ok validated)
    by (vm_compute; reflexivity).
  split; [exact H|]. split; [vm_compute; reflexivity|].
  exact (proj2 (proj2 (proj2 (validated_definitions zones cronOK durations nobody nobody 0 [backup] "UTC"
    validated H)))).
Defined.

(** The configuration of an empty file, with one scheduled job. *)
Definition emptyFile : Config :=
  mkConfig (mkServer "" None None false) (mkScheduler None "" 0 0) (mkQueue None 0 0 0 0 0 0)
    (mkStorage 0 0 0 "") (mkLogs "" 0 0 0 "" 0 "" 0 0 0 None 0 0) (mkReads 0 0 0) zeroDefinition []
    [zeroDefinition <| d_Name := "backup" |> <| d_Command := "true" |> <| d_Schedule := "@every 1m" |>] [].

Definition local (_ : string) : option string := Some "localhost".

Definition loaded : Config :=
  match Load zones cronOK durations nobody nobody 0 (fun _ => true) local nobody emptyFile [] [] [] with
  | Ok c => c | Err _ => emptyFile end.

Lemma load_limits_witness :
  Load zones cronOK durations nobody nobody 0 (fun _ => true) local nobody emptyFile [] [] [] = Ok loaded /\
  ReadGate.slots (ReadGate.newReadGate (readLimits (c_Reads loaded))) = rd_Slots (c_Reads loaded).
Proof.
  assert (H : Load zones cronOK durations nobody nobody 0 (fun _ => true) local nobody emptyFile [] [] [] =
              Ok loaded) by (vm_compute; reflexivity).
  split; [exact H|].
  destruct (load_limits zones cronOK durations nobody nobody 0 (fun _ => true) local nobody
              emptyFile [] [] [] loaded H) as (_ & _ & _ & _ & Hslots & _).
  exact Hslots.
Defined.
End ConfigDemo.
