(* ===== verification/LogFrame.v ===== *)
(** The log frame format (src/internal/logstore/logstore.go).

    A chunk file is a zstd stream of frames: a 24-byte header and the payload.
    This file models the codec ([encodeWithHeader], [decodeHeaderWithBuffer],
    [decode]), the loop that recovers the frames of a torn chunk
    ([salvageFrames]) and its inverse [encodeFrames].  The zstd library is a
    parameter: a decoder presents a blob as a byte source that ends either
    cleanly or with an error. *)

From S2P Require Import Prelude GoRuntime.
Open Scope Z_scope.

(** A byte is an integer of [0, 256); a byte slice is a list of them. *)
Definition Byte : Type := Z.
Definition blen (b : list Byte) : Z := Z.of_nat (length b).

(** * encoding/binary, big endian *)
Module Binary.

Fixpoint be_put (n : nat) (v : Z) : list Byte :=
  match n with
  | O => []
  | S k => Z.land (Z.shiftr v (8 * Z.of_nat k)) 255 :: be_put k v
  end.

Fixpoint be_get (acc : Z) (b : list Byte) : Z :=
  match b with
  | [] => acc
  | x :: t => be_get (Z.lor (Z.shiftl acc 8) x) t
  end.

(** [binary.BigEndian.PutUint64] and friends: the value is an unsigned integer
    of the stated width, so only its low bits are stored. *)
Definition PutUint64 (v : Z) : list Byte := be_put 8 v.
Definition PutUint32 (v : Z) : list Byte := be_put 4 v.
Definition getUint (b : list Byte) : Z := be_get 0 b.

Lemma be_put_length n v : length (be_put n v) = n.
Proof. induction n; simpl; congruence. Qed.

Lemma be_get_put n v acc :
  0 <= v -> be_get acc (be_put n v) = Z.lor (Z.shiftl acc (8 * Z.of_nat n)) (v mod 2 ^ (8 * Z.of_nat n)).
Proof.
  revert acc; induction n as [|n IH]; intros acc Hv.
  - cbn [be_put be_get]. rewrite Z.mod_1_r, Z.shiftl_0_r, Z.lor_0_r. reflexivity.
  - cbn [be_put be_get]. rewrite IH by done.
    change 255 with (Z.ones 8). rewrite <- !Z.land_ones by lia.
    apply Z.bits_inj'; intros i Hi.
    rewrite ?Z.lor_spec, ?Z.shiftl_spec, ?Z.land_spec by lia.
    destruct (decide (i < 8 * Z.of_nat n)) as [Hlt|Hge].
    + rewrite (Z.testbit_neg_r _ (i - 8 * Z.of_nat n)) by lia.
      rewrite (Z.testbit_neg_r acc) by lia.
      rewrite !Z.ones_spec_low by lia. done.
    + rewrite ?Z.lor_spec, ?Z.land_spec, ?Z.shiftl_spec, ?Z.shiftr_spec by lia.
      replace (i - 8 * Z.of_nat n - 8) with (i - 8 * Z.of_nat (S n)) by lia.
      replace (i - 8 * Z.of_nat n + 8 * Z.of_nat n) with i by lia.
      rewrite (Z.ones_spec_high (8 * Z.of_nat n)) by lia. rewrite andb_false_r, orb_false_r.
      f_equal. f_equal.
      destruct (decide (i < 8 * Z.of_nat (S n))).
      * rewrite !Z.ones_spec_low by lia. done.
      * rewrite !Z.ones_spec_high by lia. done.
Qed.

Lemma getUint_put n v : 0 <= v < 2 ^ (8 * Z.of_nat n) -> getUint (be_put n v) = v.
Proof.
  intros Hv. unfold getUint. rewrite be_get_put by lia.
  rewrite Z.shiftl_0_l, Z.lor_0_l, Z.mod_small by lia. reflexivity.
Qed.

End Binary.
Import Binary.

(** * Byte sources *)
Module Source.

(** How a read can fail: the end of the stream, a stream cut short, or a
    decoder error. *)
Inductive ReadErr :=
| EOF
| UnexpectedEOF
| Corrupt
| BadVersion (v : Z)
| Oversize (n : Z).

#[global] Instance ReadErr_eq : EqDecision ReadErr.
Proof. solve_decision. Defined.

(** A source is the bytes still to come and the error that follows them. *)
Record Src := mkSrc { src_bytes : list Byte; src_end : ReadErr }.

(** [io.ReadFull]: exactly [n] bytes; a clean end in the middle is
    [UnexpectedEOF], and reading nothing never touches the source. *)
Definition ReadFull (s : Src) (n : nat) : Result ReadErr (list Byte * Src) :=
  if (n <=? length (src_bytes s))%nat
  then Ok (take n (src_bytes s), mkSrc (drop n (src_bytes s)) (src_end s))
  else Err (match src_bytes s, src_end s with
            | _ :: _, EOF => UnexpectedEOF
            | _, e => e
            end).

Lemma ReadFull_app b c e n :
  n = length b -> ReadFull (mkSrc (b ++ c) e) n = Ok (b, mkSrc c e).
Proof.
  intros ->. unfold ReadFull; cbn [src_bytes src_end].
  destruct (Nat.leb_spec (length b) (length (b ++ c))) as [_|H].
  - by rewrite take_app_length, drop_app_length.
  - rewrite length_app in H. lia.
Qed.

Lemma ReadFull_short b e n :
  (length b < n)%nat ->
  ReadFull (mkSrc b e) n = Err (match b, e with _ :: _, EOF => UnexpectedEOF | _, x => x end).
Proof.
  intros H. unfold ReadFull; cbn [src_bytes src_end].
  destruct (Nat.leb_spec n (length b)); [lia|by destruct b, e].
Qed.

Lemma ReadFull_ok s n b s' :
  ReadFull s n = Ok (b, s') ->
  src_bytes s = b ++ src_bytes s' /\ length b = n /\ src_end s' = src_end s.
Proof.
  unfold ReadFull. destruct (Nat.leb_spec n (length (src_bytes s))); [|done].
  intros [= <- <-]; cbn. rewrite take_drop, length_take. repeat split; try done; lia.
Qed.

End Source.
Import Source.

(** * Frames *)
Definition Version : Z := 1.
Definition maxFramePayload : Z := Z.shiftl 16 20.
Definition chunkLimit : Z := Z.shiftl 1 20.
Definition headerSize : nat := 24.

Definition Stdout : Z := 1.
Definition Stderr : Z := 2.
Definition System : Z := 3.

Definition FlagPartial : Z := 1.
Definition FlagInvalidUTF8 : Z := 2.
Definition FlagTruncated : Z := 4.

Record Frame := mkFrame {
  Sequence : Z;
  Timestamp : Time;
  Stream : Z;
  Flags : Z;
  Payload : list Byte;
}.

#[global] Instance Frame_eq : EqDecision Frame.
Proof. solve_decision. Defined.

(** What a frame occupies before compression: [24 + len(payload)]. *)
Definition frameSize (f : Frame) : Z := 24 + blen (Payload f).

(** [encodeWithHeader]; [encode] is the same with a fresh header buffer.  The
    destination's own write errors belong to the caller. *)
Definition encode (f : Frame) : list Byte :=
  [Version; Stream f; Flags f; 0]
    ++ PutUint64 (Sequence f)
    ++ PutUint64 (UnixMicro_of (Timestamp f) mod 2 ^ 64)
    ++ PutUint32 (blen (Payload f) mod 2 ^ 32)
    ++ Payload f.

(** [decodeHeaderWithBuffer]: the frame without its payload, and the payload's
    length. *)
Definition decodeHeader (s : Src) : Result ReadErr (Frame * nat * Src) :=
  let! r := ReadFull s headerSize in
  let '(h, rest) := r in
  let byte i := nth i h 0 in
  let field i n := getUint (take n (drop i h)) in
  if negb (byte 0%nat =? Version) then Err (BadVersion (byte 0%nat)) else
  let f := mkFrame (field 4%nat 8%nat) (of_UnixMicro (wrap64 (field 12%nat 8%nat)))
                   (byte 1%nat) (byte 2%nat) [] in
  let n := field 20%nat 4%nat in
  if n >? maxFramePayload then Err (Oversize n) else Ok (f, Z.to_nat n, rest).

(** [decode]: a header whose payload is missing is a torn frame. *)
Definition decode (s : Src) : Result ReadErr (Frame * Src) :=
  let! r := decodeHeader s in
  let '(f, n, rest) := r in
  match ReadFull rest n with
  | Ok (p, rest') => Ok (mkFrame (Sequence f) (Timestamp f) (Stream f) (Flags f) p, rest')
  | Err EOF => Err UnexpectedEOF
  | Err e => Err e
  end.

(** The loop of [salvageFrames] over the decoder's output: frames up to the
    first problem, and [None] for a clean end at a frame boundary.  A frame
    takes at least 24 bytes, so [length] bytes of fuel are more than enough. *)
Fixpoint salvageLoop (fuel : nat) (s : Src) (frames : list Frame) : option (list Frame * option ReadErr) :=
  match fuel with
  | O => None
  | S k =>
      match decode s with
      | Err EOF => Some (frames, None)
      | Err e => Some (frames, Some e)
      | Ok (f, rest) => salvageLoop k rest (frames ++ [f])
      end
  end.

Definition salvageSrc (s : Src) : option (list Frame * option ReadErr) :=
  salvageLoop (S (length (src_bytes s))) s [].

Definition encodeAll (fs : list Frame) : list Byte := concat (encode <$> fs).

(** [salvageFrames] and [encodeFrames] with the zstd library as parameters: a
    decoder may refuse a blob, or present it as a byte source. *)
Section Zstd.
Variable compress : list Byte -> list Byte.
Variable decompress : list Byte -> Result ReadErr Src.

Definition salvageFrames (blob : list Byte) : option (list Frame * option ReadErr) :=
  match blob with
  | [] => Some ([], None)
  | _ =>
      match decompress blob with
      | Err e => Some ([], Some e)
      | Ok s => salvageSrc s
      end
  end.

Definition encodeFrames (fs : list Frame) : list Byte := compress (encodeAll fs).

End Zstd.
