(* ===== verification/LogFrameFacts.v ===== *)
(** Correctness of the log frame codec: encoding followed by decoding returns
    the frame, and a chunk cut at any byte yields exactly the frames that were
    written in full before the cut. *)

From S2P Require Import Prelude GoRuntime LogFrame.
Import Binary Source.
Open Scope Z_scope.

(** The frames a writer can produce: fields within their Go types and a payload
    within the format's limit. *)
Definition frame_ok (f : Frame) : Prop :=
  0 <= Sequence f < 2 ^ 64 /\ in64 (UnixMicro_of (Timestamp f)) /\ blen (Payload f) <= maxFramePayload.

(** The stored form of a frame: its time at microsecond precision. *)
Definition stored (f : Frame) : Frame :=
  mkFrame (Sequence f) (of_UnixMicro (UnixMicro_of (Timestamp f))) (Stream f) (Flags f) (Payload f).

Lemma stored_idem f : stored (stored f) = stored f.
Proof. unfold stored; cbn. by rewrite UnixMicro_roundtrip. Qed.

Lemma wrap64_mod z : in64 z -> wrap64 (z mod 2 ^ 64) = z.
Proof.
  intros H. transitivity (wrap64 z); [|by apply wrap64_id].
  unfold wrap64. by rewrite Zplus_mod_idemp_l.
Qed.

Section Codec.
Context (f : Frame) (Hf : frame_ok f).

Definition header : list Byte :=
  [Version; Stream f; Flags f; 0] ++ PutUint64 (Sequence f)
    ++ PutUint64 (UnixMicro_of (Timestamp f) mod 2 ^ 64) ++ PutUint32 (blen (Payload f) mod 2 ^ 32).

Lemma encode_header : encode f = header ++ Payload f.
Proof. unfold encode, header. by rewrite <- !app_assoc. Qed.

Lemma header_length : length header = headerSize.
Proof. reflexivity. Qed.

Lemma length_encode : Z.of_nat (length (encode f)) = frameSize f.
Proof. rewrite encode_header, length_app, header_length. unfold frameSize, blen, headerSize. lia. Qed.

Lemma decodeHeader_header rest e :
  decodeHeader (mkSrc (header ++ rest) e) =
    Ok (mkFrame (Sequence f) (of_UnixMicro (UnixMicro_of (Timestamp f))) (Stream f) (Flags f) [],
        length (Payload f), mkSrc rest e).
Proof.
  destruct Hf as (Hs & Ht & Hp). unfold decodeHeader.
  rewrite (ReadFull_app header rest e) by reflexivity.
  assert (Hsmall : 0 <= blen (Payload f) < 2 ^ 32)
    by (unfold blen in *; change maxFramePayload with 16777216 in *; change (2 ^ 32) with 4294967296; lia).
  change (take 8 (drop 4 header)) with (be_put 8 (Sequence f)).
  change (take 8 (drop 12 header)) with (be_put 8 (UnixMicro_of (Timestamp f) mod 2 ^ 64)).
  change (take 4 (drop 20 header)) with (be_put 4 (blen (Payload f) mod 2 ^ 32)).
  change (nth 0 header 0) with Version. change (nth 1 header 0) with (Stream f).
  change (nth 2 header 0) with (Flags f). rewrite Z.eqb_refl. cbn [negb].
  rewrite (getUint_put 8 (Sequence f)) by (simpl; lia).
  rewrite (getUint_put 8 (_ mod _)) by (apply Z.mod_pos_bound; simpl; lia).
  rewrite (getUint_put 4 (_ mod _)) by (apply Z.mod_pos_bound; simpl; lia).
  rewrite (Z.mod_small _ _ Hsmall), wrap64_mod by done.
  destruct (Z.gtb_spec (blen (Payload f)) maxFramePayload); [lia|].
  unfold blen. by rewrite Nat2Z.id.
Qed.

(** Decoding an encoded frame returns it, with its time cut to microseconds,
    and leaves the source at the next frame. *)
Lemma decode_encode rest e :
  decode (mkSrc (encode f ++ rest) e) = Ok (stored f, mkSrc rest e).
Proof.
  unfold decode. rewrite encode_header, <- app_assoc, decodeHeader_header. cbn.
  by rewrite (ReadFull_app (Payload f) rest e).
Qed.

(** A frame cut short is never returned. *)
Lemma decode_short b c e :
  encode f = b ++ c -> c <> [] ->
  decode (mkSrc b e) = Err (match b, e with _ :: _, EOF => UnexpectedEOF | _, x => x end).
Proof.
  intros Hb Hc. pose proof length_encode as Hl. unfold frameSize in Hl.
  assert (length c <> 0)%nat by (destruct c; simpl; congruence).
  destruct (decide (length b < headerSize)%nat) as [Hlt|Hge].
  - unfold decode, decodeHeader. rewrite ReadFull_short by done. cbn. by destruct b, e.
  - rewrite encode_header in Hb.
    assert (exists p, b = header ++ p /\ Payload f = p ++ c) as (p & -> & Hp).
    { exists (drop headerSize b).
      assert (Ht : take headerSize b = header).
      { apply (f_equal (take headerSize)) in Hb.
        rewrite <- header_length, take_app_length, header_length, take_app_le in Hb by lia. done. }
      split; [by rewrite <- Ht, take_drop|].
      apply (f_equal (drop headerSize)) in Hb.
      rewrite <- header_length, drop_app_length, header_length, drop_app_le in Hb by lia. done. }
    unfold decode. rewrite decodeHeader_header. cbn.
    rewrite ReadFull_short by (rewrite Hp, length_app; lia).
    destruct p, e; try done.
Qed.

End Codec.

(** * Salvage *)

Lemma encodeAll_cons f fs : encodeAll (f :: fs) = encode f ++ encodeAll fs.
Proof. reflexivity. Qed.

Lemma encodeAll_app fs gs : encodeAll (fs ++ gs) = encodeAll fs ++ encodeAll gs.
Proof. unfold encodeAll. by rewrite fmap_app, concat_app. Qed.

Lemma encode_nonnil f : encode f <> [].
Proof. discriminate. Qed.

Lemma length_encode_pos f : (24 <= length (encode f))%nat.
Proof. rewrite encode_header, length_app, header_length. unfold headerSize. lia. Qed.

(** What a cut leaves of a run of frames: the frames whose bytes all arrived,
    and the part of the next one that did. *)
Fixpoint intact (k : nat) (fs : list Frame) : list Frame * list Byte :=
  match fs with
  | [] => ([], [])
  | f :: t =>
      if (length (encode f) <=? k)%nat
      then let '(g, r) := intact (k - length (encode f)) t in (f :: g, r)
      else ([], take k (encode f))
  end.

Lemma intact_split k fs g r :
  intact k fs = (g, r) -> take k (encodeAll fs) = encodeAll g ++ r.
Proof.
  revert k g r; induction fs as [|f t IH]; intros k g r; cbn [intact].
  - intros [= <- <-]. unfold encodeAll; cbn. by rewrite take_nil.
  - rewrite encodeAll_cons. destruct (Nat.leb_spec (length (encode f)) k) as [Hle|Hlt].
    + destruct (intact _ t) as [g' r'] eqn:E. intros [= <- <-]. apply IH in E.
      rewrite take_app_ge by done. by rewrite E, encodeAll_cons, app_assoc.
    + intros [= <- <-]. rewrite take_app_le by lia. reflexivity.
Qed.

Lemma intact_prefix k fs g r :
  intact k fs = (g, r) -> exists t, fs = g ++ t /\ (r <> [] -> exists f t' c, t = f :: t' /\ encode f = r ++ c /\ c <> []).
Proof.
  revert k g r; induction fs as [|f t IH]; intros k g r; cbn [intact].
  - intros [= <- <-]. exists []. done.
  - destruct (Nat.leb_spec (length (encode f)) k) as [Hle|Hlt].
    + destruct (intact _ t) as [g' r'] eqn:E. intros [= <- <-].
      destruct (IH _ _ _ E) as (t' & -> & H). exists t'. done.
    + intros [= <- <-]. exists (f :: t). split; [done|]. intros _.
      exists f, t, (drop k (encode f)). rewrite take_drop. repeat split; try done.
      intros Hd. apply (f_equal length) in Hd. rewrite length_drop in Hd. cbn [length] in Hd. lia.
Qed.

(** How the end of a source is reported after [r] bytes of an unfinished
    frame: a clean end exactly at a frame boundary is no error. *)
Definition tornError (r : list Byte) (e : ReadErr) : option ReadErr :=
  match r, e with
  | [], EOF => None
  | _ :: _, EOF => Some UnexpectedEOF
  | _, x => Some x
  end.

Lemma salvageLoop_intact g r e acc fuel :
  Forall frame_ok g -> (length g < fuel)%nat ->
  (r <> [] -> exists f c, frame_ok f /\ encode f = r ++ c /\ c <> []) ->
  salvageLoop fuel (mkSrc (encodeAll g ++ r) e) acc = Some (acc ++ (stored <$> g), tornError r e).
Proof.
  intros Hg; revert acc fuel; induction Hg as [|f g Hf Hg IH]; intros acc fuel Hfuel Hr.
  - destruct fuel as [|k]; [simpl in Hfuel; lia|]. cbn [salvageLoop encodeAll fmap list_fmap concat app].
    rewrite app_nil_r. destruct r as [|b r'].
    + replace (decode (mkSrc [] e)) with (Err e : Result ReadErr (Frame * Src)) by (by destruct e).
      by destruct e.
    + destruct Hr as (f & c & Hf & He & Hc); [done|].
      rewrite (decode_short f Hf _ c) by done. by destruct e.
  - destruct fuel as [|k]; [simpl in Hfuel; lia|]. cbn [salvageLoop].
    rewrite encodeAll_cons, <- app_assoc, decode_encode by done.
    rewrite IH by (done || simpl in *; lia).
    by rewrite fmap_cons, <- app_assoc.
Qed.

Lemma length_encodeAll fs : (length fs <= length (encodeAll fs))%nat.
Proof.
  induction fs as [|f t IH]; [done|]. rewrite encodeAll_cons, length_app.
  pose proof (length_encode_pos f). simpl. lia.
Qed.

(** C40: however a chunk's decompressed stream of frames is cut and whatever
    error follows the cut, salvaging it terminates with exactly the frames
    written in full before the cut, in order and unchanged but for their time
    being at microsecond precision, and reports no error only for a clean end at
    a frame boundary; a clean end inside a frame is reported as
    [UnexpectedEOF]. *)
Theorem salvage_prefix fs k e :
  Forall frame_ok fs ->
  exists g r t,
    fs = g ++ t /\ take k (encodeAll fs) = encodeAll g ++ r /\
    (r <> [] -> exists f t', t = f :: t' /\ (length r < length (encode f))%nat) /\
    salvageSrc (mkSrc (take k (encodeAll fs)) e) = Some (stored <$> g, tornError r e).
Proof.
  intros Hfs. destruct (intact k fs) as [g r] eqn:E.
  pose proof (intact_split _ _ _ _ E) as Hs. destruct (intact_prefix _ _ _ _ E) as (t & Ht & Hr).
  exists g, r, t. rewrite Hs. subst fs. apply Forall_app in Hfs as [Hg Ht'].
  split; [done|]. split; [done|]. split.
  - intros Hn. destruct (Hr Hn) as (f & t' & c & -> & He & Hc). exists f, t'. split; [done|].
    rewrite He, length_app. destruct c; [done|]. simpl. lia.
  - unfold salvageSrc; cbn [src_bytes].
    rewrite salvageLoop_intact; [done|done| |].
    + rewrite length_app. pose proof (length_encodeAll g). lia.
    + intros Hn. destruct (Hr Hn) as (f & t' & c & -> & He & Hc).
      exists f, c. split; [|done]. by inversion Ht'.
Qed.

(** Re-encoding salvaged frames loses nothing: the archived blob decodes to the
    frames it was made from. *)
Lemma encodeFrames_salvage compress decompress fs :
  (forall b, decompress (compress b) = Ok (mkSrc b EOF)) -> (forall b, compress b <> []) ->
  Forall frame_ok fs ->
  salvageFrames decompress (encodeFrames compress fs) = Some (stored <$> fs, None).
Proof.
  intros Hd Hc Hfs. unfold salvageFrames, encodeFrames.
  destruct (compress (encodeAll fs)) as [|b l] eqn:E; [by apply Hc in E|].
  rewrite <- E, Hd. unfold salvageSrc; cbn [src_bytes].
  rewrite <- (app_nil_r (encodeAll fs)) at 2.
  rewrite salvageLoop_intact; try done. pose proof (length_encodeAll fs). lia.
Qed.

Module FrameDemo.

Definition two : list Frame :=
  [mkFrame 1 (of_UnixMicro 1700000000000001) Stdout 0 [104; 105];
   mkFrame 2 (of_UnixMicro 1700000000000002) Stderr FlagPartial [111; 104]].

(** A chunk that lost the last byte of its second frame. *)
Lemma salvage_witness :
  exists g r t,
    two = g ++ t /\ take 51 (encodeAll two) = encodeAll g ++ r /\
    (r <> [] -> exists f t', t = f :: t' /\ (length r < length (encode f))%nat) /\
    salvageSrc (mkSrc (take 51 (encodeAll two)) EOF) = Some (stored <$> g, tornError r EOF).
Proof.
  apply (salvage_prefix two 51 EOF).
  repeat constructor; vm_compute; discriminate.
Defined.

Example salvage_torn :
  salvageSrc (mkSrc (take 51 (encodeAll two)) EOF) = Some (take 1 two, Some UnexpectedEOF).
Proof. vm_compute. reflexivity. Qed.

End FrameDemo.
