(* ===== verification/LogPipe.v ===== *)
(** Line capture: [Writer.Pipe] of src/internal/logstore/logstore.go.

    The pump reads a child's output through a fixed buffer, so one line can
    arrive as many fragments, and hands each line to the writer's [capture].
    The model keeps the fragments: [ReadSlice] is bufio's, over the data the
    reader will deliver and the error that ends it.  The writer is abstract
    here, so the result holds whatever [capture] does with a line. *)

From S2P Require Import Prelude GoRuntime LogFrame.
Open Scope Z_scope.

Definition newline : Byte := 10.
Definition carriageReturn : Byte := 13.

(** * unicode/utf8 *)
Module Utf8.

Definition within (lo hi b : Byte) : bool := (lo <=? b) && (b <=? hi).
Definition cont : Byte -> bool := within 128 191.

(** [utf8.Valid]: the well-formed sequences of one to four bytes, without
    surrogates, overlong forms or code points past U+10FFFF. *)
Fixpoint Valid (b : list Byte) : bool :=
  match b with
  | [] => true
  | x :: t =>
      if x <? 128 then Valid t else
      match t with
      | [] => false
      | y :: t2 =>
          if within 194 223 x then cont y && Valid t2 else
          match t2 with
          | [] => false
          | z :: t3 =>
              if x =? 224 then within 160 191 y && cont z && Valid t3
              else if x =? 237 then within 128 159 y && cont z && Valid t3
              else if within 225 239 x then cont y && cont z && Valid t3 else
              match t3 with
              | [] => false
              | u :: t4 =>
                  let low := if x =? 240 then within 144 191 y
                             else if x =? 244 then within 128 143 y
                             else within 241 243 x && cont y in
                  low && cont z && cont u && Valid t4
              end
          end
      end
  end.

End Utf8.

(** * bufio *)
Module Bufio.

(** How the underlying reader ends, and what [ReadSlice] reports. *)
Inductive ReaderEnd := ReaderEOF | ReaderError.
Inductive SliceErr := ErrBufferFull | ErrReader (e : ReaderEnd).

#[global] Instance ReaderEnd_eq : EqDecision ReaderEnd.
Proof. solve_decision. Defined.

#[global] Instance SliceErr_eq : EqDecision SliceErr.
Proof. solve_decision. Defined.

(** The index of the first newline among the first [n] bytes. *)
Fixpoint index_in (n : nat) (b : list Byte) : option nat :=
  match n, b with
  | S k, x :: t => if x =? newline then Some O else option_map S (index_in k t)
  | _, _ => None
  end.

(** [bufio.NewReaderSize] never uses a buffer below 16 bytes. *)
Definition bufferSize (n : Z) : nat := Z.to_nat (Z.max n 16).

(** [ReadSlice('\n')] with a buffer of [n] bytes over a reader that delivers
    [data] and then [ending]: through the newline, or a full buffer, or what is
    left with the reader's error. *)
Definition ReadSlice (n : nat) (data : list Byte) (ending : ReaderEnd) :
    list Byte * list Byte * option SliceErr :=
  match index_in n data with
  | Some i => (take (S i) data, drop (S i) data, None)
  | None =>
      if (n <=? length data)%nat then (take n data, drop n data, Some ErrBufferFull)
      else (data, [], Some (ErrReader ending))
  end.

End Bufio.
Import Bufio.

(** [bytes.TrimSuffix(line, "\r")] and the newline cut. *)
Definition TrimSuffix (line : list Byte) (c : Byte) : list Byte :=
  match reverse line with
  | x :: t => if x =? c then reverse t else line
  | [] => []
  end.

Definition hasSuffix (b : list Byte) (c : Byte) : bool :=
  match last b with Some x => x =? c | None => false end.

(** * Pipe *)
Section Pipe.
Context {W E : Type} (capture : W -> list Byte -> Z -> W * option E).

(** The effective line limit: [max_line], or the largest payload a frame may
    carry. *)
Definition lineLimit (maxLine : Z) : Z :=
  if (maxLine <=? 0) || (maxLine >? maxFramePayload) then maxFramePayload else maxLine.

(** The flags of a captured line. *)
Definition lineFlags (nl truncated : bool) (line : list Byte) : Z :=
  Z.lor (if nl then 0 else FlagPartial)
    (Z.lor (if truncated then FlagTruncated else 0)
           (if Utf8.Valid line then 0 else FlagInvalidUTF8)).

Inductive PipeEnd := PipeEOF | PipeReadError | PipeWriteError (e : E).

(** The loop of [Pipe]; [None] is a loop that has not ended. *)
Fixpoint pipeLoop (fuel : nat) (limit : Z) (buf : nat) (ending : ReaderEnd)
    (w : W) (line : list Byte) (truncated : bool) (data : list Byte) : option (W * PipeEnd) :=
  match fuel with
  | O => None
  | S k =>
      let '(fragment, rest, err) := ReadSlice buf data ending in
      let nl := hasSuffix fragment newline in
      let fragment := if nl then removelast fragment else fragment in
      let '(line, truncated) :=
        if truncated then (line, truncated) else
        let remaining := limit - blen line in
        if blen fragment >? remaining
        then (line ++ take (Z.to_nat (Z.max remaining 0)) fragment, true)
        else (line ++ fragment, false) in
      let isEOF := bool_decide (err = Some (ErrReader ReaderEOF)) in
      let continue w line truncated :=
        if isEOF then Some (w, PipeEOF) else
        match err with
        | Some (ErrReader _) => Some (w, PipeReadError)
        | _ => pipeLoop k limit buf ending w line truncated rest
        end in
      if nl || (isEOF && (0 <? blen line)) then
        let line := TrimSuffix line carriageReturn in
        let '(w, writeErr) := capture w line (lineFlags nl truncated line) in
        match writeErr with
        | Some e => Some (w, PipeWriteError e)
        | None => continue w [] false
        end
      else continue w line truncated
  end.

Definition Pipe (maxLine : Z) (ending : ReaderEnd) (w : W) (data : list Byte) : option (W * PipeEnd) :=
  let limit := lineLimit maxLine in
  pipeLoop (S (length data)) limit (bufferSize (Z.min (limit + 1) (Z.shiftl 64 10))) ending w [] false data.

End Pipe.
