(* ===== verification/LogPipeFacts.v ===== *)
(** [Pipe] splits its input into lines no matter how the read buffer fragments
    it: it captures exactly the lines of the stream, each cut to the limit. *)

From S2P Require Import Prelude GoRuntime LogFrame LogPipe.
Import Bufio.
Open Scope Z_scope.

(** * The reference: split, then cut *)

(** The complete lines of [data] after the pending bytes [cur], and the bytes
    after the last newline. *)
Fixpoint splitLines (cur data : list Byte) : list (list Byte) * list Byte :=
  match data with
  | [] => ([], cur)
  | x :: t =>
      if x =? newline then let '(ls, tl) := splitLines [] t in (cur :: ls, tl)
      else splitLines (cur ++ [x]) t
  end.

(** One captured line: at most [limit] bytes, without a trailing carriage
    return, and the flags that describe it. *)
Definition lineOf (limit : Z) (nl : bool) (content : list Byte) : list Byte * Z :=
  let line := TrimSuffix (take (Z.to_nat limit) content) carriageReturn in
  (line, lineFlags nl (limit <? blen content) line).

(** What a stream should capture: every complete line, and at a clean end the
    rest as a partial line. *)
Definition linesOf (limit : Z) (ending : ReaderEnd) (cur data : list Byte) : list (list Byte * Z) :=
  let '(ls, tl) := splitLines cur data in
  (lineOf limit true <$> ls)
    ++ match ending, tl with ReaderEOF, _ :: _ => [lineOf limit false tl] | _, _ => [] end.

Section Pipe.
Context {W Fault : Type} (capture : W -> list Byte -> Z -> W * option Fault).

Definition endOf (ending : ReaderEnd) : PipeEnd (E := Fault) :=
  match ending with ReaderEOF => PipeEOF | ReaderError => PipeReadError end.

(** Captures in order, stopping at the first write error. *)
Fixpoint feed (w : W) (ls : list (list Byte * Z)) (fin : PipeEnd) : W * PipeEnd :=
  match ls with
  | [] => (w, fin)
  | (p, fl) :: t =>
      match capture w p fl with
      | (w, Some e) => (w, PipeWriteError e)
      | (w, None) => feed w t fin
      end
  end.

(** * Fragments *)

Definition noNewline (b : list Byte) : Prop := Forall (fun x => (x =? newline) = false) b.

Lemma index_in_some n b i :
  index_in n b = Some i ->
  exists p t, b = p ++ newline :: t /\ length p = i /\ noNewline p.
Proof.
  revert b i; induction n as [|n IH]; intros [|x t] i; cbn; try done.
  destruct (x =? newline) eqn:E.
  - intros [= <-]. exists [], t. apply Z.eqb_eq in E as ->. repeat split. constructor.
  - destruct (index_in n t) as [j|] eqn:H; [|done]. intros [= <-].
    destruct (IH _ _ H) as (p & t' & -> & Hl & Hp). exists (x :: p), t'.
    split; [done|]. split; [cbn; congruence|]. by constructor.
Qed.

Lemma index_in_none n b : index_in n b = None -> noNewline (take n b).
Proof.
  revert b; induction n as [|n IH]; intros [|x t]; cbn; try (intros; constructor).
  - destruct (x =? newline) eqn:E; [done|done].
  - destruct (x =? newline); [done|]. apply IH. by destruct (index_in n t).
Qed.

Inductive Slice (data : list Byte) (ending : ReaderEnd) : list Byte * list Byte * option SliceErr -> Prop :=
| Slice_line p t : data = p ++ newline :: t -> noNewline p -> Slice data ending (p ++ [newline], t, None)
| Slice_full p t : data = p ++ t -> p <> [] -> noNewline p -> Slice data ending (p, t, Some ErrBufferFull)
| Slice_end : noNewline data -> Slice data ending (data, [], Some (ErrReader ending)).

Lemma ReadSlice_cases n data ending : (0 < n)%nat -> Slice data ending (ReadSlice n data ending).
Proof.
  intros Hn. unfold ReadSlice. destruct (index_in n data) as [i|] eqn:E.
  - apply index_in_some in E as (p & t & -> & <- & Hp).
    replace (take (S (length p)) (p ++ newline :: t)) with (p ++ [newline]).
    2:{ rewrite (cons_middle newline p t), app_assoc.
        rewrite take_app_le by (rewrite length_app; simpl; lia).
        rewrite take_ge by (rewrite length_app; simpl; lia). done. }
    replace (drop (S (length p)) (p ++ newline :: t)) with t.
    2:{ by rewrite drop_app_ge, Nat.sub_succ_l, Nat.sub_diag by lia. }
    by constructor.
  - apply index_in_none in E. destruct (Nat.leb_spec n (length data)) as [Hle|Hlt].
    + constructor; [by rewrite take_drop| |done].
      intros H. apply (f_equal length) in H. rewrite length_take in H. simpl in H. lia.
    + rewrite take_ge in E by lia. by constructor.
Qed.

Lemma splitLines_app cur p t : noNewline p -> splitLines cur (p ++ t) = splitLines (cur ++ p) t.
Proof.
  intros H; revert cur; induction H as [|x p Hx Hp IH]; intros cur; cbn.
  - by rewrite app_nil_r.
  - rewrite Hx, IH, <- app_assoc. done.
Qed.

Lemma linesOf_line limit ending cur p t :
  noNewline p ->
  linesOf limit ending cur (p ++ newline :: t) = lineOf limit true (cur ++ p) :: linesOf limit ending [] t.
Proof.
  intros Hp. unfold linesOf. rewrite splitLines_app by done. cbn.
  destruct (splitLines [] t) as [ls tl]. done.
Qed.

Lemma hasSuffix_line p : hasSuffix (p ++ [newline]) newline = true.
Proof. unfold hasSuffix. rewrite last_snoc. apply Z.eqb_refl. Qed.

Lemma hasSuffix_none p : noNewline p -> hasSuffix p newline = false.
Proof.
  intros H. unfold hasSuffix. destruct (last p) as [x|] eqn:E; [|done].
  apply last_Some in E as (q & ->). apply Forall_app in H as [_ H]. by inversion H.
Qed.

(** Appending a fragment to the line buffer keeps the first [limit] bytes of
    the line seen so far, and remembers whether there were more. *)
Lemma append_fragment limit c p :
  0 < limit ->
  (if limit <? blen c then (take (Z.to_nat limit) c, limit <? blen c)
   else if blen p >? limit - blen (take (Z.to_nat limit) c)
        then (take (Z.to_nat limit) c
                ++ take (Z.to_nat (Z.max (limit - blen (take (Z.to_nat limit) c)) 0)) p, true)
        else (take (Z.to_nat limit) c ++ p, false))
  = (take (Z.to_nat limit) (c ++ p), limit <? blen (c ++ p)).
Proof.
  intros Hl. unfold blen. rewrite length_app, Nat2Z.inj_add.
  destruct (Z.ltb_spec limit (Z.of_nat (length c))) as [H|H].
  - rewrite take_app_le by lia. f_equal. symmetry. apply Z.ltb_lt. lia.
  - rewrite (take_ge c) by lia.
    destruct (Z.gtb_spec (Z.of_nat (length p)) (limit - Z.of_nat (length c))) as [Hp|Hp].
    + rewrite take_app_ge by lia. f_equal; [|symmetry; apply Z.ltb_lt; lia].
      f_equal. f_equal. lia.
    + rewrite take_ge by (rewrite length_app; lia). f_equal. symmetry. apply Z.ltb_ge. lia.
Qed.

Lemma pipeLoop_lines fuel limit buf ending w c data :
  0 < limit -> (0 < buf)%nat -> (length data < fuel)%nat ->
  pipeLoop capture fuel limit buf ending w (take (Z.to_nat limit) c) (limit <? blen c) data
    = Some (feed w (linesOf limit ending c data) (endOf ending)).
Proof.
  intros Hl Hb. revert w c data; induction fuel as [|k IH]; intros w c data Hf; [lia|].
  cbn [pipeLoop]. destruct (ReadSlice_cases buf data ending Hb) as [p t -> Hp|p t -> Hne Hp|Hp].
  - rewrite hasSuffix_line, removelast_last, append_fragment by done. cbn [orb].
    rewrite linesOf_line by done. cbn [feed lineOf].
    destruct (capture _ _ _) as [w' [e|]]; [done|].
    rewrite bool_decide_false by done.
    rewrite length_app in Hf; cbn in Hf.
    specialize (IH w' [] t ltac:(lia)). rewrite take_nil in IH.
    replace (limit <? blen []) with false in IH by (symmetry; apply Z.ltb_ge; unfold blen; simpl; lia).
    exact IH.
  - rewrite hasSuffix_none, append_fragment by done. cbn [orb andb].
    rewrite bool_decide_false by done. cbn [andb].
    rewrite IH.
    + unfold linesOf. by rewrite splitLines_app.
    + rewrite length_app in Hf. destruct p; [done|]. simpl in Hf. lia.
  - rewrite hasSuffix_none, append_fragment by done. cbn [orb].
    unfold linesOf. rewrite <- (app_nil_r data) at 5. rewrite splitLines_app by done. cbn [splitLines].
    destruct ending; cbn [endOf fmap list_fmap app].
    + rewrite bool_decide_true by done. cbn [andb].
      destruct (c ++ data) as [|x r] eqn:Ec.
      * rewrite take_nil. unfold blen; cbn. done.
      * assert ((0 <? blen (take (Z.to_nat limit) (x :: r))) = true) as ->.
        { apply Z.ltb_lt. unfold blen. rewrite length_take. cbn [length]. lia. }
        cbn [feed]. unfold lineOf at 1. by destruct (capture _ _ _) as [w' [e|]].
    + rewrite bool_decide_false by done. cbn [andb]. done.
Qed.

Lemma lineLimit_pos maxLine : 0 < lineLimit maxLine.
Proof.
  unfold lineLimit. change maxFramePayload with 16777216.
  destruct (Z.leb_spec maxLine 0), (Z.gtb_spec maxLine 16777216); cbn; lia.
Qed.

(** C38: for every stream, every line limit and every writer, [Pipe] ends after
    handing the writer exactly the lines of the stream in order: each complete
    line, cut to the limit and without its trailing carriage return, and at a
    clean end of stream the unterminated rest as a partial line.  How the
    64 KiB read buffer fragments long lines is never visible.  It stops early
    only at the first error the writer reports. *)
Theorem pipe_lines maxLine ending w data :
  Pipe capture maxLine ending w data
    = Some (feed w (linesOf (lineLimit maxLine) ending [] data) (endOf ending)).
Proof.
  unfold Pipe. pose proof (lineLimit_pos maxLine) as Hl.
  rewrite <- (pipeLoop_lines (S (length data)) (lineLimit maxLine)
               (bufferSize (Z.min (lineLimit maxLine + 1) (Z.shiftl 64 10)))); [|done| |lia].
  - rewrite take_nil. f_equal.
    symmetry. apply Z.ltb_ge. unfold blen; simpl; lia.
  - unfold bufferSize. lia.
Qed.

End Pipe.

(** The reference loses nothing: the lines joined by newlines are the data. *)
Lemma splitLines_join cur data ls tl :
  splitLines cur data = (ls, tl) -> concat ((fun l => l ++ [newline]) <$> ls) ++ tl = cur ++ data.
Proof.
  revert cur ls tl; induction data as [|x t IH]; intros cur ls tl; cbn.
  - intros [= <- <-]. by rewrite app_nil_r.
  - destruct (x =? newline) eqn:Hx.
    + destruct (splitLines [] t) as [ls' tl'] eqn:E. intros [= <- <-]. cbn.
      rewrite <- app_assoc, (IH _ _ _ E), <- app_assoc. by apply Z.eqb_eq in Hx as ->.
    + intros H. rewrite (IH _ _ _ H), <- app_assoc. done.
Qed.

Lemma length_TrimSuffix l c : (length (TrimSuffix l c) <= length l)%nat.
Proof.
  unfold TrimSuffix. destruct (reverse l) as [|x t] eqn:E; [simpl; lia|].
  apply (f_equal reverse) in E. rewrite reverse_involutive in E. subst l.
  destruct (x =? c); [|lia]. rewrite !length_reverse. simpl. lia.
Qed.

(** A captured line always fits a frame that a reader accepts. *)
Lemma linesOf_bound maxLine ending cur data p fl :
  (p, fl) ∈ linesOf (lineLimit maxLine) ending cur data -> blen p <= maxFramePayload.
Proof.
  assert (Hlim : lineLimit maxLine <= maxFramePayload).
  { unfold lineLimit. destruct (Z.leb_spec maxLine 0), (Z.gtb_spec maxLine maxFramePayload); cbn; lia. }
  assert (Hone : forall nl c, blen (fst (lineOf (lineLimit maxLine) nl c)) <= maxFramePayload).
  { intros nl c. pose proof (lineLimit_pos maxLine). unfold lineOf, blen; cbn [fst].
    pose proof (length_TrimSuffix (take (Z.to_nat (lineLimit maxLine)) c) carriageReturn) as H1.
    rewrite length_take in H1. lia. }
  unfold linesOf. destruct (splitLines cur data) as [ls tl]. intros H.
  apply elem_of_app in H as [H|H].
  - apply list_elem_of_fmap in H as (c & Hc & _). specialize (Hone true c). by rewrite <- Hc in Hone.
  - destruct ending, tl as [|x r]; try (by apply elem_of_nil in H).
    apply list_elem_of_singleton in H. specialize (Hone false (x :: r)). by rewrite <- H in Hone.
Qed.

Module PipeDemo.

(** A writer that accepts every line. *)
Definition keep (w : list (list Byte * Z)) (p : list Byte) (fl : Z) :
    list (list Byte * Z) * option unit := (w ++ [(p, fl)], None).

(** "ab\r\n" and then an unterminated run of 20 bytes, longer than the limit of
    5 and than the smallest read buffer. *)
Example pipe_example :
  Pipe keep 5 ReaderEOF [] ([97; 98; 13; 10] ++ replicate 20 120)
    = Some ([([97; 98], 0); (replicate 5 120, Z.lor FlagPartial FlagTruncated)], PipeEOF).
Proof. vm_compute. reflexivity. Qed.

Example utf8_example :
  Utf8.Valid [226; 130; 172] = true /\ Utf8.Valid [237; 160; 128] = false /\ Utf8.Valid [192; 128] = false.
Proof. vm_compute. done. Qed.

End PipeDemo.
