(* ===== verification/LogWriter.v ===== *)
(** The log writer of one run ([Writer] of src/internal/logstore/logstore.go):
    chunk rotation and sealing, the buffer limit with its two policies, and
    degraded capture with lazy recovery (ADR-8 2A).

    The state is the [Writer] record together with what the run has on disk.
    Every system call that may fail asks an oracle, [lw_io]: a list of outcomes,
    one per call in the order the code makes them, success once it is
    exhausted.  A theorem that holds for every oracle holds for every pattern
    of disk failures. *)

From S2P Require Import Prelude GoRuntime LogFrame.
Open Scope Z_scope.

(** * Data *)

Inductive WErr :=
| errWriterClosed
| ErrNoChunk
| errOpenChunk (n : Z)
| errFinalize (n : Z)
| errIndex (n : Z)
| errEncoder
| errStore
| errRemove
| errMkdir
| errSync
| errOpenCause
| errArchiveDB
| errCanceled
| errChunkQuarantined.

#[global] Instance WErr_eq : EqDecision WErr.
Proof. solve_decision. Defined.

Record chunkMeta := mkMeta {
  Number : Z;
  First : Z;
  Last : Z;
  Bytes : Z;
  Raw : Z;
  Archived : bool;
}.

Record index := mkIndex {
  ix_Job : string;
  ix_Kind : string;
  ix_Version : Z;
  ix_Chunks : list chunkMeta;
  ix_Final : bool;
  ix_Truncated : bool;
  ix_DroppedFrames : Z;
  ix_DroppedBytes : Z;
  ix_SyncFailures : Z;
}.

#[global] Instance index_eta : Eta index := fun i =>
  mkIndex (ix_Job i) (ix_Kind i) (ix_Version i) (ix_Chunks i) (ix_Final i) (ix_Truncated i)
    (ix_DroppedFrames i) (ix_DroppedBytes i) (ix_SyncFailures i).

(** A chunk file: the frames that decode from it.  A failed write tears the
    stream, and nothing after the tear decodes. *)
Record FileC := mkFile { fc_frames : list Frame; fc_torn : bool }.

Definition appendFrame (f : Frame) (c : FileC) : FileC :=
  if fc_torn c then c else mkFile (fc_frames c ++ [f]) false.
Definition tear (c : FileC) : FileC := mkFile (fc_frames c) true.

(** A run's buffer directory: its chunk files by number, oldest first, and the
    installed index; and the copies of its damaged chunks in the quarantine. *)
Record Buffer := mkBuffer {
  b_dir : bool;
  b_files : list (Z * FileC);
  b_index : option index;
  b_quarantine : list (Z * FileC);
}.

#[global] Instance Buffer_eta : Eta Buffer := fun b => mkBuffer (b_dir b) (b_files b) (b_index b) (b_quarantine b).

Definition hasFile (n : Z) (l : list (Z * FileC)) : bool := existsb (fun p => fst p =? n) l.
Definition removeFile (n : Z) (l : list (Z * FileC)) : list (Z * FileC) :=
  List.filter (fun p => negb (fst p =? n)) l.
Definition updateFile (n : Z) (g : FileC -> FileC) (l : list (Z * FileC)) : list (Z * FileC) :=
  (fun p => if fst p =? n then (fst p, g (snd p)) else p) <$> l.
Definition findFile (n : Z) (l : list (Z * FileC)) : option FileC :=
  snd <$> List.find (fun p => fst p =? n) l.

(** [WriterOptions] and the identity of the run. *)
Record WriterOptions := mkOptions { MaxBytes : Z; MaxLine : Z; DropNew : bool }.

Record Writer := mkWriter {
  job : string;
  kind : string;
  maxBytes : Z;
  maxLine : Z;
  dropNew : bool;
  frameSync : bool;
  file : bool;            (* file != nil *)
  enc : bool;             (* enc != nil *)
  chunk : Z;
  chunkRaw : Z;
  chunkFirst : Z;
  seq : Z;
  lastStored : Z;
  total : Z;
  buffered : Z;
  unsynced : Z;
  truncated : bool;
  idx : index;
  closed : bool;
  closeErr : option WErr;
  chunkErr : option WErr;
  chunkIndexOnly : bool;
  degraded : bool;
  degradedErr : option WErr;
  retryAt : Time;
  retryDelay : Duration;
  episodeFrames : Z;
  episodeBytes : Z;
  droppedFrames : Z;
  droppedBytes : Z;
  syncFailures : Z;
  lastSyncErr : option WErr;
}.

#[global] Instance Writer_eta : Eta Writer := fun w =>
  mkWriter (job w) (kind w) (maxBytes w) (maxLine w) (dropNew w) (frameSync w) (file w) (enc w)
    (chunk w) (chunkRaw w) (chunkFirst w) (seq w) (lastStored w) (total w) (buffered w) (unsynced w)
    (truncated w) (idx w) (closed w) (closeErr w) (chunkErr w) (chunkIndexOnly w) (degraded w)
    (degradedErr w) (retryAt w) (retryDelay w) (episodeFrames w) (episodeBytes w) (droppedFrames w)
    (droppedBytes w) (syncFailures w) (lastSyncErr w).

(** The part of [Store] a writer updates: its counters, whether the writer is
    in the dirty set, the seals deferred to the group sync and the pressure
    hints raised. *)
Record StoreSide := mkStoreSide {
  ss_captureFailures : Z;
  ss_droppedFrames : Z;
  ss_droppedBytes : Z;
  ss_syncFailures : Z;
  ss_dirty : bool;
  ss_syncMaxDirty : Z;
  ss_sealed : list Z;
  ss_signals : Z;
}.

#[global] Instance StoreSide_eta : Eta StoreSide := fun x =>
  mkStoreSide (ss_captureFailures x) (ss_droppedFrames x) (ss_droppedBytes x) (ss_syncFailures x)
    (ss_dirty x) (ss_syncMaxDirty x) (ss_sealed x) (ss_signals x).

(** The run's part of the log archive: its rows of [log_chunks] by number
    ([logdb.Chunk]: a blob, or the size of an archive file) and its files in
    the archive directory. *)
Record Row := mkRow {
  row_First : Z;
  row_Last : Z;
  row_RawBytes : Z;
  row_Blob : option FileC;
  row_FileBytes : Z;
}.

Record Archive := mkArchive { a_rows : list (Z * Row); a_files : list (Z * FileC) }.

#[global] Instance Archive_eta : Eta Archive := fun a => mkArchive (a_rows a) (a_files a).

Record LW := mkLW {
  lw_w : Writer;
  lw_buf : Buffer;
  lw_db : Archive;
  lw_st : StoreSide;
  lw_io : list bool;
}.

#[global] Instance LW_eta : Eta LW := fun s =>
  mkLW (lw_w s) (lw_buf s) (lw_db s) (lw_st s) (lw_io s).

(** What the writer gets from libraries: the compressed size of a chunk (zstd)
    and the text of the recovery line (fmt with an error's message). *)
Class LogEnv := {
  compressedSize : list Frame -> Z;
  summaryText : Z -> Z -> option WErr -> list Byte;
}.

(** * The monad: state and oracle *)

Definition M (A : Type) : Type := LW -> A * LW.
Definition ret {A} (a : A) : M A := fun s => (a, s).
Definition bind {A B} (m : M A) (k : A -> M B) : M B := fun s => let '(a, s') := m s in k a s'.

Declare Scope lw_scope.
Delimit Scope lw_scope with lw.
Notation "'let*' x := m 'in' k" := (bind m (fun x => k))
  (at level 10, x name, k at level 200) : lw_scope.
Notation "m ;; k" := (bind m (fun _ => k)) (at level 100, right associativity) : lw_scope.
Open Scope lw_scope.

(** The outcome of the next system call. *)
Definition io : M bool := fun s =>
  match lw_io s with
  | [] => (true, s)
  | b :: t => (b, s <| lw_io := t |>)
  end.

Definition getW : M Writer := fun s => (lw_w s, s).
Definition getBuf : M Buffer := fun s => (lw_buf s, s).
Definition getSt : M StoreSide := fun s => (lw_st s, s).
Definition modW (f : Writer -> Writer) : M unit := fun s => (tt, s <| lw_w ::= f |>).
Definition modBuf (f : Buffer -> Buffer) : M unit := fun s => (tt, s <| lw_buf ::= f |>).
Definition getDB : M Archive := fun s => (lw_db s, s).
Definition modDB (f : Archive -> Archive) : M unit := fun s => (tt, s <| lw_db ::= f |>).
Definition modSt (f : StoreSide -> StoreSide) : M unit := fun s => (tt, s <| lw_st ::= f |>).

Definition when (b : bool) (m : M unit) : M unit := if b then m else ret tt.

Section Writer.
Context `{LogEnv}.

(** * The index *)

(** The body of [writeIndexSync] after the fields are set: write a temporary
    file, rename it over the index and, with [sync], make both durable.  The
    rename installs the index even when the directory sync then fails. *)
Definition installIndex (sync : bool) : M (option WErr) :=
  let fail := ret (Some errStore) in
  let* opened := io in
  if negb opened then fail else
  let* written := io in
  let* synced := (if written && sync then io else ret true) in
  let* closedOk := io in
  if negb (written && synced && closedOk) then fail else
  let* renamed := io in
  if negb renamed then fail else
  let* w := getW in
  modBuf (fun b => b <| b_index := Some (idx w) |>) ;;
  if negb sync then ret None else
  let* dirOpen := io in
  if negb dirOpen then fail else
  let* dirSync := io in
  let* dirClose := io in
  if dirSync && dirClose then ret None else fail.

Definition writeIndexSync (sync : bool) : M (option WErr) :=
  modW (fun w => w <| idx := mkIndex (job w) (kind w) Version (ix_Chunks (idx w)) (ix_Final (idx w))
                                (truncated w) (droppedFrames w) (droppedBytes w) (syncFailures w) |>) ;;
  installIndex sync.

Definition writeIndex : M (option WErr) := writeIndexSync true.

(** * Chunks *)

Definition signalPressure : M unit := modSt (fun x => x <| ss_signals ::= Z.succ |>).
Definition deferSeal (n : Z) : M unit := modSt (fun x => x <| ss_sealed ::= (fun l => l ++ [n]) |>).

Definition setChunkErr (e : WErr) (indexOnly : bool) : M unit :=
  modW (fun w => w <| chunkErr := Some e |> <| chunkIndexOnly := indexOnly |>).

Definition addMeta (m : chunkMeta) : M unit :=
  modW (fun w => w <| idx := (idx w) <| ix_Chunks := ix_Chunks (idx w) ++ [m] |> |>).

(** The size [Stat] reports for a chunk file. *)
Definition fileSize (n : Z) (b : Buffer) : Z :=
  match findFile n (b_files b) with Some c => compressedSize (fc_frames c) | None => 0 end.

Definition finishChunk : M (option WErr) :=
  let* w := getW in
  if negb (file w) then
    (match chunkErr w with
     | None =>
         when (enc w)
           (let* err := writeIndex in
            match err with
            | Some _ => setChunkErr (errIndex (chunk w)) true
            | None => ret tt
            end)
     | Some _ => ret tt
     end) ;;
    let* w := getW in
    ret (chunkErr w)
  else
    let* encOk := io in
    let* room := (if frameSync w then ret false else io) in
    let* syncOk := (if room then ret true else io) in
    let* statOk := io in
    let* closeOk := io in
    modW (fun w => w <| file := false |>) ;;
    if negb (encOk && syncOk && statOk && closeOk) then
      setChunkErr (errFinalize (chunk w)) false ;;
      ret (Some (errFinalize (chunk w)))
    else
      let* b := getBuf in
      when (chunkFirst w <=? seq w)
        (addMeta (mkMeta (chunk w) (chunkFirst w) (seq w) (fileSize (chunk w) b) (chunkRaw w) false)) ;;
      let* indexErr := writeIndexSync (negb room) in
      when room (deferSeal (chunk w)) ;;
      match indexErr with
      | Some _ => setChunkErr (errIndex (chunk w)) true
      | None => ret tt
      end ;;
      let* w := getW in
      ret (chunkErr w).

(** The clean-up of a chunk file that is not going to be used. *)
Definition discardFile (n : Z) : M unit :=
  let* _ := io in
  let* removed := io in
  when removed (modBuf (fun b => b <| b_files ::= removeFile n |>)).

Definition rotate : M (option WErr) :=
  let* w := getW in
  match chunkErr w with
  | Some e => ret (Some e)
  | None =>
      let next := chunk w + 1 in
      let* b := getBuf in
      let* opened := io in
      if negb (opened && b_dir b && negb (hasFile next (b_files b))) then ret (Some (errOpenChunk next)) else
      modBuf (fun b => b <| b_files ::= (fun l => l ++ [(next, mkFile [] false)]) |>) ;;
      let* err := (if enc w && file w then finishChunk else ret None) in
      match err with
      | Some e =>
          discardFile next ;;
          modW (fun w => w <| chunkErr := Some e |>) ;;
          ret (Some e)
      | None =>
          let* encOk := (if enc w then ret true else io) in
          if negb encOk then discardFile next ;; ret (Some errEncoder) else
          modW (fun w => w <| chunk := next |> <| file := true |> <| enc := true |> <| chunkRaw := 0 |>
                           <| chunkFirst := seq w + 1 |> <| unsynced := 0 |>) ;;
          signalPressure ;;
          ret None
      end
  end.

(** * Writing *)

(** The eviction loop of the drop_old policy: remove the oldest sealed chunks
    until the frame fits.  It recurses on the chunks the index lists. *)
Fixpoint evict (chunks : list chunkMeta) (size : Z) : M (option WErr) :=
  match chunks with
  | [] => ret None
  | oldest :: rest =>
      let* w := getW in
      if negb (buffered w + size >? maxBytes w) then ret None else
      let* removed := io in
      if negb removed then ret (Some errRemove) else
      modBuf (fun b => b <| b_files ::= removeFile (Number oldest) |>) ;;
      modW (fun w => w <| total ::= (fun t => t - Raw oldest) |> <| buffered ::= (fun t => t - Raw oldest) |>
                       <| idx := (idx w) <| ix_Chunks := rest |> |>) ;;
      evict rest size
  end.

Definition markTruncated : M unit := modW (fun w => w <| truncated := true |>).

(** What [writeLocked] decides before the frame is encoded: refuse it under the
    buffer limit, or make room for it. *)
Inductive Room := Refused | Failed (e : WErr) | Fits.

Definition makeRoom (size : Z) : M Room :=
  let* w := getW in
  if (0 <? maxBytes w) && (buffered w + size >? maxBytes w) then
    if dropNew w || (size >? maxBytes w) then markTruncated ;; ret Refused else
    let* err := (if 0 <? chunkRaw w then rotate else ret None) in
    match err with
    | Some e => ret (Failed e)
    | None =>
        markTruncated ;;
        let* w := getW in
        let* err := evict (ix_Chunks (idx w)) size in
        match err with Some e => ret (Failed e) | None => ret Fits end
    end
  else ret Fits.

(** Encode and flush one frame into the open chunk. *)
Definition storeFrame (now : Time) (stream : Z) (flags : Z) (payload : list Byte) : M (Result WErr bool) :=
  modW (fun w => w <| seq ::= Z.succ |>) ;;
  let* w := getW in
  let f := mkFrame (seq w) now stream flags payload in
  let* encoded := io in
  let* flushed := (if encoded then io else ret false) in
  if negb (encoded && flushed) then
    modBuf (fun b => b <| b_files ::= updateFile (chunk w) tear |>) ;;
    ret (Err errStore)
  else
    modBuf (fun b => b <| b_files ::= updateFile (chunk w) (appendFrame f) |>) ;;
    modW (fun w => w <| lastStored := seq w |> <| unsynced ::= Z.add (frameSize f) |>
                     <| chunkRaw ::= Z.add (frameSize f) |> <| total ::= Z.add (frameSize f) |>
                     <| buffered ::= Z.add (frameSize f) |>) ;;
    if frameSync w then ret (Ok true) else
    when (unsynced w =? 0) (modSt (fun x => x <| ss_dirty := true |>)) ;;
    let* w := getW in
    let* st := getSt in
    ret (Ok (ss_syncMaxDirty st <=? unsynced w)).

(** The end of [writeLocked]: start a new chunk when this one is full, then
    store the frame. *)
Definition writeFitted (now : Time) (stream flags : Z) (payload : list Byte) : M (Result WErr bool) :=
  let* w := getW in
  let* err := (if (chunkRaw w + (24 + blen payload) >? chunkLimit) && (0 <? chunkRaw w) then rotate else ret None) in
  match err with
  | Some e => ret (Err e)
  | None => storeFrame now stream flags payload
  end.

Definition writeRoomed (now : Time) (stream flags : Z) (payload : list Byte) : M (Result WErr bool) :=
  let* room := makeRoom (24 + blen payload) in
  match room with
  | Refused => ret (Ok false)
  | Failed e => ret (Err e)
  | Fits => writeFitted now stream flags payload
  end.

Definition writeLocked (now : Time) (stream : Z) (payload : list Byte) (flags : Z) : M (Result WErr bool) :=
  let* w := getW in
  if closed w then ret (Err errWriterClosed) else
  match chunkErr w with
  | Some e => ret (Err e)
  | None =>
      if negb (file w && enc w) then ret (Err ErrNoChunk) else
      when (negb (Z.land flags FlagTruncated =? 0)) markTruncated ;;
      if (blen payload >? maxLine w) && (0 <? maxLine w) then
        markTruncated ;;
        writeRoomed now stream (Z.lor flags FlagTruncated) (take (Z.to_nat (maxLine w)) payload)
      else writeRoomed now stream flags payload
  end.

(** * Degraded capture *)

Definition captureRetryMin : Duration := Second.
Definition captureRetryMax : Duration := 30 * Second.

Definition discard (payload : Z) : M unit :=
  let size := payload + 24 in
  modW (fun w => w <| droppedFrames ::= Z.succ |> <| droppedBytes ::= Z.add size |>
                   <| episodeFrames ::= Z.succ |> <| episodeBytes ::= Z.add size |> <| truncated := true |>) ;;
  modSt (fun x => x <| ss_droppedFrames ::= Z.succ |> <| ss_droppedBytes ::= Z.add size |>).

Definition backoff (now : Time) : M unit :=
  modW (fun w => w <| retryAt := GoRuntime.Add now (retryDelay w) |>
                   <| retryDelay := Z.min (2 * retryDelay w) captureRetryMax |>).

Definition enterDegraded (now : Time) (e : WErr) : M unit :=
  let* w := getW in
  when (negb (degraded w))
    (modW (fun w => w <| degraded := true |> <| retryDelay := captureRetryMin |>) ;;
     modSt (fun x => x <| ss_captureFailures ::= Z.succ |>) ;;
     signalPressure) ;;
  modW (fun w => w <| degradedErr := Some e |> <| truncated := true |>) ;;
  backoff now.

Definition indexAbandonedChunk : M unit :=
  let* w := getW in
  if negb (enc w) || (chunkRaw w =? 0) || (lastStored w <? chunkFirst w) then ret tt else
  if match last (ix_Chunks (idx w)) with Some m => Number m =? chunk w | None => false end then ret tt else
  let* b := getBuf in
  let* statOk := io in
  let size := if statOk then fileSize (chunk w) b else 0 in
  addMeta (mkMeta (chunk w) (chunkFirst w) (lastStored w) size (chunkRaw w) false) ;;
  modW (fun w => w <| chunkRaw := 0 |>).

(** [reopenChunk], in its three parts: clear the error of a chunk that is sealed
    but for its index, let go of the damaged stream, start a fresh chunk. *)
Definition clearChunkErr : M (option WErr) :=
  let* w := getW in
  match chunkErr w with
  | None => ret None
  | Some e =>
      let* err := (if chunkIndexOnly w then writeIndex else ret None) in
      match err with
      | Some _ => ret (Some e)
      | None => modW (fun w => w <| chunkErr := None |> <| chunkIndexOnly := false |>) ;; ret None
      end
  end.

Definition abandonChunk : M unit :=
  let* w := getW in
  when (file w) (let* _ := io in modW (fun w => w <| file := false |>)) ;;
  indexAbandonedChunk.

Definition freshChunk : M (option WErr) :=
  let* b := getBuf in
  let* made := (if b_dir b then ret true else io) in
  if negb made then ret (Some errMkdir) else
  modBuf (fun b => b <| b_dir := true |>) ;;
  rotate.

Definition reopenChunk : M (option WErr) :=
  let* blocked := clearChunkErr in
  match blocked with
  | Some e => ret (Some e)
  | None => abandonChunk ;; freshChunk
  end.

Definition recoverLocked (now : Time) : M bool :=
  let* err := reopenChunk in
  match err with
  | Some e => modW (fun w => w <| degradedErr := Some e |>) ;; backoff now ;; ret false
  | None =>
      let* w := getW in
      let* r := writeLocked now System (summaryText (episodeFrames w) (episodeBytes w) (degradedErr w)) FlagTruncated in
      match r with
      | Err e => enterDegraded now e ;; ret false
      | Ok _ =>
          modW (fun w => w <| degraded := false |> <| degradedErr := None |>
                           <| episodeFrames := 0 |> <| episodeBytes := 0 |>) ;;
          ret true
      end
  end.

Definition captureLocked (now : Time) (stream : Z) (payload : list Byte) (flags : Z) : M (Result WErr bool) :=
  let* w := getW in
  if closed w then ret (Err errWriterClosed) else
  let* ready :=
    (if degraded w then
       if Before now (retryAt w) then ret false else recoverLocked now
     else ret true) in
  if negb ready then discard (blen payload) ;; ret (Ok false) else
  let* r := writeLocked now stream payload flags in
  match r with
  | Err e => enterDegraded now e ;; discard (blen payload) ;; ret (Ok false)
  | Ok needSync => ret (Ok needSync)
  end.

(** * Sync, the entry points and Close *)

(** [Sync]: [errors.Is(err, os.ErrClosed)] is a file sealed meanwhile. *)
Definition Sync : M (option WErr) :=
  let* w := getW in
  if closed w || negb (file w) || (unsynced w =? 0) then ret (lastSyncErr w) else
  modW (fun w => w <| unsynced := 0 |>) ;;
  let* ok := io in
  let* wasClosed := (if ok then ret false else io) in
  if wasClosed then ret None else
  modW (fun w => w <| lastSyncErr := if ok then None else Some errSync |>) ;;
  if ok then ret None else
  modW (fun w => w <| syncFailures ::= Z.succ |> <| truncated := true |>) ;;
  modSt (fun x => x <| ss_syncFailures ::= Z.succ |>) ;;
  ret (Some errSync).

Definition Write (now : Time) (stream : Z) (payload : list Byte) (flags : Z) : M (option WErr) :=
  let* r := writeLocked now stream payload flags in
  match r with
  | Err e => ret (Some e)
  | Ok false => ret None
  | Ok true =>
      let* syncErr := Sync in
      let* w := getW in
      ret (if frameSync w then syncErr else None)
  end.

Definition capture (now : Time) (stream : Z) (payload : list Byte) (flags : Z) : M (option WErr) :=
  let* r := captureLocked now stream payload flags in
  match r with
  | Err e => ret (Some e)
  | Ok false => ret None
  | Ok true => let* _ := Sync in ret None
  end.

Definition Close (now : Time) : M (option WErr) :=
  let* w := getW in
  if closed w then ret (closeErr w) else
  when (degraded w) (let* _ := recoverLocked now in ret tt) ;;
  modW (fun w => w <| closed := true |> <| idx := (idx w) <| ix_Final := true |> |>) ;;
  let* err := finishChunk in
  modW (fun w => w <| closeErr := err |>) ;;
  ret err.

(** [sealForArchive] with an archive attached: the number of the newest sealed
    chunk, 0 for a closed writer. *)
Definition sealForArchive : M (Result WErr Z) :=
  let* w := getW in
  if closed w then ret (Ok 0) else
  let* err := (if 0 <? chunkRaw w then rotate else ret None) in
  match err with
  | Some e => ret (Err e)
  | None => let* w := getW in ret (Ok (chunk w - 1))
  end.

(** * Opening *)

Definition freshWriter (jobName kindName : string) (opt : WriterOptions) (fsync : bool) : Writer :=
  mkWriter jobName kindName (MaxBytes opt) (MaxLine opt) (DropNew opt) fsync false false 0 0 0 0 0 0 0 0 false
    (mkIndex EmptyString EmptyString 0 [] false false 0 0 0) false None None false false None zeroTime 0 0 0 0 0 0 None.

(** [Store.Open] after the run lock: the directory, then the first chunk.  A
    failed open registers no writer; the caller opens a degraded one. *)
Definition Open : M (option WErr) :=
  let* made := io in
  if negb made then ret (Some errMkdir) else
  modBuf (fun b => b <| b_dir := true |>) ;;
  rotate.

Definition OpenDegraded (now : Time) (cause : WErr) : M unit := enterDegraded now cause.

(** How the executor's [launch] opens a run's log: storage trouble never
    prevents execution. *)
Definition openWriter (now : Time) (jobName kindName : string) (opt : WriterOptions) (fsync : bool) : M unit :=
  modW (fun _ => freshWriter jobName kindName opt fsync) ;;
  let* err := Open in
  match err with
  | None => ret tt
  | Some cause =>
      modW (fun _ => freshWriter jobName kindName opt fsync) ;;
      OpenDegraded now cause
  end.

End Writer.
