(* ===== verification/LogArchive.v ===== *)
(** The checkpoint of a long-running worker's log: [Writer.FlushContext] and
    the archive transfer it makes ([archiveWriter], [archiveBatchLocked],
    [syncMoves], [placeFiles] of src/internal/logstore/archive.go), with the
    upsert of [logdb.putChunks].

    A batch is committed to the archive database before any buffer file is
    removed; large chunks are renamed into the archive directory after their
    row is committed.  The transfer shares the writer's state and its oracle. *)

From S2P Require Import Prelude GoRuntime LogFrame LogWriter.
Open Scope Z_scope.
Open Scope lw_scope.

Definition archiveBatchBytes : Z := Z.shiftl 8 20.
Definition archiveBatchChunks : nat := 64.
Definition fileChunkMin : Z := Z.shiftl 64 10.

(** * The archive database *)

(** [INSERT ... ON CONFLICT(run_id,number) DO UPDATE]: the row is replaced in
    place, never duplicated; rows are kept by number. *)
Fixpoint upsertRow (n : Z) (r : Row) (rows : list (Z * Row)) : list (Z * Row) :=
  match rows with
  | [] => [(n, r)]
  | (m, x) :: t =>
      if m =? n then (n, r) :: t
      else if n <? m then (n, r) :: rows
      else (m, x) :: upsertRow n r t
  end.

Definition putRows (chunks : list (Z * Row)) (rows : list (Z * Row)) : list (Z * Row) :=
  fold_left (fun acc c => upsertRow (fst c) (snd c) acc) chunks rows.

(** [PutChunks]: one transaction, all or nothing. *)
Definition PutChunks (chunks : list (Z * Row)) : M bool :=
  match chunks with
  | [] => ret true
  | _ =>
      let* committed := io in
      when committed (modDB (fun a => a <| a_rows ::= putRows chunks |>)) ;;
      ret committed
  end.

Section Archive.
Context `{LogEnv}.

(** * Collecting a batch *)

(** The loop of [archiveBatchLocked] over the indexed chunks: the rows to
    commit and the chunks to rename, oldest first. *)
Fixpoint collect (through : Z) (chunks : list chunkMeta) (pending : list (Z * Row)) (moves : list Z) (size : Z) :
    M (option (list (Z * Row) * list Z)) :=
  match chunks with
  | [] => ret (Some (pending, moves))
  | m :: rest =>
      if (through <? Number m) || (archiveBatchChunks <=? length pending)%nat then ret (Some (pending, moves)) else
      if fileChunkMin <=? Bytes m then
        collect through rest (pending ++ [(Number m, mkRow (First m) (Last m) (Raw m) None (Bytes m))])
                (moves ++ [Number m]) size
      else if (0 <? length pending)%nat && (size + Bytes m >? archiveBatchBytes) then ret (Some (pending, moves)) else
      let* b := getBuf in
      let* readOk := io in
      match (if readOk then findFile (Number m) (b_files b) else None) with
      | None => ret None
      | Some blob =>
          collect through rest (pending ++ [(Number m, mkRow (First m) (Last m) (Raw m) (Some blob) 0)])
                  moves (size + compressedSize (fc_frames blob))
      end
  end.

(** [syncMoves]: a chunk whose deferred seal is still queued stays queued; one
    of an earlier process is synced now.  The oracle says which. *)
Fixpoint syncMoves (moves : list Z) : M bool :=
  match moves with
  | [] => ret true
  | n :: t =>
      let* st := getSt in
      let* ok :=
        (if existsb (Z.eqb n) (ss_sealed st) then ret true else
         let* statOk := io in
         if negb statOk then ret false else
         let* foreign := io in
         if foreign then io else ret true) in
      let* rest := syncMoves t in
      ret (ok && rest)
  end.

(** * Placing files *)

(** [renameMove]: from the buffer into the archive directory. *)
Definition renameMove (n : Z) : M bool :=
  let* b := getBuf in
  let* ok := io in
  match (if ok then findFile n (b_files b) else None) with
  | None => ret false
  | Some c =>
      modBuf (fun b => b <| b_files ::= removeFile n |>) ;;
      modDB (fun a => a <| a_files ::= (fun l => removeFile n l ++ [(n, c)]) |>) ;;
      ret true
  end.

Fixpoint renameAll (moves : list Z) : M bool :=
  match moves with
  | [] => ret true
  | n :: t =>
      let* ok := renameMove n in
      if ok then renameAll t else ret false
  end.

(** The fallback of [placeFiles]: the chunks still in the buffer become blobs.
    [None] is a buffer file that cannot be read. *)
Fixpoint blobsOf (pending : list (Z * Row)) (moves : list Z) : M (option (list (Z * Row))) :=
  match pending with
  | [] => ret (Some [])
  | (n, r) :: t =>
      let* b := getBuf in
      if negb (existsb (Z.eqb n) moves) then blobsOf t moves else
      match findFile n (b_files b) with
      | None => blobsOf t moves
      | Some c =>
          let* readOk := io in
          if negb readOk then ret None else
          let* rest := blobsOf t moves in
          ret (option_map (cons (n, mkRow (row_First r) (row_Last r) (row_RawBytes r) (Some c) 0)) rest)
      end
  end.

Definition placeFiles (pending : list (Z * Row)) (moves : list Z) : M (option WErr) :=
  match moves with
  | [] => ret None
  | _ =>
      let* made := io in
      let* moved := (if made then renameAll moves else ret false) in
      let* done := (if moved then
                      let* foreign := io in
                      if foreign then io else ret true
                    else ret false) in
      if done then ret None else
      let* blobs := blobsOf pending moves in
      match blobs with
      | None => ret (Some errStore)
      | Some l => let* put := PutChunks l in ret (if put then None else Some errArchiveDB)
      end
  end.

(** * One batch *)

(** The removal loop: each removed file frees its raw bytes; it reports how
    many were removed and whether it stopped at an error. *)
Fixpoint removeArchived (pending : list (Z * Row)) : M (nat * bool) :=
  match pending with
  | [] => ret (O, true)
  | (n, r) :: t =>
      let* ok := io in
      if negb ok then ret (O, false) else
      modBuf (fun b => b <| b_files ::= removeFile n |>) ;;
      modW (fun w => w <| buffered ::= (fun x => x - row_RawBytes r) |>) ;;
      let* rest := removeArchived t in
      ret (S (fst rest), snd rest)
  end.

(** [archiveBatchLocked]: [Err] for a failed batch, otherwise whether more
    chunks of the checkpoint remain.  [alive] is the context. *)
Definition archiveBatch (alive : bool) (through : Z) : M (Result WErr bool) :=
  if negb alive then ret (Err errStore) else
  let* w := getW in
  let* batch := collect through (ix_Chunks (idx w)) [] [] 0 in
  match batch with
  | None => ret (Err errStore)
  | Some ([], _) => ret (Ok false)
  | Some (pending, moves) =>
      let* synced := syncMoves moves in
      if negb synced then ret (Err errStore) else
      let* committed := PutChunks pending in
      if negb committed then ret (Err errStore) else
      let* placed := placeFiles pending moves in
      match placed with Some e => ret (Err e) | None =>
      let* removed := removeArchived pending in
      modW (fun w => w <| idx := (idx w) <| ix_Chunks := drop (fst removed) (ix_Chunks (idx w)) |> |>) ;;
      let* indexErr := writeIndex in
      let* w := getW in
      let more := match ix_Chunks (idx w) with m :: _ => Number m <=? through | [] => false end in
      if snd removed && negb (bool_decide (is_Some indexErr)) then ret (Ok more) else ret (Err errRemove)
      end
  end.

(** [archiveWriter]: batches until none of the checkpoint's chunks is left.
    Every batch that asks for another one removed a chunk of the index, so the
    number of indexed chunks bounds the loop.  [alive] says, per batch, whether
    the context still holds. *)
Fixpoint archiveWriter (fuel : nat) (alive : nat -> bool) (through : Z) : M (option (option WErr)) :=
  match fuel with
  | O => ret None
  | S k =>
      let* r := archiveBatch (alive k) through in
      match r with
      | Err e => ret (Some (Some e))
      | Ok false => ret (Some None)
      | Ok true => archiveWriter k alive through
      end
  end.

(** [FlushContext] once the run is claimed. *)
Definition Flush (alive : nat -> bool) : M (option (option WErr)) :=
  let* through := sealForArchive in
  match through with
  | Err e => ret (Some (Some e))
  | Ok n =>
      if n =? 0 then ret (Some None) else
      let* w := getW in
      archiveWriter (S (length (ix_Chunks (idx w)))) alive n
  end.

End Archive.
