(* ===== verification/LogWriterCore.v ===== *)
(** Reasoning about the log writer: weakest preconditions over its monad, the
    part of the state the invariants are about (its core), and what each
    operation may do to it. *)

From S2P Require Import Prelude GoRuntime LogFrame LogWriter LogArchive.
Open Scope Z_scope.
Open Scope lw_scope.

(** * Weakest preconditions *)

Definition wp {A} (m : M A) (Q : A -> LW -> Prop) (s : LW) : Prop := Q (fst (m s)) (snd (m s)).

Section WP.
Context {A B : Type}.
Implicit Types (s : LW).

Lemma wp_ret (a : A) Q s : Q a s -> wp (ret a) Q s.
Proof. done. Qed.

Lemma wp_seq (m : M A) (k : A -> M B) Q s : wp m (fun a => wp (k a) Q) s -> wp (bind m k) Q s.
Proof. unfold wp, bind. by destruct (m s). Qed.

Lemma wp_conseq (m : M A) (P Q : A -> LW -> Prop) s :
  wp m P s -> (forall a s', P a s' -> Q a s') -> wp m Q s.
Proof. intros H HPQ. apply HPQ, H. Qed.

Lemma wp_io Q s : (forall b t, Q b (s <| lw_io := t |>)) -> wp io Q s.
Proof.
  intros HQ. unfold wp, io. destruct (lw_io s) as [|b t] eqn:E; [|apply HQ].
  specialize (HQ true []). destruct s; cbn in *. by subst.
Qed.

Lemma wp_getW Q s : Q (lw_w s) s -> wp getW Q s.
Proof. done. Qed.
Lemma wp_getBuf Q s : Q (lw_buf s) s -> wp getBuf Q s.
Proof. done. Qed.
Lemma wp_getSt Q s : Q (lw_st s) s -> wp getSt Q s.
Proof. done. Qed.
Lemma wp_getDB Q s : Q (lw_db s) s -> wp getDB Q s.
Proof. done. Qed.
Lemma wp_modW f Q s : Q tt (s <| lw_w ::= f |>) -> wp (modW f) Q s.
Proof. done. Qed.
Lemma wp_modBuf f Q s : Q tt (s <| lw_buf ::= f |>) -> wp (modBuf f) Q s.
Proof. done. Qed.
Lemma wp_modSt f Q s : Q tt (s <| lw_st ::= f |>) -> wp (modSt f) Q s.
Proof. done. Qed.
Lemma wp_modDB f Q s : Q tt (s <| lw_db ::= f |>) -> wp (modDB f) Q s.
Proof. done. Qed.

End WP.

(** * The core of the state

    What the invariants mention: everything but the run's name, the sync and
    retry bookkeeping and the oracle; of the installed index, the chunks it
    lists. *)
Record Core := mkCore {
  c_file : bool;
  c_enc : bool;
  c_chunk : Z;
  c_raw : Z;
  c_first : Z;
  c_seq : Z;
  c_stored : Z;
  c_buffered : Z;
  c_chunks : list chunkMeta;
  c_err : bool;
  c_trunc : bool;
  c_deg : bool;
  c_files : list (Z * FileC);
  c_rows : list (Z * Row);
  c_arch : list (Z * FileC);
  c_max : Z;
  c_inst : list chunkMeta;
}.

#[global] Instance Core_eta : Eta Core := fun c =>
  mkCore (c_file c) (c_enc c) (c_chunk c) (c_raw c) (c_first c) (c_seq c) (c_stored c) (c_buffered c)
    (c_chunks c) (c_err c) (c_trunc c) (c_deg c) (c_files c) (c_rows c) (c_arch c) (c_max c) (c_inst c).

Definition isErr {X} (e : option X) : bool := match e with Some _ => true | None => false end.

Definition installed (b : Buffer) : list chunkMeta := match b_index b with Some ix => ix_Chunks ix | None => [] end.

Definition core (s : LW) : Core :=
  let w := lw_w s in
  mkCore (file w) (enc w) (chunk w) (chunkRaw w) (chunkFirst w) (seq w) (lastStored w) (buffered w)
    (ix_Chunks (idx w)) (isErr (chunkErr w)) (truncated w) (degraded w) (b_files (lw_buf s))
    (a_rows (lw_db s)) (a_files (lw_db s)) (maxBytes w) (installed (lw_buf s)).

(** A step of the weakest-precondition calculus, for every primitive. *)
Ltac wp_step :=
  lazymatch goal with
  | |- wp (bind _ _) _ _ => apply wp_seq
  | |- wp (ret _) _ _ => apply wp_ret
  | |- wp io _ _ => apply wp_io; intros ? ?
  | |- wp getW _ _ => apply wp_getW
  | |- wp getBuf _ _ => apply wp_getBuf
  | |- wp getSt _ _ => apply wp_getSt
  | |- wp getDB _ _ => apply wp_getDB
  | |- wp (modW _) _ _ => apply wp_modW
  | |- wp (modBuf _) _ _ => apply wp_modBuf
  | |- wp (modSt _) _ _ => apply wp_modSt
  | |- wp (modDB _) _ _ => apply wp_modDB
  | |- wp (when ?b _) _ _ => unfold when at 1; destruct b eqn:?
  | |- wp (if true then ?m else _) ?Q ?s => change (wp m Q s)
  | |- wp (if false then _ else ?m) ?Q ?s => change (wp m Q s)
  | |- wp (if ?b then _ else _) _ _ => destruct b eqn:?
  | |- wp (match ?x with _ => _ end) _ _ => destruct x eqn:?
  end; cbv beta.
Ltac wp_go := repeat wp_step.

(** An operation that leaves the core alone. *)
Definition calm {A} (m : M A) : Prop :=
  forall (Q : A -> LW -> Prop) s, (forall a s', core s' = core s -> Q a s') -> wp m Q s.

Section Ops.
Context `{LogEnv}.

(** Writing the index changes nothing but what is installed, if that. *)
Definition newInst (c : Core) (l : list chunkMeta) : Prop := l = c_inst c \/ l = c_chunks c.

Lemma writeIndexSync_core (Q : option WErr -> LW -> Prop) b s :
  (forall e s' l, newInst (core s) l -> core s' = (core s) <| c_inst := l |> -> Q e s') -> wp (writeIndexSync b) Q s.
Proof. intros HQ. unfold writeIndexSync, installIndex. wp_go; (eapply HQ; [by left + by right|reflexivity]). Qed.

Lemma backoff_calm now : calm (backoff now).
Proof. intros Q s HQ. unfold backoff. wp_go; apply HQ; reflexivity. Qed.

Lemma Sync_core (Q : option WErr -> LW -> Prop) s :
  (forall e s', core s' = core s \/ core s' = (core s) <| c_trunc := true |> -> Q e s') -> wp Sync Q s.
Proof. intros HQ. unfold Sync. wp_go; apply HQ; by (left + right). Qed.

(** * Sealing and rotating *)

(** Sealing the open chunk leaves the writer without a file and lists the chunk
    in the index if it may hold frames. *)
Definition sealCore (size : Z) (c : Core) : Core :=
  c <| c_file := false |>
    <| c_chunks := if c_first c <=? c_seq c
                   then c_chunks c ++ [mkMeta (c_chunk c) (c_first c) (c_seq c) size (c_raw c) false]
                   else c_chunks c |>.

Inductive Sealed (c : Core) : bool -> Core -> Prop :=
| Sealed_failed c' : c' = c <| c_file := false |> <| c_err := true |> -> Sealed c true c'
| Sealed_indexed size e l c' :
    newInst (sealCore size c) l -> c' = (sealCore size c) <| c_inst := l |> <| c_err := e |> -> Sealed c e c'.

Lemma core_err s s' : core s' = core s -> isErr (chunkErr (lw_w s')) = isErr (chunkErr (lw_w s)).
Proof. intros Hc. exact (f_equal c_err Hc). Qed.

Lemma finishChunk_open (Q : option WErr -> LW -> Prop) s :
  file (lw_w s) = true -> chunkErr (lw_w s) = None ->
  (forall e s', Sealed (core s) (isErr e) (core s') -> Q e s') -> wp finishChunk Q s.
Proof.
  intros Hfile Herr HQ. unfold finishChunk. wp_step. wp_step. rewrite Hfile. cbn [negb].
  (* the tail: the index, the deferred seal and the reported error *)
  assert (Htail : forall room size s1,
    core s1 = sealCore size (core s) ->
    wp (writeIndexSync (negb room)) (fun indexErr => wp (
        when room (deferSeal (chunk (lw_w s))) ;;
        match indexErr with
        | Some _ => setChunkErr (errIndex (chunk (lw_w s))) true
        | None => ret tt
        end ;;
        let* w := getW in
        ret (chunkErr w)) Q) s1).
  { intros room size s1 H1. apply writeIndexSync_core. intros ie s2 l Hl H2. rewrite H1 in Hl, H2.
    assert (He : chunkErr (lw_w s2) = None).
    { apply (f_equal c_err) in H2. cbn in H2. rewrite Herr in H2. by destruct (chunkErr (lw_w s2)). }
    unfold deferSeal, setChunkErr. wp_go; apply HQ; cbn [lw_w].
    all: apply (Sealed_indexed _ size _ l _ Hl).
    all: rewrite <- H2; unfold core; cbn; by rewrite ?He. }
  unfold addMeta. wp_go; try (by apply HQ, Sealed_failed).
  all: lazymatch goal with
       | H : (chunkFirst _ <=? seq _) = true |- _ => eapply Htail
       | _ => apply (Htail _ 0)
       end; unfold sealCore, core; cbn;
    lazymatch goal with H : (chunkFirst _ <=? seq _) = _ |- _ => by rewrite H end.
Qed.

Lemma finishChunk_closed (Q : option WErr -> LW -> Prop) s :
  file (lw_w s) = false ->
  (forall e s' l, newInst (core s) l -> core s' = (core s) <| c_inst := l |> <| c_err := isErr e |> ->
                  (c_err (core s) = true -> isErr e = true) -> Q e s') ->
  wp finishChunk Q s.
Proof.
  intros Hfile HQ. unfold finishChunk. wp_step. wp_step. rewrite Hfile. cbn [negb]. wp_step.
  destruct (chunkErr (lw_w s)) as [e|] eqn:Herr.
  - wp_go. apply (HQ _ _ (c_inst (core s))); [by left|..]; unfold core; cbn; by rewrite Herr.
  - wp_step.
    + wp_step. apply writeIndexSync_core. intros ie s2 l Hl H2. unfold setChunkErr.
      pose proof (f_equal c_err H2 : isErr (chunkErr (lw_w s2)) = isErr (chunkErr (lw_w s))) as He. rewrite Herr in He.
      wp_go; (apply (HQ _ _ l Hl); [rewrite <- H2; unfold core; cbn; by rewrite ?He|unfold core; cbn; by rewrite Herr]).
    + wp_go. apply (HQ _ _ (c_inst (core s))); [by left|..]; unfold core; cbn; by rewrite Herr.
Qed.

(** Rotation, by outcome.  A new file that could not be used may stay behind,
    empty. *)
Definition nextFile (c : Core) : list (Z * FileC) := c_files c ++ [(c_chunk c + 1, mkFile [] false)].

Definition leftover (c c' : Core) : Prop := c_files c' = c_files c \/ c_files c' = nextFile c.

Inductive Rotated (c : Core) : bool -> Core -> Prop :=
| Rotated_not c' : c_err c = false -> leftover c c' -> hasFile (c_chunk c + 1) (c_files c) = false -> c' = c <| c_files := c_files c' |> ->
    Rotated c true c'
| Rotated_blocked : Rotated c true c
| Rotated_unsealed c0 c' :
    c_file c = true -> c_err c = false -> hasFile (c_chunk c + 1) (c_files c) = false -> Sealed c true c0 -> leftover c c' ->
    c' = c0 <| c_files := c_files c' |> -> Rotated c true c'
| Rotated_to c0 c' :
    c_err c = false -> hasFile (c_chunk c + 1) (c_files c) = false ->
    (if c_file c then Sealed c false c0 else c0 = c) ->
    c' = c0 <| c_files := nextFile c |> <| c_chunk := c_chunk c + 1 |> <| c_file := true |> <| c_enc := true |>
            <| c_raw := 0 |> <| c_first := c_seq c + 1 |> ->
    Rotated c false c'.

Lemma removeFile_next n l : hasFile n l = false -> removeFile n (l ++ [(n, mkFile [] false)]) = l.
Proof.
  unfold hasFile, removeFile. intros Hl. rewrite List.filter_app. cbn. rewrite Z.eqb_refl. cbn.
  rewrite app_nil_r. induction l as [|[k c] t IH]; [done|]. cbn in *.
  apply orb_false_iff in Hl as [Hk Ht]. rewrite Hk. cbn. f_equal. by apply IH.
Qed.

(** The clean-up of the unused file, from a state that has it. *)
Lemma discardFile_core (Q : unit -> LW -> Prop) c s :
  core s = c -> (forall s' files, (files = c_files c \/ files = removeFile (c_chunk c + 1) (c_files c)) ->
                   core s' = c <| c_files := files |> -> Q tt s') ->
  wp (discardFile (c_chunk c + 1)) Q s.
Proof.
  intros Hc HQ. unfold discardFile. wp_go; (eapply HQ; [by right + by left|rewrite <- Hc; reflexivity]).
Qed.

Lemma Sealed_spec c e c0 :
  Sealed c e c0 -> c_err c0 = e /\ c_file c0 = false /\ c_chunk c0 = c_chunk c /\ c_seq c0 = c_seq c.
Proof. intros [c' ->|size e' l c' _ ->]; done. Qed.

Lemma Sealed_files c e c' files :
  Sealed (c <| c_files := files |>) e c' ->
  exists c0, Sealed c e c0 /\ c' = c0 <| c_files := files |>.
Proof.
  intros [c0 ->|size e0 l c0 Hl ->].
  - eexists. split; [by apply Sealed_failed|reflexivity].
  - eexists. split; [by apply (Sealed_indexed c size e0 l _ Hl)|reflexivity].
Qed.

Lemma set_err_same c e : c_err c = e -> c <| c_err := e |> = c.
Proof. destruct c; cbn. by intros ->. Qed.

Lemma rotate_core (Q : option WErr -> LW -> Prop) s :
  (file (lw_w s) = true -> enc (lw_w s) = true) ->
  (forall e s', Rotated (core s) (isErr e) (core s') -> Q e s') -> wp rotate Q s.
Proof.
  intros Henc HQ. unfold rotate. wp_step. wp_step.
  destruct (chunkErr (lw_w s)) as [e|] eqn:Herr; [wp_go; apply HQ, Rotated_blocked|].
  do 4 wp_step. destruct (negb _) eqn:Hopen; [wp_go; apply HQ, Rotated_blocked|].
  apply negb_false_iff, andb_true_iff in Hopen as [_ Hnew]. apply negb_true_iff in Hnew.
  change (hasFile (c_chunk (core s) + 1) (c_files (core s)) = false) in Hnew.
  assert (Hce : c_err (core s) = false) by (unfold core; cbn; by rewrite Herr).
  wp_step. wp_step. set (s1 := _ <| lw_buf ::= _ |>).
  assert (H1 : core s1 = (core s) <| c_files := nextFile (core s) |>) by reflexivity.
  assert (Hleft : forall c0 s2 files,
    (files = nextFile (core s) \/ files = removeFile (chunk (lw_w s) + 1) (nextFile (core s))) ->
    core s2 = c0 <| c_files := files |> -> leftover (core s) (core s2)).
  { intros c0 s2 files [->| ->] E; rewrite E; [by right|left].
    exact (removeFile_next _ _ Hnew). }
  wp_step. destruct (enc (lw_w s) && file (lw_w s)) eqn:Hef.
  - apply andb_true_iff in Hef as [He Hf]. apply finishChunk_open; [exact Hf|exact Herr|].
    intros e s2 Hs. rewrite H1 in Hs. apply Sealed_files in Hs as (c0 & Hc0 & H2).
    destruct (Sealed_spec _ _ _ Hc0) as (He0 & Hf0 & Hch & Hseq).
    destruct e as [e|].
    + wp_step.
      replace (chunk (lw_w s) + 1) with (c_chunk (core s2) + 1) by (rewrite H2; cbn; by rewrite Hch).
      apply discardFile_core; [done|]. intros s3 files Hfiles H3. wp_go. apply HQ.
      change (core (s3 <| lw_w ::= _ |>)) with ((core s3) <| c_err := true |>).
      rewrite H2 in Hfiles, H3. cbn [c_files c_chunk upd] in Hfiles. rewrite Hch in Hfiles.
      apply (Rotated_unsealed _ c0); [done|exact Hce|done|exact Hc0| |].
      * exact (Hleft _ _ _ Hfiles H3).
      * rewrite H3. clear - He0. destruct c0; cbn in He0 |- *. by rewrite He0.
    + rewrite He. unfold signalPressure. wp_go; [done|]. apply HQ. cbn [isErr].
      apply (Rotated_to _ c0); [exact Hce|done|by rewrite (Hf : c_file (core s) = true)|].
      change (core (_ <| lw_st ::= _ |>)) with ((core s2) <| c_chunk := c_chunk (core s) + 1 |> <| c_file := true |>
         <| c_enc := true |> <| c_raw := 0 |> <| c_first := c_seq (core s2) + 1 |>).
      rewrite H2. clear - Hseq. revert Hseq. generalize (core s) as c; intros c Hseq.
      destruct c0; cbn in *. by rewrite Hseq.
  - assert (Hnf : file (lw_w s) = false).
    { destruct (file (lw_w s)); [|done]. by rewrite Henc in Hef. }
    wp_step. wp_step. destruct (enc (lw_w s)) eqn:He.
    + unfold signalPressure. wp_go; [done|]. apply HQ. cbn [isErr].
      apply (Rotated_to _ (core s)); [exact Hce|done|by rewrite (Hnf : c_file (core s) = false)|].
      reflexivity.
    + unfold signalPressure. wp_step. wp_step.
      * wp_step. change (chunk (lw_w s) + 1) with (c_chunk (core s1) + 1).
        apply discardFile_core; [reflexivity|]. intros s3 files Hfiles H3. wp_go. apply HQ. cbn [isErr].
        apply Rotated_not; [exact Hce|exact (Hleft _ _ _ Hfiles H3)|done|]. rewrite H3. reflexivity.
      * wp_go. apply HQ. cbn [isErr].
        apply (Rotated_to _ (core s)); [exact Hce|done|by rewrite (Hnf : c_file (core s) = false)|].
        reflexivity.
Qed.

End Ops.
