(* ===== verification/LogWriterInv.v ===== *)
(** The invariant of a log writer: the byte accounting of its buffer, the shape
    of its index, and what each chunk file on disk may hold. *)

From S2P Require Import Prelude GoRuntime LogFrame LogWriter LogArchive LogWriterCore.
Open Scope Z_scope.

(** * Definitions *)

Definition rawSum (l : list chunkMeta) : Z := foldr (fun m acc => Raw m + acc) 0 l.
Definition rawBytes (l : list Frame) : Z := foldr (fun f acc => frameSize f + acc) 0 l.

Definition metaOf (l : list chunkMeta) (n : Z) : option chunkMeta := List.find (fun m => Number m =? n) l.

(** Is the current chunk already listed in the index? *)
Definition curIndexed (c : Core) : bool := isErr (metaOf (c_chunks c) (c_chunk c)).

Definition before (a b : chunkMeta) : Prop := Number a < Number b /\ Last a < First b.

(** A listed chunk against the writer's position. *)
Definition meta_ok (c : Core) (m : chunkMeta) : Prop :=
  0 < Number m /\ 0 < First m <= Last m /\ Last m <= c_seq c /\ 0 <= Raw m /\
  (Number m < c_chunk c /\ Last m < c_first c \/ Number m = c_chunk c /\ First m = c_first c).

(** What the file of chunk [n] may hold: frames within the range the index (or,
    for the current chunk, the writer) accounts for, of no more bytes than it
    accounts for; other files hold nothing. *)
Definition holds_at (c : Core) (n : Z) (fr : list Frame) : Prop :=
  match metaOf (c_chunks c) n with
  | Some m => rawBytes fr <= Raw m /\ Forall (fun f => First m <= Sequence f <= Last m) fr
  | None =>
      if n =? c_chunk c
      then rawBytes fr <= c_raw c /\ Forall (fun f => c_first c <= Sequence f <= c_stored c) fr
      else fr = []
  end.

Definition file_ok (c : Core) (p : Z * FileC) : Prop :=
  0 < fst p <= c_chunk c + 1 /\ StronglySorted Z.lt (Sequence <$> fc_frames (snd p)) /\
  holds_at c (fst p) (fc_frames (snd p)).

(** The file of a listed chunk is in the buffer, or already in the archive
    directory. *)
Definition placed (c : Core) (m : chunkMeta) : Prop :=
  Number m ∈ fst <$> c_files c \/ Number m ∈ fst <$> c_arch c.

Definition framesAt (l : list (Z * FileC)) (n : Z) : list Frame :=
  match findFile n l with Some c => fc_frames c | None => [] end.

Definition validMeta (m : chunkMeta) : Prop := 0 < Number m /\ 0 < First m <= Last m /\ 0 <= Raw m.

(** A chunk the installed index lists is finished, and listed by the writer as
    long as its file is in the buffer; so the file holds no frame past the last
    sequence listed, now and later. *)
Definition inst_ok (c : Core) (m : chunkMeta) : Prop :=
  validMeta m /\ (Number m < c_chunk c \/ Number m = c_chunk c /\ c_file c = false) /\
  (is_Some (findFile (Number m) (c_files c)) -> m ∈ c_chunks c).

Record WI (c : Core) : Prop := {
  wi_err : c_err c = true -> c_file c = false;
  wi_open : c_file c = true -> c_enc c = true /\ curIndexed c = false;
  wi_acct : c_buffered c = rawSum (c_chunks c) + (if curIndexed c then 0 else c_raw c);
  wi_sorted : StronglySorted before (c_chunks c);
  wi_meta : Forall (meta_ok c) (c_chunks c);
  wi_raw : 0 <= c_raw c /\ (0 < c_raw c -> c_enc c = true /\ c_first c <= c_stored c);
  wi_seq : 0 <= c_stored c <= c_seq c /\ c_first c <= c_seq c + 1 /\ 0 <= c_chunk c;
  wi_first : c_enc c = true -> 0 < c_first c /\ 0 < c_chunk c;
  wi_files : StronglySorted Z.lt (fst <$> c_files c);
  wi_data : Forall (file_ok c) (c_files c);
  wi_here : c_enc c = true -> c_chunk c ∈ fst <$> c_files c;
  wi_placed : Forall (placed c) (c_chunks c);
  wi_max : 0 < c_max c -> c_buffered c <= c_max c;
  wi_inst : Forall (inst_ok c) (c_inst c);
  wi_order : StronglySorted before (c_inst c);
}.

(** No chunk waits outside the index with accounted bytes. *)
Definition settled (c : Core) : Prop :=
  c_file c = false -> c_err c = false -> c_raw c = 0 \/ curIndexed c = true.

(** * Sums and lookups *)

Lemma rawSum_app l k : rawSum (l ++ k) = rawSum l + rawSum k.
Proof. induction l as [|m l IH]; cbn; [done|]. unfold rawSum in *. lia. Qed.

Lemma rawBytes_app l k : rawBytes (l ++ k) = rawBytes l + rawBytes k.
Proof. induction l as [|m l IH]; cbn; [done|]. unfold rawBytes in *. lia. Qed.

Lemma frameSize_pos f : 0 < frameSize f.
Proof. unfold frameSize, blen. lia. Qed.

Lemma rawBytes_nonneg l : 0 <= rawBytes l.
Proof. induction l as [|f l IH]; cbn; [done|]. pose proof (frameSize_pos f). unfold rawBytes in *. lia. Qed.

Lemma rawSum_nonneg c l : Forall (meta_ok c) l -> 0 <= rawSum l.
Proof. induction 1 as [|m l Hm Hl IH]; cbn; [done|]. destruct Hm as (? & ? & ? & ? & ?). unfold rawSum in *. lia. Qed.

Lemma metaOf_app l k n : metaOf (l ++ k) n = match metaOf l n with Some m => Some m | None => metaOf k n end.
Proof. unfold metaOf. induction l as [|m l IH]; cbn; [done|]. by destruct (Number m =? n). Qed.

Lemma metaOf_one m n : metaOf [m] n = if Number m =? n then Some m else None.
Proof. unfold metaOf; cbn. by destruct (Number m =? n). Qed.

Lemma metaOf_elem l n m : metaOf l n = Some m -> m ∈ l /\ Number m = n.
Proof.
  unfold metaOf. intros H. apply List.find_some in H as [H1 H2]. split; [by apply list_elem_of_In|lia].
Qed.

Lemma metaOf_none l n : metaOf l n = None <-> Forall (fun m => Number m <> n) l.
Proof.
  unfold metaOf. induction l as [|m l IH]; cbn; [done|]. rewrite Forall_cons.
  destruct (Z.eqb_spec (Number m) n) as [E|E]; [naive_solver|]. naive_solver.
Qed.

Arguments metaOf : simpl never.
Arguments rawSum : simpl never.

Lemma findFile_app n l k : findFile n (l ++ k) = match findFile n l with Some c => Some c | None => findFile n k end.
Proof. unfold findFile. induction l as [|[j c] l IH]; cbn; [done|]. by destruct (j =? n). Qed.

Lemma findFile_elem n l : n ∈ fst <$> l -> is_Some (findFile n l).
Proof.
  unfold findFile. induction l as [|[j c] l IH]; cbn; [intros H; by apply elem_of_nil in H|].
  intros H. destruct (Z.eqb_spec j n); [by eexists|]. apply elem_of_cons in H as [?|H]; [lia|by apply IH].
Qed.

Lemma findFile_in n l c : findFile n l = Some c -> (n, c) ∈ l.
Proof.
  unfold findFile. intros H. destruct (List.find _ l) as [[j d]|] eqn:E; [|done]. cbn in H. simplify_eq.
  apply List.find_some in E as [E1 E2]. cbn in E2. apply Z.eqb_eq in E2 as ->. by apply list_elem_of_In.
Qed.


Arguments findFile : simpl never.
Arguments updateFile : simpl never.
Arguments removeFile : simpl never.
Arguments framesAt : simpl never.

Lemma curIndexed_false c : curIndexed c = false <-> metaOf (c_chunks c) (c_chunk c) = None.
Proof. unfold curIndexed. by destruct (metaOf _ _). Qed.

Lemma hasFile_false n l : hasFile n l = false <-> Forall (fun p => fst p <> n) l.
Proof.
  unfold hasFile. induction l as [|[k c] l IH]; cbn; [done|]. rewrite Forall_cons, orb_false_iff, <- IH.
  destruct (Z.eqb_spec k n); naive_solver.
Qed.

Lemma sorted_snoc {A} (R : A -> A -> Prop) l x :
  StronglySorted R l -> Forall (fun y => R y x) l -> StronglySorted R (l ++ [x]).
Proof.
  induction 1 as [|y l Hl IH Hy]; intros Hx; cbn; [repeat constructor|].
  apply Forall_cons in Hx as [Hyx Hx]. constructor; [by apply IH|].
  apply Forall_app. split; [done|]. by apply Forall_singleton.
Qed.

(** * Sealing and rotating *)

Lemma seal_meta c size :
  WI c -> c_file c = true -> c_first c <= c_seq c ->
  meta_ok c (mkMeta (c_chunk c) (c_first c) (c_seq c) size (c_raw c) false).
Proof.
  intros HI Hf Hs. destruct (wi_open c HI Hf) as [He _]. destruct (wi_first c HI He).
  destruct (wi_raw c HI). unfold meta_ok; cbn. repeat split; try lia.
Qed.

Lemma other_meta c m : WI c -> curIndexed c = false -> m ∈ c_chunks c -> Number m < c_chunk c /\ Last m < c_first c.
Proof.
  intros HI Hc Hm. apply curIndexed_false, metaOf_none in Hc.
  pose proof (proj1 (Forall_forall _ _) (wi_meta c HI) m Hm) as (_ & _ & _ & _ & [?|[E _]]); [done|].
  by apply (proj1 (Forall_forall _ _) Hc m Hm) in E.
Qed.

(** Files of finished chunks at most go away, and stay listed until then. *)
Lemma inst_keep c c' :
  Forall (inst_ok c) (c_inst c) -> c_chunk c <= c_chunk c' -> (c_chunk c' = c_chunk c -> c_file c = false -> c_file c' = false) ->
  (forall n, n < c_chunk c \/ n = c_chunk c /\ c_file c = false ->
     is_Some (findFile n (c_files c')) -> is_Some (findFile n (c_files c))) ->
  (forall m, m ∈ c_chunks c -> is_Some (findFile (Number m) (c_files c')) -> m ∈ c_chunks c') ->
  Forall (inst_ok c') (c_inst c).
Proof.
  intros Hi Hc Hf Hfr Hin. apply (Forall_impl _ _ _ Hi). intros m (Hv & H1 & H2). split_and!; [done| |by auto].
  destruct H1 as [?|[E ?]]; [left; lia|]. destruct (decide (c_chunk c' = c_chunk c)); [right; split; [lia|auto]|left; lia].
Qed.

Lemma inst_same c c' :
  Forall (inst_ok c) (c_inst c) -> c_chunk c' = c_chunk c -> (c_file c = false -> c_file c' = false) -> c_files c' = c_files c ->
  (forall m, m ∈ c_chunks c -> m ∈ c_chunks c') -> Forall (inst_ok c') (c_inst c).
Proof. intros Hi Hc Hf E Hin. apply (inst_keep c c' Hi); [lia|by auto| |by auto]. intros n _. by rewrite E. Qed.

Lemma sealCore_WI c size e :
  WI c -> c_file c = true -> WI ((sealCore size c) <| c_err := e |>) /\ settled ((sealCore size c) <| c_err := e |>).
Proof.
  intros HI Hf. destruct (wi_open c HI Hf) as [He Hc]. pose proof (proj1 (curIndexed_false c) Hc) as Hn.
  unfold sealCore. destruct (Z.leb_spec (c_first c) (c_seq c)) as [Hs|Hs].
  - set (m := mkMeta _ _ _ _ _ _). set (c' := _ <| c_err := e |>).
    assert (Hcur : curIndexed c' = true).
    { unfold curIndexed, c'; cbn. rewrite metaOf_app, Hn, metaOf_one. cbn. by rewrite Z.eqb_refl. }
    split; [|by intros _ _; right].
    constructor; rewrite ?Hcur; unfold c'; cbn.
    + done.
    + done.
    + rewrite rawSum_app. unfold rawSum at 2; cbn. rewrite (wi_acct c HI), Hc. lia.
    + apply sorted_snoc; [apply HI|]. apply Forall_forall. intros x Hx.
      apply (other_meta c) in Hx; [|done|done]. unfold before; cbn. lia.
    + apply Forall_app. split; [exact (wi_meta c HI)|].
      apply Forall_singleton. exact (seal_meta c size HI Hf Hs).
    + apply HI.
    + apply HI.
    + apply HI.
    + apply HI.
    + apply (Forall_impl _ _ _ (wi_data c HI)). intros [n fc] (H1 & H2 & H3). split; [done|]. split; [done|].
      unfold holds_at in *; cbn in *. rewrite metaOf_app.
      destruct (metaOf (c_chunks c) n); [done|]. rewrite metaOf_one; cbn. rewrite Z.eqb_sym.
      destruct (n =? c_chunk c); [|done]. cbn. destruct H3 as [H3 H4]. split; [done|].
      apply (Forall_impl _ _ _ H4). intros f Hf'. destruct (wi_seq c HI). lia.
    + apply HI.
    + apply Forall_app. split; [exact (wi_placed c HI)|]. apply Forall_singleton. left. exact (wi_here c HI He).
    + apply HI.
    + apply (inst_same c); [apply HI|done..|]. intros x Hx. cbn. apply elem_of_app. by left.
    + apply HI.
  - assert (Hr : c_raw c = 0).
    { destruct (wi_raw c HI) as [H1 H2]. destruct (wi_seq c HI). lia. }
    set (c' := _ <| c_err := e |>).
    assert (Hcur : curIndexed c' = false) by exact Hc.
    split; [|intros _ _; left; exact Hr].
    constructor; rewrite ?Hcur; unfold c'; cbn; try apply HI; try done.
    + rewrite (wi_acct c HI), Hc. done.
    + apply (inst_same c); [apply HI|done..].
Qed.

Lemma unfile_WI c : WI c -> WI (c <| c_file := false |> <| c_err := true |>).
Proof.
  intros HI. set (c' := _ <| c_err := true |>).
  assert (Hcur : curIndexed c' = curIndexed c) by reflexivity.
  constructor; rewrite ?Hcur; unfold c'; cbn; try apply HI; try done. apply (inst_same c); [apply HI|done..].
Qed.

Lemma sorted_metaOf l m : StronglySorted before l -> m ∈ l -> metaOf l (Number m) = Some m.
Proof.
  unfold metaOf. induction 1 as [|x l Hl IH Hx]; intros Hm; [by apply elem_of_nil in Hm|]. cbn.
  apply elem_of_cons in Hm as [->|Hm]; [by rewrite Z.eqb_refl|].
  pose proof (proj1 (Forall_forall _ _) Hx m Hm) as [Hlt _]. destruct (Z.eqb_spec (Number x) (Number m)); [lia|by apply IH].
Qed.

(** The writer's own index is fit to be installed. *)
Lemma inst_WI c l : WI c -> newInst c l -> WI (c <| c_inst := l |>).
Proof.
  intros HI Hl. constructor; try apply HI; (destruct Hl as [-> | ->]; [apply HI|]); [|apply HI]. cbn.
  apply Forall_forall. intros m Hm. pose proof (proj1 (Forall_forall _ _) (wi_meta c HI) m Hm) as (Hn & Hfl & _ & Hr & Hpos).
  pose proof (sorted_metaOf _ _ (wi_sorted c HI) Hm) as Em. split_and!; [by split_and!; try apply Hfl| |done].
  destruct Hpos as [[? _]|[E _]]; [by left|right]. split; [done|]. cbn. destruct (c_file c) eqn:Hf; [|done].
  destruct (wi_open c HI Hf) as [_ Hcur]. unfold curIndexed in Hcur. rewrite <- E, Em in Hcur. done.
Qed.

Lemma Sealed_WI c e c' : WI c -> c_file c = true -> Sealed c e c' -> WI c' /\ settled c'.
Proof.
  intros HI Hf [c0 ->|size e0 l c0 Hl ->].
  - split; [by apply unfile_WI|]. intros _. done.
  - destruct (sealCore_WI c size e0 HI Hf) as [HI1 Hs1]. split; [|exact Hs1].
    exact (inst_WI _ l HI1 Hl).
Qed.

Lemma framesAt_next c n : framesAt (nextFile c) n = framesAt (c_files c) n.
Proof.
  unfold framesAt, nextFile. rewrite findFile_app. destruct (findFile n (c_files c)); [done|].
  unfold findFile; cbn. by destruct (_ =? n).
Qed.

Lemma findFile_next c n : n <= c_chunk c -> findFile n (nextFile c) = findFile n (c_files c).
Proof.
  intros Hn. unfold nextFile. rewrite findFile_app. destruct (findFile n (c_files c)); [done|].
  unfold findFile; cbn. by destruct (Z.eqb_spec (c_chunk c + 1) n); [lia|].
Qed.

(** Adding the empty file of the next chunk. *)
Lemma next_WI c :
  WI c -> hasFile (c_chunk c + 1) (c_files c) = false -> WI (c <| c_files := nextFile c |>).
Proof.
  intros HI Hh. set (c' := c <| c_files := _ |>).
  assert (Hcur : curIndexed c' = curIndexed c) by reflexivity.
  apply hasFile_false in Hh.
  constructor; rewrite ?Hcur; unfold c'; cbn; try apply HI.
  - unfold nextFile. rewrite fmap_app. apply sorted_snoc; [apply HI|].
    apply Forall_fmap. apply Forall_forall. intros p Hp. cbn.
    pose proof (proj1 (Forall_forall _ _) (wi_data c HI) p Hp) as (H1 & _).
    pose proof (proj1 (Forall_forall _ _) Hh p Hp). cbn in *. lia.
  - apply Forall_app. split; [exact (wi_data c HI)|]. constructor; [|done].
    destruct (wi_seq c HI) as (_ & _ & ?). split; [cbn; lia|]. split; [constructor|].
    unfold holds_at; cbn. destruct (metaOf (c_chunks c) (c_chunk c + 1)) as [m|] eqn:Em.
    + split; [|done]. apply metaOf_elem in Em as [Em _].
      pose proof (proj1 (Forall_forall _ _) (wi_meta c HI) m Em) as (_ & _ & _ & ? & _). lia.
    + destruct (Z.eqb_spec (c_chunk c + 1) (c_chunk c)); [lia|done].
  - intros Hf. unfold nextFile. rewrite fmap_app. apply elem_of_app. left. exact (wi_here c HI Hf).
  - apply (Forall_impl _ _ _ (wi_placed c HI)). intros m [Hm|Hm]; [left|by right].
    cbn. unfold nextFile. rewrite fmap_app. apply elem_of_app. by left.
  - apply (inst_keep c c' (wi_inst c HI)); [cbn; lia|done| |done]. intros n Hn. unfold c'; cbn. by rewrite findFile_next by lia.
Qed.

(** Switching to the file of the next chunk. *)
Lemma advance_WI c :
  WI c -> settled c -> c_file c = false -> c_err c = false -> hasFile (c_chunk c + 1) (c_files c) = false ->
  WI (c <| c_files := nextFile c |> <| c_chunk := c_chunk c + 1 |> <| c_file := true |> <| c_enc := true |>
        <| c_raw := 0 |> <| c_first := c_seq c + 1 |>).
Proof.
  intros HI Hset Hf He Hh. pose proof (next_WI c HI Hh) as HN. set (c' := _ <| c_first := _ |>).
  destruct (wi_seq c HI) as ((Hs0 & Hs1) & Hs2 & Hs3).
  assert (Hold : Forall (fun m => Number m <= c_chunk c) (c_chunks c)).
  { apply (Forall_impl _ _ _ (wi_meta c HI)). intros m (_ & _ & _ & _ & Hm). lia. }
  assert (Hn : metaOf (c_chunks c) (c_chunk c + 1) = None).
  { apply metaOf_none. apply (Forall_impl _ _ _ Hold). intros m Hm. lia. }
  assert (Hcur : curIndexed c' = false) by (by apply curIndexed_false).
  assert (Hacct : c_buffered c = rawSum (c_chunks c)).
  { rewrite (wi_acct c HI). destruct (Hset Hf He) as [->| ->]; [|lia]. destruct (curIndexed c); lia. }
  constructor; rewrite ?Hcur; unfold c'; cbn.
  - by rewrite He.
  - done.
  - lia.
  - apply HI.
  - apply (Forall_impl _ _ _ (wi_meta c HI)). intros m (? & ? & ? & ? & ?).
    unfold meta_ok; cbn. repeat split; try lia.
  - split; [done|lia].
  - repeat split; lia.
  - intros _. lia.
  - exact (wi_files _ HN).
  - apply (Forall_impl _ _ _ (wi_data _ HN)). intros [n fc] (H1 & H2 & H3). cbn in *.
    split; [cbn; lia|]. split; [done|]. unfold holds_at in *; cbn in *.
    destruct (metaOf (c_chunks c) n) as [m|] eqn:Em; [done|].
    destruct (Z.eqb_spec n (c_chunk c)) as [->|Hne].
    + destruct (Z.eqb_spec (c_chunk c) (c_chunk c + 1)); [lia|].
      assert (Hr : c_raw c = 0).
      { destruct (Hset Hf He) as [?|Hi]; [done|]. unfold curIndexed in Hi. by rewrite Em in Hi. }
      destruct H3 as [H3 _]. rewrite Hr in H3. destruct (fc_frames fc) as [|f l]; [done|].
      cbn in H3. pose proof (frameSize_pos f). pose proof (rawBytes_nonneg l). unfold rawBytes in *. lia.
    + rewrite H3. destruct (n =? c_chunk c + 1); [|done]. split; [done|constructor].
  - intros _. unfold nextFile. rewrite fmap_app. apply elem_of_app. right. by apply list_elem_of_singleton.
  - exact (wi_placed _ HN).
  - apply HI.
  - apply (inst_keep c c' (wi_inst c HI)); [unfold c'; cbn; lia|unfold c'; cbn; lia| |done].
    intros n Hn'. unfold c'; cbn. by rewrite findFile_next by lia.
  - apply HI.
Qed.

(** What a rotation leaves unchanged, and the state it promises on success. *)
Lemma Rotated_frame c e c' :
  Rotated c e c' ->
  c_seq c' = c_seq c /\ c_stored c' = c_stored c /\ c_buffered c' = c_buffered c /\ c_trunc c' = c_trunc c /\
  c_deg c' = c_deg c /\ c_rows c' = c_rows c /\ c_arch c' = c_arch c /\ c_max c' = c_max c.
Proof.
  intros [c1 _ _ _ ->| |c0 c1 _ _ _ Hs _ ->|c0 c1 _ _ Hs ->]; try done.
  - by destruct Hs as [c2 ->|size e0 l c2 _ ->].
  - destruct (c_file c); [by destruct Hs as [c2 ->|size e0 l c2 _ ->]|by subst].
Qed.

Lemma leftover_WI c0 c c' :
  WI c0 -> c_files c0 = c_files c -> c_chunk c0 = c_chunk c ->
  leftover c c' -> hasFile (c_chunk c + 1) (c_files c) = false -> WI (c0 <| c_files := c_files c' |>).
Proof.
  intros HI Hf Hc [E|E] Hh; rewrite E.
  - rewrite <- Hf. by destruct c0.
  - unfold nextFile. rewrite <- Hf, <- Hc. apply next_WI; [done|]. by rewrite Hf, Hc.
Qed.

Lemma Sealed_same c e c0 : Sealed c e c0 -> c_files c0 = c_files c /\ c_chunk c0 = c_chunk c.
Proof. by intros [c2 ->|size e0 l c2 _ ->]. Qed.

Lemma Rotated_WI c e c' :
  WI c -> settled c -> Rotated c e c' ->
  WI c' /\ settled c' /\ (e = false -> c_file c' = true /\ c_err c' = false /\ c_raw c' = 0).
Proof.
  intros HI Hset [c1 He Hl Hh ->| |c0 c1 Hf He Hh Hs Hl ->|c0 c1 He Hh Hs ->].
  - split; [|by split].
    apply (leftover_WI c c); done.
  - done.
  - destruct (Sealed_WI c true c0) as [HI0 Hset0]; [done..|]. destruct (Sealed_same _ _ _ Hs) as [E1 E2].
    split; [by apply (leftover_WI c0 c)|]. split; [exact Hset0|done].
  - destruct (c_file c) eqn:Hf.
    + destruct (Sealed_WI c false c0) as [HI0 Hset0]; [done..|]. destruct (Sealed_same _ _ _ Hs) as [E1 E2].
      destruct (Sealed_spec _ _ _ Hs) as (E3 & E4 & _ & E6).
      pose proof (advance_WI c0 HI0 Hset0 E4 E3) as HA. rewrite E1, E2 in HA. specialize (HA Hh).
      unfold nextFile in HA |- *. rewrite E1, E2, E6 in HA.
      split; [exact HA|]. split; [by intros ?|by intros _; cbn].
    + subst c0. cbn. split; [by apply advance_WI|]. split; [by intros ?|done].
Qed.
