(* ===== verification/LogWriterOps.v ===== *)
(** Every operation of the log writer keeps the invariant, for every pattern of
    I/O failures, and a frame that is accepted without marking the run
    truncated is appended to what the run's files hold. *)

From S2P Require Import Prelude GoRuntime LogFrame LogWriter LogArchive LogWriterCore LogWriterInv.
Open Scope Z_scope.
Open Scope lw_scope.

(** No file's stream is torn. *)
Definition noTorn (l : list (Z * FileC)) : Prop := Forall (fun p => fc_torn (snd p) = false) l.

Definition Inv (s : LW) : Prop := WI (core s) /\ settled (core s).

(** From [c] to [c'] the frames [fs] were added, all to the file of one chunk,
    and no other file changed. *)
Definition Put (fs : list Frame) (c c' : Core) : Prop :=
  noTorn (c_files c) ->
  noTorn (c_files c') /\ c_chunk c <= c_chunk c' /\
  (forall n, n <= c_chunk c -> findFile n (c_files c) = None -> findFile n (c_files c') = None) /\
  exists k, c_chunk c <= k <= c_chunk c' /\
    forall n, framesAt (c_files c') n = framesAt (c_files c) n ++ (if n =? k then fs else []).

(** A degraded writer has marked its run. *)
Definition marked (c : Core) : Prop := c_deg c = true -> c_trunc c = true.

(** What no writer operation does: touch the archive, put something into the
    file of an earlier chunk, or list a chunk before the current one. *)
Definition Low (c c' : Core) : Prop :=
  c_arch c' = c_arch c /\ c_chunk c <= c_chunk c' /\
  (forall n, n < c_chunk c -> findFile n (c_files c') = None \/ findFile n (c_files c') = findFile n (c_files c)) /\
  c_first c <= c_first c' /\
  (forall m, m ∈ c_chunks c' -> m ∈ c_chunks c \/ c_chunk c <= Number m /\ c_first c <= First m).

Lemma Low_same c c' :
  c_arch c' = c_arch c -> c_chunk c' = c_chunk c -> c_files c' = c_files c -> c_first c' = c_first c ->
  c_chunks c' = c_chunks c -> Low c c'.
Proof. intros E1 E2 E3 E4 E5. unfold Low; split_and!; [done|lia| |lia|]; [intros n _; right; by rewrite E3|intros m; rewrite E5; by left]. Qed.

Lemma Low_refl c : Low c c.
Proof. by apply Low_same. Qed.

Lemma Low_trans a b c : Low a b -> Low b c -> Low a c.
Proof.
  intros (E1 & L1 & F1 & S1 & M1) (E2 & L2 & F2 & S2 & M2). unfold Low; split_and!; [congruence|lia| |lia|].
  - intros n Hn. destruct (F2 n ltac:(lia)) as [->|E]; [by left|]. rewrite E. by apply F1.
  - intros m Hm. destruct (M2 m Hm) as [Hm'|[? ?]]; [by apply M1|right; lia].
Qed.

#[export] Hint Resolve Low_refl : core.

(** * Lookups in updated files *)

Lemma findFile_remove k n l : findFile k (removeFile n l) = if k =? n then None else findFile k l.
Proof.
  unfold findFile, removeFile. induction l as [|[j c] l IH]; cbn; [by destruct (k =? n)|].
  destruct (Z.eqb_spec j n) as [->|Hjn]; cbn.
  - rewrite IH. destruct (Z.eqb_spec n k) as [->|]; [by rewrite Z.eqb_refl|done].
  - destruct (Z.eqb_spec j k) as [->|]; [|exact IH]. destruct (Z.eqb_spec k n); [lia|done].
Qed.

Lemma findFile_update n k g l : findFile n (updateFile k g l) = (if n =? k then g else id) <$> findFile n l.
Proof.
  unfold findFile, updateFile. induction l as [|[j c] l IH]; cbn; [by destruct (n =? k)|].
  destruct (Z.eqb_spec j k) as [E1|E1]; cbn; destruct (Z.eqb_spec j n) as [E2|E2]; try exact IH; cbn;
    destruct (Z.eqb_spec n k); try done; lia.
Qed.

Lemma framesAt_remove k n l : framesAt (removeFile n l) k = if k =? n then [] else framesAt l k.
Proof. unfold framesAt. rewrite findFile_remove. by destruct (k =? n). Qed.

(** Writing to the open chunk touches no finished one. *)
Lemma inst_update c c' g :
  WI c -> c_file c = true -> c_chunk c' = c_chunk c -> c_files c' = updateFile (c_chunk c) g (c_files c) ->
  c_chunks c' = c_chunks c -> Forall (inst_ok c') (c_inst c).
Proof.
  intros HI Hf E1 E2 E3. apply (inst_keep c c' (wi_inst c HI)); [lia|congruence| |by rewrite E3].
  intros n _. rewrite E2, findFile_update. by intros [fc [? [-> _]]%fmap_Some].
Qed.

(** * Dropping the oldest chunk *)

Lemma sorted_filter {A} (R : A -> A -> Prop) (p : A -> bool) l :
  StronglySorted R l -> StronglySorted R (List.filter p l).
Proof.
  induction 1 as [|x l Hl IH Hx]; cbn; [constructor|]. destruct (p x); [|done].
  constructor; [done|]. apply Forall_forall. intros y Hy. apply elem_of_filter_list in Hy as [Hy _].
  exact (proj1 (Forall_forall _ _) Hx y Hy).
Qed.

Lemma fmap_removeFile n l : fst <$> removeFile n l = List.filter (fun k => negb (k =? n)) (fst <$> l).
Proof. unfold removeFile. induction l as [|[k c] l IH]; cbn; [done|]. destruct (k =? n); cbn; by rewrite IH. Qed.

Lemma elem_of_removeFile n l p : p ∈ removeFile n l <-> p ∈ l /\ fst p <> n.
Proof. unfold removeFile. rewrite elem_of_filter_list. destruct (Z.eqb_spec (fst p) n); naive_solver. Qed.

Definition unlist (n : Z) (l : list chunkMeta) : list chunkMeta := List.filter (fun x => negb (Number x =? n)) l.

Lemma elem_of_unlist n l x : x ∈ unlist n l <-> x ∈ l /\ Number x <> n.
Proof. unfold unlist. rewrite elem_of_filter_list. destruct (Z.eqb_spec (Number x) n); naive_solver. Qed.

Lemma metaOf_unlist n k l : n <> k -> metaOf (unlist k l) n = metaOf l n.
Proof.
  intros Hn. unfold metaOf, unlist. induction l as [|x l IH]; [done|]. cbn. destruct (Z.eqb_spec (Number x) k); cbn.
  - destruct (Z.eqb_spec (Number x) n); [lia|exact IH].
  - by destruct (Number x =? n).
Qed.

Lemma unlist_other n l : Forall (fun x => Number x <> n) l -> unlist n l = l.
Proof. unfold unlist. induction 1 as [|x l Hx Hl IH]; cbn; [done|]. destruct (Z.eqb_spec (Number x) n); [lia|]. cbn. by rewrite IH. Qed.

(** The first of a sorted list is listed once. *)
Lemma unlist_head m rest : StronglySorted before (m :: rest) -> unlist (Number m) (m :: rest) = rest.
Proof.
  intros Hs. apply StronglySorted_inv in Hs as [_ Hlt]. unfold unlist; cbn. rewrite Z.eqb_refl. cbn. apply unlist_other.
  apply (Forall_impl _ _ _ Hlt). intros x [Hx _]. lia.
Qed.

Lemma rawSum_unlist l m : StronglySorted before l -> m ∈ l -> rawSum l = Raw m + rawSum (unlist (Number m) l).
Proof.
  induction l as [|x l IH]; intros Hs Hm; [by apply elem_of_nil in Hm|]. apply elem_of_cons in Hm as [->|Hm].
  - rewrite unlist_head by done. done.
  - apply StronglySorted_inv in Hs as [Hs Hlt]. pose proof (proj1 (Forall_forall _ _) Hlt m Hm) as [Hx _].
    specialize (IH Hs Hm). unfold unlist, rawSum in *; cbn. destruct (Z.eqb_spec (Number x) (Number m)); [lia|]. cbn. lia.
Qed.

Arguments unlist : simpl never.

(** A listed chunk leaves the buffer. *)
Definition dropChunk (m : chunkMeta) (c : Core) : Core :=
  c <| c_files ::= removeFile (Number m) |> <| c_buffered ::= (fun x => x - Raw m) |> <| c_chunks ::= unlist (Number m) |>.

Lemma dropChunk_WI c m : WI c -> m ∈ c_chunks c -> Number m < c_chunk c -> WI (dropChunk m c).
Proof.
  intros HI Hm Hlt. set (c' := dropChunk m c). pose proof (proj1 (Forall_forall _ _) (wi_meta c HI) m Hm) as (Hn0 & _ & _ & Hr0 & _).
  assert (Hcur : curIndexed c' = curIndexed c).
  { unfold curIndexed, c'; cbn. by rewrite metaOf_unlist by lia. }
  constructor; rewrite ?Hcur; unfold c'; cbn; try apply HI.
  - rewrite (wi_acct c HI), (rawSum_unlist _ _ (wi_sorted c HI) Hm). lia.
  - apply sorted_filter, HI.
  - apply Forall_forall. intros x [Hx _]%elem_of_unlist. exact (proj1 (Forall_forall _ _) (wi_meta c HI) x Hx).
  - rewrite fmap_removeFile. apply sorted_filter, HI.
  - apply Forall_forall. intros p Hp. apply elem_of_removeFile in Hp as [Hp Hpn].
    destruct (proj1 (Forall_forall _ _) (wi_data c HI) p Hp) as (H1 & H2 & H3).
    split; [exact H1|]. split; [exact H2|]. unfold holds_at in *; cbn. by rewrite metaOf_unlist.
  - intros Hf. rewrite fmap_removeFile. apply elem_of_filter_list. split; [by apply HI|].
    apply negb_true_iff, Z.eqb_neq. lia.
  - apply Forall_forall. intros x [Hx Hne]%elem_of_unlist.
    destruct (proj1 (Forall_forall _ _) (wi_placed c HI) x Hx) as [Hpx|Hpx]; [left|by right].
    cbn. rewrite fmap_removeFile. apply elem_of_filter_list. split; [done|]. by apply negb_true_iff, Z.eqb_neq.
  - intros Hx. pose proof (wi_max c HI Hx). lia.
  - apply (inst_keep c c' (wi_inst c HI)); [cbn; lia|done|..]; unfold c'; cbn.
    + intros n _. rewrite findFile_remove. destruct (n =? Number m); [by intros [? ?]|done].
    + intros x Hx. rewrite findFile_remove. destruct (Z.eqb_spec (Number x) (Number m)); [by intros [? ?]|].
      intros _. by apply elem_of_unlist.
Qed.

(** Dropping the oldest chunk. *)
Definition dropHead (m : chunkMeta) (rest : list chunkMeta) (c : Core) : Core :=
  c <| c_files ::= removeFile (Number m) |> <| c_buffered ::= (fun x => x - Raw m) |> <| c_chunks := rest |>.

Lemma dropHead_chunk c m rest : WI c -> c_chunks c = m :: rest -> dropHead m rest c = dropChunk m c.
Proof.
  intros HI Hc. pose proof (wi_sorted c HI) as Hs. rewrite Hc in Hs. pose proof (unlist_head m rest Hs) as Hu. rewrite <- Hc in Hu.
  destruct c; cbn in *. unfold dropHead, dropChunk; cbn. by rewrite Hu.
Qed.

Lemma dropHead_WI c m rest :
  WI c -> c_chunks c = m :: rest -> Number m < c_chunk c -> WI (dropHead m rest c).
Proof. intros HI Hc Hm. rewrite dropHead_chunk by done. apply dropChunk_WI; [done| |done]. rewrite Hc. by left. Qed.

(** The oldest listed chunk of a writer with an open chunk is not that chunk. *)
Lemma open_head c m rest :
  WI c -> c_file c = true -> c_chunks c = m :: rest -> Number m < c_chunk c.
Proof.
  intros HI Hf Hc. destruct (wi_open c HI Hf) as [_ Hi].
  apply (other_meta c m HI Hi). rewrite Hc. by left.
Qed.

(** * Storing a frame *)

Lemma fmap_updateFile n g l : fst <$> updateFile n g l = fst <$> l.
Proof. unfold updateFile. induction l as [|[k c] l IH]; cbn; [done|]. destruct (k =? n); cbn; by rewrite IH. Qed.

Lemma elem_of_updateFile n g l p :
  p ∈ updateFile n g l -> exists c, (fst p, c) ∈ l /\ snd p = if fst p =? n then g c else c.
Proof.
  unfold updateFile. intros Hp. apply list_elem_of_fmap in Hp as ([k c] & -> & Hp). exists c. cbn.
  destruct (k =? n) eqn:E; cbn; by rewrite E.
Qed.

Lemma appendFrame_frames f c : fc_frames (appendFrame f c) = fc_frames c \/ fc_frames (appendFrame f c) = fc_frames c ++ [f].
Proof. unfold appendFrame. destruct (fc_torn c); [by left|by right]. Qed.

(** A frame stored in the open chunk. *)
Definition storeCore (f : Frame) (c : Core) : Core :=
  c <| c_files ::= updateFile (c_chunk c) (appendFrame f) |> <| c_seq ::= Z.succ |> <| c_stored := Z.succ (c_seq c) |>
    <| c_raw ::= Z.add (frameSize f) |> <| c_buffered ::= Z.add (frameSize f) |>.

(** A frame lost to a failed write. *)
Definition tearCore (c : Core) : Core :=
  c <| c_files ::= updateFile (c_chunk c) tear |> <| c_seq ::= Z.succ |>.

Lemma storeCore_WI f c :
  WI c -> c_file c = true -> c_err c = false -> Sequence f = Z.succ (c_seq c) ->
  (0 < c_max c -> c_buffered c + frameSize f <= c_max c) -> WI (storeCore f c).
Proof.
  intros HI Hf He Hs Hm. destruct (wi_open c HI Hf) as [Hen Hi]. set (c' := storeCore f c).
  assert (Hcur : curIndexed c' = false) by exact Hi.
  pose proof (proj1 (curIndexed_false c) Hi) as Hn. pose proof (frameSize_pos f) as Hfs.
  destruct (wi_seq c HI) as ((Hq1 & Hq2) & Hq3 & Hq4). destruct (wi_raw c HI) as [Hr0 Hr1].
  constructor; rewrite ?Hcur; unfold c'; cbn; try apply HI.
  - done.
  - rewrite (wi_acct c HI), Hi. lia.
  - apply (Forall_impl _ _ _ (wi_meta c HI)). intros m (? & ? & ? & ? & ?). unfold meta_ok; cbn. repeat split; try lia.
  - split; [lia|]. intros _. split; [done|lia].
  - repeat split; lia.
  - rewrite fmap_updateFile. apply HI.
  - apply Forall_forall. intros p Hp. apply elem_of_updateFile in Hp as (fc & Hp & Hsnd).
    destruct (proj1 (Forall_forall _ _) (wi_data c HI) _ Hp) as (H1 & H2 & H3). cbn in H1, H2, H3.
    split; [exact H1|]. rewrite Hsnd. unfold holds_at in *; cbn.
    destruct (Z.eqb_spec (fst p) (c_chunk c)) as [E|E].
    + rewrite E, Hn in H3 |- *. destruct H3 as [H3 H4].
      assert (H4' : Forall (fun f0 => c_first c <= Sequence f0 <= Z.succ (c_seq c)) (fc_frames fc)).
      { apply (Forall_impl _ _ _ H4). intros f0 Hf0. lia. }
      destruct (appendFrame_frames f fc) as [-> | ->].
      * split; [done|]. split; [lia|done].
      * split; [|split].
        -- rewrite fmap_app. apply sorted_snoc; [done|]. apply Forall_fmap.
           apply (Forall_impl _ _ _ H4). intros f0 Hf0. cbn. lia.
        -- rewrite rawBytes_app. unfold rawBytes at 2; cbn. lia.
        -- apply Forall_app. split; [done|]. apply Forall_singleton. lia.
    + by split.
  - intros _. rewrite fmap_updateFile. by apply HI.
  - apply (Forall_impl _ _ _ (wi_placed c HI)). unfold placed; cbn. intros m Hpm. by rewrite fmap_updateFile.
  - intros Hx. specialize (Hm Hx). lia.
  - apply (inst_update c c' (appendFrame f) HI Hf); done.
Qed.

Lemma tearCore_WI c : WI c -> c_file c = true -> WI (tearCore c).
Proof.
  intros HI Hf. set (c' := tearCore c). assert (Hcur : curIndexed c' = curIndexed c) by reflexivity.
  destruct (wi_seq c HI) as ((Hq1 & Hq2) & Hq3 & Hq4).
  constructor; rewrite ?Hcur; unfold c'; cbn; try apply HI.
  - apply (Forall_impl _ _ _ (wi_meta c HI)). intros m (? & ? & ? & ? & ?). unfold meta_ok; cbn. repeat split; try lia.
  - repeat split; lia.
  - rewrite fmap_updateFile. apply HI.
  - apply Forall_forall. intros p Hp. apply elem_of_updateFile in Hp as (fc & Hp & Hsnd).
    destruct (proj1 (Forall_forall _ _) (wi_data c HI) _ Hp) as (H1 & H2 & H3). cbn in H1, H2, H3.
    assert (E : fc_frames (snd p) = fc_frames fc) by (rewrite Hsnd; by destruct (fst p =? c_chunk c)).
    split; [exact H1|]. rewrite E. split; [exact H2|exact H3].
  - intros Hx. rewrite fmap_updateFile. by apply HI.
  - apply (Forall_impl _ _ _ (wi_placed c HI)). unfold placed; cbn. intros m Hpm. by rewrite fmap_updateFile.
  - apply (inst_update c c' tear HI Hf); done.
Qed.

Lemma Put_same c c' : c_files c' = c_files c -> c_chunk c <= c_chunk c' -> Put [] c c'.
Proof.
  intros E1 E2 Hn. rewrite E1. split; [done|]. split; [done|]. split; [done|]. exists (c_chunk c). split; [lia|].
  intros n. by destruct (n =? c_chunk c); rewrite app_nil_r.
Qed.

Lemma Put_trans fs gs a b c : Put fs a b -> Put gs b c -> fs = [] \/ gs = [] -> Put (fs ++ gs) a c.
Proof.
  intros H1 H2 Hor Hn. destruct (H1 Hn) as (N1 & L1 & A1 & k1 & K1 & E1). destruct (H2 N1) as (N2 & L2 & A2 & k2 & K2 & E2).
  split; [done|]. split; [lia|]. split; [intros n Hle Hnone; apply A2; [lia|by apply A1]|]. destruct Hor as [-> | ->].
  - exists k2. split; [lia|]. intros n. rewrite E2, E1. by destruct (n =? k1); rewrite app_nil_r.
  - exists k1. split; [lia|]. intros n. rewrite E2, E1. destruct (n =? k2); by rewrite !app_nil_r.
Qed.

Lemma Put_store c f : WI c -> c_file c = true -> Put [f] c (storeCore f c).
Proof.
  intros HI Hf Ht. cbn. split; [|split; [lia|split; [intros n _ E; by rewrite findFile_update, E|]]].
  - apply Forall_forall. intros p Hp. apply elem_of_updateFile in Hp as (fc & Hp & ->).
    pose proof (proj1 (Forall_forall _ _) Ht _ Hp) as E. cbn in E.
    destruct (fst p =? c_chunk c); [|done]. unfold appendFrame. by rewrite E.
  - exists (c_chunk c). split; [lia|]. intros n. unfold framesAt. rewrite findFile_update.
    destruct (Z.eqb_spec n (c_chunk c)) as [->|]; [|destruct (findFile n _); cbn; by rewrite ?app_nil_r].
    destruct (findFile_elem _ _ (wi_here c HI (proj1 (wi_open c HI Hf)))) as [fc E]. rewrite E. cbn.
    pose proof (proj1 (Forall_forall _ _) Ht _ (findFile_in _ _ _ E)) as Et. cbn in Et.
    unfold appendFrame. by rewrite Et.
Qed.

Lemma Low_update c c' g :
  c_arch c' = c_arch c -> c_chunk c' = c_chunk c -> c_first c' = c_first c -> c_chunks c' = c_chunks c ->
  c_files c' = updateFile (c_chunk c) g (c_files c) -> Low c c'.
Proof.
  intros E1 E2 E3 E4 E5. unfold Low; split_and!; [done|lia| |lia|intros m; rewrite E4; by left]. intros n Hn. right.
  rewrite E5, findFile_update. destruct (Z.eqb_spec n (c_chunk c)); [lia|]. by destruct (findFile n (c_files c)).
Qed.

Lemma Low_store c f : Low c (storeCore f c).
Proof. by apply (Low_update _ _ (appendFrame f)). Qed.

Lemma Low_tear c : Low c (tearCore c).
Proof. by apply (Low_update _ _ tear). Qed.

Lemma Low_drop m rest c : c_chunks c = m :: rest -> Low c (dropHead m rest c).
Proof.
  intros Hc. unfold Low; split_and!; cbn; [done|lia| |lia|intros x Hx; left; rewrite Hc; by right].
  intros n Hn. rewrite findFile_remove. destruct (n =? Number m); [by left|by right].
Qed.

Lemma Sealed_meta c e c0 :
  Sealed c e c0 -> c_first c0 = c_first c /\
  forall m, m ∈ c_chunks c0 -> m ∈ c_chunks c \/ Number m = c_chunk c /\ First m = c_first c.
Proof.
  intros [c' ->|size e' l c' _ ->]; cbn; (split; [done|]); [by left|]. destruct (c_first c <=? c_seq c); [|by left].
  intros m Hm. apply elem_of_app in Hm as [Hm|Hm]; [by left|right]. by apply list_elem_of_singleton in Hm as ->.
Qed.

Lemma Sealed_Low c e c0 : Sealed c e c0 -> Low c c0.
Proof.
  intros Hs. destruct (Sealed_meta _ _ _ Hs) as [E1 E2]. destruct (Sealed_same _ _ _ Hs) as [E3 E4].
  assert (c_arch c0 = c_arch c) by (by destruct Hs as [c' ->|size e' l c' _ ->]).
  unfold Low; split_and!; [done|lia|intros n _; right; by rewrite E3|lia|].
  intros m Hm. destruct (E2 m Hm) as [?|[? ?]]; [by left|right; lia].
Qed.

Lemma Rotated_Low c e c' : WI c -> Rotated c e c' -> Low c c'.
Proof.
  intros HI HR. destruct (wi_seq c HI) as (_ & Hseq & _). destruct (Rotated_frame _ _ _ HR) as (_ & _ & _ & _ & _ & _ & Ea & _).
  assert (Hleft : forall l, leftover c l -> forall n, n < c_chunk c -> findFile n (c_files l) = findFile n (c_files c)).
  { intros l [E|E] n Hn; rewrite E; [done|]. apply findFile_next. lia. }
  destruct HR as [c1 _ Hl _ Hc| |c0 c1 _ _ _ Hs Hl Hc|c0 c1 _ _ Hs Hc]; [|done|..].
  - unfold Low; split_and!; [done|by rewrite Hc|intros n Hn; right; by apply Hleft|by rewrite Hc|intros m; rewrite Hc; by left].
  - destruct (Sealed_meta _ _ _ Hs) as [E1 E2]. destruct (Sealed_spec _ _ _ Hs) as (_ & _ & E3 & _).
    unfold Low; split_and!; [done|rewrite Hc; cbn; lia|intros n Hn; right; by apply Hleft|rewrite Hc; cbn; lia|].
    intros m. rewrite Hc; cbn. intros Hm. destruct (E2 m Hm) as [?|[? ?]]; [by left|right; lia].
  - assert (Hm : forall m, m ∈ c_chunks c0 -> m ∈ c_chunks c \/ c_chunk c <= Number m /\ c_first c <= First m).
    { destruct (c_file c); [|subst c0; by left]. destruct (Sealed_meta _ _ _ Hs) as [_ E2].
      intros m Hm. destruct (E2 m Hm) as [?|[? ?]]; [by left|right; lia]. }
    unfold Low; split_and!; [done|rewrite Hc; cbn; lia| |rewrite Hc; cbn; lia|rewrite Hc; exact Hm].
    intros n Hn. right. rewrite Hc; cbn. apply findFile_next. lia.
Qed.

Section Ops.
Context `{LogEnv}.

(** * Making room *)

Lemma evict_inv (Q : option WErr -> LW -> Prop) chunks size s :
  c_chunks (core s) = chunks -> WI (core s) -> c_file (core s) = true -> c_raw (core s) = 0 ->
  size <= c_max (core s) ->
  (forall e s' files ch buf,
     WI (core s') -> core s' = (core s) <| c_files := files |> <| c_buffered := buf |> <| c_chunks := ch |> ->
     Low (core s) (core s') -> (e = None -> buf + size <= c_max (core s)) -> Q e s') ->
  wp (evict chunks size) Q s.
Proof.
  revert s; induction chunks as [|m rest IH]; intros s Hc HI Hf Hr Hsz HQ; cbn [evict].
  - wp_step. apply (HQ None s (c_files (core s)) (c_chunks (core s)) (c_buffered (core s))); [done|done|done|].
    intros _. rewrite (wi_acct _ HI), Hc, Hr. destruct (curIndexed (core s)); change (rawSum []) with 0; lia.
  - wp_step. wp_step. destruct (negb _) eqn:Hfit.
    + wp_step. apply (HQ None s (c_files (core s)) (c_chunks (core s)) (c_buffered (core s))); [done|done|done|].
      intros _. change (buffered (lw_w s)) with (c_buffered (core s)) in Hfit.
      change (maxBytes (lw_w s)) with (c_max (core s)) in Hfit. lia.
    + wp_step. wp_step. destruct (negb b).
      * wp_step. apply (HQ _ _ (c_files (core s)) (c_chunks (core s)) (c_buffered (core s))); [exact HI|reflexivity|by apply Low_same|done].
      * do 4 wp_step.
        match goal with |- wp _ _ ?x => set (s1 := x) end.
        assert (H1 : core s1 = dropHead m rest (core s)) by reflexivity.
        apply IH; rewrite ?H1; [reflexivity| |exact Hf|exact Hr|exact Hsz|].
        { apply dropHead_WI; [done|done|]. by apply (open_head _ m rest). }
        intros e s' files ch buf HI' E HL Hok. apply (HQ e s' files ch buf); [done|by rewrite E| |done].
        exact (Low_trans _ _ _ (Low_drop m rest (core s) Hc) HL).
Qed.

(** The outcome of [makeRoom]. *)
Definition Roomed (size : Z) (c : Core) (r : Room) (c' : Core) : Prop :=
  (WI c' /\ settled c') /\ c_seq c' = c_seq c /\ c_stored c' = c_stored c /\ c_deg c' = c_deg c /\ c_rows c' = c_rows c /\
  Low c c' /\ c_max c' = c_max c /\
  match r with
  | Refused => c_trunc c' = true
  | Failed _ => c_trunc c = true -> c_trunc c' = true
  | Fits => c_file c' = true /\ c_err c' = false /\ (0 < c_max c' -> c_buffered c' + size <= c_max c') /\
            (c' = c \/ c_trunc c' = true)
  end.

Lemma settled_open c : c_file c = true -> settled c.
Proof. intros Hf H'. congruence. Qed.

Lemma trunc_WI c b : WI c -> WI (c <| c_trunc := b |>).
Proof. intros HI. constructor; apply HI. Qed.

Lemma makeRoom_inv (Q : Room -> LW -> Prop) size s :
  WI (core s) -> c_file (core s) = true -> c_err (core s) = false ->
  (forall r s', Roomed size (core s) r (core s') -> Q r s') -> wp (makeRoom size) Q s.
Proof.
  intros HI Hf He HQ. pose proof (settled_open _ Hf) as Hset. unfold makeRoom. wp_step. wp_step.
  destruct ((0 <? maxBytes (lw_w s)) && _) eqn:Hfull.
  2:{ wp_step. apply HQ. split_and!; try done; [|by left].
      change (maxBytes (lw_w s)) with (c_max (core s)) in Hfull.
      change (buffered (lw_w s)) with (c_buffered (core s)) in Hfull. intros Hx. lia. }
  destruct (dropNew (lw_w s) || (size >? maxBytes (lw_w s))) eqn:Hdrop.
  { unfold markTruncated. wp_go. apply HQ. split_and!; try done; [exact (trunc_WI (core s) true HI)|by apply Low_same]. }
  apply orb_false_iff in Hdrop as [_ Hsz]. change (maxBytes (lw_w s)) with (c_max (core s)) in Hsz.
  (* after an optional rotation the current chunk is empty *)
  assert (Hevict : forall s1, WI (core s1) -> c_file (core s1) = true -> c_err (core s1) = false -> c_raw (core s1) = 0 ->
    c_seq (core s1) = c_seq (core s) -> c_stored (core s1) = c_stored (core s) -> c_deg (core s1) = c_deg (core s) ->
    c_rows (core s1) = c_rows (core s) -> Low (core s) (core s1) -> c_max (core s1) = c_max (core s) ->
    wp (markTruncated ;;
        let* w := getW in
        let* err := evict (ix_Chunks (idx w)) size in
        match err with Some e => ret (Failed e) | None => ret Fits end) Q s1).
  { intros s1 HI1 Hf1 He1 Hr1 Hseq Hst Hdeg Hrows Harch Hmax. unfold markTruncated. do 5 wp_step.
    apply evict_inv; [done|by apply (trunc_WI (core s1))|done|done|cbn in *; lia|].
    intros e s2 files ch buf HI2 H2 HL2 Hfit.
    pose proof (Low_trans _ _ _ Harch HL2 : Low (core s) (core s2)) as HL.
    assert (Hgen : settled (core s2)) by (apply settled_open; by rewrite H2).
    destruct e as [e|]; wp_step; apply HQ; unfold Roomed; (split; [done|]); rewrite H2 in HL |- *; cbn;
      split_and!; try done; [|by right].
    intros Hx. specialize (Hfit eq_refl). cbn in *. lia. }
  wp_step. destruct (0 <? chunkRaw (lw_w s)) eqn:Hraw.
  - apply rotate_core; [intros _; by apply (wi_open _ HI)|]. intros e s1 HR.
    destruct (Rotated_WI _ _ _ HI Hset HR) as (HI1 & Hset1 & Hok1).
    destruct (Rotated_frame _ _ _ HR) as (F1 & F2 & F3 & F4 & F5 & F6 & F7 & F8).
    destruct e as [e|].
    + wp_step. apply HQ. split_and!; try done; [by apply (Rotated_Low _ true)|by rewrite F4].
    + destruct (Hok1 eq_refl) as (? & ? & ?). apply Hevict; try done. by apply (Rotated_Low _ false).
  - wp_step. apply Hevict; try done. destruct (wi_raw _ HI) as [Hr0 _].
    change (chunkRaw (lw_w s)) with (c_raw (core s)) in Hraw. lia.
Qed.

Lemma Put_next c c' : c_files c' = nextFile c -> c_chunk c <= c_chunk c' -> Put [] c c'.
Proof.
  intros E Hc Hn. rewrite E. unfold nextFile. split; [apply Forall_app; split; [done|by apply Forall_singleton]|].
  split; [done|]. split.
  { intros n Hle Hnone. rewrite findFile_app, Hnone. unfold findFile; cbn. destruct (Z.eqb_spec (c_chunk c + 1) n); [lia|done]. }
  exists (c_chunk c). split; [lia|]. intros n. unfold framesAt. rewrite findFile_app.
  replace (if n =? c_chunk c then [] else []) with (@nil Frame) by (by destruct (n =? c_chunk c)).
  rewrite app_nil_r. destruct (findFile n (c_files c)); [done|]. unfold findFile; cbn. by destruct (c_chunk c + 1 =? n).
Qed.

Lemma Rotated_Put c e c' : Rotated c e c' -> Put [] c c'.
Proof.
  intros [c1 _ [E|E] _ Hc| |c0 c1 _ _ _ Hs [E|E] Hc|c0 c1 _ _ Hs Hc].
  - apply Put_same; [done|]. rewrite Hc; cbn. lia.
  - apply Put_next; [done|]. rewrite Hc; cbn. lia.
  - by apply Put_same.
  - destruct (Sealed_spec _ _ _ Hs) as (_ & _ & Ech & _). apply Put_same; [done|]. rewrite Hc. cbn. lia.
  - destruct (Sealed_spec _ _ _ Hs) as (_ & _ & Ech & _). apply Put_next; [done|]. rewrite Hc. cbn. lia.
  - apply Put_next; rewrite Hc; [done|]. cbn. lia.
Qed.

(** The outcome of writing frame [f]: the invariant, and when the frame was
    accepted and nothing has been lost, [f] at the end of the buffer. *)
Definition Wrote (f : Frame) (c : Core) (r : Result WErr bool) (c' : Core) : Prop :=
  (WI c' /\ settled c') /\ c_deg c' = c_deg c /\ c_rows c' = c_rows c /\ Low c c' /\ c_max c' = c_max c /\
  (c_trunc c = true -> c_trunc c' = true) /\
  match r with
  | Err _ => True
  | Ok _ => c_trunc c' = true \/
            c_seq c' = Z.succ (c_seq c) /\
            Put [f] c c'
  end.

Lemma storeFrame_inv (Q : Result WErr bool -> LW -> Prop) now stream flags payload s :
  WI (core s) -> c_file (core s) = true -> c_err (core s) = false ->
  (0 < c_max (core s) -> c_buffered (core s) + (24 + blen payload) <= c_max (core s)) ->
  (forall r s', Wrote (mkFrame (Z.succ (c_seq (core s))) now stream flags payload) (core s) r (core s') -> Q r s') ->
  wp (storeFrame now stream flags payload) Q s.
Proof.
  intros HI Hf He Hfit HQ. set (f := mkFrame _ _ _ _ _) in HQ.
  assert (Hfail : forall s1 e, core s1 = tearCore (core s) -> Q (Err e) s1).
  { intros s1 e E. apply HQ. rewrite E. pose proof (tearCore_WI _ HI Hf). unfold Wrote.
    split_and!; try done; [by apply settled_open|apply Low_tear]. }
  assert (Hok : forall s1 b, core s1 = storeCore f (core s) -> Q (Ok b) s1).
  { intros s1 b E. apply HQ. rewrite E.
    assert (WI (storeCore f (core s))) by (apply storeCore_WI; [done|done|done|reflexivity|exact Hfit]).
    unfold Wrote. split_and!; try done; [by apply settled_open|apply Low_store|]. right. split; [done|].
    by apply Put_store. }
  unfold storeFrame. wp_go; (eapply Hok || eapply Hfail); reflexivity.
Qed.

(** A write after steps that changed nothing it depends on. *)
Lemma Wrote_after f c1 c2 r c' :
  Wrote f c2 r c' -> c_seq c2 = c_seq c1 -> c_deg c2 = c_deg c1 -> c_rows c2 = c_rows c1 -> Low c1 c2 ->
  c_max c2 = c_max c1 -> (c_trunc c1 = true -> c_trunc c2 = true) ->
  (c_trunc c2 = true \/ Put [] c1 c2) ->
  Wrote f c1 r c'.
Proof.
  intros (W1 & W2 & W3 & W4 & W5 & W6 & W7) E1 E2 E3 E4 E5 E6 E7. unfold Wrote.
  split_and!; try apply W1; try congruence; [exact (Low_trans _ _ _ E4 W4)|by auto|].
  destruct r as [b|e]; [|done]. destruct E7 as [E7|E7]; [left; auto|].
  destruct W7 as [?|[W7 W8]]; [by left|right]. split; [congruence|].
  apply (Put_trans [] [f] _ _ _ E7 W8). by left.
Qed.

Lemma writeFitted_inv (Q : Result WErr bool -> LW -> Prop) now stream flags payload s :
  Inv s -> c_file (core s) = true -> c_err (core s) = false ->
  (0 < c_max (core s) -> c_buffered (core s) + (24 + blen payload) <= c_max (core s)) ->
  (forall r s', Wrote (mkFrame (Z.succ (c_seq (core s))) now stream flags payload) (core s) r (core s') -> Q r s') ->
  wp (writeFitted now stream flags payload) Q s.
Proof.
  intros [HI Hset] Hf He Hfit HQ. unfold writeFitted. do 3 wp_step.
  destruct ((_ >? chunkLimit) && _); [|wp_step; by apply storeFrame_inv].
  apply rotate_core; [intros _; by apply (wi_open _ HI)|]. intros e s3 HR.
  destruct (Rotated_WI _ _ _ HI Hset HR) as (HI3 & Hs3 & Hok3).
  destruct (Rotated_frame _ _ _ HR) as (F1 & F2 & F3 & F4 & F5 & F6 & F7 & F8).
  destruct e as [e|].
  - wp_step. apply HQ. unfold Wrote. split_and!; try done; try congruence. by apply (Rotated_Low _ true).
  - destruct (Hok3 eq_refl) as (? & ? & ?). apply storeFrame_inv; [done|done|done| |].
    + rewrite F3, F8. exact Hfit.
    + intros r s4 HW. apply HQ. rewrite F1 in HW. apply (Wrote_after _ _ _ _ _ HW); try done; try congruence; [by apply (Rotated_Low _ false)|].
      right. by apply (Rotated_Put _ false).
Qed.

Lemma writeRoomed_inv (Q : Result WErr bool -> LW -> Prop) now stream flags payload s :
  Inv s -> c_file (core s) = true -> c_err (core s) = false ->
  (forall r s', Wrote (mkFrame (Z.succ (c_seq (core s))) now stream flags payload) (core s) r (core s') -> Q r s') ->
  wp (writeRoomed now stream flags payload) Q s.
Proof.
  intros [HI Hset] Hf He HQ. unfold writeRoomed. wp_step. apply makeRoom_inv; [done..|].
  intros r s2 ([HI2 Hs2] & E1 & E2 & E3 & E4 & E5 & E6 & Hr). destruct r as [|e|].
  - wp_step. apply HQ. unfold Wrote. split_and!; try done; try congruence. by left.
  - wp_step. apply HQ. unfold Wrote. by split_and!.
  - destruct Hr as (Hf2 & He2 & Hfit & Hsame). apply writeFitted_inv; [done..|].
    intros r s4 HW. apply HQ. rewrite E1 in HW. apply (Wrote_after _ _ _ _ _ HW); try done.
    + intros Ht. destruct Hsame as [-> | ->]; done.
    + destruct Hsame as [-> | ->]; [right; by apply Put_same|by left].
Qed.

Lemma writeLocked_inv (Q : Result WErr bool -> LW -> Prop) now stream payload flags s :
  Inv s ->
  (forall r s', Wrote (mkFrame (Z.succ (c_seq (core s))) now stream flags payload) (core s) r (core s') -> Q r s') ->
  wp (writeLocked now stream payload flags) Q s.
Proof.
  intros HInv HQ. pose proof HInv as [HI Hset].
  assert (Hsame : forall e, Q (Err e) s) by (intros e; apply HQ; unfold Wrote; by split_and!).
  unfold writeLocked. wp_step. wp_step. destruct (closed (lw_w s)); [wp_go; apply Hsame|].
  destruct (chunkErr (lw_w s)) as [e|] eqn:Herr; [wp_go; apply Hsame|].
  destruct (negb (file (lw_w s) && enc (lw_w s))) eqn:Hopen; [wp_go; apply Hsame|].
  apply negb_false_iff, andb_true_iff in Hopen as [Hf _].
  assert (Hce : c_err (core s) = false) by (unfold core; cbn; by rewrite Herr).
  (* a write to the marked run: it has lost output already *)
  assert (Hmarked : forall s1 fl p, core s1 = (core s) <| c_trunc := true |> -> wp (writeRoomed now stream fl p) Q s1).
  { intros s1 fl p H1. assert (Inv s1) by (split; rewrite H1; [by apply trunc_WI|exact Hset]).
    apply writeRoomed_inv; [done|by rewrite H1|by rewrite H1|]. intros r s2 HW. apply HQ. rewrite H1 in HW.
    destruct HW as (W1 & W2 & W3 & W4 & W5 & W6 & W7). unfold Wrote. split_and!; try apply W1; try done; [by auto|].
    destruct r as [b|]; [|done]. left. by apply W6. }
  wp_step. unfold when, markTruncated. destruct (negb (Z.land flags FlagTruncated =? 0)).
  - wp_step. destruct (_ && _); [do 2 wp_step|]; by apply Hmarked.
  - wp_step. destruct (_ && _); [do 2 wp_step; by apply Hmarked|]. by apply writeRoomed_inv.
Qed.

(** * Abandoned chunks and recovery *)

Lemma sorted_last l m n :
  StronglySorted before l -> metaOf l n = Some m -> Forall (fun x => Number x <= n) l -> last l = Some m.
Proof.
  induction 1 as [|x l Hl IH Hx]; intros Hm Hle; [done|]. apply Forall_cons in Hle as [Hle1 Hle2].
  unfold metaOf in Hm; cbn in Hm. destruct (Z.eqb_spec (Number x) n) as [E|E].
  - simplify_eq. destruct l as [|y l']; [done|]. apply Forall_cons in Hx as [[Hxy _] _].
    apply Forall_cons in Hle2 as [? _]. lia.
  - destruct l as [|y l']; [done|]. cbn. by apply IH.
Qed.

(** The test of [indexAbandonedChunk] looks at the last entry only. *)
Lemma last_indexed c :
  WI c -> match last (c_chunks c) with Some m => Number m =? c_chunk c | None => false end = curIndexed c.
Proof.
  intros HI. unfold curIndexed. destruct (metaOf (c_chunks c) (c_chunk c)) as [m|] eqn:Em.
  - pose proof (metaOf_elem _ _ _ Em) as [_ En].
    rewrite (sorted_last _ _ _ (wi_sorted c HI) Em); [by apply Z.eqb_eq|].
    apply (Forall_impl _ _ _ (wi_meta c HI)). intros x (_ & _ & _ & _ & ?). lia.
  - destruct (last (c_chunks c)) as [m|] eqn:El; [|done]. apply metaOf_none in Em.
    apply Z.eqb_neq, (proj1 (Forall_forall _ _) Em). apply last_Some in El as (l' & ->).
    apply elem_of_app. right. by apply list_elem_of_singleton.
Qed.

Lemma abandon_WI c size :
  WI c -> c_file c = false -> 0 < c_raw c -> curIndexed c = false ->
  WI (c <| c_chunks := c_chunks c ++ [mkMeta (c_chunk c) (c_first c) (c_stored c) size (c_raw c) false] |> <| c_raw := 0 |>).
Proof.
  intros HI Hf Hr Hi. destruct (proj2 (wi_raw c HI) Hr) as [Hen Hst]. destruct (wi_first c HI Hen) as [Hf0 Hc0].
  pose proof (proj1 (curIndexed_false c) Hi) as Hn. destruct (wi_seq c HI) as ((Hq1 & Hq2) & Hq3 & Hq4).
  set (m := mkMeta _ _ _ _ _ _). set (c' := _ <| c_raw := 0 |>).
  assert (Hcur : curIndexed c' = true).
  { unfold curIndexed, c'; cbn. rewrite metaOf_app, Hn, metaOf_one. cbn. by rewrite Z.eqb_refl. }
  constructor; rewrite ?Hcur; unfold c'; cbn; try apply HI; try done.
  - by rewrite Hf.
  - rewrite rawSum_app. unfold rawSum at 2; cbn. rewrite (wi_acct c HI), Hi. lia.
  - apply sorted_snoc; [apply HI|]. apply Forall_forall. intros x Hx.
    apply (other_meta c) in Hx; [|done|done]. unfold before; cbn. lia.
  - apply Forall_app. split; [exact (wi_meta c HI)|]. apply Forall_singleton. unfold meta_ok; cbn. repeat split; try lia.
  - apply (Forall_impl _ _ _ (wi_data c HI)). intros [n fc] (H1 & H2 & H3). split; [done|]. split; [done|].
    unfold holds_at in *; cbn in *. rewrite metaOf_app. destruct (metaOf (c_chunks c) n); [done|].
    rewrite metaOf_one; cbn. rewrite Z.eqb_sym. by destruct (n =? c_chunk c).
  - apply Forall_app. split; [exact (wi_placed c HI)|]. apply Forall_singleton. left. exact (wi_here c HI Hen).
  - apply (inst_same c); [apply HI|done..|]. intros x Hx. cbn. apply elem_of_app. by left.
Qed.

(** What operations on a damaged writer keep: the invariant and everything a
    reader of the archive depends on. *)
Definition Kept (c c' : Core) : Prop :=
  (WI c' /\ settled c') /\ c_deg c' = c_deg c /\ c_trunc c' = c_trunc c /\ c_max c' = c_max c /\
  c_rows c' = c_rows c /\ Low c c'.

Lemma indexAbandonedChunk_inv (Q : unit -> LW -> Prop) s :
  WI (core s) -> c_file (core s) = false ->
  (forall s', Kept (core s) (core s') -> c_file (core s') = false -> c_err (core s') = c_err (core s) -> Q tt s') ->
  wp indexAbandonedChunk Q s.
Proof.
  intros HI Hf HQ. unfold indexAbandonedChunk. wp_step. wp_step.
  destruct (negb (enc (lw_w s)) || (chunkRaw (lw_w s) =? 0) || (lastStored (lw_w s) <? chunkFirst (lw_w s))) eqn:Hskip.
  { wp_step. apply HQ; [|done|done]. unfold Kept. split_and!; try done. intros _ _. left.
    destruct (wi_raw _ HI) as [Hr0 Hr1]. destruct (decide (0 < c_raw (core s))) as [Hr|]; [|lia].
    destruct (Hr1 Hr) as [He Hst]. unfold core in *; cbn in *. rewrite He in Hskip. cbn in Hskip. lia. }
  pose proof (last_indexed _ HI) as Hlast. cbn in Hlast.
  destruct (match last (ix_Chunks (idx (lw_w s))) with Some m => _ | None => false end) eqn:Hl.
  { wp_step. apply HQ; [|done|done]. unfold Kept. split_and!; try done. intros _ _. by right. }
  assert (Hr : 0 < c_raw (core s)).
  { destruct (wi_raw _ HI). apply orb_false_iff in Hskip as [Hskip _]. apply orb_false_iff in Hskip as [_ Hskip].
    unfold core in *; cbn in *. lia. }
  unfold addMeta. do 7 wp_step.
  match goal with |- Q tt ?x => set (s1 := x) end.
  assert (exists size, core s1 = (core s) <| c_chunks := c_chunks (core s) ++
     [mkMeta (c_chunk (core s)) (c_first (core s)) (c_stored (core s)) size (c_raw (core s)) false] |> <| c_raw := 0 |>)
    as [size E] by (eexists; reflexivity).
  apply HQ; [|by rewrite E|by rewrite E]. unfold Kept. rewrite E. split_and!; try done.
  - by apply abandon_WI.
  - intros _ _. by left.
  - unfold Low; cbn; split_and!; [done|lia|by right|lia|]. intros m Hm. apply elem_of_app in Hm as [Hm|Hm]; [by left|right].
    apply list_elem_of_singleton in Hm as ->. cbn. lia.
Qed.

Lemma clearErr_WI c : WI c -> c_file c = false -> WI (c <| c_err := false |>).
Proof. intros HI Hf. constructor; try apply HI. done. Qed.

Lemma closeFile_WI c : WI c -> c_err c = false -> WI (c <| c_file := false |>).
Proof. intros HI Hf. constructor; try apply HI; try done. apply (inst_same c); [apply HI|done..]. Qed.

Lemma Kept_trans a b c : Kept a b -> Kept b c -> Kept a c.
Proof. unfold Kept. intros (? & ? & ? & ? & ? & L1) ([? ?] & ? & ? & ? & ? & L2). split_and!; try done; try congruence. exact (Low_trans _ _ _ L1 L2). Qed.

Lemma Rotated_Kept c e c' : WI c -> settled c -> Rotated c e c' -> Kept c c'.
Proof.
  intros HI Hs HR. destruct (Rotated_WI _ _ _ HI Hs HR) as (HI3 & Hs3 & _).
  destruct (Rotated_frame _ _ _ HR) as (F1 & F2 & F3 & F4 & F5 & F6 & F7 & F8). unfold Kept.
  split_and!; try done. by apply (Rotated_Low _ e).
Qed.

Lemma clearChunkErr_inv (Q : option WErr -> LW -> Prop) s :
  WI (core s) ->
  (forall e s' l, newInst (core s) l -> WI (core s') ->
     (if isErr e then core s' = (core s) <| c_inst := l |> else core s' = (core s) <| c_inst := l |> <| c_err := false |>) ->
     Q e s') ->
  wp clearChunkErr Q s.
Proof.
  intros HI HQ. unfold clearChunkErr. do 2 wp_step. destruct (chunkErr (lw_w s)) as [e|] eqn:Herr.
  - assert (Hf : c_file (core s) = false) by (apply (wi_err _ HI); unfold core; cbn; by rewrite Herr).
    assert (Hclear : forall (s1 : LW) l, newInst (core s) l -> core s1 = (core s) <| c_inst := l |> ->
      wp (modW (fun w => w <| chunkErr := None |> <| chunkIndexOnly := false |>) ;; ret None) Q s1).
    { intros s1 l Hl H1. wp_go. apply (HQ _ _ l Hl); cbn [isErr].
      - change (WI ((core s1) <| c_err := false |>)). rewrite H1. exact (inst_WI _ l (clearErr_WI _ HI Hf) Hl).
      - change ((core s1) <| c_err := false |> = (core s) <| c_inst := l |> <| c_err := false |>). by rewrite H1. }
    wp_step. destruct (chunkIndexOnly (lw_w s)).
    + unfold writeIndex. apply writeIndexSync_core. intros [ie|] s1 l Hl H1.
      * wp_step. apply (HQ _ _ l Hl); [rewrite H1; by apply inst_WI|done].
      * by apply (Hclear s1 l).
    + wp_step. apply (Hclear s (c_inst (core s))); [by left|reflexivity].
  - wp_step. apply (HQ _ _ (c_inst (core s))); [by left|done|]. cbn [isErr].
    rewrite set_err_same; [reflexivity|]. unfold core; cbn. by rewrite Herr.
Qed.

Lemma abandonChunk_inv (Q : unit -> LW -> Prop) s :
  WI (core s) -> c_err (core s) = false ->
  (forall s', Kept (core s) (core s') -> c_file (core s') = false -> c_err (core s') = false -> Q tt s') ->
  wp abandonChunk Q s.
Proof.
  intros HI He HQ.
  assert (Hclosed : forall s1, core s1 = (core s) <| c_file := false |> -> wp indexAbandonedChunk Q s1).
  { intros s1 H1. assert (WI (core s1)) by (rewrite H1; by apply closeFile_WI).
    apply indexAbandonedChunk_inv; [done|by rewrite H1|]. intros s2 HK Hf2 He2. rewrite H1 in HK, He2.
    apply HQ; [|done|by rewrite He2]. exact HK. }
  unfold abandonChunk. do 3 wp_step. unfold when. destruct (file (lw_w s)) eqn:Hf.
  - do 3 wp_step. by apply Hclosed.
  - wp_step. apply Hclosed. clear - Hf. unfold core; cbn. by rewrite Hf.
Qed.

Lemma freshChunk_inv (Q : option WErr -> LW -> Prop) s :
  WI (core s) -> settled (core s) -> c_file (core s) = false ->
  (forall e s', Kept (core s) (core s') -> Q e s') -> wp freshChunk Q s.
Proof.
  intros HI Hs Hf HQ. unfold freshChunk. do 3 wp_step.
  assert (Hrot : forall s1, core s1 = core s -> wp rotate Q s1).
  { intros s1 H1. apply rotate_core; [change (c_file (core s1) = true -> enc (lw_w s1) = true); rewrite H1, Hf; done|].
    rewrite H1. intros e s2 HR. apply HQ. by apply (Rotated_Kept _ (isErr e)). }
  assert (Hself : forall s1 e, core s1 = core s -> Q e s1).
  { intros s1 e E. apply HQ. rewrite E. by split_and!. }
  wp_step; wp_step; (wp_step; [wp_step; by apply Hself|]); do 2 wp_step; by apply Hrot.
Qed.

Lemma reopenChunk_inv (Q : option WErr -> LW -> Prop) s :
  Inv s -> (forall e s', Kept (core s) (core s') -> Q e s') -> wp reopenChunk Q s.
Proof.
  intros [HI Hset] HQ. unfold reopenChunk. wp_step. apply clearChunkErr_inv; [done|].
  intros [e|] s1 l Hl HI1 H1; cbn [isErr] in H1.
  - wp_step. apply HQ. unfold Kept. split_and!; [exact HI1|rewrite H1; exact Hset|by rewrite H1..|rewrite H1; by apply Low_same].
  - wp_step. apply abandonChunk_inv; [done|by rewrite H1|]. intros s2 HK2 Hf2 _. rewrite H1 in HK2.
    assert (HK : Kept (core s) (core s2)) by exact HK2. clear HK2. rename HK into HK2.
    pose proof HK2 as ([HI2 Hs2] & _). apply freshChunk_inv; [done..|]. intros e s3 HK3. apply HQ.
    exact (Kept_trans _ _ _ HK2 HK3).
Qed.

End Ops.
