(* ===== verification/LogWriterRun.v ===== *)
(** The writer's entry points keep the invariant, and tell the truth: a run
    that is not marked truncated has lost nothing. *)

From S2P Require Import Prelude GoRuntime LogFrame LogWriter LogArchive LogWriterCore LogWriterInv LogWriterOps.
Open Scope Z_scope.
Open Scope lw_scope.

(** * What one call may do

    After a call that stores the frames [fs], either the run is marked
    truncated or its buffer holds what it held before followed by [fs]. *)
Definition Good (c : Core) : Prop := WI c /\ settled c /\ marked c.

Definition Grew (fs : list Frame) (c c' : Core) : Prop :=
  c_seq c' = c_seq c + Z.of_nat (length fs) /\ Put fs c c'.

Definition Did (fs : list Frame) (c c' : Core) : Prop :=
  Good c' /\ (c_trunc c = true -> c_trunc c' = true) /\ c_max c' = c_max c /\
  c_rows c' = c_rows c /\ Low c c' /\ (c_trunc c' = true \/ Grew fs c c').

Lemma Grew_same c c' : c_seq c' = c_seq c -> c_files c' = c_files c -> c_chunk c' = c_chunk c -> Grew [] c c'.
Proof. intros E1 E2 E3. split; [cbn [length]; lia|]. apply Put_same; [done|lia]. Qed.

Lemma Did_nothing c : Good c -> Did [] c c.
Proof. intros HG. unfold Did. split_and!; try apply HG; try done. right. by apply Grew_same. Qed.

(** Anything may be missing from a marked run. *)
Lemma Did_lost fs c c' :
  WI c' -> settled c' -> c_trunc c' = true -> c_max c' = c_max c -> c_rows c' = c_rows c -> Low c c' ->
  Did fs c c'.
Proof. intros. unfold Did, Good, marked. split_and!; try done. by left. Qed.

Section Run.
Context `{LogEnv}.

(** * Degraded capture *)

Lemma flags_WI c d t : WI c -> WI (c <| c_deg := d |> <| c_trunc := t |>).
Proof. intros HI. constructor; apply HI. Qed.

Lemma enterDegraded_core (Q : unit -> LW -> Prop) now e s :
  (forall s', core s' = (core s) <| c_deg := true |> <| c_trunc := true |> -> Q tt s') ->
  wp (enterDegraded now e) Q s.
Proof.
  intros HQ. unfold enterDegraded, signalPressure, backoff. do 3 wp_step. unfold when.
  destruct (degraded (lw_w s)) eqn:Hd; cbn [negb]; wp_go; apply HQ; unfold core; cbn; by rewrite ?Hd.
Qed.

Lemma discard_core (Q : unit -> LW -> Prop) n s :
  (forall s', core s' = (core s) <| c_trunc := true |> -> Q tt s') -> wp (discard n) Q s.
Proof. intros HQ. unfold discard. wp_go. by apply HQ. Qed.

(** A recovery attempt: of a marked run it stays marked, whatever happens. *)
Lemma recoverLocked_inv (Q : bool -> LW -> Prop) now s :
  Inv s -> c_trunc (core s) = true ->
  (forall b s', Inv s' -> c_trunc (core s') = true -> c_max (core s') = c_max (core s) ->
                c_rows (core s') = c_rows (core s) -> Low (core s) (core s') -> Q b s') ->
  wp (recoverLocked now) Q s.
Proof.
  intros HI Ht HQ. unfold recoverLocked. wp_step. apply reopenChunk_inv; [done|].
  intros e s1 ([HI1 Hs1] & K1 & K2 & K3 & K4 & K5). destruct e as [e|].
  - do 2 wp_step. unfold backoff. wp_go. apply HQ; try done; cbn in *; congruence.
  - do 3 wp_step. apply writeLocked_inv; [done|]. intros r s2 ([HI2 Hs2] & W1 & W2 & W3 & W4 & W5 & _).
    assert (Ht2 : c_trunc (core s2) = true) by (apply W5; congruence).
    destruct r as [b|e].
    + wp_go. apply HQ; [|exact Ht2|exact (eq_trans W4 K3)|exact (eq_trans W2 K4)|exact (Low_trans _ _ _ K5 W3)].
      split; [exact (flags_WI (core s2) false (c_trunc (core s2)) HI2)|exact Hs2].
    + wp_step. apply enterDegraded_core. intros s3 H3. wp_step.
      apply HQ; rewrite ?H3; [|done|exact (eq_trans W4 K3)|exact (eq_trans W2 K4)|exact (Low_trans _ _ _ K5 W3)].
      split; rewrite H3; [by apply flags_WI|exact Hs2].
Qed.

Lemma captureLocked_inv (Q : Result WErr bool -> LW -> Prop) now stream payload flags s :
  Good (core s) ->
  (forall r s', Did (if is_ok r then [mkFrame (Z.succ (c_seq (core s))) now stream flags payload] else []) (core s) (core s') ->
                Q r s') ->
  wp (captureLocked now stream payload flags) Q s.
Proof.
  intros (HI & Hset & Hm) HQ. unfold captureLocked. do 2 wp_step.
  destruct (closed (lw_w s)); [wp_step; apply HQ; by apply Did_nothing|].
  (* once capture is ready *)
  assert (Hlost : forall s1, Inv s1 -> c_max (core s1) = c_max (core s) -> c_rows (core s1) = c_rows (core s) ->
    Low (core s) (core s1) -> wp (discard (blen payload) ;; ret (Ok false)) Q s1).
  { intros s1 [HI1 Hs1] E1 E2 E3. wp_step. apply discard_core. intros s2 H2. wp_step. apply HQ. cbn [is_ok].
    apply Did_lost; rewrite H2; try done. by apply trunc_WI. }
  assert (Hwrite : forall s1, Inv s1 -> marked (core s1) -> c_max (core s1) = c_max (core s) ->
    c_rows (core s1) = c_rows (core s) -> Low (core s) (core s1) ->
    (c_trunc (core s) = true -> c_trunc (core s1) = true) -> (core s1 = core s \/ c_trunc (core s1) = true) ->
    wp (let* r := writeLocked now stream payload flags in
        match r with
        | Err e => enterDegraded now e ;; discard (blen payload) ;; ret (Ok false)
        | Ok needSync => ret (Ok needSync)
        end) Q s1).
  { intros s1 HI1 Hm1 E1 E2 E3 E4 E5. wp_step. apply writeLocked_inv; [done|].
    intros r s2 ([HI2 Hs2] & W1 & W2 & W3 & W4 & W5 & W6). destruct r as [b|e].
    - wp_step. apply HQ. cbn [is_ok]. unfold Did, Good, marked. split_and!; try done; try congruence; try (by auto).
      + intros Hd. apply W5. apply Hm1. congruence.
      + exact (Low_trans _ _ _ E3 W3).
      + destruct W6 as [?|[W6 W7]]; [by left|]. destruct E5 as [E5|E5]; [right|left; by auto].
        rewrite E5 in W6, W7. split; [rewrite W6; cbn [length]; lia|done].
    - wp_step. apply enterDegraded_core. intros s3 H3.
      apply Hlost; rewrite ?H3; [|exact (eq_trans W4 E1)|exact (eq_trans W2 E2)|exact (Low_trans _ _ _ E3 W3)].
      split; rewrite H3; [by apply flags_WI|exact Hs2]. }
  wp_step. destruct (degraded (lw_w s)) eqn:Hd; [|wp_step; apply Hwrite; try done; by left].
  assert (Ht : c_trunc (core s) = true) by (apply Hm; exact Hd).
  destruct (Before now (retryAt (lw_w s))); [wp_step; by apply Hlost|].
  apply recoverLocked_inv; [done|done|]. intros b s1 HI1 Ht1 E1 E2 E3. destruct b; cbn [negb].
  - apply Hwrite; try done; [by intros _|by right].
  - by apply Hlost.
Qed.

(** * The entry points *)

Lemma Did_then fs a b c : Did fs a b -> Did [] b c -> Did fs a c.
Proof.
  unfold Did. intros (? & ? & ? & ? & L1 & Hb) (HG & ? & ? & ? & L2 & Hc).
  split_and!; try apply HG; try congruence; [by auto|exact (Low_trans _ _ _ L1 L2)|].
  destruct Hc as [?|[Hc1 Hc2]]; [by left|]. destruct Hb as [Hb|[Hb1 Hb2]]; [left; by auto|right].
  split; [cbn [length] in Hc1; lia|]. rewrite <- (app_nil_r fs). apply (Put_trans _ _ _ _ _ Hb2 Hc2). by right.
Qed.

Lemma Sync_inv (Q : option WErr -> LW -> Prop) s :
  Good (core s) -> (forall e s', Did [] (core s) (core s') -> Q e s') -> wp Sync Q s.
Proof.
  intros HG HQ. apply Sync_core. intros e s' [E|E]; apply HQ; rewrite E; [by apply Did_nothing|].
  destruct HG as (HI & Hs & _). apply Did_lost; try done; [by apply trunc_WI|by apply Low_same].
Qed.

(** [capture] and [Write]: a call that reports no error stored its line or
    marked the run; one that reports an error stored nothing new that counts. *)
Lemma capture_inv (Q : option WErr -> LW -> Prop) now stream payload flags s :
  Good (core s) ->
  (forall e s', Did (if isErr e then [] else [mkFrame (Z.succ (c_seq (core s))) now stream flags payload]) (core s) (core s') ->
                Q e s') ->
  wp (capture now stream payload flags) Q s.
Proof.
  intros HG HQ. unfold capture. wp_step. apply captureLocked_inv; [done|]. intros r s1 H1.
  destruct r as [[]|e]; cbn [is_ok] in H1.
  - wp_step. apply Sync_inv; [apply H1|]. intros e s2 H2. wp_step. apply HQ. exact (Did_then _ _ _ _ H1 H2).
  - wp_step. by apply HQ.
  - wp_step. by apply HQ.
Qed.

Lemma Wrote_Did f c r c' : marked c -> Wrote f c r c' -> is_ok r = true -> Did [f] c c'.
Proof.
  intros Hm ([HI Hs] & W1 & W2 & W3 & W4 & W5 & W6) Hr. destruct r as [b|]; [|done].
  unfold Did, Good, marked. split_and!; try done.
  intros Hd. apply W5, Hm. congruence.
Qed.

(** What survives a failed [Write]: the invariant, not the content. *)
Definition Safe (c c' : Core) : Prop :=
  Good c' /\ c_max c' = c_max c /\ c_rows c' = c_rows c /\ Low c c'.

Lemma Did_Safe fs c c' : Did fs c c' -> Safe c c'.
Proof. intros (? & _ & ? & ? & ? & _). by split_and!. Qed.

Lemma Write_inv (Q : option WErr -> LW -> Prop) now stream payload flags s :
  Good (core s) ->
  (forall e s', Safe (core s) (core s') ->
                (e = None -> Did [mkFrame (Z.succ (c_seq (core s))) now stream flags payload] (core s) (core s')) -> Q e s') ->
  wp (Write now stream payload flags) Q s.
Proof.
  intros (HI & Hs & Hm) HQ. unfold Write. wp_step. apply writeLocked_inv; [done|]. intros r s1 HW.
  destruct r as [[]|e].
  - pose proof (Wrote_Did _ _ _ _ Hm HW eq_refl) as H1. wp_step. apply Sync_inv; [apply H1|]. intros e s2 H2. do 3 wp_step.
    pose proof (Did_then _ _ _ _ H1 H2) as H12. apply HQ; [exact (Did_Safe _ _ _ H12)|done].
  - pose proof (Wrote_Did _ _ _ _ Hm HW eq_refl) as H1. wp_step. apply HQ; [exact (Did_Safe _ _ _ H1)|done].
  - wp_step. apply HQ; [|done]. destruct HW as ([HI1 Hs1] & W1 & W2 & W3 & W4 & W5 & _).
    unfold Safe, Good, marked. split_and!; try done. intros Hd. apply W5, Hm. congruence.
Qed.

Lemma finishChunk_inv (Q : option WErr -> LW -> Prop) s :
  Good (core s) -> (forall e s', Did [] (core s) (core s') -> Q e s') -> wp finishChunk Q s.
Proof.
  intros (HI & Hs & Hm) HQ. destruct (file (lw_w s)) eqn:Hf.
  - apply finishChunk_open; [done| |].
    { destruct (chunkErr (lw_w s)) eqn:He; [|done]. exfalso.
      assert (Hn : c_file (core s) = false) by (apply (wi_err _ HI); unfold core; cbn; by rewrite He).
      unfold core in Hn; cbn in Hn. congruence. }
    intros e s1 Hse. apply HQ. destruct (Sealed_WI _ _ _ HI Hf Hse) as [HI1 Hs1].
    pose proof (Sealed_Low _ _ _ Hse) as HL.
    unfold Did, Good. split_and!; try done; destruct Hse as [c' ->|size e0 l c' _ ->]; try done; right; by apply Grew_same.
  - apply finishChunk_closed; [done|]. intros e s1 l Hl E He. apply HQ. rewrite E.
    unfold Did, Good. split_and!; try done; [| |by apply Low_same|right; by apply Grew_same].
    + change (WI ((core s) <| c_err := isErr e |> <| c_inst := l |>)). apply inst_WI; [|exact Hl]. constructor; try apply HI. intros _. exact Hf.
    + intros _ Hc. apply Hs; [exact Hf|]. destruct (c_err (core s)); [|done]. by rewrite He in Hc.
Qed.

Lemma Close_inv (Q : option WErr -> LW -> Prop) now s :
  Good (core s) -> (forall e s', Did [] (core s) (core s') -> Q e s') -> wp (Close now) Q s.
Proof.
  intros HG HQ. pose proof HG as (HI & Hs & Hm). unfold Close. do 2 wp_step.
  destruct (closed (lw_w s)); [wp_step; apply HQ; by apply Did_nothing|].
  assert (Hfin : forall s1, Did [] (core s) (core s1) ->
    wp (modW (fun w => w <| closed := true |> <| idx := (idx w) <| ix_Final := true |> |>) ;;
        let* err := finishChunk in
        modW (fun w => w <| closeErr := err |>) ;;
        ret err) Q s1).
  { intros s1 H1. do 3 wp_step. apply finishChunk_inv; [exact (proj1 H1)|]. intros e s2 H2. wp_go. apply HQ.
    exact (Did_then _ _ _ _ H1 H2). }
  wp_step. unfold when. destruct (degraded (lw_w s)) eqn:Hd.
  - wp_step. apply recoverLocked_inv; [done|by apply Hm|]. intros b s1 [HI1 Hs1] Ht E1 E2 E3. wp_step.
    apply Hfin. by apply Did_lost.
  - wp_step. apply Hfin. by apply Did_nothing.
Qed.

Lemma sealForArchive_inv (Q : Result WErr Z -> LW -> Prop) s :
  Good (core s) ->
  (forall r s', Did [] (core s) (core s') -> (forall n, r = Ok n -> n = 0 \/ n < c_chunk (core s')) -> Q r s') ->
  wp sealForArchive Q s.
Proof.
  intros HG HQ. pose proof HG as (HI & Hs & Hm). unfold sealForArchive. do 2 wp_step.
  destruct (closed (lw_w s)); [wp_step; apply HQ; [by apply Did_nothing|intros n [= <-]; by left]|].
  wp_step. destruct (0 <? chunkRaw (lw_w s)).
  - apply rotate_core; [intros Hf; by apply (wi_open _ HI)|]. intros e s1 HR.
    assert (H1 : Did [] (core s) (core s1)).
    { destruct (Rotated_WI _ _ _ HI Hs HR) as (HI3 & Hs3 & _).
      destruct (Rotated_frame _ _ _ HR) as (F1 & F2 & F3 & F4 & F5 & F6 & F7 & F8).
      unfold Did, Good, marked. split_and!; try done; try congruence;
        [rewrite F4, F5; exact Hm|by apply (Rotated_Low _ (isErr e))|].
      right. split; [cbn [length]; lia|]. by apply (Rotated_Put _ (isErr e)). }
    destruct e as [e|]; wp_go; (apply HQ; [done|]); [done|]. intros n [= <-]. right. cbn. lia.
  - wp_go. apply HQ; [by apply Did_nothing|]. intros n [= <-]. right. cbn. lia.
Qed.

End Run.
