(* ===== verification/LogArchiveFacts.v ===== *)
(** Moving a run's chunks into the archive never changes what the run's log
    contains: each chunk has one content, wherever it is stored, and every step
    of a checkpoint keeps it, whichever system call fails. *)

From S2P Require Import Prelude GoRuntime LogFrame LogWriter LogArchive LogWriterCore LogWriterInv LogWriterOps LogWriterRun.
Open Scope Z_scope.
Open Scope lw_scope.

(** * Rows *)

Definition findRow (n : Z) (rows : list (Z * Row)) : option Row := snd <$> List.find (fun p => fst p =? n) rows.

Lemma findRow_upsert k n r rows : findRow k (upsertRow n r rows) = if k =? n then Some r else findRow k rows.
Proof.
  unfold findRow. induction rows as [|[m x] t IH]; cbn.
  - rewrite Z.eqb_sym. by destruct (k =? n).
  - destruct (Z.eqb_spec m n) as [->|Hmn]; cbn.
    + rewrite (Z.eqb_sym n k). by destruct (k =? n).
    + destruct (Z.ltb_spec n m); cbn.
      * rewrite (Z.eqb_sym n k). by destruct (k =? n).
      * destruct (Z.eqb_spec m k) as [->|Hmk]; cbn; [|exact IH]. destruct (Z.eqb_spec k n); [lia|done].
Qed.

Lemma elem_upsert k n r rows : k ∈ fst <$> upsertRow n r rows -> k = n \/ k ∈ fst <$> rows.
Proof.
  induction rows as [|[m x] t IH]; cbn.
  - intros H. left. by apply list_elem_of_singleton in H.
  - destruct (Z.eqb_spec m n) as [->|Hmn]; cbn; [by right|]. destruct (n <? m); cbn.
    + intros H. apply elem_of_cons in H as [->|H]; [by left|by right].
    + intros H. apply elem_of_cons in H as [->|H]; [right; by left|]. destruct (IH H) as [->|?]; [by left|right; by right].
Qed.

Lemma sorted_upsert n r rows : StronglySorted Z.lt (fst <$> rows) -> StronglySorted Z.lt (fst <$> upsertRow n r rows).
Proof.
  induction rows as [|[m x] t IH]; cbn; intros Hs; [repeat constructor|].
  apply StronglySorted_inv in Hs as [Hs Hlt].
  destruct (Z.eqb_spec m n) as [->|Hmn]; cbn; [by constructor|]. destruct (Z.ltb_spec n m); cbn.
  - constructor; [by constructor|]. constructor; [done|]. apply (Forall_impl _ _ _ Hlt). intros y Hy. lia.
  - constructor; [by apply IH|]. apply Forall_forall. intros y Hy. apply elem_upsert in Hy as [->|Hy]; [lia|].
    exact (proj1 (Forall_forall _ _) Hlt y Hy).
Qed.

Arguments findRow : simpl never.
Arguments upsertRow : simpl never.

(** * The content of a chunk *)

(** A row's frames, found the way a reader finds them: the blob, the archive
    file, or the buffer file a rename has not reached yet. *)
Definition rowFrames (c : Core) (n : Z) (r : Row) : list Frame :=
  match row_Blob r with
  | Some b => fc_frames b
  | None => match findFile n (c_arch c) with Some a => fc_frames a | None => framesAt (c_files c) n end
  end.

Definition seg (c : Core) (n : Z) : list Frame :=
  match findRow n (c_rows c) with Some r => rowFrames c n r | None => framesAt (c_files c) n end.

(** A row has a blob, or the size of an archive file. *)
Definition shaped (r : Row) : Prop := (0 <? row_FileBytes r) = match row_Blob r with None => true | Some _ => false end.

(** Rows follow the order of the chunks: last sequences grow with the numbers,
    stay below what is still to be archived, and bound the frames of the row.  A
    chunk with a row that is still listed may be listed with a lower last
    sequence than its row has, as far as its frames go. *)
Record Ordered (c : Core) : Prop := {
  od_first : forall n r, findRow n (c_rows c) = Some r -> row_Last r < c_first c;
  od_meta : forall n r m, findRow n (c_rows c) = Some r -> m ∈ c_chunks c ->
    (Number m = n -> Last m <= row_Last r /\ Forall (fun f => Sequence f <= Last m) (seg c n)) /\
    (n < Number m -> row_Last r < First m) /\ (Number m < n -> Last m < row_Last r);
  od_mono : forall n r k q, findRow n (c_rows c) = Some r -> findRow k (c_rows c) = Some q -> n < k -> row_Last r < row_Last q;
  od_last : forall n r, findRow n (c_rows c) = Some r -> Forall (fun f => Sequence f <= row_Last r) (seg c n);
  od_shape : forall n r, findRow n (c_rows c) = Some r -> shaped r;
}.

(** Chunks that may have frames below an archived one: those a recovery had to
    leave behind.  The writer leaves none. *)
Class Exempt := exempt : Z -> Prop.
#[export] Instance noneExempt : Exempt | 100 := fun _ => False.

Section Exempt.
Context {EX : Exempt}.

Record AI (c : Core) : Prop := {
  ai_sorted : StronglySorted Z.lt (fst <$> c_rows c);
  ai_range : forall n r, findRow n (c_rows c) = Some r -> 0 < n < c_chunk c;
  ai_arch : forall n a, findFile n (c_arch c) = Some a ->
    findFile n (c_files c) = None /\ exists r, findRow n (c_rows c) = Some r /\ row_Blob r = None;
  ai_same : forall n r, findRow n (c_rows c) = Some r -> findFile n (c_files c) = None \/ framesAt (c_files c) n = seg c n;
  ai_below : forall m r n, findRow m (c_rows c) = Some r -> n < m -> findRow n (c_rows c) = None ->
    exempt n \/ framesAt (c_files c) n = [];
  ai_order : Ordered c;
}.

(** The rows unchanged, chunks listed only past them, content at most lost. *)
Lemma Ordered_keep c c' :
  AI c -> c_rows c' = c_rows c -> c_first c <= c_first c' ->
  (forall m, m ∈ c_chunks c' -> m ∈ c_chunks c \/ c_chunk c <= Number m /\ c_first c <= First m) ->
  (forall n r, findRow n (c_rows c) = Some r -> seg c' n = seg c n \/ seg c' n = []) -> Ordered c'.
Proof.
  intros HA Er Hf Hm Hseg. pose proof (ai_order c HA) as HO. constructor; rewrite ?Er.
  - intros n r E. pose proof (od_first c HO n r E). lia.
  - intros n r m E Hin. destruct (Hm m Hin) as [Hin'|[H1 H2]].
    { destruct (od_meta c HO n r m E Hin') as (H1 & H2 & H3). split_and!; [|done|done]. intros En. destruct (H1 En) as [? Hfr].
      split; [done|]. by destruct (Hseg n r E) as [-> | ->]. }
    pose proof (ai_range c HA n r E). pose proof (od_first c HO n r E). lia.
  - apply HO.
  - intros n r E. destruct (Hseg n r E) as [-> | ->]; [by apply HO|constructor].
  - apply HO.
Qed.

(** The last sequence a row may be written with: the one its chunk is listed
    with, or the one its row has. *)
Definition lastOK (c : Core) (n : Z) (r : Row) : Prop :=
  (exists m, m ∈ c_chunks c /\ Number m = n /\ Last m = row_Last r) \/
  (exists q, findRow n (c_rows c) = Some q /\ row_Last q = row_Last r).

Lemma listed_frames c m :
  WI c -> m ∈ c_chunks c -> Forall (fun f => Sequence f <= Last m) (framesAt (c_files c) (Number m)).
Proof.
  intros HI Hm. unfold framesAt. destruct (findFile (Number m) (c_files c)) as [fc|] eqn:E; [|constructor].
  apply findFile_in in E. destruct (proj1 (Forall_forall _ _) (wi_data c HI) _ E) as (_ & _ & Hh).
  unfold holds_at in Hh; cbn in Hh. rewrite (sorted_metaOf _ _ (wi_sorted c HI) Hm) in Hh.
  destruct Hh as [_ Hh]. apply (Forall_impl _ _ _ Hh). intros f Hf. lia.
Qed.

Lemma sorted_total l a b : StronglySorted before l -> a ∈ l -> b ∈ l -> Number a < Number b -> before a b.
Proof.
  induction 1 as [|x l Hl IH Hx]; intros Ha Hb Hlt; [by apply elem_of_nil in Ha|].
  apply elem_of_cons in Ha as [->|Ha]; apply elem_of_cons in Hb as [->|Hb]; [lia| | |by apply IH].
  - exact (proj1 (Forall_forall _ _) Hx b Hb).
  - pose proof (proj1 (Forall_forall _ _) Hx a Ha) as [? _]. lia.
Qed.

(** What [lastOK] gives for a chunk below the current one. *)
Lemma lastOK_spec c n r :
  WI c -> AI c -> n < c_chunk c -> lastOK c n r ->
  row_Last r < c_first c /\ Forall (fun f => Sequence f <= row_Last r) (seg c n) /\
  (forall m, m ∈ c_chunks c ->
     (Number m = n -> Last m <= row_Last r /\ Forall (fun f => Sequence f <= Last m) (seg c n)) /\
     (n < Number m -> row_Last r < First m) /\ (Number m < n -> Last m < row_Last r)) /\
  (forall k q, findRow k (c_rows c) = Some q -> (n < k -> row_Last r < row_Last q) /\ (k < n -> row_Last q < row_Last r)).
Proof.
  intros HI HA Hn [(m & Hm & En & El)|(q & Eq & El)]; pose proof (ai_order c HA) as HO.
  2:{ rewrite <- El. split_and!; [by apply (od_first c HO n)|by apply (od_last c HO)|by intros m Hm; apply (od_meta c HO)|].
      intros k q' Ek. split; intros ?; [by apply (od_mono c HO n q k q')|by apply (od_mono c HO k q' n q)]. }
  assert (Hfr : Forall (fun f => Sequence f <= Last m) (seg c n)).
  { destruct (findRow n (c_rows c)) as [q|] eqn:Eq; [by apply (od_meta c HO n q m Eq Hm)|].
    unfold seg. rewrite Eq, <- En. by apply listed_frames. }
  pose proof (proj1 (Forall_forall _ _) (wi_meta c HI) m Hm) as (_ & Hfl & _ & _ & Hpos). rewrite <- El. split_and!; [lia|done| |].
  - intros x Hx. split_and!; intros Hnum.
    + pose proof (sorted_metaOf _ _ (wi_sorted c HI) Hx) as E1. pose proof (sorted_metaOf _ _ (wi_sorted c HI) Hm) as E2.
      rewrite Hnum, <- En in E1. by assert (x = m) as -> by congruence.
    + destruct (sorted_total _ m x (wi_sorted c HI) Hm Hx); [lia|]. lia.
    + destruct (sorted_total _ x m (wi_sorted c HI) Hx Hm); [lia|]. lia.
  - intros k q' Ek. pose proof (od_meta c HO k q' m Ek Hm) as (_ & H2 & H3). split; intros ?; [|specialize (H2 ltac:(lia)); lia].
    specialize (H3 ltac:(lia)). lia.
Qed.

(** Nothing a reader sees changed. *)
Definition Same (c c' : Core) : Prop := (forall n, seg c' n = seg c n) /\ AI c'.

Lemma Same_refl c : AI c -> Same c c.
Proof. by split. Qed.

Lemma Same_trans a b c : Same a b -> Same b c -> Same a c.
Proof. intros [E1 _] [E2 A]. split; [|done]. intros n. by rewrite E2. Qed.

(** Committing one row whose data is at hand. *)
Lemma upsertRow_same c n r :
  WI c -> AI c -> 0 < n < c_chunk c -> lastOK c n r -> shaped r ->
  (forall b, row_Blob r = Some b -> exists fc, findFile n (c_files c) = Some fc /\ fc_frames fc = fc_frames b) ->
  (row_Blob r = None -> is_Some (findFile n (c_files c)) \/ is_Some (findFile n (c_arch c))) ->
  (forall k, k < n -> findRow k (c_rows c) = None -> exempt k \/ framesAt (c_files c) k = []) ->
  Same c (c <| c_rows ::= upsertRow n r |>).
Proof.
  intros HI HA Hn HL Hsh Hb Hnone Hbelow. set (c' := c <| c_rows ::= _ |>).
  assert (Hother : forall k, k <> n -> seg c' k = seg c k).
  { intros k Hk. unfold seg, c'; cbn. rewrite findRow_upsert. destruct (Z.eqb_spec k n); [lia|done]. }
  assert (Hhere : forall b, findFile n (c_files c) = Some b -> seg c n = fc_frames b).
  { intros b E. assert (Hf : framesAt (c_files c) n = fc_frames b) by (unfold framesAt; by rewrite E).
    destruct (findRow n (c_rows c)) as [r0|] eqn:Er; [|unfold seg; by rewrite Er].
    destruct (ai_same c HA n r0 Er) as [E'|E']; [congruence|]. congruence. }
  assert (Hseg : seg c' n = seg c n).
  { unfold seg at 1. unfold c' at 1; cbn. rewrite findRow_upsert, Z.eqb_refl. unfold rowFrames, c'; cbn.
    destruct (row_Blob r) as [b|] eqn:Eb; [destruct (Hb b eq_refl) as (fc & Efc & <-); by rewrite (Hhere fc)|].
    destruct (findFile n (c_arch c)) as [a|] eqn:Ea.
    - destruct (ai_arch c HA n a Ea) as (_ & r0 & Er0 & Eb0). unfold seg, rowFrames. by rewrite Er0, Eb0, Ea.
    - destruct (Hnone eq_refl) as [[b E]|[? ?]]; [|done]. unfold framesAt. rewrite E. by rewrite (Hhere b E). }
  assert (Hall : forall k, seg c' k = seg c k).
  { intros k. destruct (decide (k = n)) as [->|Hk]; [done|by apply Hother]. }
  split; [done|]. constructor; unfold c'; cbn.
  - apply sorted_upsert, HA.
  - intros k r0. rewrite findRow_upsert. destruct (Z.eqb_spec k n); [by intros _; subst|apply HA].
  - intros k a Ea. destruct (ai_arch c HA k a Ea) as (E1 & r0 & E2 & E3). split; [done|].
    rewrite findRow_upsert. destruct (Z.eqb_spec k n) as [->|]; [|by exists r0].
    exists r. split; [done|]. destruct (row_Blob r) as [b|] eqn:Eb; [|done]. destruct (Hb b eq_refl) as (fc & Efc & _). congruence.
  - intros k r0. rewrite findRow_upsert. fold c'. rewrite Hall. destruct (Z.eqb_spec k n) as [->|]; [|apply HA].
    intros _. destruct (findFile n (c_files c)) as [b|] eqn:E; [right|by left].
    rewrite (Hhere b eq_refl). unfold framesAt. by rewrite E.
  - intros m r0 k. rewrite !findRow_upsert. destruct (Z.eqb_spec k n); [done|].
    destruct (Z.eqb_spec m n) as [->|]; [intros _; apply Hbelow|apply (ai_below c HA)].
  - destruct (lastOK_spec c n r HI HA ltac:(lia) HL) as (L1 & L2 & L3 & L4). pose proof (ai_order c HA) as HO.
    constructor; cbn.
    + intros k q. rewrite findRow_upsert. destruct (Z.eqb_spec k n); [by intros [= <-]|apply HO].
    + intros k q m. fold c'. rewrite Hall, findRow_upsert. destruct (Z.eqb_spec k n) as [->|]; [intros [= <-]; apply L3|apply HO].
    + intros k q j p. rewrite !findRow_upsert.
      destruct (Z.eqb_spec k n) as [->|], (Z.eqb_spec j n) as [->|]; intros Hq Hp Hlt; simplify_eq; try lia.
      * by apply (L4 j).
      * by apply (L4 k).
      * by apply (od_mono c HO k q j p).
    + intros k q. fold c'. rewrite Hall, findRow_upsert. destruct (Z.eqb_spec k n) as [->|]; [by intros [= <-]|apply HO].
    + intros k q. rewrite findRow_upsert. destruct (Z.eqb_spec k n) as [->|]; [by intros [= <-]|apply HO].
Qed.

(** Moving a committed file chunk into the archive directory. *)
Definition renameCore (n : Z) (b : FileC) (c : Core) : Core :=
  c <| c_files ::= removeFile n |> <| c_arch ::= (fun l => removeFile n l ++ [(n, b)]) |>.

Lemma findFile_arch k n b l : findFile k (removeFile n l ++ [(n, b)]) = if k =? n then Some b else findFile k l.
Proof.
  rewrite findFile_app, findFile_remove.
  destruct (Z.eqb_spec k n) as [->|]; [unfold findFile; cbn; by rewrite Z.eqb_refl|].
  destruct (findFile k l); [done|]. unfold findFile; cbn. destruct (Z.eqb_spec n k); [lia|done].
Qed.

Lemma rename_same c n b r :
  AI c -> findFile n (c_files c) = Some b -> findRow n (c_rows c) = Some r -> row_Blob r = None ->
  Same c (renameCore n b c).
Proof.
  intros HA Hb Hr Hnone. set (c' := renameCore n b c).
  assert (Ha : findFile n (c_arch c) = None).
  { destruct (findFile n (c_arch c)) as [a|] eqn:E; [|done]. destruct (ai_arch c HA n a E). congruence. }
  assert (Hall : forall k, seg c' k = seg c k).
  { intros k. unfold seg, rowFrames, c'; cbn. rewrite findFile_arch, framesAt_remove.
    destruct (Z.eqb_spec k n) as [->|]; [|done]. rewrite Hr, Hnone, Ha. unfold framesAt. by rewrite Hb. }
  split; [done|]. constructor; unfold c'; cbn; try apply HA.
  - intros k a. rewrite findFile_arch, findFile_remove. destruct (Z.eqb_spec k n) as [->|]; [|apply HA].
    intros _. split; [done|]. by exists r.
  - intros k r0 Er0. fold c'. rewrite Hall, findFile_remove, framesAt_remove.
    destruct (Z.eqb_spec k n) as [->|]; [by left|by apply (ai_same c HA k r0)].
  - intros m r0 k E1 E2 E3. rewrite framesAt_remove. destruct (k =? n); [by right|]. by apply (ai_below c HA m r0).
  - apply (Ordered_keep c _ HA); try done; [by left|]. intros k r0 _. left. apply Hall.
Qed.

(** Removing a buffer file whose row no longer needs it. *)
Definition secured (c : Core) (n : Z) : Prop :=
  exists r, findRow n (c_rows c) = Some r /\ (row_Blob r <> None \/ is_Some (findFile n (c_arch c))).

Lemma dropChunk_same c m : AI c -> secured c (Number m) -> Same c (dropChunk m c).
Proof.
  intros HA (r & Hr & Hsec). set (c' := dropChunk m c).
  assert (Hall : forall k, seg c' k = seg c k).
  { intros k. unfold seg, rowFrames, c'; cbn. rewrite framesAt_remove.
    destruct (Z.eqb_spec k (Number m)) as [->|]; [|done]. rewrite Hr.
    destruct (row_Blob r); [done|]. destruct Hsec as [?|[a ->]]; done. }
  split; [done|]. constructor; unfold c'; cbn; try apply HA.
  - intros k a Ea. rewrite findFile_remove. destruct (ai_arch c HA k a Ea) as [E1 E2].
    split; [|done]. by destruct (k =? Number m).
  - intros k r0 Er0. fold c'. rewrite Hall, findFile_remove, framesAt_remove.
    destruct (Z.eqb_spec k (Number m)); [by left|by apply (ai_same c HA k r0)].
  - intros m0 r0 k E1 E2 E3. rewrite framesAt_remove. destruct (k =? Number m); [by right|]. by apply (ai_below c HA m0 r0).
  - apply (Ordered_keep c _ HA); try done; [|intros k r0 _; left; apply Hall]. intros x [Hx _]%elem_of_unlist. by left.
Qed.

(** * Committing a batch *)

(** A row taken for a listed chunk. *)
Definition took (c : Core) (m : chunkMeta) (p : Z * Row) : Prop :=
  fst p = Number m /\ row_RawBytes (snd p) = Raw m /\ row_Last (snd p) = Last m /\ shaped (snd p) /\
  (forall b, row_Blob (snd p) = Some b -> exists fc, findFile (Number m) (c_files c) = Some fc /\ fc_frames fc = fc_frames b).

Definition isFileRow (p : Z * Row) : bool := match row_Blob (snd p) with None => true | Some _ => false end.

Lemma findRow_put_other n new R : n ∉ fst <$> new -> findRow n (putRows new R) = findRow n R.
Proof.
  unfold putRows. revert R; induction new as [|[k r] new IH]; intros R Hn; cbn; [done|].
  cbn in Hn. apply not_elem_of_cons in Hn as [Hk Hn]. rewrite IH by done. rewrite findRow_upsert.
  by destruct (Z.eqb_spec n k).
Qed.

Lemma findRow_put new R p : NoDup (fst <$> new) -> p ∈ new -> findRow (fst p) (putRows new R) = Some (snd p).
Proof.
  revert R; induction new as [|[k r] new IH]; intros R Hnd Hp; [by apply elem_of_nil in Hp|].
  cbn in Hnd. apply NoDup_cons in Hnd as [Hk Hnd]. apply elem_of_cons in Hp as [->|Hp].
  - unfold putRows; cbn. change (findRow k (putRows new (upsertRow k r R)) = Some r).
    rewrite findRow_put_other by done. by rewrite findRow_upsert, Z.eqb_refl.
  - exact (IH (upsertRow k r R) Hnd Hp).
Qed.

(** Below a listed chunk, a chunk that is neither listed nor archived is empty. *)
Lemma unlisted_empty c k : WI c -> metaOf (c_chunks c) k = None -> k <> c_chunk c -> framesAt (c_files c) k = [].
Proof.
  intros HI Hm Hk. unfold framesAt. destruct (findFile k (c_files c)) as [fc|] eqn:E; [|done].
  apply findFile_in in E. destruct (proj1 (Forall_forall _ _) (wi_data c HI) _ E) as (_ & _ & H3).
  cbn in H3. unfold holds_at in H3. rewrite Hm in H3. by destruct (Z.eqb_spec k (c_chunk c)).
Qed.

Lemma sorted_app_inv {A} (R : A -> A -> Prop) l k : StronglySorted R (l ++ k) -> forall x y, x ∈ l -> y ∈ k -> R x y.
Proof.
  induction l as [|a l IH]; cbn; intros Hs x y Hx Hy; [by apply elem_of_nil in Hx|].
  apply StronglySorted_inv in Hs as [Hs Ha]. apply elem_of_cons in Hx as [->|Hx]; [|by apply IH].
  apply (proj1 (Forall_forall _ _) Ha). apply elem_of_app. by right.
Qed.

Lemma rows_WI c R : WI c -> WI (c <| c_rows := R |>).
Proof. intros HI. constructor; apply HI. Qed.

(** A batch: rows of listed chunks, in order, that leave no unarchived chunk
    with frames below them. *)
Definition batch (c : Core) (new : list (Z * Row)) : Prop :=
  StronglySorted Z.lt (fst <$> new) /\
  Forall (fun p => exists m, m ∈ c_chunks c /\ Number m < c_chunk c /\ took c m p) new /\
  (forall x p, x ∈ c_chunks c -> p ∈ new -> Number x < fst p ->
     exempt (Number x) \/ is_Some (findRow (Number x) (c_rows c)) \/ Number x ∈ fst <$> new).

Lemma batch_nodup c new : batch c new -> NoDup (fst <$> new).
Proof.
  intros [Hs _]. induction Hs as [|x l Hl IH Hx]; constructor; [|done].
  intros Hin. pose proof (proj1 (Forall_forall _ _) Hx x Hin). lia.
Qed.

Lemma put_same c R new : WI c -> AI (c <| c_rows := R |>) -> batch (c <| c_rows := R |>) new ->
  Same (c <| c_rows := R |>) (c <| c_rows := putRows new R |>).
Proof.
  intros HI. revert R; induction new as [|[n r] new IH]; intros R HA (Hs & Hnew & Hbelow); [by apply Same_refl|].
  cbn in Hs. apply StronglySorted_inv in Hs as [Hs Hlt].
  apply Forall_cons in Hnew as [(m & Hm & Hmc & Hn & Hraw & Hlast & Hsh & Hb) Hnew]. cbn in Hm, Hmc, Hn, Hlast, Hsh, Hb, Hbelow. subst n.
  destruct (proj1 (Forall_forall _ _) (wi_meta c HI) m Hm) as (Hpos & _).
  assert (Hup : Same (c <| c_rows := R |>) (c <| c_rows := upsertRow (Number m) r R |>)).
  { apply (upsertRow_same (c <| c_rows := R |>) (Number m) r (rows_WI c R HI) HA); [cbn; lia|left; by exists m|done|exact Hb| |].
    - intros _. destruct (proj1 (Forall_forall _ _) (wi_placed c HI) m Hm) as [H|H]; [left|right]; by apply findFile_elem.
    - cbn. intros k Hk Hnone. destruct (metaOf (c_chunks c) k) as [x|] eqn:Ex.
      2:{ right. apply unlisted_empty; [done|done|lia]. }
      apply metaOf_elem in Ex as [Hx <-]. destruct (Hbelow x (Number m, r) Hx ltac:(by left) Hk) as [?|[[? ?]|Hin]]; [by left|congruence|].
      exfalso. apply elem_of_cons in Hin as [?|Hin]; [lia|]. pose proof (proj1 (Forall_forall _ _) Hlt _ Hin). lia. }
  apply (Same_trans _ _ _ Hup). change (putRows ((Number m, r) :: new) R) with (putRows new (upsertRow (Number m) r R)).
  apply IH; [apply Hup|]. split_and!; [done|done|]. cbn. intros x p Hx Hp Hxp. rewrite findRow_upsert.
  destruct (Z.eqb_spec (Number x) (Number m)) as [->|]; [right; left; by eexists|].
  destruct (Hbelow x p Hx ltac:(by right) Hxp) as [?|[?|Hin]]; [by left|right; by left|right; right].
  by apply elem_of_cons in Hin as [?|Hin].
Qed.

(** What every step of a checkpoint keeps. *)
Definition Moved (c c' : Core) : Prop :=
  Same c c' /\ Good c' /\ c_seq c' = c_seq c /\ c_chunk c' = c_chunk c /\ c_trunc c' = c_trunc c /\ c_max c' = c_max c /\
  (noTorn (c_files c) -> noTorn (c_files c')).

Lemma Moved_refl c : AI c -> Good c -> Moved c c.
Proof. intros HA HG. unfold Moved. split_and!; try done; by apply Same_refl. Qed.

Lemma Moved_trans a b c : Moved a b -> Moved b c -> Moved a c.
Proof.
  intros (S1 & _ & ? & ? & ? & ? & N1) (S2 & G & ? & ? & ? & ? & N2). unfold Moved.
  split_and!; try apply G; try congruence; [exact (Same_trans _ _ _ S1 S2)|auto].
Qed.

Lemma rows_Good c R : Good c -> Good (c <| c_rows := R |>).
Proof. intros (HI & Hs & Hm). split_and!; [by apply rows_WI|exact Hs|exact Hm]. Qed.

Lemma rename_WI c n b : WI c -> n < c_chunk c -> WI (renameCore n b c).
Proof.
  intros HI Hn. set (c' := renameCore n b c). assert (Hcur : curIndexed c' = curIndexed c) by reflexivity.
  constructor; rewrite ?Hcur; unfold c'; cbn; try apply HI.
  - rewrite fmap_removeFile. apply sorted_filter, HI.
  - apply Forall_forall. intros p Hp. apply elem_of_removeFile in Hp as [Hp _].
    exact (proj1 (Forall_forall _ _) (wi_data c HI) p Hp).
  - intros Hf. rewrite fmap_removeFile. apply elem_of_filter_list. split; [by apply HI|].
    apply negb_true_iff, Z.eqb_neq. lia.
  - apply (Forall_impl _ _ _ (wi_placed c HI)). intros m Hp. unfold placed; cbn.
    rewrite fmap_removeFile, fmap_app, fmap_removeFile, elem_of_app. cbn.
    destruct (decide (Number m = n)) as [->|Hne]; [right; right; by apply list_elem_of_singleton|].
    rewrite !elem_of_filter_list. rewrite (proj2 (negb_true_iff _) (proj2 (Z.eqb_neq _ _) Hne)). destruct Hp; tauto.
  - apply (inst_keep c c' (wi_inst c HI)); [unfold c'; cbn; lia|done| |done]. intros k _. unfold c'; cbn. rewrite findFile_remove.
    destruct (k =? n); [by intros [? ?]|done].
Qed.

Lemma rename_moved c n b r :
  Good c -> AI c -> n < c_chunk c -> findFile n (c_files c) = Some b ->
  findRow n (c_rows c) = Some r -> row_Blob r = None -> Moved c (renameCore n b c).
Proof.
  intros (HI & Hs & Hm) HA Hn Hb Hr Hnone. unfold Moved, Good. split_and!; try done.
  - by apply (rename_same c n b r).
  - by apply rename_WI.
  - cbn. intros Ht. apply Forall_forall. intros p Hp. apply elem_of_removeFile in Hp as [Hp _].
    exact (proj1 (Forall_forall _ _) Ht p Hp).
Qed.

Section Steps.
Context `{LogEnv}.

(** * The steps of a batch *)

Lemma collect_core (Q : option (list (Z * Row) * list Z) -> LW -> Prop) through chunks pending mv size s :
  (forall r s', core s' = core s ->
     (forall p m, r = Some (p, m) -> exists ms rest new,
        chunks = ms ++ rest /\ Forall (fun x => Number x <= through) ms /\ Forall2 (took (core s)) ms new /\
        p = pending ++ new /\ m = mv ++ (fst <$> List.filter isFileRow new)) -> Q r s') ->
  wp (collect through chunks pending mv size) Q s.
Proof.
  revert pending mv size s; induction chunks as [|x chunks IH]; intros pending mv size s HQ; cbn [collect].
  all: assert (Hstop : forall s', core s' = core s -> Q (Some (pending, mv)) s')
    by (intros s' E; apply HQ; [done|]; intros p m [= <- <-];
        exists []; eexists; exists []; split_and!; [reflexivity|constructor|constructor|by rewrite app_nil_r|cbn; by rewrite app_nil_r]).
  { wp_step. by apply Hstop. }
  destruct ((through <? Number x) || _) eqn:Hend; [wp_step; by apply Hstop|].
  apply orb_false_iff in Hend as [Hle _].
  (* taking [x] as row [r] *)
  assert (Htake : forall r s1 size', core s1 = core s -> took (core s) x (Number x, r) ->
    wp (collect through chunks (pending ++ [(Number x, r)]) (mv ++ (fst <$> List.filter isFileRow [(Number x, r)])) size') Q s1).
  { intros r s1 size' H1 Htook. apply IH. intros res s2 H2 Hres. apply HQ; [congruence|].
    intros p m E. destruct (Hres p m E) as (ms & rest & new & E1 & E2 & E3 & E4 & E5).
    exists (x :: ms), rest, ((Number x, r) :: new). rewrite H1 in E3. split_and!.
    - by rewrite E1.
    - constructor; [lia|done].
    - by constructor.
    - by rewrite E4, <- app_assoc.
    - rewrite E5, <- app_assoc. f_equal. change ((Number x, r) :: new) with ([(Number x, r)] ++ new).
      by rewrite List.filter_app, fmap_app. }
  destruct (Z.leb_spec fileChunkMin (Bytes x)).
  { apply (Htake (mkRow (First x) (Last x) (Raw x) None (Bytes x))); [done|]. split_and!; try done.
    unfold shaped; cbn. apply Z.ltb_lt. assert (0 < fileChunkMin) by done. lia. }
  destruct ((0 <? length pending)%nat && _); [wp_step; by apply Hstop|].
  do 4 wp_step. destruct (if b then findFile (Number x) (b_files (lw_buf s)) else None) as [blob|] eqn:Eb.
  - pose proof (Htake (mkRow (First x) (Last x) (Raw x) (Some blob) 0)) as Ht. cbn in Ht. rewrite app_nil_r in Ht.
    apply Ht; [reflexivity|]. split_and!; try done. cbn. intros b' [= <-]. exists blob. split; [by destruct b|done].
  - wp_step. apply HQ; [done|]. intros p m [=].
Qed.

Lemma syncMoves_calm moves : calm (syncMoves moves).
Proof.
  induction moves as [|n t IH]; intros Q s HQ; cbn [syncMoves]; [wp_step; by apply HQ|].
  do 3 wp_step. assert (Hrest : forall ok s1, core s1 = core s ->
    wp (let* rest := syncMoves t in ret (ok && rest)) Q s1).
  { intros ok s1 H1. wp_step. apply IH. intros a s2 H2. wp_step. apply HQ. congruence. }
  destruct (existsb (Z.eqb n) (ss_sealed (lw_st s))); [wp_step; by apply Hrest|].
  do 2 wp_step. wp_step; [wp_step; by apply Hrest|]. do 2 wp_step. wp_step; wp_step; by apply Hrest.
Qed.

Lemma PutChunks_core (Q : bool -> LW -> Prop) l s :
  (forall s', core s' = (core s) <| c_rows ::= putRows l |> -> Q true s') ->
  (forall s', core s' = core s -> Q false s') -> wp (PutChunks l) Q s.
Proof.
  intros Hok Hfail. unfold PutChunks. destruct l as [|p l]; [wp_step; by apply Hok|].
  do 3 wp_step. unfold when. destruct b; wp_go; [by apply Hok|by apply Hfail].
Qed.

(** Renames: rows stay, every chunk named is in the archive if all succeed. *)
Lemma renameAll_inv (Q : bool -> LW -> Prop) moves s :
  Good (core s) -> AI (core s) ->
  Forall (fun n => n < c_chunk (core s) /\ exists r, findRow n (c_rows (core s)) = Some r /\ row_Blob r = None) moves ->
  (forall b s', Moved (core s) (core s') -> c_rows (core s') = c_rows (core s) -> c_chunks (core s') = c_chunks (core s) ->
     (b = true -> Forall (fun n => is_Some (findFile n (c_arch (core s')))) moves) ->
     (forall n, is_Some (findFile n (c_arch (core s))) -> is_Some (findFile n (c_arch (core s')))) ->
     (forall n, n ∉ moves -> findFile n (c_files (core s')) = findFile n (c_files (core s))) -> Q b s') ->
  wp (renameAll moves) Q s.
Proof.
  revert s; induction moves as [|n t IH]; intros s HG HA Hm HQ; cbn [renameAll].
  { wp_step. apply HQ; try done; by apply Moved_refl. }
  apply Forall_cons in Hm as [[Hn (r & Hr & Hnone)] Hm]. unfold renameMove. do 5 wp_step.
  assert (Hstop : forall t', Q false (s <| lw_io := t' |>)).
  { intros t'. apply HQ; try done; by apply Moved_refl. }
  destruct (if b then findFile n (b_files (lw_buf s)) else None) as [fc|] eqn:Ef; [|wp_go; apply Hstop].
  assert (Hfc : findFile n (c_files (core s)) = Some fc) by (by destruct b).
  do 5 wp_step. match goal with |- wp _ _ ?x => set (s1 := x) end.
  assert (H1 : core s1 = renameCore n fc (core s)) by reflexivity.
  pose proof (rename_moved _ n fc r HG HA Hn Hfc Hr Hnone) as HM. rewrite <- H1 in HM.
  apply IH; [apply HM|apply HM|by rewrite H1|].
  intros b' s2 HM2 E2 E3 Hall Hkeep Hfiles.
  assert (Hn1 : is_Some (findFile n (c_arch (core s1)))).
  { rewrite H1. cbn. rewrite findFile_arch, Z.eqb_refl. by eexists. }
  apply HQ; [exact (Moved_trans _ _ _ HM HM2)|by rewrite E2, H1|by rewrite E3, H1|..].
  - intros Hb. constructor; [by apply Hkeep|by apply Hall].
  - intros k Hk. apply Hkeep. rewrite H1. cbn. rewrite findFile_arch. by destruct (k =? n).
  - intros k [Hk Hk']%not_elem_of_cons. rewrite Hfiles by done. rewrite H1. cbn. rewrite findFile_remove.
    by destruct (Z.eqb_spec k n).
Qed.

Lemma blobsOf_core (Q : option (list (Z * Row)) -> LW -> Prop) pending moves s :
  (forall r s', core s' = core s ->
     (forall l, r = Some l ->
        Forall (fun p => exists b, row_Blob (snd p) = Some b /\ findFile (fst p) (c_files (core s)) = Some b) l /\
        Forall (fun p => (exists q, (fst p, q) ∈ pending /\ row_Last q = row_Last (snd p)) /\ shaped (snd p)) l /\
        sublist (fst <$> l) (fst <$> pending) /\
        (forall p, p ∈ pending -> fst p ∈ moves -> is_Some (findFile (fst p) (c_files (core s))) -> fst p ∈ fst <$> l) /\
        Forall (fun n => n ∈ moves) (fst <$> l)) -> Q r s') ->
  wp (blobsOf pending moves) Q s.
Proof.
  revert s Q; induction pending as [|[n r] t IH]; intros s Q HQ; cbn [blobsOf].
  { wp_step. apply HQ; [done|]. intros l [= <-]. split_and!; try done. intros p Hp. by apply elem_of_nil in Hp. }
  assert (Hlater : forall l, Forall (fun p => (exists q, (fst p, q) ∈ t /\ row_Last q = row_Last (snd p)) /\ shaped (snd p)) l ->
    Forall (fun p => (exists q, (fst p, q) ∈ (n, r) :: t /\ row_Last q = row_Last (snd p)) /\ shaped (snd p)) l).
  { intros l Hl. apply (Forall_impl _ _ _ Hl). intros p [(q & Hq & E) ?]. split; [|done]. exists q. split; [by right|done]. }
  do 2 wp_step. destruct (existsb (Z.eqb n) moves) eqn:Hin; cbn [negb].
  2:{ apply IH. intros res s1 H1 Hres. apply HQ; [done|]. intros l E. destruct (Hres l E) as (E1 & E5 & E2 & E3 & E4).
      split_and!; [done|by apply Hlater|by apply sublist_cons| |done]. intros p Hp Hpm. apply elem_of_cons in Hp as [->|Hp]; [|by apply E3].
      exfalso. cbn in Hpm. apply not_true_iff_false in Hin. apply Hin. apply existsb_exists.
      exists n. split; [by apply list_elem_of_In|apply Z.eqb_refl]. }
  apply existsb_exists in Hin as (n' & Hin & En). apply Z.eqb_eq in En as <-. apply list_elem_of_In in Hin.
  destruct (findFile n (b_files (lw_buf s))) as [c|] eqn:Ef.
  - do 2 wp_step. wp_step; [wp_step; apply HQ; [done|intros l [=]]|].
    wp_step. apply IH. intros res s1 H1 Hres. wp_step. apply HQ; [exact H1|]. intros l E.
    destruct res as [l0|]; [|done]. cbn in E. simplify_eq. destruct (Hres l0 eq_refl) as (E1 & E5 & E2 & E3 & E4).
    split_and!.
    + constructor; [|exact E1]. exists c. split; [done|exact Ef].
    + constructor; [split; [exists r; split; [by left|done]|done]|by apply Hlater].
    + cbn. by apply sublist_skip.
    + intros p Hp Hpm Hf. cbn. apply elem_of_cons in Hp as [->|Hp]; [by left|right]. by apply E3.
    + cbn. by constructor.
  - apply IH. intros res s1 H1 Hres. apply HQ; [done|]. intros l E. destruct (Hres l E) as (E1 & E5 & E2 & E3 & E4).
    split_and!; [done|by apply Hlater|by apply sublist_cons| |done]. intros p Hp Hpm [fc Hfc]. apply elem_of_cons in Hp as [->|Hp].
    + cbn in Hfc. change (findFile n (b_files (lw_buf s)) = Some fc) in Hfc. congruence.
    + apply E3; [done|done|by exists fc].
Qed.

(** The fallback's rows: each replaces an existing one by the same content. *)
Lemma put_blobs_same c R l :
  WI c -> AI (c <| c_rows := R |>) -> NoDup (fst <$> l) ->
  Forall (fun p => exists b, row_Blob (snd p) = Some b /\ findFile (fst p) (c_files c) = Some b) l ->
  Forall (fun p => (exists q, findRow (fst p) R = Some q /\ row_Last q = row_Last (snd p)) /\ shaped (snd p)) l ->
  Same (c <| c_rows := R |>) (c <| c_rows := putRows l R |>).
Proof.
  intros HI. revert R; induction l as [|[n r] l IH]; intros R HA Hnd Hb Hr; [by apply Same_refl|].
  apply Forall_cons in Hb as [(b & Eb & Ef) Hb]. apply Forall_cons in Hr as [[(r0 & Hr0 & El) Hsh] Hr]. cbn in Eb, Ef, Hr0, El, Hsh.
  cbn in Hnd. apply NoDup_cons in Hnd as [Hnew Hnd].
  assert (Hup : Same (c <| c_rows := R |>) (c <| c_rows := upsertRow n r R |>)).
  { apply (upsertRow_same (c <| c_rows := R |>) n r (rows_WI c R HI) HA).
    - exact (ai_range _ HA n r0 Hr0).
    - right. by exists r0.
    - done.
    - intros b' E. rewrite Eb in E. injection E as <-. by exists b.
    - congruence.
    - intros k Hk Hnone. exact (ai_below _ HA n r0 k Hr0 Hk Hnone). }
  apply (Same_trans _ _ _ Hup). change (putRows ((n, r) :: l) R) with (putRows l (upsertRow n r R)).
  apply IH; [apply Hup|done|done|]. apply Forall_forall. intros p Hp. rewrite findRow_upsert.
  destruct (Z.eqb_spec (fst p) n) as [E|]; [|exact (proj1 (Forall_forall _ _) Hr p Hp)].
  exfalso. apply Hnew, list_elem_of_fmap. by exists p.
Qed.

(** A batch as committed: its rows are in the database and its chunks listed. *)
Definition committed (c : Core) (pending : list (Z * Row)) : Prop :=
  NoDup (fst <$> pending) /\
  Forall (fun p => fst p < c_chunk c /\ findRow (fst p) (c_rows c) = Some (snd p) /\
                   exists m, m ∈ c_chunks c /\ Number m = fst p) pending.

Lemma file_rows pending n : n ∈ (fst <$> List.filter isFileRow pending) -> exists r, (n, r) ∈ pending /\ row_Blob r = None.
Proof.
  intros Hn. apply list_elem_of_fmap in Hn as ([k r] & -> & Hp). apply elem_of_filter_list in Hp as [Hp Hf].
  exists r. split; [done|]. unfold isFileRow in Hf; cbn in Hf. by destruct (row_Blob r).
Qed.

Lemma NoDup_fst (l : list (Z * Row)) n r r' : NoDup (fst <$> l) -> (n, r) ∈ l -> (n, r') ∈ l -> r = r'.
Proof.
  induction l as [|[k x] l IH]; intros Hnd H1 H2; [by apply elem_of_nil in H1|].
  cbn in Hnd. apply NoDup_cons in Hnd as [Hk Hnd].
  apply elem_of_cons in H1 as [E1|H1]; apply elem_of_cons in H2 as [E2|H2]; simplify_eq; try done.
  - exfalso. apply Hk. apply list_elem_of_fmap. by exists (k, r').
  - exfalso. apply Hk. apply list_elem_of_fmap. by exists (k, r).
  - by apply IH.
Qed.

Lemma fallback_inv (Q : option WErr -> LW -> Prop) c0 pending s :
  Moved c0 (core s) -> committed (core s) pending ->
  (forall e s', Moved c0 (core s') -> c_chunks (core s') = c_chunks (core s) ->
     c_files (core s') = c_files (core s) -> (e = None -> Forall (fun p => secured (core s') (fst p)) pending) -> Q e s') ->
  wp (let* blobs := blobsOf pending (fst <$> List.filter isFileRow pending) in
      match blobs with
      | None => ret (Some errStore)
      | Some l => let* put := PutChunks l in ret (if put then None else Some errArchiveDB)
      end) Q s.
Proof.
  intros HM [Hnd Hc] HQ. pose proof HM as (HS & HG & HM'). pose proof (proj2 HS) as HA.
  wp_step. apply blobsOf_core. intros res s1 H1 Hres. destruct res as [l|].
  2:{ wp_step. apply HQ; rewrite ?H1; done. }
  destruct (Hres l eq_refl) as (Hb & Hfrom & Hsub & Hpres & Hin).
  assert (Hrows : Forall (fun p => (exists q, findRow (fst p) (c_rows (core s)) = Some q /\ row_Last q = row_Last (snd p)) /\ shaped (snd p)) l).
  { apply (Forall_impl _ _ _ Hfrom). intros p [(q & Hq & El) ?]. split; [|done]. exists q. split; [|done].
    exact (proj1 (proj2 (proj1 (Forall_forall _ _) Hc _ Hq))). }
  wp_step. apply PutChunks_core; intros s2 H2; wp_step; [|apply HQ; rewrite ?H2, ?H1; done].
  rewrite H1 in H2.
  assert (HA' : AI ((core s) <| c_rows := c_rows (core s) |>)) by (by destruct (core s)).
  pose proof (put_blobs_same (core s) (c_rows (core s)) l (proj1 HG) HA' (sublist_NoDup _ _ Hnd Hsub) Hb Hrows) as HSp.
  assert (HMs : Moved (core s) (core s2)).
  { rewrite H2. unfold Moved. split; [|split; [by apply (rows_Good (core s))|by split_and!]].
    replace (core s) with ((core s) <| c_rows := c_rows (core s) |>) at 1 by (by destruct (core s)). exact HSp. }
  apply HQ; [exact (Moved_trans _ _ _ HM HMs)|by rewrite H2|by rewrite H2|]. intros _.
  apply Forall_forall. intros [n r] Hp. destruct (proj1 (Forall_forall _ _) Hc _ Hp) as (_ & Er & m & Hm & Em). cbn in Er, Em.
  unfold secured. rewrite H2. cbn. destruct (decide (n ∈ fst <$> l)) as [Hl|Hl].
  - apply list_elem_of_fmap in Hl as (q & -> & Hq). exists (snd q).
    split; [apply findRow_put; [by eapply sublist_NoDup|done]|]. left.
    destruct (proj1 (Forall_forall _ _) Hb q Hq) as (b & -> & _). done.
  - exists r. rewrite findRow_put_other by done. split; [done|].
    destruct (row_Blob r) as [b|] eqn:Eb; [by left|right].
    assert (Hmv : n ∈ fst <$> List.filter isFileRow pending).
    { apply list_elem_of_fmap. exists (n, r). split; [done|]. apply elem_of_filter_list. split; [done|].
      unfold isFileRow; cbn. by rewrite Eb. }
    destruct (proj1 (Forall_forall _ _) (wi_placed _ (proj1 HG)) m Hm) as [Hf|Hf]; rewrite Em in Hf; [|by apply findFile_elem].
    exfalso. apply Hl, (Hpres (n, r)); [done|done|]. by apply findFile_elem.
Qed.

(** Steps up to the fallback. *)
Ltac to_fallback :=
  repeat (lazymatch goal with |- wp (bind (blobsOf _ _) _) _ _ => fail | |- wp _ _ _ => wp_step end).

Lemma placeFiles_inv (Q : option WErr -> LW -> Prop) c0 pending s :
  Moved c0 (core s) -> committed (core s) pending ->
  (forall e s', Moved c0 (core s') -> c_chunks (core s') = c_chunks (core s) ->
     (forall n, n ∉ fst <$> pending -> findFile n (c_files (core s')) = findFile n (c_files (core s))) ->
     (e = None -> Forall (fun p => secured (core s') (fst p)) pending) -> Q e s') ->
  wp (placeFiles pending (fst <$> List.filter isFileRow pending)) Q s.
Proof.
  intros HM HC HQ. pose proof HM as (HS & HG & HM'). pose proof (proj2 HS) as HA. pose proof HC as [Hnd Hc].
  unfold placeFiles. destruct (fst <$> List.filter isFileRow pending) as [|k mv] eqn:Emv.
  { wp_step. apply HQ; [done|done|done|]. intros _. apply Forall_forall. intros [n r] Hp.
    destruct (proj1 (Forall_forall _ _) Hc _ Hp) as (_ & Er & _). exists r. split; [done|]. left. intros Eb.
    assert (Hn : n ∈ fst <$> List.filter isFileRow pending).
    { apply list_elem_of_fmap. exists (n, r). split; [done|]. apply elem_of_filter_list. split; [done|].
      unfold isFileRow; cbn. by rewrite Eb. }
    rewrite Emv in Hn. by apply elem_of_nil in Hn. }
  rewrite <- Emv. clear Emv k mv.
  assert (Hcomm : forall s1, c_rows (core s1) = c_rows (core s) -> c_chunks (core s1) = c_chunks (core s) ->
    c_chunk (core s1) = c_chunk (core s) -> committed (core s1) pending).
  { intros s1 E1 E2 E3. unfold committed. by rewrite E1, E2, E3. }
  assert (Hfall : forall s1, Moved c0 (core s1) -> c_rows (core s1) = c_rows (core s) -> c_chunks (core s1) = c_chunks (core s) ->
    c_chunk (core s1) = c_chunk (core s) ->
    (forall n, n ∉ fst <$> pending -> findFile n (c_files (core s1)) = findFile n (c_files (core s))) ->
    wp (let* blobs := blobsOf pending (fst <$> List.filter isFileRow pending) in
        match blobs with
        | None => ret (Some errStore)
        | Some l => let* put := PutChunks l in ret (if put then None else Some errArchiveDB)
        end) Q s1).
  { intros s1 HM1 E1 E2 E3 E5. apply (fallback_inv _ c0); [done|by apply Hcomm|]. intros b s2 HM2 E4 E6 Hsec.
    apply HQ; [done|congruence|by rewrite E6|done]. }
  do 3 wp_step. destruct b; [|to_fallback; by apply Hfall].
  apply renameAll_inv; [done|exact HA| |].
  { apply Forall_forall. intros n Hn. apply file_rows in Hn as (r & Hp & Eb).
    destruct (proj1 (Forall_forall _ _) Hc _ Hp) as (E1 & E2 & _). cbn in E1, E2. split; [exact E1|]. by exists r. }
  intros moved s1 HM1 E1 E2 Harch _ Hfiles. change (core (s <| lw_io := t |>)) with (core s) in *.
  pose proof (Moved_trans _ _ _ HM HM1) as HM2.
  assert (E3 : c_chunk (core s1) = c_chunk (core s)) by apply HM1.
  assert (E5 : forall n, n ∉ fst <$> pending -> findFile n (c_files (core s1)) = findFile n (c_files (core s))).
  { intros n Hn. apply Hfiles. intros Hin. apply Hn. apply file_rows in Hin as (r & Hp & _).
    apply list_elem_of_fmap. by exists (n, r). }
  destruct moved; [|to_fallback; by apply Hfall].
  assert (Hdone : forall s2, core s2 = core s1 -> Q None s2).
  { intros s2 Es2. apply HQ; rewrite ?Es2; [done|done|done|]. intros _. apply Forall_forall. intros [n r] Hp.
    destruct (proj1 (Forall_forall _ _) Hc _ Hp) as (_ & Er & _). cbn in Er. exists r. rewrite E1. split; [done|].
    destruct (row_Blob r) as [b|] eqn:Eb; [by left|right]. apply (proj1 (Forall_forall _ _) (Harch eq_refl)).
    apply list_elem_of_fmap. exists (n, r). split; [done|]. apply elem_of_filter_list. split; [done|].
    unfold isFileRow; cbn. by rewrite Eb. }
  to_fallback; (by apply Hdone) || by apply Hfall.
Qed.

(** * Removing what was archived *)

(** The first [k] listed chunks, dropped one by one. *)
Fixpoint dropN (k : nat) (c : Core) : Core :=
  match k, c_chunks c with
  | S k', m :: rest => dropN k' (dropHead m rest c)
  | _, _ => c
  end.

Lemma dropN_chunks k c : c_chunks (dropN k c) = drop k (c_chunks c).
Proof.
  revert c; induction k as [|k IH]; intros c; [done|]. cbn [dropN]. destruct (c_chunks c) as [|m rest] eqn:E; [by rewrite E|].
  by rewrite IH.
Qed.

Lemma dropChunk_moved c m :
  Good c -> AI c -> m ∈ c_chunks c -> Number m < c_chunk c -> secured c (Number m) -> Moved c (dropChunk m c).
Proof.
  intros (HI & Hs & Hm) HA Hc Hn Hsec. unfold Moved, Good. split_and!; try done.
  - by apply dropChunk_same.
  - by apply dropChunk_WI.
  - intros Hf He. destruct (Hs Hf He) as [?|Hi]; [by left|right]. unfold curIndexed in *; cbn. by rewrite metaOf_unlist by lia.
  - cbn. intros Ht. apply Forall_forall. intros p Hp. apply elem_of_removeFile in Hp as [Hp _].
    exact (proj1 (Forall_forall _ _) Ht p Hp).
Qed.

Lemma dropN_moved k c :
  Good c -> AI c -> Forall (fun m => Number m < c_chunk c /\ secured c (Number m)) (take k (c_chunks c)) -> Moved c (dropN k c).
Proof.
  revert c; induction k as [|k IH]; intros c HG HA Hk; [by apply Moved_refl|].
  cbn [dropN]. destruct (c_chunks c) as [|m rest] eqn:E; [by apply Moved_refl|].
  cbn in Hk. apply Forall_cons in Hk as [[Hn Hsec] Hk].
  assert (HM : Moved c (dropHead m rest c)).
  { rewrite dropHead_chunk by (done || apply HG). apply dropChunk_moved; [done|done| |done|done]. rewrite E. by left. }
  apply (Moved_trans _ _ _ HM). apply IH; [apply HM|apply HM|exact Hk].
Qed.

Lemma removeArchived_core (Q : nat * bool -> LW -> Prop) c X pending ms rest s :
  c_chunks c = ms ++ rest -> Forall2 (fun m p => fst p = Number m /\ row_RawBytes (snd p) = Raw m) ms pending ->
  core s = c <| c_chunks := X |> ->
  (forall r s', (fst r <= length pending)%nat -> (snd r = true -> fst r = length pending) ->
                core s' = (dropN (fst r) c) <| c_chunks := X |> -> Q r s') ->
  wp (removeArchived pending) Q s.
Proof.
  intros Hc HF. revert c s Q Hc; induction HF as [|m [n r] ms pending [En Er] HF IH]; intros c s Q Hc Hs HQ; cbn [removeArchived].
  { wp_step. apply HQ; [cbn; lia|done|done]. }
  cbn in En, Er. subst n. do 2 wp_step. wp_step.
  { wp_step. apply HQ; [cbn; lia|done|done]. }
  do 5 wp_step. match goal with |- wp _ _ ?x => set (s1 := x) end.
  assert (H1 : core s1 = (dropHead m (ms ++ rest) c) <| c_chunks := X |>).
  { change (core s1) with ((core s) <| c_files ::= removeFile (Number m) |> <| c_buffered ::= (fun x => x - row_RawBytes r) |>).
    rewrite Hs, Er. reflexivity. }
  apply (IH (dropHead m (ms ++ rest) c)); [done|done|].
  intros k s2 Hle Hall H2. wp_step. apply HQ; [cbn; lia|cbn; intros E; by rewrite Hall|].
  rewrite H2. cbn [fst dropN]. by rewrite Hc.
Qed.

(** * A batch and a checkpoint *)

Lemma inst_Moved c c' l : Moved c c' -> newInst c' l -> Moved c (c' <| c_inst := l |>).
Proof.
  intros ([Hseg HA] & (HI & Hs & Hm) & ? & ? & ? & ? & ?) Hl. unfold Moved, Same, Good. split_and!; try done.
  - constructor; try apply HA. constructor; apply HA.
  - by apply inst_WI.
Qed.

(** A prefix of the index is a batch. *)
Lemma prefix_batch c ms rest new :
  WI c -> c_chunks c = ms ++ rest -> Forall (fun m => Number m < c_chunk c) ms -> Forall2 (took c) ms new -> batch c new.
Proof.
  intros HI Ec Hlt HF. pose proof (wi_sorted c HI) as Hs. rewrite Ec in Hs.
  assert (En : fst <$> new = Number <$> ms).
  { clear - HF. induction HF as [|m p ms new [E _] HF IH]; cbn; [done|]. by rewrite E, IH. }
  assert (Hsm : StronglySorted before ms).
  { clear - Hs. induction ms as [|m ms IH]; [constructor|]. cbn in Hs. apply StronglySorted_inv in Hs as [Hs Hm].
    constructor; [by apply IH|]. by apply Forall_app in Hm as [? _]. }
  split_and!.
  - rewrite En. clear - Hsm. induction Hsm as [|m ms Hms IH Hm]; cbn; constructor; [done|].
    apply Forall_fmap, (Forall_impl _ _ _ Hm). by intros x [? _].
  - apply Forall_forall. intros p Hp. apply list_elem_of_lookup in Hp as [i Hi].
    destruct (Forall2_lookup_r _ _ _ _ _ HF Hi) as (m & Hm & Ht). apply list_elem_of_lookup_2 in Hm. exists m.
    split_and!; [rewrite Ec; apply elem_of_app; by left|exact (proj1 (Forall_forall _ _) Hlt m Hm)|done].
  - intros x p Hx Hp Hxp. right. right. rewrite En. rewrite Ec in Hx. apply elem_of_app in Hx as [Hx|Hx].
    { apply list_elem_of_fmap. by exists x. }
    assert (Hpm : fst p ∈ Number <$> ms) by (rewrite <- En; apply list_elem_of_fmap; by exists p).
    apply list_elem_of_fmap in Hpm as (m & Em & Hm). destruct (sorted_app_inv _ _ _ Hs m x Hm Hx). lia.
Qed.

(** A batch, committed. *)
Lemma commit_batch c new :
  Good c -> AI c -> batch c new ->
  Moved c (c <| c_rows ::= putRows new |>) /\ committed (c <| c_rows ::= putRows new |>) new.
Proof.
  intros HG HA HB. pose proof (batch_nodup _ _ HB) as Hnd. split; [|split; [done|]].
  - unfold Moved. split; [|split; [by apply (rows_Good c)|by split_and!]].
    assert (Eq : c <| c_rows := c_rows c |> = c) by (by destruct c).
    pose proof (put_same c (c_rows c) new (proj1 HG)) as HP. rewrite Eq in HP. by apply HP.
  - apply Forall_forall. intros p Hp. destruct HB as (_ & HB & _).
    destruct (proj1 (Forall_forall _ _) HB p Hp) as (m & Hm & Hlt & Em & _).
    split_and!; [by rewrite Em|by apply findRow_put|by exists m].
Qed.

(** The end of a batch: remove what is secured, shorten and install the index. *)
Lemma finish_batch (Q : Result WErr bool -> LW -> Prop) c0 through ms rest new s :
  Moved c0 (core s) -> c_chunks (core s) = ms ++ rest -> Forall (fun m => Number m < c_chunk (core s)) ms ->
  Forall2 (took c0) ms new -> Forall (fun p => secured (core s) (fst p)) new -> (0 < length new)%nat ->
  (forall r s', Moved c0 (core s') -> (r = Ok true -> (length (c_chunks (core s')) < length (ms ++ rest))%nat) -> Q r s') ->
  wp (let* removed := removeArchived new in
      modW (fun w => w <| idx := (idx w) <| ix_Chunks := drop (fst removed) (ix_Chunks (idx w)) |> |>) ;;
      let* indexErr := writeIndex in
      let* w := getW in
      let more := match ix_Chunks (idx w) with m :: _ => Number m <=? through | [] => false end in
      if snd removed && negb (bool_decide (is_Some indexErr)) then ret (Ok more) else ret (Err errRemove)) Q s.
Proof.
  intros HM Ec Hlt HF Hsec Hne HQ.
  wp_step. apply (removeArchived_core _ (core s) (c_chunks (core s)) new ms rest); [done| |by destruct (core s)|].
  { apply (Forall2_impl _ _ _ _ HF). intros m p (? & ? & _). done. }
  intros [k allOk] s5 Hk Hall H5. cbn [fst snd] in *. do 3 wp_step.
  match goal with |- wp _ _ ?x => set (s6 := x) end.
  assert (H6 : core s6 = dropN k (core s)).
  { change (core s6) with ((core s5) <| c_chunks := drop k (c_chunks (core s5)) |>). rewrite H5.
    transitivity ((dropN k (core s)) <| c_chunks := drop k (c_chunks (core s)) |>); [reflexivity|].
    rewrite <- dropN_chunks. by destruct (dropN k (core s)). }
  assert (HM6 : Moved c0 (core s6)).
  { rewrite H6. apply (Moved_trans _ _ _ HM). apply dropN_moved; [apply HM|apply HM|].
    rewrite Ec, take_app_le by (apply Forall2_length in HF; lia). apply Forall_take.
    apply Forall_forall. intros m Hm. split; [exact (proj1 (Forall_forall _ _) Hlt m Hm)|].
    apply list_elem_of_lookup in Hm as [i Hi]. destruct (Forall2_lookup_l _ _ _ _ _ HF Hi) as (p & Hp & (Ep & _)).
    rewrite <- Ep. apply (proj1 (Forall_forall _ _) Hsec). apply list_elem_of_lookup. by exists i. }
  unfold writeIndex. apply writeIndexSync_core. intros ie s7 l Hl H7. do 2 wp_step. cbv zeta.
  pose proof (inst_Moved _ _ l HM6 Hl) as HM7. rewrite <- H7 in HM7.
  destruct (allOk && _) eqn:Hok; wp_step; apply HQ; try done. intros _.
  apply andb_true_iff in Hok as [-> _]. rewrite H7.
  change (c_chunks ((core s6) <| c_inst := l |>)) with (c_chunks (core s6)). rewrite H6, dropN_chunks, (Hall eq_refl), Ec, length_drop, length_app.
  apply Forall2_length in HF. lia.
Qed.

Lemma archiveBatch_inv (Q : Result WErr bool -> LW -> Prop) alive through s :
  Good (core s) -> AI (core s) -> through < c_chunk (core s) ->
  (forall r s', Moved (core s) (core s') ->
     (r = Ok true -> (length (c_chunks (core s')) < length (c_chunks (core s)))%nat) -> Q r s') ->
  wp (archiveBatch alive through) Q s.
Proof.
  intros HG HA Hth HQ. pose proof (Moved_refl _ HA HG) as HR.
  assert (Hquiet : forall r s1, core s1 = core s -> r <> Ok true -> Q r s1).
  { intros r s1 E Hr. apply HQ; [by rewrite E|done]. }
  unfold archiveBatch. destruct alive; cbn [negb]; [|wp_step; by apply Hquiet].
  do 3 wp_step. apply collect_core. intros batch s1 H1 Hb. destruct batch as [[pending moves]|]; [|wp_step; by apply Hquiet].
  destruct (Hb pending moves eq_refl) as (ms & rest & new & Ec & Hle & HF & Ep & Em). cbn in Ep, Em. subst pending moves.
  change (ix_Chunks (idx (lw_w s))) with (c_chunks (core s)) in Ec.
  destruct new as [|p0 new0] eqn:Enew; [wp_step; by apply Hquiet|]. rewrite <- Enew in *.
  assert (Hne : (0 < length new)%nat) by (rewrite Enew; cbn; lia). clear Enew p0 new0.
  assert (Hlt : Forall (fun m => Number m < c_chunk (core s)) ms) by (apply (Forall_impl _ _ _ Hle); intros; lia).
  destruct (commit_batch _ new HG HA (prefix_batch _ _ _ _ (proj1 HG) Ec Hlt HF)) as [HM3 HC3].
  wp_step. apply syncMoves_calm. intros ok s2 H2. destruct ok; cbn [negb]; [|wp_step; apply Hquiet; [congruence|done]].
  wp_step. apply PutChunks_core; [|intros s3 H3; cbn [negb]; wp_step; apply Hquiet; [congruence|done]].
  intros s3 H3. rewrite H2, H1 in H3. cbn [negb]. rewrite <- H3 in HM3, HC3.
  wp_step. apply (placeFiles_inv _ (core s)); [done|done|]. intros placed s4 HM4 E4 _ Hsec.
  destruct placed as [e|]; [wp_step; by apply HQ|].
  apply (finish_batch _ (core s) through ms rest new); [done|rewrite E4, H3; exact Ec| |done|by apply Hsec|done|].
  - replace (c_chunk (core s4)) with (c_chunk (core s)) by (symmetry; apply HM4). done.
  - rewrite <- Ec. exact HQ.
Qed.

(** A checkpoint ends: a batch that asks for another one has shortened the
    index. *)
Lemma archiveWriter_inv (Q : option (option WErr) -> LW -> Prop) fuel alive through s :
  Good (core s) -> AI (core s) -> through < c_chunk (core s) -> (length (c_chunks (core s)) < fuel)%nat ->
  (forall r s', Moved (core s) (core s') -> is_Some r -> Q r s') -> wp (archiveWriter fuel alive through) Q s.
Proof.
  revert s; induction fuel as [|k IH]; intros s HG HA Hth Hf HQ; [lia|]. cbn [archiveWriter]. wp_step.
  apply archiveBatch_inv; [done..|]. intros r s1 HM Hlen. destruct r as [[]|e].
  - apply IH; [apply HM|apply HM| |specialize (Hlen eq_refl); lia|].
    + replace (c_chunk (core s1)) with (c_chunk (core s)) by (symmetry; apply HM). done.
    + intros r s2 HM2 Hr. apply HQ; [|done]. exact (Moved_trans _ _ _ HM HM2).
  - wp_step. apply HQ; [done|by eexists].
  - wp_step. apply HQ; [done|by eexists].
Qed.

End Steps.

End Exempt.
