(* ===== verification/LogWriterFacts.v ===== *)
(** The log of a run is complete unless the run says otherwise, and its buffer
    never grows past its limit, for every sequence of writer calls, checkpoint
    batches and I/O failures. *)

From S2P Require Import Prelude GoRuntime LogFrame LogWriter LogArchive LogWriterCore LogWriterInv LogWriterOps LogWriterRun LogArchiveFacts.
Open Scope Z_scope.
Open Scope lw_scope.

(** * What a reader sees *)

(** Frames in storage order, each taken once: a frame at or below the last
    sequence taken is a copy of one already seen. *)
Fixpoint merge (last : Z) (l : list Frame) : list Frame :=
  match l with
  | [] => []
  | f :: t => if last <? Sequence f then f :: merge (Sequence f) t else merge last t
  end.

Definition rowData (c : Core) : list Frame := concat ((fun p => rowFrames c (fst p) (snd p)) <$> c_rows c).
Definition fileData (c : Core) : list Frame := concat ((fun p => fc_frames (snd p)) <$> c_files c).
Definition readable (c : Core) : list Frame := merge 0 (rowData c ++ fileData c).

Definition lastSeq (last : Z) (l : list Frame) : Z := default last (Sequence <$> list.last l).

Lemma merge_app last l k : merge last (l ++ k) = merge last l ++ merge (lastSeq last (merge last l)) k.
Proof.
  revert last; induction l as [|f t IH]; intros last; cbn; [done|].
  destruct (last <? Sequence f); [|apply IH]. cbn. rewrite IH. f_equal. f_equal.
  unfold lastSeq. destruct (merge (Sequence f) t) as [|g r]; [done|]. change (list.last (f :: g :: r)) with (list.last (g :: r)).
  by destruct (list.last (g :: r)) eqn:E; [|apply last_None in E].
Qed.

Lemma merge_skip last l : Forall (fun f => Sequence f <= last) l -> merge last l = [].
Proof. induction 1 as [|f t Hf Ht IH]; cbn; [done|]. destruct (Z.ltb_spec last (Sequence f)); [lia|done]. Qed.

(** Frames numbered consecutively after [n]. *)
Fixpoint numbered (n : Z) (l : list Frame) : Prop :=
  match l with
  | [] => True
  | f :: t => Sequence f = n + 1 /\ numbered (n + 1) t
  end.

Lemma numbered_app n l k : numbered n (l ++ k) <-> numbered n l /\ numbered (n + Z.of_nat (length l)) k.
Proof.
  revert n; induction l as [|f t IH]; intros n; cbn [numbered app length].
  - replace (n + Z.of_nat 0) with n by lia. tauto.
  - rewrite IH. replace (n + 1 + Z.of_nat (length t)) with (n + Z.of_nat (S (length t))) by lia. tauto.
Qed.

Lemma numbered_range n l f : numbered n l -> f ∈ l -> n < Sequence f <= n + Z.of_nat (length l).
Proof.
  revert n; induction l as [|g t IH]; intros n Hn Hf; [by apply elem_of_nil in Hf|].
  destruct Hn as [Hg Ht]. cbn [length]. apply elem_of_cons in Hf as [->|Hf]; [lia|]. specialize (IH _ Ht Hf). lia.
Qed.

Lemma merge_numbered n l : numbered n l -> merge n l = l.
Proof.
  revert n; induction l as [|f t IH]; intros n Hn; [done|]. destruct Hn as [Hf Ht]. cbn.
  destruct (Z.ltb_spec n (Sequence f)); [|lia]. f_equal. rewrite Hf. by apply IH.
Qed.

Lemma lastSeq_numbered n l : numbered n l -> lastSeq n l = n + Z.of_nat (length l).
Proof.
  unfold lastSeq. destruct l as [|f t] using rev_ind; cbn; [lia|]. intros Hn. rewrite last_snoc. cbn.
  apply numbered_app in Hn as [_ [Hf _]]. rewrite length_app; cbn. lia.
Qed.

(** Storage with copies: an archived part, copies of some of it, and the rest. *)
Lemma merge_copies a d b : numbered 0 (a ++ b) -> Forall (fun f => f ∈ a) d -> merge 0 (a ++ d ++ b) = a ++ b.
Proof.
  intros Hn Hd. pose proof (proj1 (numbered_app _ _ _) Hn) as [Ha Hb].
  rewrite merge_app, (merge_numbered _ _ Ha), (lastSeq_numbered _ _ Ha), merge_app.
  rewrite (merge_skip _ d). 2:{ apply (Forall_impl _ _ _ Hd). intros f Hf. pose proof (numbered_range _ _ _ Ha Hf). lia. }
  cbn. by rewrite (merge_numbered _ _ Hb).
Qed.

(** * Sparse lists *)

(** Concatenating [g] over a range equals concatenating the entries of a sorted
    association list, when [g] is empty elsewhere. *)
Lemma concat_sparse {A} (l : list (Z * A)) (d : Z * A -> list Frame) (g : Z -> list Frame) a (n : nat) :
  StronglySorted Z.lt (fst <$> l) -> Forall (fun p => a <= fst p < a + Z.of_nat n) l ->
  Forall (fun p => d p = g (fst p)) l -> (forall k, a <= k < a + Z.of_nat n -> k ∉ fst <$> l -> g k = []) ->
  concat (d <$> l) = concat (g <$> seqZ a (Z.of_nat n)).
Proof.
  revert a l; induction n as [|n IH]; intros a l Hs Hr Hd Hg.
  - destruct l as [|p l]; [done|]. apply Forall_cons in Hr as [? _]. lia.
  - rewrite (seqZ_cons a) by lia. replace (Z.pred (Z.of_nat (S n))) with (Z.of_nat n) by lia. cbn.
    destruct l as [|[k x] l].
    + rewrite (Hg a) by (try lia; apply not_elem_of_nil). cbn. rewrite <- (IH _ []); [done|done|done|done|].
      intros j Hj. apply Hg. lia.
    + apply StronglySorted_inv in Hs as [Hs Hlt]. apply Forall_cons in Hr as [Hk Hr]. apply Forall_cons in Hd as [Hd1 Hd2].
      cbn in Hk, Hd1. destruct (decide (k = a)) as [->|Hne].
      * cbn. rewrite Hd1. f_equal. apply IH; [done| |done|].
        -- apply Forall_forall. intros p Hp. pose proof (proj1 (Forall_forall _ _) Hr p Hp). cbn in *.
           assert (a < fst p); [|lia]. apply (proj1 (Forall_forall _ _) Hlt). apply list_elem_of_fmap. by exists p.
        -- intros j Hj Hnin. apply Hg; [lia|]. cbn. apply not_elem_of_cons. split; [lia|done].
      * rewrite (Hg a); [|lia|].
        2:{ cbn. apply not_elem_of_cons. split; [done|]. intros Hin.
            assert (k < a) by (apply (proj1 (Forall_forall _ _) Hlt); done). lia. }
            cbn. rewrite <- (IH (Z.succ a) ((k, x) :: l)); [done|by constructor| |by constructor|].
        -- apply Forall_forall. intros p Hp. apply elem_of_cons in Hp as [->|Hp]; cbn; [lia|].
           pose proof (proj1 (Forall_forall _ _) Hr p Hp). cbn in *.
           assert (k < fst p); [|lia]. apply (proj1 (Forall_forall _ _) Hlt). apply list_elem_of_fmap. by exists p.
        -- intros j Hj. apply Hg. lia.
Qed.

Lemma concat_range_app (g : Z -> list Frame) a n m :
  0 <= n -> 0 <= m -> concat (g <$> seqZ a (n + m)) = concat (g <$> seqZ a n) ++ concat (g <$> seqZ (a + n) m).
Proof. intros Hn Hm. rewrite seqZ_app by done. by rewrite fmap_app, concat_app. Qed.

Lemma concat_range_nil (g : Z -> list Frame) a n : (forall k, a <= k < a + n -> g k = []) -> concat (g <$> seqZ a n) = [].
Proof.
  intros Hg. assert (H : Forall (fun k => g k = []) (seqZ a n)).
  { apply Forall_forall. intros k Hk. apply elem_of_seqZ in Hk. apply Hg. lia. }
  induction H as [|k l Hk Hl IH]; cbn; [done|]. by rewrite Hk.
Qed.

Lemma concat_range_ext (g h : Z -> list Frame) a n :
  (forall k, a <= k < a + n -> g k = h k) -> concat (g <$> seqZ a n) = concat (h <$> seqZ a n).
Proof.
  intros Hg. f_equal. apply list_fmap_ext. intros i k Hk. apply Hg.
  apply list_elem_of_lookup_2, elem_of_seqZ in Hk. lia.
Qed.

(** * The frames of a run, in chunk order *)

Definition total (c : Core) : list Frame := concat (seg c <$> seqZ 1 (c_chunk c)).

(** Nothing is missing: the run holds exactly the frames [F]. *)
Record Clean (c : Core) (F : list Frame) : Prop := {
  cl_ai : AI c;
  cl_torn : noTorn (c_files c);
  cl_seq : c_seq c = Z.of_nat (length F);
  cl_total : total c = F;
  cl_num : numbered 0 F;
}.

Lemma empty_above {EX : Exempt} c n : WI c -> AI c -> c_chunk c < n -> seg c n = [].
Proof.
  intros HI HA Hn. unfold seg. destruct (findRow n (c_rows c)) as [r|] eqn:Er.
  - pose proof (ai_range c HA n r Er). lia.
  - apply unlisted_empty; [done| |lia]. apply metaOf_none, (Forall_impl _ _ _ (wi_meta c HI)).
    intros m (_ & _ & _ & _ & Hm). lia.
Qed.

Lemma empty_below c n : WI c -> n <= 0 -> framesAt (c_files c) n = [].
Proof.
  intros HI Hn. unfold framesAt. destruct (findFile n (c_files c)) as [fc|] eqn:E; [|done]. apply findFile_in in E.
  destruct (proj1 (Forall_forall _ _) (wi_data c HI) _ E) as (Hr & _). cbn in Hr. lia.
Qed.

(** Adding [fs] to one entry at the end of what is in use. *)
Lemma concat_grow (g h : Z -> list Frame) fs N k N' :
  0 <= N <= k -> 1 <= k <= N' -> (forall n, N < n -> g n = []) ->
  (forall n, 1 <= n -> h n = g n ++ (if n =? k then fs else [])) ->
  concat (h <$> seqZ 1 N') = concat (g <$> seqZ 1 N) ++ fs.
Proof.
  intros HN Hk Hg Hh. replace N' with (k - 1 + (1 + (N' - k))) by lia.
  rewrite !concat_range_app by lia. replace (1 + (k - 1)) with k by lia.
  rewrite (concat_range_nil h (k + 1)).
  2:{ intros n Hn. rewrite Hh, Hg by lia. by destruct (Z.eqb_spec n k); [lia|]. }
  rewrite (concat_range_ext h g 1). 2:{ intros n Hn. rewrite Hh by lia. destruct (Z.eqb_spec n k); [lia|]. apply app_nil_r. }
  assert (E : concat (h <$> seqZ k 1) = concat (g <$> seqZ k 1) ++ fs).
  { change (seqZ k 1) with [Z.of_nat 0 + k]. cbn. rewrite !app_nil_r, Hh by lia. by rewrite Z.eqb_refl. }
  rewrite E, app_nil_r, app_assoc. f_equal.
  transitivity (concat (g <$> seqZ 1 (k - 1 + 1))); [by rewrite concat_range_app by lia; replace (1 + (k - 1)) with k by lia|].
  replace (k - 1 + 1) with (N + (k - N)) by lia. rewrite concat_range_app by lia.
  rewrite (concat_range_nil g (1 + N)); [apply app_nil_r|]. intros n Hn. apply Hg. lia.
Qed.

Lemma seg_put c c' k fs :
  AI c -> c_rows c' = c_rows c -> c_arch c' = c_arch c -> c_chunk c <= k ->
  (forall n, framesAt (c_files c') n = framesAt (c_files c) n ++ (if n =? k then fs else [])) ->
  forall n, seg c' n = seg c n ++ (if n =? k then fs else []).
Proof.
  intros HA E1 E2 Hk Hf n. unfold seg, rowFrames. rewrite E1, E2, Hf. destruct (findRow n (c_rows c)) as [r|] eqn:Er; [|done].
  pose proof (ai_range c HA n r Er). destruct (Z.eqb_spec n k); [lia|]. by rewrite !app_nil_r.
Qed.

Lemma Low_AI c c' : AI c -> c_rows c' = c_rows c -> Low c c' -> AI c'.
Proof.
  intros HA E1 HL. destruct HL as (E2 & Hc & Hf & Hfst & Hmeta).
  assert (Hfr : forall n, n < c_chunk c -> findFile n (c_files c') = None \/ framesAt (c_files c') n = framesAt (c_files c) n).
  { intros n Hn. destruct (Hf n Hn) as [E|E]; [by left|right]. unfold framesAt. by rewrite E. }
  constructor; rewrite ?E1, ?E2; [apply HA| | | | |].
  - intros n r Er. pose proof (ai_range c HA n r Er). lia.
  - intros n a Ea. destruct (ai_arch c HA n a Ea) as (En & r & Er & Eb). split; [|by exists r].
    destruct (Hf n) as [E|E]; [|done|congruence]. pose proof (ai_range c HA n r Er). lia.
  - intros n r Er. pose proof (ai_range c HA n r Er) as Hr. destruct (Hf n ltac:(lia)) as [E|E]; [by left|].
    destruct (ai_same c HA n r Er) as [E'|E']; [left; congruence|right].
    assert (Ef : framesAt (c_files c') n = framesAt (c_files c) n) by (unfold framesAt; by rewrite E).
    rewrite Ef, E'. unfold seg, rowFrames. by rewrite E1, E2, Ef.
  - intros m r n Er Hn En. pose proof (ai_range c HA m r Er). destruct (ai_below c HA m r n Er Hn En) as [[]|E].
    right.    destruct (Hfr n ltac:(lia)) as [E'|E']; [unfold framesAt; by rewrite E'|congruence].
  - apply (Ordered_keep c _ HA E1 Hfst Hmeta). intros n r Er. pose proof (ai_range c HA n r Er) as Hr.
    unfold seg, rowFrames. rewrite E1, E2, Er. destruct (row_Blob r); [by left|]. destruct (findFile n (c_arch c)); [by left|].
    destruct (Hf n ltac:(lia)) as [E|E]; unfold framesAt; rewrite E; [by right|by left].
Qed.

Lemma Did_clean c F fs c' :
  Clean c F -> WI c -> Did fs c c' -> c_trunc c' = false -> numbered (c_seq c) fs -> Clean c' (F ++ fs).
Proof.
  intros HC HI (HG & _ & _ & E1 & HL & [Ht|[Hs HP]]) Hf Hnum; [congruence|]. pose proof (proj1 HL) as E2.
  destruct (HP (cl_torn _ _ HC)) as (Hn & Hch & Hnone & k & Hk & Hfr). pose proof (cl_ai _ _ HC) as HA.
  destruct (wi_seq c HI) as (_ & _ & Hc0). rewrite (cl_seq _ _ HC) in Hs, Hnum.
  constructor; [|done|by rewrite Hs, length_app, Nat2Z.inj_add| |apply numbered_app; split; [apply HC|done]].
  - by apply (Low_AI c).
  - rewrite <- (cl_total _ _ HC). unfold total. destruct (decide (k = 0)) as [->|Hk0].
    + assert (fs = []) as ->.
      { pose proof (empty_below c' 0 (proj1 HG) ltac:(lia)) as E. rewrite Hfr in E. by apply app_nil in E as [_ E]. }
      assert (Hz : c_chunk c = 0) by lia. rewrite Hz. rewrite (concat_range_nil (seg c')); [done|].
      intros n Hn'. rewrite (seg_put c c' 0 [] HA E1 E2 ltac:(lia) Hfr), (empty_above c) by (done || lia). by destruct (n =? 0).
    + apply (concat_grow _ _ _ _ k); [lia|lia| |].
      * intros n Hn'. by apply empty_above.
      * intros n _. apply (seg_put c c' k fs HA E1 E2); [lia|done].
Qed.

Lemma Moved_clean c F c' : Clean c F -> Moved c c' -> Clean c' F.
Proof.
  intros HC ([Hseg HA] & _ & E1 & E2 & _ & _ & Hn).
  constructor; [done|apply Hn, HC|rewrite E1; apply HC| |apply HC].
  rewrite <- (cl_total _ _ HC). unfold total. rewrite E2. apply concat_range_ext. intros n _. apply Hseg.
Qed.

(** * What a reader gets *)

Definition topRow (c : Core) : Z := default 0 (fst <$> list.last (c_rows c)).

Lemma findRow_in n l r : findRow n l = Some r -> (n, r) ∈ l.
Proof.
  unfold findRow. intros Hf. destruct (List.find _ l) as [[j d]|] eqn:E; [|done]. cbn in Hf. simplify_eq.
  apply List.find_some in E as [E1 E2]. cbn in E2. apply Z.eqb_eq in E2 as ->. by apply list_elem_of_In.
Qed.

Lemma findRow_elem n l : n ∈ fst <$> l -> is_Some (findRow n l).
Proof.
  unfold findRow. induction l as [|[j c] l IH]; cbn; [intros Hn; by apply elem_of_nil in Hn|].
  intros Hn. destruct (Z.eqb_spec j n); [by eexists|]. apply elem_of_cons in Hn as [?|Hn]; [lia|by apply IH].
Qed.

Lemma sorted_le_last (l : list Z) x y : StronglySorted Z.lt l -> list.last l = Some y -> x ∈ l -> x <= y.
Proof.
  intros Hs Hl Hx. apply last_Some in Hl as [l' ->]. apply elem_of_app in Hx as [Hx|Hx].
  - assert (x < y); [|lia]. apply (sorted_app_inv _ _ _ Hs x y Hx). by apply list_elem_of_singleton.
  - apply list_elem_of_singleton in Hx. lia.
Qed.

Lemma sorted_key {A} (l : list (Z * A)) p q : StronglySorted Z.lt (fst <$> l) -> p ∈ l -> q ∈ l -> fst p = fst q -> p = q.
Proof.
  induction l as [|x l IH]; cbn; intros Hs Hp Hq E; [by apply elem_of_nil in Hp|].
  apply StronglySorted_inv in Hs as [Hs Hlt].
  assert (Hin : forall r, r ∈ l -> fst x < fst r).
  { intros r Hr. apply (proj1 (Forall_forall _ _) Hlt). apply list_elem_of_fmap. by exists r. }
  apply elem_of_cons in Hp as [->|Hp]; apply elem_of_cons in Hq as [->|Hq]; [done| | |by apply IH].
  - specialize (Hin q Hq). lia.
  - specialize (Hin p Hp). lia.
Qed.

(** The archived rows are the chunks up to the newest row. *)
Lemma topRow_spec c : AI c -> 0 <= topRow c /\ (forall n r, findRow n (c_rows c) = Some r -> n <= topRow c) /\
  (0 < topRow c -> exists r, findRow (topRow c) (c_rows c) = Some r).
Proof.
  intros HA. unfold topRow. destruct (list.last (c_rows c)) as [[m r0]|] eqn:El; cbn.
  - assert (Hin : m ∈ fst <$> c_rows c).
    { apply list_elem_of_fmap. exists (m, r0). split; [done|]. apply last_Some in El as [l ->]. apply elem_of_app. right. by left. }
    destruct (findRow_elem _ _ Hin) as [r Er]. pose proof (ai_range c HA m r Er). split_and!; [lia| |by exists r].
    intros n r' Er'. apply (sorted_le_last (fst <$> c_rows c)); [apply HA|by rewrite fmap_last, El|].
    apply list_elem_of_fmap. exists (n, r'). split; [done|]. by apply findRow_in.
  - apply last_None in El. rewrite El. split_and!; [lia|done|lia].
Qed.

Lemma rowData_spec c : AI c -> rowData c = concat (seg c <$> seqZ 1 (topRow c)).
Proof.
  intros HA. destruct (topRow_spec c HA) as (Ht & Hle & Hex). unfold rowData. rewrite <- (Z2Nat.id (topRow c)) by done.
  apply concat_sparse; [apply HA| | |]; rewrite ?(Z2Nat.id (topRow c)) by done.
  - apply Forall_forall. intros [n r] Hp. destruct (findRow_elem n (c_rows c)) as [r' Er]; [apply list_elem_of_fmap; by exists (n, r)|].
    pose proof (ai_range c HA n r' Er). specialize (Hle n r' Er). cbn. lia.
  - apply Forall_forall. intros [n r] Hp. cbn. unfold seg.
    destruct (findRow_elem n (c_rows c)) as [r' Er]; [apply list_elem_of_fmap; by exists (n, r)|]. rewrite Er.
    by assert ((n, r) = (n, r')) as [= ->] by (apply (sorted_key _ _ _ (ai_sorted c HA) Hp (findRow_in _ _ _ Er)); done).
  - intros n Hn Hnin. destruct (Hex ltac:(lia)) as [r Er]. unfold seg. destruct (findRow n (c_rows c)) as [r'|] eqn:En.
    + exfalso. apply Hnin, list_elem_of_fmap. exists (n, r'). split; [done|]. by apply findRow_in.
    + assert (n <> topRow c) by congruence. destruct (ai_below c HA (topRow c) r n Er) as [[]|?]; [lia|done..].
Qed.

Lemma fileData_spec c : WI c -> fileData c = concat (framesAt (c_files c) <$> seqZ 1 (c_chunk c + 1)).
Proof.
  intros HI. destruct (wi_seq c HI) as (_ & _ & Hc). unfold fileData. rewrite <- (Z2Nat.id (c_chunk c + 1)) by lia.
  apply concat_sparse; [apply HI| | |]; rewrite ?(Z2Nat.id (c_chunk c + 1)) by lia.
  - apply (Forall_impl _ _ _ (wi_data c HI)). intros p (Hp & _). lia.
  - apply Forall_forall. intros p Hp. unfold framesAt.
    destruct (findFile_elem (fst p) (c_files c)) as [fc Ef]; [apply list_elem_of_fmap; by exists p|]. rewrite Ef.
    by rewrite (sorted_key _ _ _ (wi_files c HI) Hp (findFile_in _ _ _ Ef) eq_refl).
  - intros n _ Hnin. unfold framesAt. destruct (findFile n (c_files c)) as [fc|] eqn:E; [|done].
    exfalso. apply Hnin, list_elem_of_fmap. exists (n, fc). split; [done|]. by apply findFile_in.
Qed.

Lemma Forall_concat_range (P : Frame -> Prop) (g : Z -> list Frame) a n :
  (forall k, a <= k < a + n -> Forall P (g k)) -> Forall P (concat (g <$> seqZ a n)).
Proof.
  intros Hg. apply Forall_concat, Forall_fmap, Forall_forall. intros k Hk. apply elem_of_seqZ in Hk. apply Hg. lia.
Qed.

(** Copies a failed removal left in the buffer are read once: the reader gets
    the frames of the run, in order. *)
Lemma readable_total c F : Clean c F -> WI c -> readable c = F.
Proof.
  intros HC HI. pose proof (cl_ai _ _ HC) as HA. destruct (topRow_spec c HA) as (Ht & Hle & Hex).
  destruct (wi_seq c HI) as (_ & _ & Hc0).
  assert (Htop : topRow c <= c_chunk c).
  { destruct (decide (0 < topRow c)) as [Hp|]; [|lia]. destruct (Hex Hp) as [r Er]. pose proof (ai_range c HA _ r Er). lia. }
  set (rest := concat (seg c <$> seqZ (1 + topRow c) (c_chunk c - topRow c))).
  assert (Etot : F = rowData c ++ rest).
  { rewrite <- (cl_total _ _ HC), (rowData_spec c HA). unfold total, rest. rewrite <- concat_range_app by lia. do 3 f_equal. lia. }
  assert (Efile : fileData c = concat (framesAt (c_files c) <$> seqZ 1 (topRow c)) ++ rest).
  { rewrite (fileData_spec c HI). replace (c_chunk c + 1) with (topRow c + (c_chunk c - topRow c + 1)) by lia.
    rewrite !concat_range_app by lia. rewrite (concat_range_ext (framesAt _) (seg c) (1 + _)), (concat_range_nil (framesAt _) (1 + _ + _)); cycle 1.
    - intros n Hn. pose proof (empty_above c n HI HA ltac:(lia)) as E. unfold seg in E.
      destruct (findRow n (c_rows c)) as [r|] eqn:Er; [|done]. specialize (Hle n r Er). lia.
    - intros n Hn. unfold seg. destruct (findRow n (c_rows c)) as [r|] eqn:Er; [|done]. specialize (Hle n r Er). lia.
    - by rewrite app_nil_r. }
  unfold readable. rewrite Efile, Etot. apply merge_copies; [rewrite <- Etot; apply HC|].
  apply Forall_concat_range. intros n Hn. apply Forall_forall. intros f Hf. rewrite (rowData_spec c HA).
  apply list_elem_of_In, in_concat. exists (seg c n). rewrite <- !list_elem_of_In. split; [apply list_elem_of_fmap; exists n; split; [done|apply elem_of_seqZ; lia]|].
  destruct (findRow n (c_rows c)) as [r|] eqn:Er.
  - destruct (ai_same c HA n r Er) as [E|E]; [unfold framesAt in Hf; rewrite E in Hf; by apply elem_of_nil in Hf|congruence].
  - destruct (Hex ltac:(lia)) as [r' Er']. assert (n <> topRow c) by congruence.
    destruct (ai_below c HA (topRow c) r' n Er') as [[]|E]; [lia|done|]. rewrite E in Hf. by apply elem_of_nil in Hf.
Qed.
