(* ===== verification/LogHistory.v ===== *)
(** A run's log over its whole life: any sequence of the calls the executor,
    the sync loop and the checkpoint make on a writer, in any order, under any
    pattern of I/O failures.

    The writer's lock makes each call atomic, so the interleavings of the two
    output pipes, the sync loop and a checkpoint are the sequences of these
    calls.  A checkpoint is one [OpSeal] and any number of [OpBatch] with the
    number the seal returned; that number stays below the current chunk. *)

From S2P Require Import Prelude GoRuntime LogFrame LogWriter LogArchive LogWriterCore LogWriterInv LogWriterOps LogWriterRun LogArchiveFacts LogWriterFacts.
Open Scope Z_scope.
Open Scope lw_scope.

(** * Calls *)

Inductive LogOp :=
| OpCapture (now : Time) (stream : Z) (payload : list Byte) (flags : Z)
| OpWrite (now : Time) (stream : Z) (payload : list Byte) (flags : Z)
| OpSync
| OpSeal
| OpBatch (alive : bool) (through : Z)
| OpClose (now : Time).

Definition errOf {A} (r : Result WErr A) : option WErr := match r with Ok _ => None | Err e => Some e end.

Section History.
Context `{LogEnv}.

Definition logStep (op : LogOp) : M (option WErr) :=
  match op with
  | OpCapture now stream payload flags => capture now stream payload flags
  | OpWrite now stream payload flags => Write now stream payload flags
  | OpSync => Sync
  | OpSeal => let* r := sealForArchive in ret (errOf r)
  | OpBatch alive through =>
      let* w := getW in
      if through <? chunk w then let* r := archiveBatch alive through in ret (errOf r) else ret None
  | OpClose now => Close now
  end.

Fixpoint runOps (ops : list LogOp) : M (list (option WErr)) :=
  match ops with
  | [] => ret []
  | op :: t =>
      let* r := logStep op in
      let* rs := runOps t in
      ret (r :: rs)
  end.

(** A new run: nothing in its buffer directory or in the archive. *)
Definition newRun (st : StoreSide) (oracle : list bool) : LW :=
  mkLW (freshWriter EmptyString EmptyString (mkOptions 0 0 false) false) (mkBuffer false [] None []) (mkArchive [] []) st oracle.

Definition runLog (st : StoreSide) (oracle : list bool) (now : Time) (jobName kindName : string) (opt : WriterOptions)
    (fsync : bool) (ops : list LogOp) : list (option WErr) * LW :=
  (openWriter now jobName kindName opt fsync ;; runOps ops) (newRun st oracle).

End History.

(** The lines a caller was told are stored, numbered in the order of the calls. *)
Definition lineOf (op : LogOp) : option (Z -> Frame) :=
  match op with
  | OpCapture now stream payload flags | OpWrite now stream payload flags => Some (fun n => mkFrame n now stream flags payload)
  | _ => None
  end.

Fixpoint accepted (n : Z) (ops : list LogOp) (rs : list (option WErr)) : list Frame :=
  match ops, rs with
  | op :: ops, r :: rs =>
      match lineOf op with
      | Some f => if isErr r then accepted n ops rs else f (Z.succ n) :: accepted (Z.succ n) ops rs
      | None => accepted n ops rs
      end
  | _, _ => []
  end.

(** A failed [Write] is reported to its caller, not recorded in the log. *)
Fixpoint writesOk (ops : list LogOp) (rs : list (option WErr)) : bool :=
  match ops, rs with
  | OpWrite _ _ _ _ :: ops, r :: rs => negb (isErr r) && writesOk ops rs
  | _ :: ops, _ :: rs => writesOk ops rs
  | _, _ => true
  end.

(** The bytes of frames in the buffer directory. *)
Definition bufferBytes (l : list (Z * FileC)) : Z := foldr (fun p acc => rawBytes (fc_frames (snd p)) + acc) 0 l.

(** * The invariant of a history *)

(** A truncated run keeps its accounting; any other has lost nothing. *)
Definition Whole (F : list Frame) (c : Core) : Prop := c_trunc c = false -> Clean c F.

Section Facts.
Context `{LogEnv}.

Lemma Safe_AI c c' : AI c -> Safe c c' -> AI c'.
Proof. intros HA (_ & _ & E & HL). exact (Low_AI _ _ HA E HL). Qed.

Lemma Did_before fs c c' : Did fs c c' -> c_trunc c' = false -> c_trunc c = false.
Proof. intros (_ & Hmono & _) Ht. destruct (c_trunc c); [|done]. by rewrite Hmono in Ht. Qed.

(** The line a call adds to a log of [n] lines. *)
Definition added (n : nat) (op : LogOp) (e : option WErr) : list Frame :=
  match lineOf op with Some f => if isErr e then [] else [f (Z.succ (Z.of_nat n))] | None => [] end.

Lemma logStep_inv (Q : option WErr -> LW -> Prop) (P : Prop) op F s :
  Good (core s) -> AI (core s) -> (P -> Whole F (core s)) ->
  (forall e s', Good (core s') -> AI (core s') -> c_max (core s') = c_max (core s) ->
     (P -> writesOk [op] [e] = true -> Whole (F ++ added (length F) op e) (core s')) -> Q e s') ->
  wp (logStep op) Q s.
Proof.
  intros HG HA HW HQ.
  assert (Hdid : forall e s' fs, Did fs (core s) (core s') -> numbered (c_seq (core s)) fs ->
    (writesOk [op] [e] = true -> c_seq (core s) = Z.of_nat (length F) -> fs = added (length F) op e) -> Q e s').
  { intros e s' fs HD Hn Hfs. pose proof (Did_Safe _ _ _ HD) as HS. apply HQ; [apply HS|exact (Safe_AI _ _ HA HS)|apply HS|].
    intros HP Hok Ht. pose proof (HW HP (Did_before _ _ _ HD Ht)) as HC.
    rewrite <- (Hfs Hok (cl_seq _ _ HC)). exact (Did_clean _ _ _ _ HC (proj1 HG) HD Ht Hn). }
  destruct op as [now stream payload flags|now stream payload flags| | |alive through|now]; cbn [logStep].
  - apply capture_inv; [done|]. intros e s' HD. eapply Hdid; [exact HD|by destruct (isErr e)|].
    intros _ E. rewrite E. unfold added; cbn [lineOf]. by destruct (isErr e).
  - apply Write_inv; [done|]. intros e s' HS HD. destruct e as [e|].
    + apply HQ; [apply HS|exact (Safe_AI _ _ HA HS)|apply HS|by intros _].
    + eapply Hdid; [exact (HD eq_refl)|done|]. intros _ E. by rewrite E.
  - apply Sync_inv; [done|]. intros e s' HD. by eapply Hdid.
  - wp_step. apply sealForArchive_inv; [done|]. intros r s' HD _. wp_step. by eapply Hdid.
  - do 2 wp_step. destruct (Z.ltb_spec through (chunk (lw_w s))) as [Hlt|].
    + wp_step. apply archiveBatch_inv; [done|done|done|]. intros r s' HM _. wp_step.
      destruct HM as ([Hseg HA'] & HG' & E1 & E2 & E3 & E4 & Hn). apply HQ; [done..|].
      intros HP _. rewrite app_nil_r. intros Ht. apply (Moved_clean (core s)); [apply HW; congruence|].
      unfold Moved, Same. by split_and!.
    + wp_step. apply HQ; [done..|]. intros HP _. rewrite app_nil_r. by apply HW.
  - apply Close_inv; [done|]. intros e s' HD. by eapply Hdid.
Qed.

Lemma accepted_cons n op ops e rs :
  accepted (Z.of_nat n) (op :: ops) (e :: rs) = added n op e ++ accepted (Z.of_nat (n + length (added n op e))) ops rs.
Proof.
  cbn. unfold added. destruct (lineOf op) as [f|]; [|cbn; by rewrite Nat.add_0_r]. destruct (isErr e); cbn; [by rewrite Nat.add_0_r|].
  do 2 f_equal. lia.
Qed.

Lemma writesOk_cons op ops e rs : writesOk (op :: ops) (e :: rs) = writesOk [op] [e] && writesOk ops rs.
Proof. destruct op; cbn; by rewrite ?andb_true_r. Qed.

Lemma runOps_inv (Q : list (option WErr) -> LW -> Prop) (P : Prop) ops F s :
  Good (core s) -> AI (core s) -> (P -> Whole F (core s)) ->
  (forall rs s', Good (core s') -> AI (core s') -> c_max (core s') = c_max (core s) ->
     (P -> writesOk ops rs = true -> Whole (F ++ accepted (Z.of_nat (length F)) ops rs) (core s')) -> Q rs s') ->
  wp (runOps ops) Q s.
Proof.
  revert Q P F s; induction ops as [|op ops IH]; intros Q P F s HG HA HW HQ; cbn [runOps].
  - wp_step. apply HQ; [done..|]. intros HP _. rewrite app_nil_r. by apply HW.
  - wp_step. apply (logStep_inv _ P _ F); [done..|]. intros e s1 HG1 HA1 E1 HW1. wp_step.
    apply (IH _ (P /\ writesOk [op] [e] = true) (F ++ added (length F) op e)); [done..|by intros [? ?]; apply HW1|].
    intros rs s2 HG2 HA2 E2 HW2. wp_step. apply HQ; [done..|congruence|]. intros HP.
    rewrite writesOk_cons, accepted_cons, app_assoc, <- length_app. intros [Hok1 Hok2]%andb_true_iff. by apply HW2.
Qed.

(** * Opening *)

Definition emptyCore (c : Core) : Prop :=
  c_file c = false /\ c_enc c = false /\ c_chunk c = 0 /\ c_raw c = 0 /\ c_first c = 0 /\ c_seq c = 0 /\ c_stored c = 0 /\
  c_buffered c = 0 /\ c_chunks c = [] /\ c_err c = false /\ c_deg c = false /\ c_rows c = [] /\ c_arch c = [] /\ c_inst c = [] /\
  (c_files c = [] \/ c_files c = [(1, mkFile [] false)]).

Lemma empty_WI c : emptyCore c -> WI c.
Proof.
  destruct c; unfold emptyCore; cbn. intros (-> & -> & -> & -> & -> & -> & -> & -> & -> & -> & -> & -> & -> & -> & Hfiles).
  constructor; cbn; try done; try lia; try (by constructor); destruct Hfiles as [-> | ->]; repeat constructor; try done; cbn; lia.
Qed.

Lemma empty_good c : emptyCore c -> Good c /\ AI c /\ Clean c [].
Proof.
  intros HE. pose proof (empty_WI c HE) as HI. revert HI.
  destruct c; unfold emptyCore in HE; cbn in HE. destruct HE as (-> & -> & -> & -> & -> & -> & -> & -> & -> & -> & -> & -> & -> & -> & Hfiles).
  intros HI. set (c := mkCore _ _ _ _ _ _ _ _ _ _ _ _ _ _ _ _ _) in HI |- *.
  assert (HA : AI c) by (constructor; cbn; try done; constructor; done).
  split; [split_and!; [exact HI|intros _ _; by left|done]|]. split; [exact HA|]. constructor; try done.
  unfold c; cbn. destruct Hfiles as [-> | ->]; repeat constructor.
Qed.

Definition Opened (opt : WriterOptions) (c : Core) : Prop :=
  Good c /\ AI c /\ Whole [] c /\ c_max c = MaxBytes opt.

Lemma flags_AI c d t : AI c -> AI (c <| c_deg := d |> <| c_trunc := t |>).
Proof. intros HA. constructor; try apply HA. constructor; apply HA. Qed.

Lemma degraded_opened (Q : unit -> LW -> Prop) now cause jobName kindName opt fsync s :
  emptyCore (core (s <| lw_w := freshWriter jobName kindName opt fsync |>)) ->
  (forall s', Opened opt (core s') -> Q tt s') ->
  wp (modW (fun _ => freshWriter jobName kindName opt fsync) ;; OpenDegraded now cause) Q s.
Proof.
  intros HE HQ. destruct (empty_good _ HE) as ((HI & Hs & _) & HA & _). do 2 wp_step. unfold OpenDegraded.
  apply enterDegraded_core. intros s' E. apply HQ. rewrite E. unfold Opened, Good. split_and!; try done.
  - by apply flags_WI.
  - by apply flags_AI.
Qed.

Lemma openWriter_inv (Q : unit -> LW -> Prop) st oracle now jobName kindName opt fsync :
  (forall s, Opened opt (core s) -> Q tt s) -> wp (openWriter now jobName kindName opt fsync) Q (newRun st oracle).
Proof.
  intros HQ. unfold openWriter, Open. do 5 wp_step. wp_step; [wp_step; apply degraded_opened; [|done]; unfold emptyCore; cbn; split_and!; by auto|].
  do 2 wp_step. match goal with |- wp _ _ ?x => set (s1 := x) end.
  assert (HE : emptyCore (core s1)) by (unfold emptyCore; cbn; split_and!; by auto).
  destruct (empty_good _ HE) as ((HI & Hs & Hm) & HA & HC). apply rotate_core; [done|]. intros e s2 HR.
  destruct (Rotated_frame _ _ _ HR) as (F1 & F2 & F3 & F4 & F5 & F6 & F7 & F8). destruct e as [e|].
  - apply degraded_opened; [|done]. unfold emptyCore; cbn.
    assert (Hf : (c_files (core s2) = [] \/ c_files (core s2) = [(1, mkFile [] false)]) /\ c_inst (core s2) = []).
    { inversion HR as [c' _ Hl _ Hc| |c0 c' Hopen|]; [split; [exact Hl|by rewrite Hc]|by split; [left|]|done]. }
    destruct Hf as [Hf Hi].
    by split_and!.
  - wp_step. apply HQ. destruct (Rotated_WI _ _ _ HI Hs HR) as (HI2 & Hs2 & _).
    assert (HD : Did [] (core s1) (core s2)).
    { unfold Did, Good, marked. split_and!; try done; [by rewrite F5|by apply (Rotated_Low _ false)|].
      right. split; [cbn [length]; lia|]. by apply (Rotated_Put _ false). }
    unfold Opened. split_and!; [apply HD|exact (Low_AI _ _ HA F6 (Rotated_Low _ _ _ HI HR))| |exact F8].
    intros Ht. rewrite <- (app_nil_r []). apply (Did_clean (core s1)); done.
Qed.

(** * The bytes in the buffer *)

Definition boundAt (l : list chunkMeta) (n : Z) : Z := match metaOf l n with Some m => Raw m | None => 0 end.
Fixpoint sumZ (g : Z -> Z) (l : list Z) : Z := match l with [] => 0 | n :: t => g n + sumZ g t end.

Lemma sumZ_le g h l : Forall (fun n => g n <= h n) l -> sumZ g l <= sumZ h l.
Proof. induction 1 as [|n l Hn Hl IH]; cbn; lia. Qed.

Lemma sumZ_add g h l : sumZ (fun n => g n + h n) l = sumZ g l + sumZ h l.
Proof. induction l as [|n l IH]; cbn; lia. Qed.

Lemma sumZ_zero l : sumZ (fun _ => 0) l = 0.
Proof. induction l; cbn; lia. Qed.

Lemma sumZ_one k x l : 0 <= x -> StronglySorted Z.lt l -> sumZ (fun n => if n =? k then x else 0) l <= x.
Proof.
  intros Hx. induction 1 as [|n l Hl IH Hlt]; cbn; [lia|]. destruct (Z.eqb_spec n k) as [->|]; [|lia].
  enough (sumZ (fun n => if n =? k then x else 0) l <= sumZ (fun _ => 0) l) by (rewrite sumZ_zero in *; lia).
  apply sumZ_le, (Forall_impl _ _ _ Hlt). intros n Hn. destruct (Z.eqb_spec n k); lia.
Qed.

Lemma sumZ_bound l ns : Forall (fun m => 0 <= Raw m) l -> StronglySorted Z.lt ns -> sumZ (boundAt l) ns <= rawSum l.
Proof.
  intros Hl Hs. induction Hl as [|m l Hm Hl IH]; cbn [rawSum foldr].
  - unfold boundAt, metaOf; cbn. by rewrite sumZ_zero.
  - transitivity (sumZ (fun n => (if n =? Number m then Raw m else 0) + boundAt l n) ns).
    + apply sumZ_le, Forall_forall. intros n _. unfold boundAt, metaOf; cbn. rewrite (Z.eqb_sym n).
      destruct (Number m =? n); [|lia]. destruct (List.find _ l) as [m'|] eqn:E; [|lia].
      apply List.find_some in E as [E _]. apply list_elem_of_In in E.
      pose proof (proj1 (Forall_forall _ _) Hl m' E) as Hp. cbn in Hp. lia.
    + rewrite sumZ_add. pose proof (sumZ_one (Number m) (Raw m) ns Hm Hs). unfold rawSum in IH |- *. cbn. lia.
Qed.

Lemma buffer_accounted c : WI c -> bufferBytes (c_files c) <= c_buffered c.
Proof.
  intros HI. set (extra := if curIndexed c then 0 else c_raw c).
  assert (Hx : 0 <= extra) by (unfold extra; destruct (wi_raw c HI); destruct (curIndexed c); lia).
  assert (Hpos : Forall (fun m => 0 <= Raw m) (c_chunks c)).
  { apply (Forall_impl _ _ _ (wi_meta c HI)). by intros m (_ & _ & _ & ? & _). }
  assert (Hsum : forall l, Forall (file_ok c) l ->
    bufferBytes l <= sumZ (fun n => boundAt (c_chunks c) n + (if n =? c_chunk c then extra else 0)) (fst <$> l)).
  { induction 1 as [|[n fc] l (_ & _ & Hh) Hl IH]; [cbn; lia|].
    change (bufferBytes ((n, fc) :: l)) with (rawBytes (fc_frames fc) + bufferBytes l). cbn [fmap list_fmap fst sumZ]. unfold holds_at in Hh; cbn in Hh. unfold boundAt at 1.
    destruct (metaOf (c_chunks c) n) as [m|] eqn:Em; [destruct Hh as [Hh _]; destruct (n =? c_chunk c); lia|].
    destruct (Z.eqb_spec n (c_chunk c)) as [->|]; [|rewrite Hh; cbn; lia]. destruct Hh as [Hh _].
    assert (extra = c_raw c) by (unfold extra; by rewrite (proj2 (curIndexed_false c) Em)). lia. }
  specialize (Hsum _ (wi_data c HI)). rewrite sumZ_add in Hsum. rewrite (wi_acct c HI). fold extra.
  pose proof (sumZ_bound _ _ Hpos (wi_files c HI)). pose proof (sumZ_one (c_chunk c) _ _ Hx (wi_files c HI)). lia.
Qed.

(** * Any history *)

Lemma runLog_inv st oracle now jobName kindName opt fsync ops :
  let '(rs, s) := runLog st oracle now jobName kindName opt fsync ops in
  Good (core s) /\ AI (core s) /\ c_max (core s) = MaxBytes opt /\
  (writesOk ops rs = true -> Whole (accepted 0 ops rs) (core s)).
Proof.
  enough (HW : wp (openWriter now jobName kindName opt fsync ;; runOps ops)
    (fun rs s => Good (core s) /\ AI (core s) /\ c_max (core s) = MaxBytes opt /\
                 (writesOk ops rs = true -> Whole (accepted 0 ops rs) (core s))) (newRun st oracle)).
  { unfold wp in HW. unfold runLog. by destruct ((openWriter now jobName kindName opt fsync ;; runOps ops) (newRun st oracle)). }
  wp_step. apply openWriter_inv. intros s (HG & HA & HW & E). apply (runOps_inv _ True _ []); [done..|].
  intros rs s' HG' HA' E' HW'. split_and!; [apply HG'|apply HA'|congruence|]. by apply HW'.
Qed.

(** * A checkpoint *)

Lemma Rotated_seg c e c' : Rotated c e c' -> forall n, seg c' n = seg c n.
Proof.
  intros HR n. destruct (Rotated_frame _ _ _ HR) as (_ & _ & _ & _ & _ & Er & Ea & _).
  assert (Hf : c_files c' = c_files c \/ c_files c' = nextFile c).
  { destruct HR as [c1 _ Hl _ _| |c0 c1 _ _ _ _ Hl _|c0 c1 _ _ _ Hc]; [exact Hl|by left|exact Hl|right; by rewrite Hc]. }
  assert (Hfr : framesAt (c_files c') n = framesAt (c_files c) n).
  { destruct Hf as [-> | ->]; [done|]. unfold framesAt, nextFile. rewrite findFile_app. destruct (findFile n (c_files c)); [done|].
    unfold findFile; cbn. by destruct (_ =? n). }
  unfold seg, rowFrames. by rewrite Er, Ea, Hfr.
Qed.

Lemma sealForArchive_seg (Q : Result WErr Z -> LW -> Prop) s :
  Good (core s) -> AI (core s) ->
  (forall r s', Good (core s') -> AI (core s') -> (forall n, seg (core s') n = seg (core s) n) ->
     (forall n, r = Ok n -> n = 0 \/ n < c_chunk (core s')) -> Q r s') ->
  wp sealForArchive Q s.
Proof.
  intros (HI & Hs & Hm) HA HQ. unfold sealForArchive. do 2 wp_step.
  destruct (closed (lw_w s)); [wp_step; apply HQ; try done; intros n [= <-]; by left|].
  wp_step. destruct (0 <? chunkRaw (lw_w s)).
  - apply rotate_core; [intros Hf; by apply (wi_open _ HI)|]. intros e s1 HR.
    destruct (Rotated_WI _ _ _ HI Hs HR) as (HI3 & Hs3 & _).
    destruct (Rotated_frame _ _ _ HR) as (F1 & F2 & F3 & F4 & F5 & F6 & F7 & F8).
    assert (HG : Good (core s1)) by (unfold Good, marked; split_and!; [done|done|rewrite F4, F5; exact Hm]).
    pose proof (Low_AI _ _ HA F6 (Rotated_Low _ _ _ HI HR)) as HA1. pose proof (Rotated_seg _ _ _ HR) as Hseg.
    destruct e as [e|]; wp_go; (apply HQ; [done..|]); [done|]. intros n [= <-]. right. cbn. lia.
  - wp_go. apply HQ; try done. intros n [= <-]. right. cbn. lia.
Qed.

Lemma Flush_inv (Q : option (option WErr) -> LW -> Prop) alive s :
  Good (core s) -> AI (core s) ->
  (forall r s', is_Some r -> (forall n, seg (core s') n = seg (core s) n) -> Q r s') -> wp (Flush alive) Q s.
Proof.
  intros HG HA HQ. unfold Flush. wp_step. apply sealForArchive_seg; [done..|]. intros r s1 HG1 HA1 E1 Hr.
  destruct r as [n|e]; [|wp_step; by apply HQ].
  destruct (Z.eqb_spec n 0) as [|Hn]; [wp_step; by apply HQ|]. do 2 wp_step.
  apply archiveWriter_inv; [done|done| |cbn; lia|].
  - by destruct (Hr n eq_refl).
  - intros r s2 ([Hseg _] & _) Hsome. apply HQ; [done|]. intros k. by rewrite Hseg.
Qed.

End Facts.

(** * Theorems *)

Section Theorems.
Context `{LogEnv}.

(** No output goes missing unnoticed.  Over any sequence of captures,
    writes, syncs, seals, checkpoint batches and closes of one run, and any
    pattern of failing system calls, a run that is not marked truncated, none of
    whose direct writes was refused, reads back exactly the lines its callers
    were told are stored: every one of them once, in order, wherever the
    checkpoint has moved the chunks meanwhile. *)
Theorem log_complete st oracle now jobName kindName opt fsync ops rs s :
  runLog st oracle now jobName kindName opt fsync ops = (rs, s) ->
  writesOk ops rs = true -> truncated (lw_w s) = false -> readable (core s) = accepted 0 ops rs.
Proof.
  intros E Hok Ht. pose proof (runLog_inv st oracle now jobName kindName opt fsync ops) as HR. rewrite E in HR.
  destruct HR as ((HI & _) & _ & _ & HW).
  exact (readable_total _ _ (HW Hok Ht) HI).
Qed.

(** C16: a run's buffer never outgrows its limit.  Over the same histories, the
    bytes of the frames in the buffer files never exceed what the writer
    accounts for, and that never exceeds [log_max]. *)
Theorem buffer_bound st oracle now jobName kindName opt fsync ops :
  0 < MaxBytes opt ->
  let s := snd (runLog st oracle now jobName kindName opt fsync ops) in
  bufferBytes (b_files (lw_buf s)) <= buffered (lw_w s) <= MaxBytes opt.
Proof.
  intros Hmax. pose proof (runLog_inv st oracle now jobName kindName opt fsync ops) as HR.
  destruct (runLog _ _ _ _ _ _ _ _) as [rs s]. destruct HR as ((HI & _) & _ & E & _). cbn [snd]. split.
  - exact (buffer_accounted _ HI).
  - rewrite <- E in Hmax |- *. exact (wi_max _ HI Hmax).
Qed.

(** C18: a checkpoint ends and loses nothing.  From every state a run's log can
    be in, [FlushContext] returns, within one batch per indexed chunk, and every
    chunk has the content it had before, whichever system calls failed. *)
Theorem checkpoint_preserves st oracle now jobName kindName opt fsync ops alive :
  let s := snd (runLog st oracle now jobName kindName opt fsync ops) in
  is_Some (fst (Flush alive s)) /\ forall n, seg (core (snd (Flush alive s))) n = seg (core s) n.
Proof.
  pose proof (runLog_inv st oracle now jobName kindName opt fsync ops) as HR.
  destruct (runLog _ _ _ _ _ _ _ _) as [rs s]. destruct HR as (HG & HA & _). cbn [snd].
  apply (Flush_inv (fun r s' => is_Some r /\ forall n, seg (core s') n = seg (core s) n)); [done..|]. by intros.
Qed.

End Theorems.

(** * A concrete run *)

#[local] Instance demoEnv : LogEnv := {| compressedSize := rawBytes; summaryText := fun _ _ _ => [] |}.

Definition demoStore : StoreSide := mkStoreSide 0 0 0 0 false 4096 [] 0.
Definition demoOpt : WriterOptions := mkOptions 200 100 false.

(** Two lines, a checkpoint whose removal of the archived file fails, a third
    line and the end of the run: the first chunk is stored twice. *)
Definition demoOps : list LogOp :=
  [OpCapture zeroTime Stdout [97; 98] 0; OpCapture zeroTime Stderr [99] 0; OpSeal; OpBatch true 1;
   OpWrite zeroTime System [100] 0; OpClose zeroTime].

Definition demoOracle : list bool := repeat true 18 ++ [false].
Abbreviation demoRun := (runLog demoStore demoOracle zeroTime EmptyString EmptyString demoOpt false demoOps).

Example demo_results :
  fst demoRun = [None; None; None; Some errRemove; None; None] /\
  fst <$> b_files (lw_buf (snd demoRun)) = [1; 2] /\ fst <$> a_rows (lw_db (snd demoRun)) = [1].
Proof. by vm_compute. Qed.

Example demo_readable :
  readable (core (snd demoRun)) =
    [mkFrame 1 zeroTime Stdout 0 [97; 98]; mkFrame 2 zeroTime Stderr 0 [99]; mkFrame 3 zeroTime System 0 [100]].
Proof. vm_compute. reflexivity. Qed.

(** Witness of [log_complete]. *)
Lemma log_complete_witness :
  writesOk demoOps (fst demoRun) = true /\ truncated (lw_w (snd demoRun)) = false /\
  readable (core (snd demoRun)) = accepted 0 demoOps (fst demoRun).
Proof.
  assert (H1 : writesOk demoOps (fst demoRun) = true) by (vm_compute; reflexivity).
  assert (H2 : truncated (lw_w (snd demoRun)) = false) by (vm_compute; reflexivity).
  split; [exact H1|]. split; [exact H2|].
  exact (log_complete demoStore demoOracle zeroTime EmptyString EmptyString demoOpt false demoOps _ _
           (surjective_pairing demoRun) H1 H2).
Defined.

(** Witness of [buffer_bound]. *)
Lemma buffer_bound_witness :
  0 < MaxBytes demoOpt /\ bufferBytes (b_files (lw_buf (snd demoRun))) <= buffered (lw_w (snd demoRun)) <= MaxBytes demoOpt.
Proof.
  assert (H1 : 0 < MaxBytes demoOpt) by (vm_compute; reflexivity).
  split; [exact H1|].
  exact (buffer_bound demoStore demoOracle zeroTime EmptyString EmptyString demoOpt false demoOps H1).
Defined.
