(* ===== verification/LogRead.v ===== *)
(** Reading a run's log across its storage tiers: [readContext] with its paging
    and skipping, [logdb.EachChunk], [openFileChunk] and the raw download
    ([RawContext]) of src/internal/logstore/logstore.go and
    src/internal/logdb/logdb.go.

    A read shares the writer's oracle: a refused outcome is a cancelled context,
    a failed query or an I/O error at that point.  The run lock makes a page
    atomic with respect to the writer and the checkpoint. *)

From S2P Require Import Prelude GoRuntime LogFrame LogWriter LogArchive.
Open Scope Z_scope.
Open Scope lw_scope.

(** * One page *)

(** The variables of [readContext]: the frames so far, the cursor and the size. *)
Record Page := mkPage { out : list Frame; lastRead : Z; responseBytes : Z }.

Definition pageFull (maxBytes : Z) (f : Frame) (p : Page) : bool :=
  (0 <? length (out p))%nat && (responseBytes p + blen (Payload f) + 24 >? maxBytes).

(** The closure [appendFrame]: whether the page takes more. *)
Definition pageAppend (limit maxBytes : Z) (f : Frame) (p : Page) : bool * Page :=
  if Sequence f <=? lastRead p then (true, p) else
  if pageFull maxBytes f p then (false, p) else
  let p := mkPage (out p ++ [f]) (Sequence f) (responseBytes p + (blen (Payload f) + 24)) in
  ((Z.of_nat (length (out p)) <? limit) && (responseBytes p <? maxBytes), p).

(** The closure [consume] on the frames one source decodes to. *)
Fixpoint consume (limit maxBytes : Z) (fs : list Frame) (p : Page) : M (Result WErr (bool * Page)) :=
  let* alive := io in
  if negb alive then ret (Err errStore) else
  match fs with
  | [] => ret (Ok (true, p))
  | f :: t =>
      if Sequence f <=? lastRead p then consume limit maxBytes t p else
      if pageFull maxBytes f p then ret (Ok (false, p)) else
      let r := pageAppend limit maxBytes f p in
      if fst r then consume limit maxBytes t (snd r) else ret (Ok (false, snd r))
  end.

(** * The archive *)

(** [eachChunkQuery]: the row with the least last sequence beyond the cursor. *)
Fixpoint nextRow (cursor : Z) (rows : list (Z * Row)) : option (Z * Row) :=
  match rows with
  | [] => None
  | (n, r) :: t =>
      match nextRow cursor t with
      | None => if cursor <? row_Last r then Some (n, r) else None
      | Some q => if (cursor <? row_Last r) && (row_Last r <=? row_Last (snd q)) then Some (n, r) else Some q
      end
  end.

(** [openFileChunk]: the archive file, or the buffer file a rename has not
    reached. *)
Definition openFileChunk (b : Buffer) (a : Archive) (n : Z) : option FileC :=
  match findFile n (a_files a) with Some c => Some c | None => findFile n (b_files b) end.

(** The frames behind a row; [None] is a file that no longer exists. *)
Definition rowSource (b : Buffer) (a : Archive) (n : Z) (r : Row) : option (list Frame) :=
  if 0 <? row_FileBytes r then fc_frames <$> openFileChunk b a n
  else Some (match row_Blob r with Some c => fc_frames c | None => [] end).

(** [EachChunk] with the callback of [readContext].  Every round moves the
    cursor past a row, so the rows bound the loop. *)
Fixpoint EachChunk (limit maxBytes : Z) (fuel : nat) (cursor : Z) (p : Page) : M (option (Result WErr (bool * Page))) :=
  match fuel with
  | O => ret None
  | S k =>
      let* b := getBuf in
      let* a := getDB in
      let* queried := io in
      if negb queried then ret (Some (Err errStore)) else
      match nextRow cursor (a_rows a) with
      | None => ret (Some (Ok (true, p)))
      | Some (n, r) =>
          let* opened := (if 0 <? row_FileBytes r then io else ret true) in
          if negb opened then ret (Some (Err errStore)) else
          let* res := match rowSource b a n r with
                      | None => ret (Ok (true, p))
                      | Some fs => consume limit maxBytes fs p
                      end in
          match res with
          | Err e => ret (Some (Err e))
          | Ok (false, p) => ret (Some (Ok (false, p)))
          | Ok (true, p) => EachChunk limit maxBytes k (Z.max cursor (row_Last r)) p
          end
      end
  end.

(** * The buffer *)

(** The last sequence the installed index lists for a sealed chunk. *)
Definition sealedLast (ix : option index) (n : Z) : option Z :=
  match ix with
  | Some ix =>
      if ix_Version ix =? Version then
        Last <$> List.find (fun m => Number m =? n)
                   (rev (List.filter (fun m => (0 <? Number m) && (0 <? First m) && (First m <=? Last m)) (ix_Chunks ix)))
      else None
  | None => None
  end.

Fixpoint readFiles (limit maxBytes after : Z) (ix : option index) (entries : list (Z * FileC)) (p : Page) :
    M (Result WErr (bool * Page)) :=
  match entries with
  | [] => ret (Ok (true, p))
  | (n, c) :: t =>
      if match sealedLast ix n with Some l => l <=? after | None => false end
      then readFiles limit maxBytes after ix t p else
      let* opened := io in
      if negb opened then ret (Err errStore) else
      let* res := consume limit maxBytes (fc_frames c) p in
      match res with
      | Ok (true, p) => readFiles limit maxBytes after ix t p
      | _ => ret res
      end
  end.

Definition pageFrames (r : Result WErr (bool * Page)) : Result WErr (list Frame) :=
  match r with Ok (_, p) => Ok (out p) | Err e => Err e end.

(** [readContext]: [None] only if the fuel of [EachChunk] did not suffice. *)
Definition readContext (after limit maxBytes : Z) : M (option (Result WErr (list Frame))) :=
  let* alive := io in
  if negb alive then ret (Some (Err errStore)) else
  let limit := Z.min (Z.max limit 1) 5000 in
  let* a := getDB in
  let* res := EachChunk limit maxBytes (S (length (a_rows a))) after (mkPage [] after 0) in
  match res with
  | None => ret None
  | Some (Ok (true, p)) =>
      let* b := getBuf in
      let* indexRead := (if (0 <? after) && (1 <? length (b_files b))%nat then io else ret false) in
      let* r := readFiles limit maxBytes after (if indexRead then b_index b else None) (b_files b) p in
      ret (Some (pageFrames r))
  | Some r => ret (Some (pageFrames r))
  end.

Definition ReadContext (after limit : Z) := readContext after limit (Z.shiftl 16 20).
Definition ReadStreamContext (after limit : Z) := readContext after limit (Z.shiftl 1 20).

(** * The raw download *)

Definition bytesOf (s : string) : list Byte := (fun c => Z.of_nat (Ascii.nat_of_ascii c)) <$> String.list_ascii_of_string s.

Definition render (f : Frame) : list Byte :=
  (if Stream f =? Stderr then bytesOf "[err] " else []) ++ (if Stream f =? System then bytesOf "[minicron] " else []) ++
  Payload f ++ [10].

(** The loop over the frames of a page: each is written before the cursor
    moves. *)
Fixpoint writeFrames (fs : list Frame) (after : Z) : M (Result WErr (list Byte * Z)) :=
  match fs with
  | [] => ret (Ok ([], after))
  | f :: t =>
      let* wrote := io in
      if negb wrote then ret (Err errStore) else
      let* rest := writeFrames t (Sequence f) in
      ret match rest with Ok (b, a) => Ok (render f ++ b, a) | Err e => Err e end
  end.

Fixpoint rawLoop (fuel : nat) (after : Z) : M (option (Result WErr (list Byte))) :=
  match fuel with
  | O => ret None
  | S k =>
      let* page := readContext after 5000 (Z.shiftl 4 20) in
      match page with
      | None => ret None
      | Some (Err e) => ret (Some (Err e))
      | Some (Ok frames) =>
          let* w := writeFrames frames after in
          match w with
          | Err e => ret (Some (Err e))
          | Ok (b, after) =>
              match frames with
              | [] => ret (Some (Ok []))
              | _ =>
                  let* rest := rawLoop k after in
                  ret match rest with Some (Ok r) => Some (Ok (b ++ r)) | r => r end
              end
          end
      end
  end.

(** The frames stored in every tier, copies included. *)
Definition storedFrames (b : Buffer) (a : Archive) : nat :=
  (length (concat ((fun p => fc_frames (snd p)) <$> b_files b)) +
   length (concat ((fun p => default [] (rowSource b a (fst p) (snd p))) <$> a_rows a)))%nat.

(** [RawContext].  Every round but the last writes a frame the earlier ones did
    not, so the stored frames bound the loop. *)
Definition RawContext : M (option (Result WErr (list Byte))) :=
  let* b := getBuf in
  let* a := getDB in
  rawLoop (S (S (storedFrames b a))) 0.
