(* ===== verification/LogReadFacts.v ===== *)
(** A log read page by page is the log: every page of every reachable run is
    the next part of what its storage holds, and the raw download ends with all
    of it. *)

From S2P Require Import Prelude GoRuntime LogFrame LogWriter LogArchive LogWriterCore LogWriterInv LogWriterOps LogWriterRun LogArchiveFacts LogWriterFacts LogHistory LogRead.
Open Scope Z_scope.
Open Scope lw_scope.

(** * Reads change nothing *)

Definition Still (s s' : LW) : Prop := core s' = core s /\ (lw_io s = [] -> lw_io s' = []).

Lemma Still_refl s : Still s s.
Proof. done. Qed.
Lemma Still_trans a b c : Still a b -> Still b c -> Still a c.
Proof. intros [E1 I1] [E2 I2]. split; [congruence|auto]. Qed.
#[local] Hint Resolve Still_refl : core.

(** One outcome of the oracle; with an exhausted one every call succeeds. *)
Lemma wp_io_still (Q : bool -> LW -> Prop) s :
  (forall b s', Still s s' -> (lw_io s = [] -> b = true) -> Q b s') -> wp io Q s.
Proof.
  intros HQ. unfold wp, io. destruct (lw_io s) as [|b t] eqn:E; [by apply HQ|].
  apply HQ; [|done]. split; [done|]. cbn. congruence.
Qed.

Definition noErr {A} (r : Result WErr A) : Prop := match r with Ok _ => True | Err _ => False end.

(** * Taking from a source *)

(** From frames [l] the page took the first part of what is new in them; all of
    it unless it is full, and something if it stops. *)
Definition Took (l : list Frame) (p : Page) (r : Result WErr (bool * Page)) : Prop :=
  match r with
  | Err _ => True
  | Ok (more, p') => exists taken rest,
      merge (lastRead p) l = taken ++ rest /\ out p' = out p ++ taken /\ lastRead p' = lastSeq (lastRead p) taken /\
      (more = true -> rest = []) /\ (more = false -> out p' <> [])
  end.

Lemma Took_app l k p p1 r : Took l p (Ok (true, p1)) -> Took k p1 r -> Took (l ++ k) p r.
Proof.
  intros (t1 & r1 & E1 & O1 & L1 & M1 & _) H2. rewrite (M1 eq_refl), app_nil_r in E1. destruct r as [[more p']|]; [|done].
  destruct H2 as (t2 & r2 & E2 & O2 & L2 & M2 & N2). exists (t1 ++ t2), r2. split_and!; try done.
  - by rewrite merge_app, E1, <- L1, E2, app_assoc.
  - by rewrite O2, O1, app_assoc.
  - rewrite L2, L1. unfold lastSeq. destruct t2 as [|f t2] using rev_ind; [by rewrite app_nil_r|].
    by rewrite app_assoc, !last_snoc.
Qed.

Lemma Took_stop l k p p1 : Took l p (Ok (false, p1)) -> Took (l ++ k) p (Ok (false, p1)).
Proof.
  intros (t1 & r1 & E1 & O1 & L1 & _ & N1). exists t1. eexists. rewrite merge_app, E1, <- app_assoc.
  by split_and!.
Qed.

Lemma Took_nil p : Took [] p (Ok (true, p)).
Proof. exists [], []. rewrite !app_nil_r. by split_and!. Qed.

Lemma consume_core (Q : Result WErr (bool * Page) -> LW -> Prop) limit maxB fs p s :
  (forall r s', Still s s' -> Took fs p r -> (lw_io s = [] -> noErr r) -> Q r s') -> wp (consume limit maxB fs p) Q s.
Proof.
  revert p s; induction fs as [|f t IH]; intros p s HQ; cbn [consume]; wp_step; apply wp_io_still; intros b s1 H1 Hb;
    (destruct b; cbn [negb]; [|wp_step; apply HQ; [done|done|intros E; by specialize (Hb E)]]).
  - wp_step. apply HQ; [done|apply Took_nil|done].
  - assert (Hgo : forall p1, Took [f] p (Ok (true, p1)) -> wp (consume limit maxB t p1) Q s1).
    { intros p1 HT. apply IH. intros r s2 H2 HT2 Hr. apply HQ; [exact (Still_trans _ _ _ H1 H2)|exact (Took_app [f] t _ _ _ HT HT2)|].
      intros E. apply Hr. by apply H1. }
    destruct (Z.leb_spec (Sequence f) (lastRead p)) as [Hle|Hlt].
    { apply Hgo. exists [], []. cbn. destruct (Z.ltb_spec (lastRead p) (Sequence f)); [lia|]. rewrite !app_nil_r. by split_and!. }
    destruct (pageFull maxB f p) eqn:Hfull.
    { wp_step. apply HQ; [done| |done]. exists [], (merge (lastRead p) (f :: t)). rewrite app_nil_r. split_and!; try done.
      intros _ E. unfold pageFull in Hfull. by rewrite E in Hfull. }
    unfold pageAppend. destruct (Z.leb_spec (Sequence f) (lastRead p)); [lia|]. rewrite Hfull. cbn [fst snd].
    assert (Hm : merge (lastRead p) [f] = [f]) by (cbn; destruct (Z.ltb_spec (lastRead p) (Sequence f)); [done|lia]).
    destruct (_ && _).
    + apply Hgo. exists [f], []. by split_and!.
    + wp_step. apply HQ; [done| |done]. apply (Took_stop [f]). exists [f], []. split_and!; try done. cbn.
      intros _ E. by apply app_nil in E as [_ [=]].
Qed.

(** * The archive *)

Definition beyond (cursor : Z) (p : Z * Row) : bool := cursor <? row_Last (snd p).
Definition rowsInc (rows : list (Z * Row)) : Prop := StronglySorted (fun p q => row_Last (snd p) < row_Last (snd q)) rows.

Lemma nextRow_spec cursor rows : rowsInc rows -> nextRow cursor rows = head (List.filter (beyond cursor) rows).
Proof.
  induction 1 as [|[n r] t Ht IH Hlt]; [done|]. cbn [nextRow]. rewrite IH. cbn [List.filter]. unfold beyond at 2. cbn [snd].
  destruct (head (List.filter (beyond cursor) t)) as [q|] eqn:Eq; [|by destruct (cursor <? row_Last r)].
  destruct (cursor <? row_Last r); [|done]. cbn.
  assert (Hq : q ∈ t).
  { destruct (List.filter (beyond cursor) t) as [|x l] eqn:El; [done|]. cbn in Eq. simplify_eq.
    assert (Hin : q ∈ List.filter (beyond cursor) t) by (rewrite El; by left). by apply elem_of_filter_list in Hin as [? _]. }
  pose proof (proj1 (Forall_forall _ _) Hlt q Hq) as Hl. cbn in Hl. by destruct (Z.leb_spec (row_Last r) (row_Last (snd q))); [|lia].
Qed.

Lemma beyond_next cursor rows n r t :
  rowsInc rows -> List.filter (beyond cursor) rows = (n, r) :: t -> List.filter (beyond (Z.max cursor (row_Last r))) rows = t.
Proof.
  induction 1 as [|q l Hl IH Hlt]; [done|]. cbn [List.filter]. intros E.
  destruct (beyond cursor q) eqn:Eb; unfold beyond in Eb.
  - injection E as -> E. cbn [snd] in *.
    replace (beyond (Z.max cursor (row_Last r)) (n, r)) with false by (symmetry; apply Z.ltb_ge; cbn; lia). rewrite <- E.
    apply List.filter_ext_in. intros x Hx. apply list_elem_of_In in Hx. pose proof (proj1 (Forall_forall _ _) Hlt x Hx) as Hy.
    unfold beyond. cbn in Hy. destruct (Z.ltb_spec cursor (row_Last (snd x))), (Z.ltb_spec (Z.max cursor (row_Last r)) (row_Last (snd x))); lia || done.
  - replace (beyond (Z.max cursor (row_Last r)) q) with false by (symmetry; apply Z.ltb_ge; lia). by apply IH.
Qed.

Definition rowsData (c : Core) (rows : list (Z * Row)) : list Frame := concat ((fun p => rowFrames c (fst p) (snd p)) <$> rows).

Lemma rowSource_frames s n r : shaped r -> default [] (rowSource (lw_buf s) (lw_db s) n r) = rowFrames (core s) n r.
Proof.
  unfold shaped, rowSource, rowFrames, openFileChunk, framesAt. intros ->. cbn.
  destruct (row_Blob r); [done|]. destruct (findFile n (a_files (lw_db s))); [done|]. by destruct (findFile n (b_files (lw_buf s))).
Qed.

Lemma EachChunk_core (Q : option (Result WErr (bool * Page)) -> LW -> Prop) limit maxB fuel cursor p s :
  rowsInc (c_rows (core s)) -> Forall (fun p => shaped (snd p)) (c_rows (core s)) ->
  (length (List.filter (beyond cursor) (c_rows (core s))) < fuel)%nat ->
  (forall r s', Still s s' -> Took (rowsData (core s) (List.filter (beyond cursor) (c_rows (core s)))) p r ->
                (lw_io s = [] -> noErr r) -> Q (Some r) s') ->
  wp (EachChunk limit maxB fuel cursor p) Q s.
Proof.
  revert cursor p s; induction fuel as [|k IH]; intros cursor p s Hinc Hsh Hf HQ; [lia|]. cbn [EachChunk].
  do 5 wp_step. apply wp_io_still. intros b s1 H1 Hb.
  destruct b; cbn [negb]; [|wp_step; apply HQ; [done|done|intros E; by specialize (Hb E)]].
  change (a_rows (lw_db s)) with (c_rows (core s)). rewrite (nextRow_spec _ _ Hinc).
  destruct (List.filter (beyond cursor) (c_rows (core s))) as [|[n r] t] eqn:Ef; cbn [head].
  { wp_step. apply HQ; [done|apply Took_nil|done]. }
  assert (Hr : shaped r).
  { assert (Hin : (n, r) ∈ List.filter (beyond cursor) (c_rows (core s))) by (rewrite Ef; by left).
    apply elem_of_filter_list in Hin as [Hin _]. exact (proj1 (Forall_forall _ _) Hsh _ Hin). }
  (* once the source is open *)
  assert (Hopen : forall s2, Still s s2 ->
    wp (let* res := match rowSource (lw_buf s) (lw_db s) n r with
                    | None => ret (Ok (true, p))
                    | Some fs => consume limit maxB fs p
                    end in
        match res with
        | Err e => ret (Some (Err e))
        | Ok (false, p) => ret (Some (Ok (false, p)))
        | Ok (true, p) => EachChunk limit maxB k (Z.max cursor (row_Last r)) p
        end) Q s2).
  { intros s2 H2. pose proof (rowSource_frames s n r Hr) as Hfr.
    assert (Hnext : forall p1 s3, Still s s3 -> Took (rowFrames (core s) n r) p (Ok (true, p1)) ->
      wp (EachChunk limit maxB k (Z.max cursor (row_Last r)) p1) Q s3).
    { intros p1 s3 H3 HT. pose proof H3 as [E3 I3].
      apply IH; rewrite ?E3; [done|done|rewrite (beyond_next _ _ _ _ _ Hinc Ef); cbn in Hf; lia|].
      rewrite (beyond_next _ _ _ _ _ Hinc Ef). intros r' s4 H4 HT4 Hr4.
      apply HQ; [exact (Still_trans _ _ _ H3 H4)|exact (Took_app _ _ _ _ _ HT HT4)|auto]. }
    wp_step. destruct (rowSource (lw_buf s) (lw_db s) n r) as [fs|]; cbn in Hfr; rewrite <- Hfr in Hnext.
    - apply consume_core. intros res s3 H3 HT Hres. pose proof (Still_trans _ _ _ H2 H3) as H23.
      destruct res as [[[] p1]|e]; [by apply Hnext| |].
      + wp_step. apply HQ; [done| |done]. cbn. rewrite <- Hfr. by apply Took_stop.
      + wp_step. apply HQ; [done|done|]. intros E. apply Hres. by apply H2.
    - wp_step. apply Hnext; [done|apply Took_nil]. }
  wp_step. destruct (0 <? row_FileBytes r).
  - apply wp_io_still. intros b s2 H2 Hb2. destruct b; cbn [negb]; [apply Hopen; exact (Still_trans _ _ _ H1 H2)|].
    wp_step. apply HQ; [exact (Still_trans _ _ _ H1 H2)|done|]. intros E. by specialize (Hb2 (proj2 H1 E)).
  - wp_step. cbn [negb]. by apply Hopen.
Qed.

(** * The buffer *)

Definition skipped (after : Z) (ix : option index) (p : Z * FileC) : bool :=
  match sealedLast ix (fst p) with Some l => l <=? after | None => false end.
Definition filesData (l : list (Z * FileC)) : list Frame := concat ((fun p => fc_frames (snd p)) <$> l).

Lemma readFiles_core (Q : Result WErr (bool * Page) -> LW -> Prop) limit maxB after ix entries p s :
  (forall r s', Still s s' -> Took (filesData (List.filter (fun e => negb (skipped after ix e)) entries)) p r ->
                (lw_io s = [] -> noErr r) -> Q r s') ->
  wp (readFiles limit maxB after ix entries p) Q s.
Proof.
  revert p s; induction entries as [|[n c] t IH]; intros p s HQ; cbn [readFiles].
  { wp_step. apply HQ; [done|apply Took_nil|done]. }
  change (match sealedLast ix n with Some l => l <=? after | None => false end) with (skipped after ix (n, c)).
  cbn [List.filter] in HQ. destruct (skipped after ix (n, c)); cbn [negb] in HQ; [by apply IH|].
  wp_step. apply wp_io_still. intros b s1 H1 Hb.
  destruct b; cbn [negb]; [|wp_step; apply HQ; [done|done|intros E; by specialize (Hb E)]].
  wp_step. apply consume_core. intros r s2 H2 HT Hr. pose proof (Still_trans _ _ _ H1 H2) as H12.
  assert (Hend : r <> Ok (true, match r with Ok (_, p') => p' | Err _ => p end) -> wp (ret r) Q s2).
  { intros Hne. wp_step. apply HQ; [done| |intros E; apply Hr; by apply H1].
    destruct r as [[[] p1]|e]; [done|by apply Took_stop|done]. }
  destruct r as [[[] p1]|e]; [|by apply Hend..].
  apply IH. intros r' s3 H3 HT' Hr'. apply HQ; [exact (Still_trans _ _ _ H12 H3)|exact (Took_app _ _ _ _ _ HT HT')|].
  intros E. apply Hr'. by apply H12.
Qed.

(** * What a page is *)

Lemma lastSeq_merge last l : last <= lastSeq last (merge last l).
Proof.
  revert last; induction l as [|f t IH]; intros last; cbn; [done|].
  destruct (Z.ltb_spec last (Sequence f)); [|apply IH]. specialize (IH (Sequence f)).
  unfold lastSeq in *. destruct (merge (Sequence f) t) as [|g r]; [cbn; lia|].
  change (list.last (f :: g :: r)) with (list.last (g :: r)). destruct (list.last (g :: r)) eqn:E; [cbn in *; lia|by apply last_None in E].
Qed.

(** Leaving out blocks with nothing past the cursor changes nothing. *)
Lemma merge_kept {A} (keep : A -> bool) (g : A -> list Frame) a l k k' last :
  a <= last -> (forall x, x ∈ l -> keep x = false -> Forall (fun f => Sequence f <= a) (g x)) ->
  (forall last', a <= last' -> merge last' k = merge last' k') ->
  merge last (concat (g <$> List.filter keep l) ++ k) = merge last (concat (g <$> l) ++ k').
Proof.
  revert last; induction l as [|x l IH]; intros last Hl Hx Hk; [by apply Hk|]. cbn.
  assert (Htail : forall last', a <= last' -> merge last' (concat (g <$> List.filter keep l) ++ k) = merge last' (concat (g <$> l) ++ k')).
  { intros last' H'. apply IH; [done| |done]. intros y Hy. apply Hx. by right. }
  destruct (keep x) eqn:Ek; cbn; rewrite <- !app_assoc, !(merge_app last (g x)).
  - f_equal. apply Htail. pose proof (lastSeq_merge last (g x)). lia.
  - rewrite (merge_skip last (g x)); [cbn; by apply Htail|].
    apply (Forall_impl _ _ _ (Hx x ltac:(by left) Ek)). intros f Hf. lia.
Qed.

Definition after_ (a : Z) (f : Frame) : bool := a <? Sequence f.

Lemma merge_after a m l : List.filter (after_ a) (merge m l) = merge (Z.max a m) l.
Proof.
  revert m; induction l as [|f t IH]; intros m; cbn; [done|]. unfold after_ in IH.
  destruct (Z.ltb_spec m (Sequence f)) as [H1|H1]; cbn; unfold after_ at 1.
  - destruct (Z.ltb_spec a (Sequence f)), (Z.ltb_spec (Z.max a m) (Sequence f)); try lia; rewrite IH.
    + by replace (Z.max a (Sequence f)) with (Sequence f) by lia.
    + by replace (Z.max a (Sequence f)) with (Z.max a m) by lia.
  - destruct (Z.ltb_spec (Z.max a m) (Sequence f)); [lia|]. apply IH.
Qed.

Lemma sealedLast_inst b n l : sealedLast (b_index b) n = Some l -> exists m, m ∈ installed b /\ Number m = n /\ Last m = l.
Proof.
  unfold sealedLast, installed. destruct (b_index b) as [ix|]; [|done]. destruct (_ =? Version); [|done].
  destruct (List.find _ _) as [m|] eqn:E; [|done]. intros [= <-]. apply List.find_some in E as [E1 E2]. apply Z.eqb_eq in E2.
  exists m. split; [|done]. apply list_elem_of_In. apply in_rev in E1. by apply List.filter_In in E1 as [? _].
Qed.

(** A page: the next part of the log after the cursor, empty only at its end. *)
Definition PageOf (after : Z) (c : Core) (r : Result WErr (list Frame)) : Prop :=
  match r with
  | Err _ => True
  | Ok page => exists rest, List.filter (after_ after) (readable c) = page ++ rest /\ (page = [] -> rest = [])
  end.

Lemma rows_inc c : AI c -> rowsInc (c_rows c) /\ Forall (fun p => shaped (snd p)) (c_rows c) /\
  Forall (fun p => Forall (fun f => Sequence f <= row_Last (snd p)) (rowFrames c (fst p) (snd p))) (c_rows c).
Proof.
  intros HA. pose proof (ai_order c HA) as HO.
  assert (Hfind : forall p, p ∈ c_rows c -> findRow (fst p) (c_rows c) = Some (snd p)).
  { intros p Hp. destruct (findRow_elem (fst p) (c_rows c)) as [r Er]; [apply list_elem_of_fmap; by exists p|]. rewrite Er.
    by rewrite (sorted_key _ _ _ (ai_sorted c HA) Hp (findRow_in _ _ _ Er) eq_refl). }
  split_and!.
  - pose proof (ai_sorted c HA) as Hs. assert (Hsub : forall p, p ∈ c_rows c -> p ∈ c_rows c) by done. revert Hsub Hs.
    generalize (c_rows c) at 1 3 4. unfold rowsInc. induction l as [|p l IH]; intros Hsub Hs; [constructor|].
    cbn in Hs. apply StronglySorted_inv in Hs as [Hs Hlt]. constructor; [apply IH; [|done]; intros q Hq; apply Hsub; by right|].
    apply Forall_forall. intros q Hq. apply (od_mono c HO (fst p) _ (fst q)); [apply Hfind, Hsub; by left|apply Hfind, Hsub; by right|].
    apply (proj1 (Forall_forall _ _) Hlt). apply list_elem_of_fmap. by exists q.
  - apply Forall_forall. intros p Hp. exact (od_shape c HO _ _ (Hfind p Hp)).
  - apply Forall_forall. intros p Hp. pose proof (od_last c HO _ _ (Hfind p Hp)) as Hl. unfold seg in Hl. by rewrite (Hfind p Hp) in Hl.
Qed.

(** Everything the page skips lies at or before its cursor. *)
Lemma stream_readable c b after ix :
  WI c -> AI c -> c_files c = b_files b -> c_inst c = installed b -> 0 <= after -> ix = b_index b \/ ix = None ->
  merge after (rowsData c (List.filter (beyond after) (c_rows c)) ++
               filesData (List.filter (fun e => negb (skipped after ix e)) (c_files c))) =
  List.filter (after_ after) (readable c).
Proof.
  intros HI HA Ef Ei Ha Hix. destruct (rows_inc c HA) as (_ & _ & Hrows). unfold readable. rewrite merge_after.
  replace (Z.max after 0) with after by lia. unfold rowsData, rowData.
  apply (merge_kept (beyond after) (fun p => rowFrames c (fst p) (snd p)) after); [done| |].
  - intros p Hp Hk. apply (Forall_impl _ _ _ (proj1 (Forall_forall _ _) Hrows p Hp)). intros f Hf.
    unfold beyond in Hk. apply Z.ltb_ge in Hk. lia.
  - intros last Hl. unfold filesData, fileData. rewrite <- (app_nil_r (concat (_ <$> List.filter _ _))), <- (app_nil_r (concat (_ <$> c_files c))).
    apply (merge_kept _ _ after); [done| |done]. intros [n fc] Hp Hk. apply negb_false_iff in Hk. unfold skipped in Hk. cbn [fst] in Hk.
    destruct (sealedLast ix n) as [l|] eqn:Es; [|done]. apply Z.leb_le in Hk.
    destruct Hix as [-> | ->]; [|done]. apply sealedLast_inst in Es as (m & Hm & En & El). rewrite <- Ei in Hm.
    destruct (findFile_elem n (c_files c)) as [fc' Ef']; [apply list_elem_of_fmap; by exists (n, fc)|].
    destruct (proj1 (Forall_forall _ _) (wi_inst c HI) m Hm) as (_ & _ & Hin). rewrite En, Ef' in Hin.
    pose proof (listed_frames c m HI (Hin ltac:(by eexists))) as Hfr. rewrite En, El in Hfr. unfold framesAt in Hfr. rewrite Ef' in Hfr. pose proof (sorted_key _ _ _ (wi_files c HI) Hp (findFile_in _ _ _ Ef') eq_refl) as [= ->].
    apply (Forall_impl _ _ _ Hfr). intros f Hf. lia.
Qed.

Lemma Took_page l after more p :
  Took l (mkPage [] after 0) (Ok (more, p)) -> exists rest, merge after l = out p ++ rest /\ (out p = [] -> rest = []).
Proof.
  intros (t & rest & E & O & _ & M & N). cbn in E, O. exists rest. rewrite O. split; [done|]. intros Ht.
  destruct more; [by apply M|]. exfalso. apply N; [done|]. by rewrite O.
Qed.

Lemma readContext_core (Q : option (Result WErr (list Frame)) -> LW -> Prop) after limit maxB s :
  WI (core s) -> AI (core s) -> 0 <= after ->
  (forall r s', Still s s' -> PageOf after (core s) r -> (lw_io s = [] -> noErr r) -> Q (Some r) s') ->
  wp (readContext after limit maxB) Q s.
Proof.
  intros HI HA Ha HQ. destruct (rows_inc _ HA) as (Hinc & Hsh & _). unfold readContext. wp_step.
  apply wp_io_still. intros b s1 H1 Hb. destruct b; cbn [negb]; [|wp_step; apply HQ; [done|done|intros E; by specialize (Hb E)]].
  cbv zeta. do 3 wp_step. pose proof H1 as [E1 I1]. change (a_rows (lw_db s1)) with (c_rows (core s1)).
  apply EachChunk_core; rewrite ?E1; [done|done| |].
  { pose proof (length_filter_le (beyond after) (c_rows (core s))). lia. }
  intros r s2 H2 HT Hr. pose proof (Still_trans _ _ _ H1 H2) as H12. pose proof H12 as [E2 I2].
  assert (Hrows : forall more p, r = Ok (more, p) -> more = false -> PageOf after (core s) (Ok (out p))).
  { intros more p -> ->. apply (Took_stop _ (filesData (List.filter (fun e => negb (skipped after None e)) (c_files (core s))))) in HT.
    apply Took_page in HT as (rest & E & Hn). rewrite (stream_readable _ (lw_buf s)) in E; [by exists rest|done..|by right]. }
  destruct r as [[[] p]|e].
  2:{ wp_step. apply HQ; [done|by apply (Hrows false)|done]. }
  2:{ wp_step. apply HQ; [done|done|]. intros E. apply Hr. by apply I1. }
  do 3 wp_step. change (b_files (lw_buf s2)) with (c_files (core s2)). rewrite E2.
  assert (Hfiles : forall ix s3, Still s s3 -> ix = b_index (lw_buf s2) \/ ix = None ->
    wp (let* r := readFiles (Z.min (Z.max limit 1) 5000) maxB after ix (c_files (core s)) p in ret (Some (pageFrames r))) Q s3).
  { intros ix s3 H3 Hix. wp_step. apply readFiles_core. intros r s4 H4 HT4 Hr4. wp_step.
    apply HQ; [exact (Still_trans _ _ _ H3 H4)| |].
    - destruct r as [[more p']|e]; [|done]. pose proof (Took_app _ _ _ _ _ HT HT4) as HT'.
      apply Took_page in HT' as (rest & E & Hn).
      rewrite (stream_readable _ (lw_buf s2)) in E; [by exists rest|done|done| | |done|done].
      + by rewrite <- E2.
      + by rewrite <- E2.
    - intros E. specialize (Hr4 (proj2 H3 E)). by destruct r as [[? ?]|]. }
  wp_step.
  - apply wp_io_still. intros b s3 H3 _. apply Hfiles; [exact (Still_trans _ _ _ H12 H3)|]. destruct b; by auto.
  - wp_step. apply Hfiles; [done|by right].
Qed.

(** * The raw download *)

Lemma writeFrames_core (Q : Result WErr (list Byte * Z) -> LW -> Prop) fs after s :
  (forall r s', Still s s' -> (forall b a, r = Ok (b, a) -> b = concat (render <$> fs) /\ a = lastSeq after fs) ->
                (lw_io s = [] -> noErr r) -> Q r s') ->
  wp (writeFrames fs after) Q s.
Proof.
  revert Q after s; induction fs as [|f t IH]; intros Q after s HQ; cbn [writeFrames].
  { wp_step. apply HQ; [done| |done]. by intros b a [= <- <-]. }
  wp_step. apply wp_io_still. intros b s1 H1 Hb.
  destruct b; cbn [negb]; [|wp_step; apply HQ; [done|done|intros E; by specialize (Hb E)]].
  wp_step. apply IH. intros r s2 H2 Hr Hn. wp_step. apply HQ; [exact (Still_trans _ _ _ H1 H2)| |].
  - intros b a E. destruct r as [[b' a']|]; [|done]. injection E as <- <-. destruct (Hr _ _ eq_refl) as [-> ->]. split; [done|].
    unfold lastSeq. destruct t as [|g t]; [done|]. change (list.last (f :: g :: t)) with (list.last (g :: t)).
    by destruct (list.last (g :: t)) eqn:El; [|apply last_None in El].
  - intros E. specialize (Hn (proj2 H1 E)). by destruct r as [[? ?]|].
Qed.

Definition seqInc (l : list Frame) : Prop := StronglySorted (fun f g => Sequence f < Sequence g) l.

Lemma merge_inc last l : seqInc (merge last l) /\ Forall (fun f => last < Sequence f) (merge last l).
Proof.
  revert last; induction l as [|f t IH]; intros last; cbn; [split; constructor|].
  destruct (Z.ltb_spec last (Sequence f)) as [Hf|Hf]; [|apply IH]. destruct (IH (Sequence f)) as [H1 H2]. split.
  - constructor; done.
  - constructor; [done|]. apply (Forall_impl _ _ _ H2). intros g Hg. lia.
Qed.

Lemma filter_after a b l : a <= b -> List.filter (after_ b) (List.filter (after_ a) l) = List.filter (after_ b) l.
Proof.
  intros Hab. induction l as [|f l IH]; cbn; [done|]. destruct (after_ a f) eqn:E1; cbn; rewrite IH; [done|].
  destruct (after_ b f) eqn:E2; [|done]. unfold after_ in *. lia.
Qed.

Lemma filter_inc (l : list Frame) (p : Frame -> bool) : seqInc l -> seqInc (List.filter p l).
Proof. unfold seqInc. apply sorted_filter. Qed.

(** The cursor after a page leaves exactly what follows it. *)
Lemma after_page a l page rest :
  seqInc l -> List.filter (after_ a) l = page ++ rest -> page <> [] ->
  a < lastSeq a page /\ List.filter (after_ (lastSeq a page)) l = rest.
Proof.
  intros Hl E Hne. pose proof (filter_inc l (after_ a) Hl) as Hs. rewrite E in Hs.
  destruct page as [|f page _] using rev_ind; [done|]. unfold lastSeq. rewrite last_snoc. cbn.
  assert (Ha : a < Sequence f).
  { assert (Hin : f ∈ List.filter (after_ a) l) by (rewrite E; apply elem_of_app; left; apply elem_of_app; right; by left).
    apply elem_of_filter_list in Hin as [_ Hin]. by apply Z.ltb_lt. }
  split; [done|]. rewrite <- (filter_after a) by lia. rewrite E, List.filter_app.
  assert (H1 : List.filter (after_ (Sequence f)) (page ++ [f]) = []).
  { apply elem_of_nil_inv. intros g Hg. apply elem_of_filter_list in Hg as [Hg Hb]. apply Z.ltb_lt in Hb.
    apply elem_of_app in Hg as [Hg|Hg]; [|apply list_elem_of_singleton in Hg as ->; lia].
    rewrite <- app_assoc in Hs. pose proof (sorted_app_inv _ _ _ Hs g f Hg ltac:(by left)) as Hx. cbn in Hx. lia. }
  rewrite H1. cbn. apply List.forallb_filter_id, forallb_forall. intros g Hg. apply list_elem_of_In in Hg. apply Z.ltb_lt.
  apply (sorted_app_inv _ _ _ Hs f g); [apply elem_of_app; right; by left|done].
Qed.

Lemma rawLoop_core (Q : option (Result WErr (list Byte)) -> LW -> Prop) fuel after s :
  WI (core s) -> AI (core s) -> 0 <= after -> (length (List.filter (after_ after) (readable (core s))) < fuel)%nat ->
  (forall r s', Still s s' -> (forall b, r = Ok b -> b = concat (render <$> List.filter (after_ after) (readable (core s)))) ->
                (lw_io s = [] -> noErr r) -> Q (Some r) s') ->
  wp (rawLoop fuel after) Q s.
Proof.
  revert Q after s; induction fuel as [|k IH]; intros Q after s HI HA Ha Hf HQ; [lia|]. cbn [rawLoop]. wp_step.
  apply readContext_core; [done..|]. intros r s1 H1 HP Hr. destruct r as [page|e]; [|wp_step; by apply HQ].
  destruct HP as (rest & E & Hend). wp_step. apply writeFrames_core. intros w s2 H2 Hw Hwn.
  pose proof (Still_trans _ _ _ H1 H2) as H12. destruct w as [[b a]|e].
  2:{ wp_step. apply HQ; [done|done|]. intros E0. apply Hwn. by apply H1. }
  destruct (Hw _ _ eq_refl) as [-> ->]. destruct page as [|f page].
  { wp_step. apply HQ; [done| |done]. intros b [= <-]. by rewrite E, (Hend eq_refl). }
  destruct (after_page after _ (f :: page) rest (proj1 (merge_inc 0 _)) E ltac:(done)) as [Hlt Hrest].
  change (merge 0 (rowData (core s) ++ fileData (core s))) with (readable (core s)) in Hrest.
  pose proof H12 as [E12 I12]. wp_step. apply IH; rewrite ?E12; [done|done|lia| |].
  { rewrite Hrest. rewrite E, length_app in Hf. cbn in Hf. lia. }
  rewrite Hrest. intros r s3 H3 Hr3 Hn3. wp_step.
  assert (Hgo : Q (Some match r with Ok x => Ok (concat (render <$> f :: page) ++ x) | Err e => Err e end) s3).
  { apply HQ; [exact (Still_trans _ _ _ H12 H3)| |intros E0; specialize (Hn3 (I12 E0)); by destruct r].
    intros b Eb. destruct r as [x|]; [|done]. injection Eb as <-. by rewrite (Hr3 x eq_refl), E, fmap_app, concat_app. }
  by destruct r.
Qed.

Lemma merge_length last l : (length (merge last l) <= length l)%nat.
Proof. revert last; induction l as [|f t IH]; intros last; cbn; [done|]. destruct (last <? Sequence f); cbn; [specialize (IH (Sequence f))|specialize (IH last)]; lia. Qed.

Lemma readable_stored s : AI (core s) -> (length (readable (core s)) <= storedFrames (lw_buf s) (lw_db s))%nat.
Proof.
  intros HA. destruct (rows_inc _ HA) as (_ & Hsh & _). unfold readable. etransitivity; [apply merge_length|].
  unfold storedFrames, rowData, fileData. rewrite length_app, Nat.add_comm. apply Nat.add_le_mono; [done|].
  change (a_rows (lw_db s)) with (c_rows (core s)). induction Hsh as [|p l Hp Hl IH]; cbn; [done|].
  rewrite !length_app, rowSource_frames by done. change (core s) with (core s) in IH. lia.
Qed.

Lemma RawContext_core (Q : option (Result WErr (list Byte)) -> LW -> Prop) s :
  WI (core s) -> AI (core s) ->
  (forall r s', Still s s' -> (forall b, r = Ok b -> b = concat (render <$> readable (core s))) ->
                (lw_io s = [] -> noErr r) -> Q (Some r) s') ->
  wp RawContext Q s.
Proof.
  intros HI HA HQ. unfold RawContext. do 4 wp_step.
  assert (Hall : List.filter (after_ 0) (readable (core s)) = readable (core s)).
  { unfold readable. by rewrite merge_after. }
  apply rawLoop_core; rewrite ?Hall; [done|done|done| |done]. pose proof (readable_stored s HA). lia.
Qed.

(** * Theorems *)

Section Theorems.
Context `{LogEnv}.

(** C20: a page is the next part of the log.  In every state a run's log can be
    in, a read after any cursor returns; a page it returns is the next part of
    the stored frames after the cursor, empty only when none is left, although
    the read skips archived rows by their last sequence and buffer files by an
    index that may be stale.  With no I/O failure it does return a page. *)
Theorem page_of_log st oracle now jobName kindName opt fsync ops after limit maxB io' :
  0 <= after ->
  let s := (snd (runLog st oracle now jobName kindName opt fsync ops)) <| lw_io := io' |> in
  exists r, fst (readContext after limit maxB s) = Some r /\ PageOf after (core s) r /\ (io' = [] -> noErr r).
Proof.
  intros Ha. pose proof (runLog_inv st oracle now jobName kindName opt fsync ops) as HR.
  destruct (runLog _ _ _ _ _ _ _ _) as [rs s0]. destruct HR as ((HI & _) & HA & _). cbn [snd]. set (s := s0 <| lw_io := io' |>).
  apply (readContext_core (fun r _ => exists r', r = Some r' /\ PageOf after (core s) r' /\ (io' = [] -> noErr r'))); [done..|].
  intros r s' _ HP Hn. by exists r.
Qed.

(** C6: the raw download of a complete run is its output.  For every history
    that did not mark the run truncated, and in which no direct [Write] failed (its
    caller was told; what the encoder stores afterwards is then unknown), the
    download ends, and if it succeeds
    what it wrote is every line the callers were told is stored, once, in order,
    with its stream's prefix and a newline; with no I/O failure it succeeds. *)
Theorem raw_download st oracle now jobName kindName opt fsync ops rs s io' :
  runLog st oracle now jobName kindName opt fsync ops = (rs, s) ->
  writesOk ops rs = true -> truncated (lw_w s) = false ->
  exists r, fst (RawContext (s <| lw_io := io' |>)) = Some r /\ (io' = [] -> noErr r) /\
            forall b, r = Ok b -> b = concat (render <$> accepted 0 ops rs).
Proof.
  intros E Hok Ht. pose proof (runLog_inv st oracle now jobName kindName opt fsync ops) as HR. rewrite E in HR.
  destruct HR as ((HI & _) & HA & _ & HW). rewrite <- (readable_total _ _ (HW Hok Ht) HI).
  apply (RawContext_core (fun r _ => exists r', r = Some r' /\ (io' = [] -> noErr r') /\
    forall b, r' = Ok b -> b = concat (render <$> readable (core s)))); [done..|].
  intros r s' _ Hr Hn. by exists r.
Qed.

End Theorems.

(** * The run of the demonstration, read back *)

#[local] Existing Instance demoEnv.

Abbreviation demoState := (snd (runLog demoStore demoOracle zeroTime EmptyString EmptyString demoOpt false demoOps)).
Abbreviation demoResults := (fst (runLog demoStore demoOracle zeroTime EmptyString EmptyString demoOpt false demoOps)).

(** Witness of [page_of_log]. *)
Lemma page_of_log_witness :
  exists r, fst (readContext 1 10 4096 (demoState <| lw_io := [] |>)) = Some r /\
            PageOf 1 (core (demoState <| lw_io := [] |>)) r /\ (@nil bool = [] -> noErr r).
Proof.
  assert (H1 : 0 <= 1) by (vm_compute; discriminate).
  exact (page_of_log demoStore demoOracle zeroTime EmptyString EmptyString demoOpt false demoOps 1 10 4096 [] H1).
Defined.

(** Witness of [raw_download]. *)
Lemma raw_download_witness :
  writesOk demoOps demoResults = true /\ truncated (lw_w demoState) = false /\
  exists r, fst (RawContext (demoState <| lw_io := [] |>)) = Some r /\ (@nil bool = [] -> noErr r) /\
            forall b, r = Ok b -> b = concat (render <$> accepted 0 demoOps demoResults).
Proof.
  assert (H1 : writesOk demoOps demoResults = true) by (vm_compute; reflexivity).
  assert (H2 : truncated (lw_w demoState) = false) by (vm_compute; reflexivity).
  split; [exact H1|]. split; [exact H2|].
  exact (raw_download demoStore demoOracle zeroTime EmptyString EmptyString demoOpt false demoOps _ _ []
           (surjective_pairing (runLog demoStore demoOracle zeroTime EmptyString EmptyString demoOpt false demoOps)) H1 H2).
Defined.

Example demo_download :
  fst (RawContext (demoState <| lw_io := [] |>)) =
    Some (Ok ([97; 98; 10] ++ bytesOf "[err] " ++ [99; 10] ++ bytesOf "[minicron] " ++ [100; 10])).
Proof. vm_compute. reflexivity. Qed.
