(* ===== verification/LogOrphan.v ===== *)
(** Recovering a run's buffer after its writer is gone: [readOrphanIndex],
    [archiveOrphan], [preserveCorrupt] and [sweepRunFiles] of
    src/internal/logstore/archive.go.

    The sweep works on the run's directories and its archive rows alone; it
    shares the state and the oracle of the checkpoint, and the record of the
    writer that is gone plays no part.  Frames stand for the bytes they decode
    from, so a chunk is salvaged by taking the frames of its file; a refused
    outcome there is a decoding error, of a torn tail or of damaged data. *)

From S2P Require Import Prelude GoRuntime LogFrame LogWriter LogArchive.
Open Scope Z_scope.
Open Scope lw_scope.

(** * The index left behind *)

Definition validOrphanMeta (m : chunkMeta) : bool :=
  negb ((Number m <=? 0) || (First m =? 0) || (Last m <? First m) || (Bytes m <? 0) || (Raw m <? 0)).

(** The loop of [readOrphanIndex] filling [sealed]. *)
Fixpoint sealedMap (l : list chunkMeta) (sealed : gmap Z chunkMeta) : option (gmap Z chunkMeta) :=
  match l with
  | [] => Some sealed
  | m :: t =>
      if negb (validOrphanMeta m) then None else
      match sealed !! Number m with
      | Some _ => None
      | None => sealedMap t (<[Number m := m]> sealed)
      end
  end.

(** [readOrphanIndex]: without an index every chunk is salvaged.  An index file
    that a crash of the system left empty counts as none, in the state as in the
    code.  The oracle answers whether the file can be read and decodes. *)
Definition readOrphanIndex : M (Result WErr (gmap Z chunkMeta)) :=
  let* b := getBuf in
  let* readOk := io in
  if negb readOk then ret (Err errStore) else
  match b_index b with
  | None => ret (Ok ∅)
  | Some ix =>
      let* decoded := io in
      if negb decoded then ret (Err errStore) else
      if negb (ix_Version ix =? Version) then ret (Err errStore) else
      match sealedMap (ix_Chunks ix) ∅ with
      | None => ret (Err errStore)
      | Some sealed => ret (Ok sealed)
      end
  end.

(** * Batches *)

(** The variables [chunks], [paths], [moves] and [size] of [archiveOrphan]; a
    path is named by its chunk. *)
Record Batch := mkBatch {
  bt_chunks : list (Z * Row);
  bt_paths : list Z;
  bt_moves : list Z;
  bt_size : Z;
}.

Definition emptyBatch : Batch := mkBatch [] [] [] 0.

(** [os.Remove] of each path; a file already gone is no error. *)
Fixpoint removePaths (paths : list Z) : M (option WErr) :=
  match paths with
  | [] => ret None
  | n :: t =>
      let* ok := io in
      if negb ok then ret (Some errRemove) else
      modBuf (fun b => b <| b_files ::= removeFile n |>) ;;
      removePaths t
  end.

(** The closure [flush]. *)
Definition flush (bt : Batch) : M (Result WErr Batch) :=
  match bt_chunks bt with
  | [] => ret (Ok bt)
  | _ =>
      let* alive := io in
      if negb alive then ret (Err errCanceled) else
      let* synced := syncMoves (bt_moves bt) in
      if negb synced then ret (Err errStore) else
      let* committed := PutChunks (bt_chunks bt) in
      if negb committed then ret (Err errArchiveDB) else
      let* placed := placeFiles (bt_chunks bt) (bt_moves bt) in
      match placed with
      | Some e => ret (Err e)
      | None =>
          let* removed := removePaths (bt_paths bt) in
          match removed with
          | Some e => ret (Err e)
          | None => ret (Ok emptyBatch)
          end
      end
  end.

Definition flushIf (full : bool) (bt : Batch) : M (Result WErr Batch) := if full then flush bt else ret (Ok bt).

(** [preserveCorrupt]: the original bytes of a damaged chunk are copied into the
    quarantine. *)
Definition preserveCorrupt (n : Z) (c : FileC) : M bool :=
  let* made := io in
  if negb made then ret false else
  let* opened := io in
  if negb opened then ret false else
  let* written := io in
  let* synced := (if written then io else ret true) in
  when (written && synced) (modBuf (fun b => b <| b_quarantine ::= (fun l => removeFile n l ++ [(n, c)]) |>)) ;;
  let* closedOk := io in
  ret (written && synced && closedOk).

Section Orphan.
Context `{LogEnv}.

(** * Chunks *)

(** The batch and the lists [corrupt] and [quarantined], by chunk. *)
Record Sweep := mkSweep {
  sw_batch : Batch;
  sw_corrupt : list Z;
  sw_quarantined : list Z;
}.

#[global] Instance Sweep_eta : Eta Sweep := fun s => mkSweep (sw_batch s) (sw_corrupt s) (sw_quarantined s).

Definition lastFrame (l : list Frame) : Z := match list.last l with Some f => Sequence f | None => 0 end.
Definition firstFrame (l : list Frame) : Z := match l with f :: _ => Sequence f | [] => 0 end.

(** An unindexed chunk: its row, or [None] when there is nothing to archive or
    the chunk was kept or quarantined. *)
Definition salvageChunk (n : Z) (c : FileC) (sw : Sweep) : M (Result WErr (option Row * Sweep)) :=
  let frames := fc_frames c in
  let* intact := (if fc_torn c then ret false else io) in
  match frames with
  | [] =>
      if intact then ret (Ok (None, sw)) else
      let* preserved := preserveCorrupt n c in
      if negb preserved then ret (Ok (None, sw <| sw_corrupt ::= (fun l => l ++ [n]) |>)) else
      let* removed := io in
      if negb removed then ret (Ok (None, sw <| sw_corrupt ::= (fun l => l ++ [n]) |>)) else
      modBuf (fun b => b <| b_files ::= removeFile n |>) ;;
      ret (Ok (None, sw <| sw_quarantined ::= (fun l => l ++ [n]) |>))
  | _ =>
      let* tail := (if intact then ret true else io) in
      let* preserved := (if tail then ret true else preserveCorrupt n c) in
      if negb preserved then ret (Ok (None, sw <| sw_corrupt ::= (fun l => l ++ [n]) |>)) else
      let* encoded := io in
      if negb encoded then ret (Err errEncoder) else
      let raw := foldr (fun f acc => (24 + blen (Payload f)) + acc) 0 frames in
      ret (Ok (Some (mkRow (firstFrame frames) (lastFrame frames) raw (Some (mkFile frames false)) 0), sw))
  end.

Definition addChunk (n : Z) (r : Row) (bytes : Z) (bt : Batch) : Batch :=
  mkBatch (bt_chunks bt ++ [(n, r)]) (bt_paths bt ++ [n]) (bt_moves bt) (bt_size bt + bytes).

Definition addMove (n : Z) (r : Row) (bt : Batch) : Batch :=
  mkBatch (bt_chunks bt ++ [(n, r)]) (bt_paths bt ++ [n]) (bt_moves bt ++ [n]) (bt_size bt).

Definition blobBytes (r : Row) : Z := match row_Blob r with Some c => compressedSize (fc_frames c) | None => 0 end.

(** The part of a round that copies a chunk: the data is read, an unindexed
    chunk salvaged, and the batch flushed when it would grow too large. *)
Definition copyChunk (n size : Z) (m : option chunkMeta) (sw : Sweep) : M (Result WErr Sweep) :=
  let full := (archiveBatchChunks <=? length (bt_chunks (sw_batch sw)))%nat ||
              (0 <? length (bt_chunks (sw_batch sw)))%nat && (bt_size (sw_batch sw) + size >? archiveBatchBytes) in
  let* fl := flushIf full (sw_batch sw) in
  match fl with
  | Err e => ret (Err e)
  | Ok bt =>
      let sw := sw <| sw_batch := bt |> in
      let* b := getBuf in
      let* readOk := io in
      match (if readOk then findFile n (b_files b) else None) with
      | None => ret (Err errStore)
      | Some blob =>
          let* c := match m with
                    | Some m => ret (Ok (Some (mkRow (First m) (Last m) (Raw m) (Some blob) 0), sw))
                    | None => salvageChunk n blob sw
                    end in
          match c with
          | Err e => ret (Err e)
          | Ok (None, sw) => ret (Ok sw)
          | Ok (Some r, sw) =>
              let bt := sw_batch sw in
              let* fl := flushIf ((0 <? length (bt_chunks bt))%nat && (bt_size bt + blobBytes r >? archiveBatchBytes)) bt in
              match fl with
              | Err e => ret (Err e)
              | Ok bt => ret (Ok (sw <| sw_batch := addChunk n r (blobBytes r) bt |>))
              end
          end
      end
  end.

(** One round of the loop over the chunk files. *)
Definition orphanChunk (sealed : gmap Z chunkMeta) (n : Z) (sw : Sweep) : M (Result WErr Sweep) :=
  let* alive := io in
  if negb alive then ret (Err errCanceled) else
  let* b := getBuf in
  let* statOk := io in
  match (if statOk then findFile n (b_files b) else None) with
  | None => ret (Err errStore)
  | Some info =>
      let size := compressedSize (fc_frames info) in
      match sealed !! n with
      | Some m =>
          if fileChunkMin <=? size then
            let* fl := flushIf (archiveBatchChunks <=? length (bt_chunks (sw_batch sw)))%nat (sw_batch sw) in
            match fl with
            | Err e => ret (Err e)
            | Ok bt => ret (Ok (sw <| sw_batch := addMove n (mkRow (First m) (Last m) (Raw m) None size) bt |>))
            end
          else copyChunk n size (Some m) sw
      | None => copyChunk n size None sw
      end
  end.

Fixpoint orphanLoop (sealed : gmap Z chunkMeta) (files : list Z) (sw : Sweep) : M (Result WErr Sweep) :=
  match files with
  | [] => ret (Ok sw)
  | n :: t =>
      let* r := orphanChunk sealed n sw in
      match r with
      | Err e => ret (Err e)
      | Ok sw => orphanLoop sealed t sw
      end
  end.

(** * The sweep of one buffer *)

(** [os.RemoveAll]: every entry is tried; the directory goes when all went. *)
Fixpoint removeEach (files : list Z) : M bool :=
  match files with
  | [] => ret true
  | n :: t =>
      let* ok := io in
      when ok (modBuf (fun b => b <| b_files ::= removeFile n |>)) ;;
      let* rest := removeEach t in
      ret (ok && rest)
  end.

Definition RemoveAll : M bool :=
  let* b := getBuf in
  let* filesGone := removeEach (fst <$> b_files b) in
  let* indexGone := io in
  when indexGone (modBuf (fun b => b <| b_index := None |>)) ;;
  let* dirGone := (if filesGone && indexGone then io else ret false) in
  when dirGone (modBuf (fun b => b <| b_dir := false |>)) ;;
  ret dirGone.

Definition archiveOrphan : M (option WErr) :=
  let* idx := readOrphanIndex in
  match idx with
  | Err e => ret (Some e)
  | Ok sealed =>
      let* b := getBuf in
      let* r := orphanLoop sealed (fst <$> b_files b) (mkSweep emptyBatch [] []) in
      match r with
      | Err e => ret (Some e)
      | Ok sw =>
          let* fl := flush (sw_batch sw) in
          match fl with
          | Err e => ret (Some e)
          | Ok _ =>
              if negb (bool_decide (sw_corrupt sw = [])) then ret (Some errStore) else
              let* gone := RemoveAll in
              if negb gone then ret (Some errRemove) else
              ret (if bool_decide (sw_quarantined sw = []) then None else Some errChunkQuarantined)
          end
      end
  end.

End Orphan.

(** * Archive files without a row *)

(** [sweepRunFiles]: files of the archive directory that no row of the run
    refers to, left by a deletion that crashed before unlinking. *)
Definition keepsFile (rows : list (Z * Row)) (n : Z) : bool :=
  existsb (fun p => (fst p =? n) && (0 <? row_FileBytes (snd p))) rows.

Fixpoint removeUnkept (rows : list (Z * Row)) (files : list Z) : M (nat * bool) :=
  match files with
  | [] => ret (O, true)
  | n :: t =>
      if keepsFile rows n then removeUnkept rows t else
      let* ok := io in
      if negb ok then ret (O, false) else
      modDB (fun a => a <| a_files ::= removeFile n |>) ;;
      let* rest := removeUnkept rows t in
      ret (S (fst rest), snd rest)
  end.

Definition sweepRunFiles : M (nat * bool) :=
  let* a := getDB in
  let* queried := io in
  if negb queried then ret (O, false) else
  removeUnkept (a_rows a) (fst <$> a_files a).
