(* ===== verification/LogCrash.v ===== *)
(** A run's disk after its writer is gone.  What a crash leaves is again a state
    of the log: as if a writer had stopped after listing every chunk file that
    holds frames, by the index on disk or, without an entry there, by the
    frames themselves.  So the invariants of the log carry over to recovery. *)

From S2P Require Import Prelude GoRuntime LogFrame LogWriter LogArchive LogWriterCore LogWriterInv LogWriterOps LogWriterRun LogArchiveFacts LogWriterFacts LogOrphan.
Open Scope Z_scope.
Open Scope lw_scope.

(** Recovery may archive a chunk above one it has to leave behind. *)
#[local] Instance allExempt : Exempt | 0 := fun _ => True.

(** * Operations that do not look at the writer *)

Definition blind {A} (m : M A) : Prop :=
  forall w s, m (s <| lw_w := w |>) = (fst (m s), (snd (m s)) <| lw_w := w |>).

(** The state on disk, as the log state [c]. *)
Definition Rep (c : Core) (s : LW) : Prop :=
  c_files c = b_files (lw_buf s) /\ c_rows c = a_rows (lw_db s) /\ c_arch c = a_files (lw_db s) /\ c_inst c = installed (lw_buf s).

Definition ghostW (c : Core) : Writer :=
  mkWriter EmptyString EmptyString (c_max c) 0 false false (c_file c) (c_enc c) (c_chunk c) (c_raw c) (c_first c) (c_seq c)
    (c_stored c) 0 (c_buffered c) 0 (c_trunc c) (mkIndex EmptyString EmptyString Version (c_chunks c) false false 0 0 0) false None
    (if c_err c then Some errStore else None) false (c_deg c) None zeroTime 0 0 0 0 0 0 None.

Lemma core_ghost c s : Rep c s -> core (s <| lw_w := ghostW c |>) = c.
Proof. intros (E1 & E2 & E3 & E4). unfold core; cbn. rewrite <- E1, <- E2, <- E3, <- E4. destruct c; cbn. by destruct c_err. Qed.

Lemma Rep_core s w : Rep (core (s <| lw_w := w |>)) s.
Proof. done. Qed.

Lemma Rep_own s : Rep (core s) s.
Proof. done. Qed.

(** A blind operation may be run with any writer in place of the one that is
    gone. *)
Lemma wp_ghost {A} (m : M A) (Q : A -> LW -> Prop) c s :
  blind m -> Rep c s ->
  wp m (fun a s' => forall s2, Rep (core s') s2 -> lw_io s2 = lw_io s' -> Q a s2) (s <| lw_w := ghostW c |>) -> wp m Q s.
Proof.
  intros Hb HR. unfold wp. rewrite (Hb (ghostW c) s). cbn. intros HQ. by apply HQ.
Qed.

Lemma core_ghost_io c s : Rep c s -> core (s <| lw_w := ghostW c |>) = c /\ lw_io (s <| lw_w := ghostW c |>) = lw_io s.
Proof. intros HR. split; [by apply core_ghost|done]. Qed.

Section Blind.
Context {A B : Type}.

Lemma blind_ret (a : A) : blind (ret a).
Proof. done. Qed.

Lemma blind_bind (m : M A) (k : A -> M B) : blind m -> (forall a, blind (k a)) -> blind (bind m k).
Proof.
  intros Hm Hk w s. unfold bind. rewrite Hm. destruct (m s) as [a s1]; cbn. apply Hk.
Qed.

End Blind.

Lemma blind_io : blind io.
Proof. intros w s. unfold io. change (lw_io (s <| lw_w := w |>)) with (lw_io s). by destruct (lw_io s). Qed.
Lemma blind_getBuf : blind getBuf.
Proof. done. Qed.
Lemma blind_getSt : blind getSt.
Proof. done. Qed.
Lemma blind_getDB : blind getDB.
Proof. done. Qed.
Lemma blind_modBuf f : blind (modBuf f).
Proof. done. Qed.
Lemma blind_modDB f : blind (modDB f).
Proof. done. Qed.
Lemma blind_when b m : blind m -> blind (when b m).
Proof. by destruct b. Qed.

Create HintDb blind.
#[export] Hint Resolve blind_ret blind_io blind_getBuf blind_getSt blind_getDB blind_modBuf blind_modDB blind_when : blind.

(** Through the structure of a program. *)
Ltac blind_step :=
  lazymatch goal with
  | |- blind (bind _ _) => apply blind_bind; [|intros ?]
  | |- blind (when _ _) => apply blind_when
  | |- blind (match ?x with _ => _ end) => destruct x
  | |- blind _ => solve [eauto with blind]
  end.
Ltac blind_go := repeat blind_step.

Lemma PutChunks_blind l : blind (PutChunks l).
Proof. unfold PutChunks. blind_go. Qed.
#[export] Hint Resolve PutChunks_blind : blind.

Lemma syncMoves_blind l : blind (syncMoves l).
Proof. induction l; cbn [syncMoves]; blind_go. Qed.
#[export] Hint Resolve syncMoves_blind : blind.

Lemma renameAll_blind l : blind (renameAll l).
Proof. induction l; cbn [renameAll]; unfold renameMove; blind_go. Qed.
#[export] Hint Resolve renameAll_blind : blind.

Lemma blobsOf_blind l moves : blind (blobsOf l moves).
Proof. induction l; cbn [blobsOf]; blind_go. Qed.
#[export] Hint Resolve blobsOf_blind : blind.

Lemma placeFiles_blind l moves : blind (placeFiles l moves).
Proof. unfold placeFiles. blind_go. Qed.
#[export] Hint Resolve placeFiles_blind : blind.

(** * Every state is at least a recoverable one *)

Lemma AI_all c : @AI noneExempt c -> AI c.
Proof. intros HA. constructor; try apply HA. intros m r n E1 E2 E3. by left. Qed.

(** With nothing left in the buffer, nothing is below an archived chunk. *)
Lemma AI_none c : AI c -> c_files c = [] -> @AI noneExempt c.
Proof.
  intros HA E. constructor; try apply HA. intros m r n _ _ _. right. rewrite E. done.
Qed.

(** * The state a crash leaves *)

(** The chunk a file is taken for. *)
Definition fileMeta (inst : list chunkMeta) (p : Z * FileC) : option chunkMeta :=
  match metaOf inst (fst p) with
  | Some m => Some m
  | None =>
      match fc_frames (snd p) with
      | [] => None
      | fr => Some (mkMeta (fst p) (firstFrame fr) (lastFrame fr) 0 (rawBytes fr) false)
      end
  end.

(** The log state with these chunks listed and no writer. *)
Definition leftCore (c : Core) : Core :=
  let listed := omap (fileMeta (c_inst c)) (c_files c) in
  mkCore false false (c_chunk c + 2) 0 (c_seq c + 1) (c_seq c) (c_seq c) (rawSum listed) listed false (c_trunc c) false
    (c_files c) (c_rows c) (c_arch c) 0 (c_inst c).

Section Left.
Variable c : Core.
Hypothesis HI : WI c.

(** Where the writer had a chunk: the range of sequences it accounted for. *)
Definition ranged (n first last : Z) : Prop :=
  (exists m, m ∈ c_chunks c /\ Number m = n /\ First m <= first /\ last <= Last m) \/
  (n = c_chunk c /\ metaOf (c_chunks c) n = None /\ c_first c <= first /\ last <= c_seq c).

Lemma inc_bounds l : StronglySorted Z.lt (Sequence <$> l) -> Forall (fun f => firstFrame l <= Sequence f <= lastFrame l) l.
Proof.
  intros Hs. apply Forall_forall. intros f Hf. split.
  - destruct l as [|g l]; [by apply elem_of_nil in Hf|]. cbn in Hs |- *. apply StronglySorted_inv in Hs as [_ Hlt].
    apply elem_of_cons in Hf as [->|Hf]; [lia|].
    assert (Sequence g < Sequence f); [|lia]. apply (proj1 (Forall_forall _ _) Hlt). by apply list_elem_of_fmap_2.
  - unfold lastFrame. destruct l as [|g l _] using rev_ind; [by apply elem_of_nil in Hf|]. rewrite last_snoc.
    apply elem_of_app in Hf as [Hf|Hf]; [|apply list_elem_of_singleton in Hf as ->; lia].
    rewrite fmap_app in Hs. assert (Sequence f < Sequence g); [|lia].
    apply (sorted_app_inv _ _ _ Hs); [by apply list_elem_of_fmap_2|]. by left.
Qed.

(** A file's chunk against its frames and the writer's account. *)
Lemma fileMeta_ok p m :
  p ∈ c_files c -> fileMeta (c_inst c) p = Some m ->
  Number m = fst p /\ validMeta m /\ Last m <= c_seq c /\ ranged (fst p) (First m) (Last m) /\
  rawBytes (fc_frames (snd p)) <= Raw m /\ Forall (fun f => First m <= Sequence f <= Last m) (fc_frames (snd p)).
Proof.
  intros Hp Hm. destruct (proj1 (Forall_forall _ _) (wi_data c HI) p Hp) as (Hn & Hs & Hh). unfold fileMeta in Hm.
  destruct (metaOf (c_inst c) (fst p)) as [m'|] eqn:Ei.
  - injection Hm as ->. apply metaOf_elem in Ei as [Ei En].
    destruct (proj1 (Forall_forall _ _) (wi_inst c HI) m Ei) as (Hv & _ & Hin).
    assert (Hc : m ∈ c_chunks c) by (apply Hin, findFile_elem, list_elem_of_fmap; rewrite En; by exists p).
    unfold holds_at in Hh. rewrite <- En, (sorted_metaOf _ _ (wi_sorted c HI) Hc) in Hh. destruct Hh as [Hr Hf].
    pose proof (proj1 (Forall_forall _ _) (wi_meta c HI) m Hc) as (_ & _ & Hl & _).
    split_and!; try done; try apply Hv. left. exists m. rewrite En. split_and!; [done|done|lia|lia].
  - destruct (fc_frames (snd p)) as [|f fr] eqn:Ef; [done|]. rewrite <- Ef in *. assert (Hne : f ∈ fc_frames (snd p)) by (rewrite Ef; by left).
    injection Hm as <-. cbn. pose proof (inc_bounds _ Hs) as Hb. pose proof (proj1 (Forall_forall _ _) Hb f Hne) as Hfb. cbn in Hfb.
    pose proof (rawBytes_nonneg (fc_frames (snd p))) as Hr0.
    assert (Hin : exists x y, firstFrame (fc_frames (snd p)) = Sequence x /\ lastFrame (fc_frames (snd p)) = Sequence y /\
                              x ∈ fc_frames (snd p) /\ y ∈ fc_frames (snd p)).
    { unfold lastFrame. destruct (list.last (fc_frames (snd p))) as [y|] eqn:El; [|apply last_None in El; congruence].
      exists f, y. split_and!; [by rewrite Ef|done|done|]. apply last_Some in El as [l ->]. apply elem_of_app. right. by left. }
    destruct Hin as (x & y & Ex & Ey & Hx & Hy). unfold holds_at in Hh. unfold validMeta, ranged; cbn. rewrite Ex, Ey in *.
    destruct (metaOf (c_chunks c) (fst p)) as [m0|] eqn:Em.
    + destruct (metaOf_elem _ _ _ Em) as [Hm0 En0]. destruct Hh as [_ Hf].
      pose proof (proj1 (Forall_forall _ _) Hf x Hx) as Hx'. pose proof (proj1 (Forall_forall _ _) Hf y Hy) as Hy'. cbn in Hx', Hy'.
      pose proof (proj1 (Forall_forall _ _) (wi_meta c HI) m0 Hm0) as (_ & ? & ? & _).
      split_and!; try done; try lia. left. exists m0. split_and!; [done|done|lia|lia].
    + destruct (Z.eqb_spec (fst p) (c_chunk c)) as [E|]; [|by rewrite Hh in Hne; apply elem_of_nil in Hne]. destruct Hh as [Hraw Hf].
      pose proof (proj1 (Forall_forall _ _) Hf x Hx) as Hx'. pose proof (proj1 (Forall_forall _ _) Hf y Hy) as Hy'. cbn in Hx', Hy'.
      assert (Hpos : 0 < rawBytes (fc_frames (snd p))).
      { rewrite Ef. cbn. pose proof (frameSize_pos f). pose proof (rawBytes_nonneg fr). unfold rawBytes in *. lia. }
      destruct (wi_raw c HI) as [_ Hen]. destruct (wi_first c HI); [apply Hen; lia|]. destruct (wi_seq c HI) as ((_ & ?) & _).
      split_and!; try done; try lia. right. split_and!; [done|done|lia|lia].
Qed.

(** Two files' chunks come in the order of the files. *)
Lemma ranged_before n k f1 l1 f2 l2 : n < k -> ranged n f1 l1 -> ranged k f2 l2 -> l1 < f2.
Proof.
  intros Hlt [(m & Hm & En & H1 & H2)|(En & Em & H1 & H2)] [(x & Hx & Ex & H3 & H4)|(Ex & Em' & H3 & H4)].
  - destruct (sorted_total _ m x (wi_sorted c HI) Hm Hx); [lia|]. lia.
  - destruct (other_meta c m HI) as [_ Hl]; [apply curIndexed_false; by rewrite <- Ex|done|]. lia.
  - pose proof (proj1 (Forall_forall _ _) (wi_meta c HI) x Hx) as (_ & _ & _ & _ & ?). lia.
  - lia.
Qed.

Lemma sorted_omap {A} (R : A -> A -> Prop) (l : list (Z * FileC)) (g : Z * FileC -> option A) :
  StronglySorted Z.lt (fst <$> l) ->
  (forall p q a b, p ∈ l -> q ∈ l -> fst p < fst q -> g p = Some a -> g q = Some b -> R a b) -> StronglySorted R (omap g l).
Proof.
  induction l as [|p l IH]; cbn; intros Hs Hg; [constructor|]. apply StronglySorted_inv in Hs as [Hs Hlt].
  assert (Htl : StronglySorted R (omap g l)).
  { apply IH; [done|]. intros x y a b Hx Hy. apply Hg; by right. }
  destruct (g p) as [a|] eqn:Ea; [|done]. constructor; [done|]. apply Forall_forall. intros b Hb.
  apply list_elem_of_omap in Hb as (q & Hq & Eq). apply (Hg p q); [by left|by right| |done|done].
  apply (proj1 (Forall_forall _ _) Hlt). by apply list_elem_of_fmap_2.
Qed.

Definition listed : list chunkMeta := omap (fileMeta (c_inst c)) (c_files c).

Lemma listed_sorted : StronglySorted before listed.
Proof.
  apply sorted_omap; [apply HI|]. intros p q a b Hp Hq Hlt Ea Eb.
  destruct (fileMeta_ok p a Hp Ea) as (Na & _ & _ & Ra & _). destruct (fileMeta_ok q b Hq Eb) as (Nb & _ & _ & Rb & _).
  split; [lia|]. exact (ranged_before _ _ _ _ _ _ Hlt Ra Rb).
Qed.

Lemma listed_elem m : m ∈ listed <-> exists p, p ∈ c_files c /\ fileMeta (c_inst c) p = Some m.
Proof. unfold listed. rewrite list_elem_of_omap. naive_solver. Qed.

Lemma listed_meta p : p ∈ c_files c -> metaOf listed (fst p) = fileMeta (c_inst c) p.
Proof.
  intros Hp. destruct (fileMeta (c_inst c) p) as [m|] eqn:Em.
  - destruct (fileMeta_ok p m Hp Em) as (<- & _). apply sorted_metaOf; [apply listed_sorted|]. apply listed_elem. by exists p.
  - apply metaOf_none, Forall_forall. intros m Hm En. apply listed_elem in Hm as (q & Hq & Eq).
    destruct (fileMeta_ok q m Hq Eq) as (Nq & _). rewrite (sorted_key _ p q (wi_files c HI) Hp Hq) in Em by lia. congruence.
Qed.

Lemma left_WI : WI (leftCore c).
Proof.
  destruct (wi_seq c HI) as ((Hs0 & Hs1) & Hs2 & Hs3). set (c' := leftCore c).
  assert (Hmeta : Forall (meta_ok c') listed).
  { apply Forall_forall. intros m (p & Hp & Em)%listed_elem. destruct (fileMeta_ok p m Hp Em) as (En & (Hv1 & Hv2 & Hv3) & Hl & _).
    destruct (proj1 (Forall_forall _ _) (wi_data c HI) p Hp) as (Hn & _). unfold meta_ok, c', leftCore; cbn. split_and!; try lia. }
  assert (Hcur : curIndexed c' = false).
  { apply curIndexed_false, metaOf_none, (Forall_impl _ _ _ Hmeta). intros m (_ & ? & ? & _ & ?) E. unfold c', leftCore in *; cbn in *. lia. }
  constructor; rewrite ?Hcur; unfold c', leftCore; cbn; fold listed; try done; try lia.
  - apply listed_sorted.
  - apply HI.
  - apply Forall_forall. intros p Hp. destruct (proj1 (Forall_forall _ _) (wi_data c HI) p Hp) as (Hn & Hs & Hh).
    split; [cbn; lia|]. split; [done|]. unfold holds_at; cbn. fold listed. rewrite (listed_meta p Hp).
    destruct (fileMeta (c_inst c) p) as [m|] eqn:Em; [by destruct (fileMeta_ok p m Hp Em) as (_ & _ & _ & _ & ?)|].
    destruct (Z.eqb_spec (fst p) (c_chunk c + 2)); [lia|]. unfold fileMeta in Em.
    destruct (metaOf (c_inst c) (fst p)); [done|]. by destruct (fc_frames (snd p)).
  - apply Forall_forall. intros m (p & Hp & Em)%listed_elem. left. destruct (fileMeta_ok p m Hp Em) as (-> & _).
    apply list_elem_of_fmap. by exists p.
  - apply Forall_forall. intros m Hm. destruct (proj1 (Forall_forall _ _) (wi_inst c HI) m Hm) as (Hv & Hpos & Hin).
    split_and!; [done|left; cbn; lia|]. cbn. fold listed. intros [fc Hfc]. specialize (Hin ltac:(by eexists)).
    apply findFile_in in Hfc. apply listed_elem. exists (Number m, fc). split; [done|]. unfold fileMeta; cbn.
    by rewrite (sorted_metaOf _ _ (wi_order c HI) Hm).
  - apply HI.
Qed.
(** A file that still has a row was listed by the writer. *)
Lemma archived_listed p r m :
  AI c -> p ∈ c_files c -> fileMeta (c_inst c) p = Some m -> findRow (fst p) (c_rows c) = Some r ->
  exists m0, m0 ∈ c_chunks c /\ Number m0 = fst p /\ First m0 <= First m /\ Last m <= Last m0.
Proof.
  intros HA Hp Hm Hr. destruct (fileMeta_ok p m Hp Hm) as (_ & _ & _ & [Hex|(En & _)] & _); [exact Hex|].
  pose proof (ai_range c HA _ _ Hr). lia.
Qed.

Lemma left_AI : AI c -> AI (leftCore c).
Proof.
  intros HA. pose proof (ai_order c HA) as HO. destruct (wi_seq c HI) as (_ & Hs & _). constructor; cbn.
  - apply HA.
  - intros n r Er. pose proof (ai_range c HA n r Er). lia.
  - apply HA.
  - apply HA.
  - intros m r n _ _ _. by left.
  - constructor; cbn; [| |apply HO|apply HO|apply HO].
    + intros n r Er. pose proof (od_first c HO n r Er). lia.
    + intros n r m Er Hm. fold listed in Hm. apply listed_elem in Hm as (p & Hp & Em).
      destruct (fileMeta_ok p m Hp Em) as (En & _ & _ & Rm & _ & Hfr). rewrite En.
      change (seg (leftCore c) n) with (seg c n). split_and!.
      * intros <-. destruct (archived_listed p r m HA Hp Em Er) as (m0 & Hm0 & En0 & _ & Hl).
        destruct (od_meta c HO _ r m0 Er Hm0) as (H1 & _). destruct (H1 En0). split; [lia|].
        destruct (ai_same c HA _ r Er) as [E|<-].
        { destruct (findFile_elem (fst p) (c_files c)); [apply list_elem_of_fmap; by exists p|congruence]. }
        unfold framesAt. destruct (findFile (fst p) (c_files c)) as [fc|] eqn:Ef; [|constructor].
        rewrite (sorted_key _ p (fst p, fc) (wi_files c HI) Hp (findFile_in _ _ _ Ef) eq_refl) in Hfr. cbn in Hfr.
        apply (Forall_impl _ _ _ Hfr). intros f Hf. lia.
      * intros Hlt. destruct Rm as [(m0 & Hm0 & En0 & Hf & _)|(En0 & _ & Hf & _)].
        -- destruct (od_meta c HO _ r m0 Er Hm0) as (_ & H2 & _). specialize (H2 ltac:(lia)). lia.
        -- pose proof (od_first c HO n r Er). lia.
      * intros Hlt. destruct Rm as [(m0 & Hm0 & En0 & _ & Hl)|(En0 & _)].
        -- destruct (od_meta c HO _ r m0 Er Hm0) as (_ & _ & H3). specialize (H3 ltac:(lia)). lia.
        -- pose proof (ai_range c HA n r Er). lia.
Qed.

Lemma left_good : Good (leftCore c).
Proof. split_and!; [apply left_WI|by intros _ _; left|done]. Qed.

End Left.
