(* ===== verification/LogOrphanFacts.v ===== *)
(** The sweep of a crashed run's buffer keeps the log: whichever system call
    fails, wherever it stops and however often it is repeated, every chunk keeps
    its content; once it succeeds the buffer is gone and the archive holds the
    whole log. *)

From S2P Require Import Prelude GoRuntime LogFrame LogWriter LogArchive LogWriterCore LogWriterInv LogWriterOps LogWriterRun LogArchiveFacts LogWriterFacts LogHistory LogRead LogReadFacts LogOrphan LogCrash.
Open Scope Z_scope.
Open Scope lw_scope.

#[local] Existing Instance allExempt | 0.

(** * The index *)

Lemma sealedMap_spec l acc sealed n :
  sealedMap l acc = Some sealed -> sealed !! n = match acc !! n with Some m => Some m | None => metaOf l n end.
Proof.
  revert acc; induction l as [|m t IH]; intros acc; cbn [sealedMap].
  { intros [= ->]. by destruct (sealed !! n). }
  destruct (negb (validOrphanMeta m)); [done|]. destruct (acc !! Number m) as [x|] eqn:Ea; [done|].
  intros E. rewrite (IH _ E). unfold metaOf; cbn. destruct (Z.eqb_spec (Number m) n) as [<-|Hne].
  - by rewrite lookup_insert_eq, Ea.
  - by rewrite lookup_insert_ne.
Qed.

Definition quiet (s s' : LW) : Prop := lw_buf s' = lw_buf s /\ lw_db s' = lw_db s.

Lemma readOrphanIndex_inv (Q : Result WErr (gmap Z chunkMeta) -> LW -> Prop) s :
  (forall r s', quiet s s' -> (forall sealed, r = Ok sealed -> forall n, sealed !! n = metaOf (installed (lw_buf s)) n) -> Q r s') ->
  wp readOrphanIndex Q s.
Proof.
  intros HQ. unfold readOrphanIndex, installed in *. do 4 wp_step. destruct (negb b); [wp_step; by apply HQ|].
  destruct (b_index (lw_buf s)) as [ix|].
  2:{ wp_step. apply HQ; [done|]. by intros sealed [= <-] n. }
  do 2 wp_step. destruct (negb b0); [wp_step; by apply HQ|]. destruct (negb (ix_Version ix =? Version)); [wp_step; by apply HQ|].
  destruct (sealedMap (ix_Chunks ix) ∅) as [sealed|] eqn:E; wp_step; apply HQ; try done.
  intros sealed' [= <-] n. rewrite (sealedMap_spec _ _ _ n E), lookup_empty. done.
Qed.

(** * A file without frames *)

Definition dropEmpty (n : Z) (c : Core) : Core := c <| c_files ::= removeFile n |>.

Lemma dropEmpty_WI c n : WI c -> n < c_chunk c -> metaOf (c_chunks c) n = None -> WI (dropEmpty n c).
Proof.
  intros HI Hn Hm. set (c' := dropEmpty n c). assert (Hcur : curIndexed c' = curIndexed c) by reflexivity.
  constructor; rewrite ?Hcur; unfold c'; cbn; try apply HI.
  - rewrite fmap_removeFile. apply sorted_filter, HI.
  - apply Forall_forall. intros p [Hp _]%elem_of_removeFile. exact (proj1 (Forall_forall _ _) (wi_data c HI) p Hp).
  - intros He. rewrite fmap_removeFile. apply elem_of_filter_list. split; [by apply HI|]. apply negb_true_iff, Z.eqb_neq. lia.
  - apply Forall_forall. intros m Hin. destruct (proj1 (Forall_forall _ _) (wi_placed c HI) m Hin) as [Hp|Hp]; [left|by right].
    cbn. rewrite fmap_removeFile. apply elem_of_filter_list. split; [done|]. apply negb_true_iff, Z.eqb_neq.
    intros E. pose proof (proj1 (metaOf_none _ _) Hm) as Hne. exact (proj1 (Forall_forall _ _) Hne m Hin E).
  - apply (inst_keep c c' (wi_inst c HI)); [cbn; lia|done| |done]. intros k _. unfold c'; cbn. rewrite findFile_remove.
    destruct (k =? n); [by intros [? ?]|done].
Qed.

Lemma dropEmpty_moved c n :
  Good c -> AI c -> n < c_chunk c -> metaOf (c_chunks c) n = None -> Moved c (dropEmpty n c).
Proof.
  intros (HI & Hs & Hm) HA Hn Hnone. pose proof (unlisted_empty c n HI Hnone ltac:(lia)) as Hempty. set (c' := dropEmpty n c).
  assert (Hfr : forall k, framesAt (c_files c') k = framesAt (c_files c) k).
  { intros k. unfold c'; cbn. rewrite framesAt_remove. by destruct (Z.eqb_spec k n) as [->|]. }
  assert (Hseg : forall k, seg c' k = seg c k).
  { intros k. unfold seg, rowFrames. by rewrite Hfr. }
  unfold Moved, Good. split_and!; try done.
  - split; [done|]. constructor; try apply HA.
    + intros k a Ea. destruct (ai_arch c HA k a Ea) as [E1 E2]. split; [|done]. unfold c'; cbn. rewrite findFile_remove. by destruct (k =? n).
    + intros k r Er. rewrite Hseg, Hfr. destruct (ai_same c HA k r Er) as [E|E]; [left|by right].
      unfold c'; cbn. rewrite findFile_remove. by destruct (k =? n).
    + intros m r k _ _ _. by left.
    + apply (Ordered_keep c _ HA); try done; [by left|]. intros k r _. left. apply Hseg.
  - by apply dropEmpty_WI.
  - cbn. intros Ht. apply Forall_forall. intros p [Hp _]%elem_of_removeFile. exact (proj1 (Forall_forall _ _) Ht p Hp).
Qed.

(** * Removing what a batch archived *)

(** The listed chunks of these numbers leave the buffer. *)
Definition dropAll (ms : list chunkMeta) (c : Core) : Core := fold_left (fun c m => dropChunk m c) ms c.

Lemma removePaths_inv (Q : option WErr -> LW -> Prop) c ns s :
  Rep c s -> Good c -> AI c -> NoDup ns ->
  Forall (fun n => exists m, m ∈ c_chunks c /\ Number m = n /\ n < c_chunk c /\ secured c n) ns ->
  (forall e c' s', Rep c' s' -> Moved c c' -> c_chunks c' ⊆ c_chunks c ->
     (forall m, m ∈ c_chunks c -> Number m ∉ ns -> m ∈ c_chunks c') ->
     (e = None -> forall m, m ∈ c_chunks c' -> Number m ∉ ns) ->
     (forall n, findFile n (c_files c') = findFile n (c_files c) \/ n ∈ ns /\ findFile n (c_files c') = None) -> Q e s') ->
  wp (removePaths ns) Q s.
Proof.
  revert c s; induction ns as [|n ns IH]; intros c s HR HG HA Hnd Hns HQ; cbn [removePaths].
  { wp_step. apply (HQ _ c); [done|by apply Moved_refl|done|by auto|by intros; apply not_elem_of_nil|by left]. }
  apply NoDup_cons in Hnd as [Hn Hnd]. apply Forall_cons in Hns as [(m & Hm & Em & Hlt & Hsec) Hns].
  do 2 wp_step. destruct b; cbn [negb].
  2:{ wp_step. apply (HQ _ c); [done|by apply Moved_refl|done|by auto|done|by left]. }
  do 2 wp_step. match goal with |- wp _ _ ?x => set (s1 := x) end.
  assert (HM : Moved c (dropChunk m c)) by (subst n; by apply dropChunk_moved).
  assert (HR1 : Rep (dropChunk m c) s1).
  { destruct HR as (E1 & E2 & E3 & E4). unfold Rep, s1; cbn. rewrite E1, Em. done. }
  apply (IH (dropChunk m c) s1); [done|apply HM|apply HM|done| |].
  - apply Forall_forall. intros k Hk. destruct (proj1 (Forall_forall _ _) Hns k Hk) as (x & Hx & Ex & Hxl & Hxs).
    exists x. split_and!; [|done|done|done]. cbn. apply elem_of_unlist. split; [done|]. intros E. apply Hn. by rewrite <- Em, <- E, Ex.
  - intros e c' s' HR' HM' Hsub Hkeep Hgone Hfiles. apply (HQ e c'); try done.
    + exact (Moved_trans _ _ _ HM HM').
    + intros x Hx. apply Hsub in Hx. cbn in Hx. by apply elem_of_unlist in Hx as [? _].
    + intros x Hx [Hxn Hxs]%not_elem_of_cons. apply Hkeep; [|done]. cbn. apply elem_of_unlist. by rewrite Em.
    + intros -> x Hx. apply not_elem_of_cons. split; [|by apply Hgone]. apply Hsub in Hx. cbn in Hx.
      apply elem_of_unlist in Hx as [_ Hx]. by rewrite <- Em.
    + intros k. destruct (Hfiles k) as [E|[Hk E]]; [|right; split; [by right|done]]. rewrite E. cbn. rewrite findFile_remove, Em.
      destruct (Z.eqb_spec k n) as [->|]; [right; split; [by left|done]|by left].
Qed.

Section Sweep.
Context `{LogEnv}.

(** * The invariant of the sweep *)

(** [c0] is the state the sweep found, [c] the present one, [ns] the chunk files
    still to be looked at and [K] those left behind. *)
Record Sweeping (c0 c : Core) (bt : Batch) (ns K : list Z) : Prop := {
  sg_moved : Moved c0 c;
  sg_files : forall n, is_Some (findFile n (c_files c)) -> n < c_chunk c;
  sg_paths : bt_paths bt = fst <$> bt_chunks bt;
  sg_moves : bt_moves bt = fst <$> List.filter isFileRow (bt_chunks bt);
  sg_batch : Forall (fun p => exists m, m ∈ c_chunks c /\ Number m < c_chunk c /\ took c m p) (bt_chunks bt);
  sg_sorted : StronglySorted Z.lt ((fst <$> bt_chunks bt) ++ ns);
  sg_cover : forall m, m ∈ c_chunks c -> Number m ∈ fst <$> bt_chunks bt \/ Number m ∈ ns \/ Number m ∈ K;
  sg_rest : forall n, n ∈ ns -> findFile n (c_files c) = findFile n (c_files c0);
  sg_listed : forall m, m ∈ c_chunks c0 -> Number m ∈ ns -> m ∈ c_chunks c;
  sg_sub : c_chunks c ⊆ c_chunks c0;
  sg_here : Forall (fun p => is_Some (findFile (fst p) (c_files c))) (bt_chunks bt);
}.

Lemma sorted_disjoint (l k : list Z) n : StronglySorted Z.lt (l ++ k) -> n ∈ l -> n ∈ k -> False.
Proof. intros Hs Hl Hk. pose proof (sorted_app_inv _ _ _ Hs n n Hl Hk). lia. Qed.

Lemma sorted_head {A} (R : A -> A -> Prop) l k : StronglySorted R (l ++ k) -> StronglySorted R l.
Proof.
  induction l as [|x l IH]; cbn; intros Hs; [constructor|]. apply StronglySorted_inv in Hs as [Hs Hx].
  constructor; [by apply IH|]. by apply Forall_app in Hx as [? _].
Qed.

Lemma sorted_tail {A} (R : A -> A -> Prop) l k : StronglySorted R (l ++ k) -> StronglySorted R k.
Proof. induction l as [|x l IH]; cbn; intros Hs; [done|]. apply StronglySorted_inv in Hs as [Hs _]. by apply IH. Qed.

Lemma sg_is_batch c0 c bt ns K : Sweeping c0 c bt ns K -> batch c (bt_chunks bt).
Proof. intros HS. split_and!; [exact (sorted_head _ _ _ (sg_sorted _ _ _ _ _ HS))|apply HS|by left]. Qed.

(** The end of a flush: what was committed and placed leaves the buffer. *)
Lemma flush_end (Q : Result WErr Batch -> LW -> Prop) c0 c bt ns K c1 s1 :
  Sweeping c0 c bt ns K -> Rep c1 s1 -> Moved c0 c1 -> c_chunks c1 = c_chunks c ->
  (forall n, n ∉ fst <$> bt_chunks bt -> findFile n (c_files c1) = findFile n (c_files c)) ->
  Forall (fun p => secured c1 (fst p)) (bt_chunks bt) ->
  (forall r s' c', Rep c' s' -> Moved c0 c' -> (forall bt', r = Ok bt' -> bt' = emptyBatch /\ Sweeping c0 c' emptyBatch ns K) -> Q r s') ->
  wp (let* removed := removePaths (bt_paths bt) in
      match removed with Some e => ret (Err e) | None => ret (Ok emptyBatch) end) Q s1.
Proof.
  intros HS HR HM Ech Hfl Hsec HQ. pose proof (sg_sorted _ _ _ _ _ HS) as Hsort. rewrite (sg_paths _ _ _ _ _ HS).
  assert (Echunk : c_chunk c1 = c_chunk c).
  { destruct HM as (_ & _ & _ & -> & _). symmetry. apply (sg_moved _ _ _ _ _ HS). }
  wp_step. apply (removePaths_inv _ c1); [done|apply HM|apply HM|exact (batch_nodup _ _ (sg_is_batch _ _ _ _ _ HS))| |].
  { apply Forall_fmap, Forall_forall. intros p Hp. destruct (proj1 (Forall_forall _ _) (sg_batch _ _ _ _ _ HS) p Hp) as (m & Hm & Hlt & Em & _).
    exists m. cbn. rewrite Ech, Echunk, Em. split_and!; [done|done|done|]. rewrite <- Em. exact (proj1 (Forall_forall _ _) Hsec p Hp). }
  intros e c' s2 HR2 HM2 Hsub Hkeep Hgone Hfiles. pose proof (Moved_trans _ _ _ HM HM2) as HM3.
  destruct e as [e|]; wp_step; apply (HQ _ _ c'); try done. intros bt' [= <-]. split; [done|].
  constructor; cbn [emptyBatch bt_chunks bt_paths bt_moves]; try done.
  - intros n [fc Hfc]. destruct (decide (n ∈ fst <$> bt_chunks bt)) as [Hn|Hn].
    + destruct (Hfiles n) as [E|[_ E]]; [|congruence]. apply list_elem_of_fmap in Hn as (p & -> & Hp).
      destruct (proj1 (Forall_forall _ _) (sg_batch _ _ _ _ _ HS) p Hp) as (m & _ & Hlt & Em & _). destruct HM2 as (_ & _ & _ & -> & _). lia.
    + destruct HM2 as (_ & _ & _ & -> & _). rewrite Echunk. apply (sg_files _ _ _ _ _ HS). rewrite <- Hfl by done.
      destruct (Hfiles n) as [<-|[? _]]; [by eexists|done].
  - exact (sorted_tail _ _ _ Hsort).
  - intros m Hm. right. destruct (sg_cover _ _ _ _ _ HS m) as [Hin|Hin]; [rewrite <- Ech; by apply Hsub| |done].
    by destruct (Hgone eq_refl m Hm).
  - intros n Hn. assert (Hnb : n ∉ fst <$> bt_chunks bt) by (intros Hb; exact (sorted_disjoint _ _ n Hsort Hb Hn)).
    destruct (Hfiles n) as [E|[? _]]; [|done]. rewrite E, Hfl by done. by apply HS.
  - intros m Hm Hn. apply Hkeep; [rewrite Ech; by apply HS|]. intros Hb. exact (sorted_disjoint _ _ _ Hsort Hb Hn).
  - intros m Hm. apply HS. rewrite <- Ech. by apply Hsub.
Qed.

Lemma flush_inv (Q : Result WErr Batch -> LW -> Prop) c0 c bt ns K s :
  Sweeping c0 c bt ns K -> Rep c s ->
  (forall r s' c', Rep c' s' -> Moved c0 c' -> (forall bt', r = Ok bt' ->
      Sweeping c0 c' bt' ns K /\ bt_chunks bt' = []) -> Q r s') ->
  wp (flush bt) Q s.
Proof.
  intros HS HR HQ. pose proof (sg_moved _ _ _ _ _ HS) as HM. unfold flush. destruct (bt_chunks bt) as [|p0 l0] eqn:Ebt.
  { wp_step. apply (HQ _ _ c); [done|done|]. intros bt' [= <-]. by split. }
  rewrite <- Ebt. clear p0 l0 Ebt.
  assert (Hstop : forall e s', Rep c s' -> Q (Err e) s') by (intros e s' HR'; by apply (HQ _ _ c)).
  do 2 wp_step. destruct b; cbn [negb]; [|wp_step; by apply Hstop].
  wp_step. apply (wp_ghost _ _ c); [apply syncMoves_blind|exact HR|]. apply syncMoves_calm. intros ok s1 E1 s2 HR2 _.
  rewrite E1, core_ghost in HR2 by exact HR. destruct ok; cbn [negb]; [|wp_step; by apply Hstop].
  pose proof HM as (HSm & HG & _). destruct (commit_batch c (bt_chunks bt) HG (proj2 HSm) (sg_is_batch _ _ _ _ _ HS)) as [HMc HC].
  wp_step. apply (wp_ghost _ _ c); [apply PutChunks_blind|exact HR2|]. apply PutChunks_core; intros s3 E3 s4 HR4 _;
    rewrite E3, core_ghost in HR4 by exact HR2; cbn [negb]; [|wp_step; by apply Hstop].
  pose proof (Moved_trans _ _ _ HM HMc) as HM4. rewrite (sg_moves _ _ _ _ _ HS).
  wp_step. apply (wp_ghost _ _ _ _ (placeFiles_blind _ _) HR4). apply (placeFiles_inv _ c0).
  - by rewrite core_ghost.
  - by rewrite core_ghost.
  - intros e s5 HM5 E5 Hfl Hsec s6 HR6 _. rewrite core_ghost in E5, Hfl by exact HR4. destruct e as [e|].
    + wp_step. by apply (HQ _ _ (core s5)).
    + apply (flush_end _ c0 c bt ns K (core s5)); [done|done|done|exact E5|exact Hfl|by apply Hsec|].
      intros r s' c' HR' HM' Hr. apply (HQ _ _ c'); [done|done|]. intros bt' E. by destruct (Hr bt' E) as [-> ?].
Qed.

(** * One chunk file *)

Variable sealed : gmap Z chunkMeta.
Variable c0 : Core.

(** What the sweep found: every file with an entry or with frames is listed. *)
Record Found : Prop := {
  fd_sealed : forall n, sealed !! n = metaOf (c_inst c0) n;
  fd_some : forall n fc m, findFile n (c_files c0) = Some fc -> fileMeta (c_inst c0) (n, fc) = Some m -> m ∈ c_chunks c0 /\ Number m = n;
  fd_none : forall n fc, findFile n (c_files c0) = Some fc -> fileMeta (c_inst c0) (n, fc) = None -> metaOf (c_chunks c0) n = None;
}.
Hypothesis HF : Found.

(** A chunk joins the batch. *)
Lemma sg_row c bt n ns K m r fc bt' :
  Sweeping c0 c bt (n :: ns) K -> m ∈ c_chunks c0 -> Number m = n -> findFile n (c_files c) = Some fc -> took c m (n, r) ->
  bt_chunks bt' = bt_chunks bt ++ [(n, r)] -> bt_paths bt' = bt_paths bt ++ [n] ->
  bt_moves bt' = bt_moves bt ++ (if isFileRow (n, r) then [n] else []) -> Sweeping c0 c bt' ns K.
Proof.
  intros HS Hm En Hfc Ht E1 E2 E3. assert (Hmc : m ∈ c_chunks c) by (apply HS; [done|]; rewrite En; by left).
  constructor; rewrite ?E1, ?E2, ?E3, ?fmap_app; try apply HS.
  - by rewrite (sg_paths _ _ _ _ _ HS).
  - rewrite List.filter_app, fmap_app, (sg_moves _ _ _ _ _ HS). cbn [List.filter]. by destruct (isFileRow (n, r)).
  - apply Forall_app. split; [apply HS|]. apply Forall_singleton. exists m. split_and!; [done| |done].
    apply (sg_files _ _ _ _ _ HS). rewrite En. by eexists.
  - rewrite <- app_assoc. exact (sg_sorted _ _ _ _ _ HS).
  - intros x Hx. rewrite elem_of_app. destruct (sg_cover _ _ _ _ _ HS x Hx) as [?|[[->|?]%elem_of_cons|?]]; [by left; left| |by right; left|by right; right].
    left. right. by left.
  - intros k Hk. apply HS. by right.
  - intros x Hx Hk. apply HS; [done|by right].
  - apply Forall_app. split; [apply HS|]. apply Forall_singleton. by eexists.
Qed.

(** A chunk file is passed over: it has nothing listed, or is left behind. *)
Lemma sg_pass c bt n ns K K' :
  Sweeping c0 c bt (n :: ns) K -> K ⊆ K' -> metaOf (c_chunks c0) n = None \/ n ∈ K' -> Sweeping c0 c bt ns K'.
Proof.
  intros HS HK Hn. constructor; try apply HS.
  - pose proof (sg_sorted _ _ _ _ _ HS) as Hs. clear - Hs.
    induction (fst <$> bt_chunks bt) as [|x l IH]; cbn in *; [by apply StronglySorted_inv in Hs as [? _]|].
    apply StronglySorted_inv in Hs as [Hs Hx]. constructor; [by apply IH|].
    apply Forall_app in Hx as [H1 [_ H2]%Forall_cons]. by apply Forall_app.
  - intros x Hx. destruct (sg_cover _ _ _ _ _ HS x Hx) as [?|[[En|?]%elem_of_cons|?]]; [by left| |by right; left|right; right; by apply HK].
    destruct Hn as [Hn|Hn]; [|right; right; by rewrite En]. exfalso.
    exact (proj1 (Forall_forall _ _) (proj1 (metaOf_none _ _) Hn) x (sg_sub _ _ _ _ _ HS x Hx) En).
  - intros k Hk. apply HS. by right.
  - intros x Hx Hk. apply HS; [done|by right].
Qed.

(** A file with nothing listed is removed. *)
Lemma sg_remove c bt n ns K :
  Sweeping c0 c bt (n :: ns) K -> is_Some (findFile n (c_files c)) -> metaOf (c_chunks c0) n = None ->
  Sweeping c0 (dropEmpty n c) bt ns K.
Proof.
  intros HS Hfc Hn. pose proof (sg_moved _ _ _ _ _ HS) as HM. pose proof HM as (HSm & HG & _).
  assert (Hnone : metaOf (c_chunks c) n = None).
  { apply metaOf_none, Forall_forall. intros x Hx.
    exact (proj1 (Forall_forall _ _) (proj1 (metaOf_none _ _) Hn) x (sg_sub _ _ _ _ _ HS x Hx)). }
  pose proof (sg_pass _ _ _ _ _ K HS ltac:(done) ltac:(by left)) as HS'.
  pose proof (dropEmpty_moved c n HG (proj2 HSm) (sg_files _ _ _ _ _ HS n Hfc) Hnone) as HMd.
  constructor; try apply HS'.
  - exact (Moved_trans _ _ _ HM HMd).
  - cbn. intros k. rewrite findFile_remove. destruct (k =? n); [by intros [? ?]|apply HS'].
  - apply Forall_forall. intros p Hp. destruct (proj1 (Forall_forall _ _) (sg_batch _ _ _ _ _ HS') p Hp) as (m & Hm & Hlt & E1 & E2 & E3 & E4 & E5).
    exists m. split_and!; [done|done|]. split_and!; try done. intros b Eb. destruct (E5 b Eb) as (fc & Ef & Efr). exists fc.
    split; [|done]. cbn. rewrite findFile_remove. destruct (Z.eqb_spec (Number m) n) as [E|]; [|done].
    by pose proof (proj1 (Forall_forall _ _) (proj1 (metaOf_none _ _) Hnone) m Hm E).
  - intros k Hk. cbn. rewrite findFile_remove. destruct (Z.eqb_spec k n) as [->|]; [|by apply HS'].
    exfalso. pose proof (sg_sorted _ _ _ _ _ HS) as Hs. apply sorted_tail, StronglySorted_inv in Hs as [_ Hs].
    pose proof (proj1 (Forall_forall _ _) Hs n Hk). lia.
  - apply Forall_forall. intros p Hp. cbn. rewrite findFile_remove.
    destruct (Z.eqb_spec (fst p) n) as [E|]; [|exact (proj1 (Forall_forall _ _) (sg_here _ _ _ _ _ HS) p Hp)].
    exfalso. apply (sorted_disjoint _ _ n (sg_sorted _ _ _ _ _ HS)); [|by left]. rewrite <- E. by apply list_elem_of_fmap_2.
Qed.

Lemma preserveCorrupt_inv (Q : bool -> LW -> Prop) n fc s :
  (forall b s', (forall c, Rep c s -> Rep c s') -> Q b s') -> wp (preserveCorrupt n fc) Q s.
Proof. intros HQ. unfold preserveCorrupt. wp_go; apply HQ; by intros c (? & ? & ? & ?). Qed.

Definition salvagedMeta (n : Z) (fc : FileC) : chunkMeta :=
  mkMeta n (firstFrame (fc_frames fc)) (lastFrame (fc_frames fc)) 0 (rawBytes (fc_frames fc)) false.

Lemma salvageChunk_inv (Q : Result WErr (option Row * Sweep) -> LW -> Prop) c n ns fc sw s :
  Sweeping c0 c (sw_batch sw) (n :: ns) (sw_corrupt sw) -> Rep c s -> findFile n (c_files c) = Some fc -> sealed !! n = None ->
  (forall r s' c', Rep c' s' -> Moved c0 c' ->
     (forall sw', r = Ok (None, sw') -> Sweeping c0 c' (sw_batch sw') ns (sw_corrupt sw')) ->
     (forall row sw', r = Ok (Some row, sw') -> c' = c /\ sw_batch sw' = sw_batch sw /\ sw_corrupt sw' = sw_corrupt sw /\
        salvagedMeta n fc ∈ c_chunks c0 /\ took c (salvagedMeta n fc) (n, row) /\ isFileRow (n, row) = false) -> Q r s') ->
  wp (salvageChunk n fc sw) Q s.
Proof.
  intros HS HR Hfc Hsl HQ. pose proof (sg_moved _ _ _ _ _ HS) as HM.
  assert (Hf0 : findFile n (c_files c0) = Some fc) by (rewrite <- Hfc; symmetry; apply HS; by left).
  assert (Hmeta : fileMeta (c_inst c0) (n, fc) = match fc_frames fc with [] => None | _ => Some (salvagedMeta n fc) end).
  { unfold fileMeta; cbn [fst snd]. rewrite <- (fd_sealed HF), Hsl. by destruct (fc_frames fc) eqn:E; unfold salvagedMeta; rewrite ?E. }
  unfold salvageChunk. wp_step. set (mi := if fc_torn fc then _ else _).
  assert (Hmi : forall (Q' : bool -> LW -> Prop), (forall b s', Rep c s' -> Q' b s') -> wp mi Q' s).
  { intros Q' HQ'. unfold mi. destruct (fc_torn fc); wp_go; by apply HQ'. }
  apply Hmi. clear Hmi mi. intros intact s1 HR1.
  assert (Hpass : forall s' sw', Rep c s' -> sw_batch sw' = sw_batch sw -> sw_corrupt sw ⊆ sw_corrupt sw' ->
    fc_frames fc = [] \/ n ∈ sw_corrupt sw' -> Q (Ok (None, sw')) s').
  { intros s' sw' HR' E1 E2 E3. apply (HQ _ _ c); [done|done| |done]. intros sw2 [= <-]. rewrite E1.
    apply (sg_pass _ _ n _ (sw_corrupt sw)); [done|done|]. destruct E3 as [E3|E3]; [left|by right].
    apply (fd_none HF n fc Hf0). by rewrite Hmeta, E3. }
  destruct (fc_frames fc) as [|f fr] eqn:Ef.
  - destruct intact; [wp_step; apply Hpass; try done; by left|]. wp_step. apply preserveCorrupt_inv. intros pr s2 H2. specialize (H2 c HR1).
    assert (Hkeep : forall s', Rep c s' -> Q (Ok (None, sw <| sw_corrupt ::= (fun l => l ++ [n]) |>)) s').
    { intros s' HR'. apply Hpass; [done|done|cbn; set_solver|by left]. }
    destruct pr; cbn [negb]; [|wp_step; by apply Hkeep]. do 2 wp_step. destruct b; cbn [negb]; [|wp_step; by apply Hkeep].
    do 3 wp_step. apply (HQ _ _ (dropEmpty n c)); [| | |done].
    + destruct H2 as (E1 & E2 & E3 & E4). unfold Rep; cbn. by rewrite E1.
    + apply (sg_remove c (sw_batch sw) n ns (sw_corrupt sw) HS); [by eexists|]. apply (fd_none HF n fc Hf0). by rewrite Hmeta.
    + intros sw' [= <-]. cbn. apply sg_remove; [done|by eexists|]. apply (fd_none HF n fc Hf0). by rewrite Hmeta.
  - rewrite <- Ef in *. assert (Hne : fc_frames fc <> []) by (by rewrite Ef).
    assert (Hsm : fileMeta (c_inst c0) (n, fc) = Some (salvagedMeta n fc)) by (rewrite Hmeta; by destruct (fc_frames fc)).
    wp_step. set (mt := if intact then _ else _).
    assert (Hmt : forall (Q' : bool -> LW -> Prop), (forall b s', Rep c s' -> Q' b s') -> wp mt Q' s1).
    { intros Q' HQ'. unfold mt. destruct intact; wp_go; by apply HQ'. }
    apply Hmt. clear Hmt mt. intros tail s2 HR2. wp_step. set (mp := if tail then _ else _).
    assert (Hmp : forall (Q' : bool -> LW -> Prop), (forall b s', Rep c s' -> Q' b s') -> wp mp Q' s2).
    { intros Q' HQ'. unfold mp. destruct tail; [wp_step; by apply HQ'|]. apply preserveCorrupt_inv. intros b s' H'. by apply HQ', H'. }
    apply Hmp. clear Hmp mp. intros pr s3 HR3. destruct pr; cbn [negb].
    2:{ wp_step. apply Hpass; [done|done|cbn; set_solver|right; cbn; set_solver]. }
    do 2 wp_step. destruct b; cbn [negb]; [|wp_step; by apply (HQ _ _ c)].
    wp_step. apply (HQ _ _ c); [done|done|done|]. intros row sw' [= <- <-].
    destruct (fd_some HF n fc _ Hf0 Hsm) as [Hin _]. split_and!; try done. split_and!; try done.
    cbn. intros b [= <-]. by exists fc.
Qed.

Lemma flushIf_inv (Q : Result WErr Batch -> LW -> Prop) full c bt ns K s :
  Sweeping c0 c bt ns K -> Rep c s ->
  (forall r s' c', Rep c' s' -> Moved c0 c' -> (forall bt', r = Ok bt' -> Sweeping c0 c' bt' ns K) -> Q r s') ->
  wp (flushIf full bt) Q s.
Proof.
  intros HS HR HQ. unfold flushIf. destruct full.
  - apply (flush_inv _ c0 c bt ns K); [done|done|]. intros r s' c' HR' HM' Hr. apply (HQ _ _ c'); [done|done|].
    intros bt' E. by apply Hr.
  - wp_step. apply (HQ _ _ c); [done|apply HS|]. by intros bt' [= <-].
Qed.

(** What a round over chunk [n] leaves. *)
Definition Round (ns : list Z) (Q : Result WErr Sweep -> LW -> Prop) : Prop :=
  forall r s' c', Rep c' s' -> Moved c0 c' ->
    (forall sw', r = Ok sw' -> Sweeping c0 c' (sw_batch sw') ns (sw_corrupt sw')) -> Q r s'.

Lemma copyChunk_inv (Q : Result WErr Sweep -> LW -> Prop) c n ns fc size sw s :
  Sweeping c0 c (sw_batch sw) (n :: ns) (sw_corrupt sw) -> Rep c s -> findFile n (c_files c0) = Some fc ->
  Round ns Q -> wp (copyChunk n size (sealed !! n) sw) Q s.
Proof.
  intros HS HR Hf0 HQ. unfold copyChunk. cbv zeta. wp_step.
  apply (flushIf_inv _ _ c _ (n :: ns) (sw_corrupt sw)); [done|done|]. intros r s1 c1 HR1 HM1 Hr.
  destruct r as [bt|e]; [|wp_step; by apply (HQ _ _ c1)]. specialize (Hr bt eq_refl). do 4 wp_step.
  assert (Hfc : findFile n (c_files c1) = Some fc) by (rewrite <- Hf0; apply Hr; by left).
  replace (findFile n (b_files (lw_buf s1))) with (Some fc) by (destruct HR1 as (<- & _); by rewrite Hfc).
  destruct b; [|wp_step; by apply (HQ _ _ c1)]. set (sw1 := sw <| sw_batch := bt |>).
  (* a row for this chunk, then the second test of the batch *)
  assert (Hrow : forall m row sw2 s2, Rep c1 s2 -> sw_batch sw2 = bt -> sw_corrupt sw2 = sw_corrupt sw ->
    m ∈ c_chunks c0 -> Number m = n -> (forall c2, findFile n (c_files c2) = Some fc -> took c2 m (n, row)) -> isFileRow (n, row) = false ->
    wp (let bt := sw_batch sw2 in
        let* fl := flushIf ((0 <? length (bt_chunks bt))%nat && (bt_size bt + blobBytes row >? archiveBatchBytes)) bt in
        match fl with
        | Err e => ret (Err e)
        | Ok bt => ret (Ok (sw2 <| sw_batch := addChunk n row (blobBytes row) bt |>))
        end) Q s2).
  { intros m row sw2 s2 HR2 E1 E2 Hm En Ht Hb. cbv zeta. wp_step. rewrite E1.
    apply (flushIf_inv _ _ c1 _ (n :: ns) (sw_corrupt sw)); [done|done|]. intros r s3 c3 HR3 HM3 Hr3.
    destruct r as [bt3|e]; [|wp_step; by apply (HQ _ _ c3)]. specialize (Hr3 bt3 eq_refl). wp_step.
    apply (HQ _ _ c3); [done|done|]. intros sw' [= <-]. cbn. rewrite E2.
    assert (Hfc3 : findFile n (c_files c3) = Some fc) by (rewrite <- Hf0; apply Hr3; by left).
    apply (sg_row c3 bt3 n ns _ m row fc); [done|done|done|done|by apply Ht|done|done|]. rewrite Hb. cbn. by rewrite app_nil_r. }
  wp_step. destruct (sealed !! n) as [m|] eqn:Es.
  - wp_step. assert (Hsm : fileMeta (c_inst c0) (n, fc) = Some m) by (unfold fileMeta; cbn; by rewrite <- (fd_sealed HF), Es).
    destruct (fd_some HF n fc m Hf0 Hsm) as [Hm En]. apply (Hrow m); try done. intros c2 Hf2. split_and!; try done.
    cbn. intros b [= <-]. exists fc. by rewrite En.
  - apply (salvageChunk_inv _ c1 n ns); [exact Hr|done|done|done|]. intros r s2 c2 HR2 HM2 Hnone Hsome.
    destruct r as [[[row|] sw2]|e]; [| |wp_step; by apply (HQ _ _ c2)].
    + destruct (Hsome row sw2 eq_refl) as (-> & E1 & E2 & Hm & Ht & Hb). apply (Hrow (salvagedMeta n fc)); try done.
      intros c3 Hf3. destruct Ht as (T1 & T2 & T3 & T4 & T5). split_and!; try done. intros b Eb.
      destruct (T5 b Eb) as (fc' & Ef' & Efr). exists fc. split; [done|]. cbn in Ef'. rewrite Hfc in Ef'. by injection Ef' as <-.
    + wp_step. apply (HQ _ _ c2); [done|done|]. intros sw' [= <-]. by apply Hnone.
Qed.

Lemma orphanChunk_inv (Q : Result WErr Sweep -> LW -> Prop) c n ns fc sw s :
  Sweeping c0 c (sw_batch sw) (n :: ns) (sw_corrupt sw) -> Rep c s -> findFile n (c_files c0) = Some fc ->
  Round ns Q -> wp (orphanChunk sealed n sw) Q s.
Proof.
  intros HS HR Hf0 HQ. unfold orphanChunk. pose proof (sg_moved _ _ _ _ _ HS) as HM.
  do 2 wp_step. destruct b; cbn [negb]; [|wp_step; by apply (HQ _ _ c)]. do 4 wp_step.
  assert (Hfc : findFile n (c_files c) = Some fc) by (rewrite <- Hf0; apply HS; by left).
  match goal with |- context [findFile n ?l] => replace (findFile n l) with (Some fc) by (rewrite <- Hfc; f_equal; exact (proj1 HR)) end.
  destruct b; [|wp_step; by apply (HQ _ _ c)]. cbv zeta.
  pose proof (fun sz => copyChunk_inv Q c n ns fc sz sw) as Hcopy. destruct (sealed !! n) as [m|] eqn:Es.
  - destruct (Z.leb_spec fileChunkMin (compressedSize (fc_frames fc))) as [Hle|Hlt].
    + wp_step. apply (flushIf_inv _ _ c _ (n :: ns) (sw_corrupt sw)); [done|done|]. intros r s1 c1 HR1 HM1 Hr.
      destruct r as [bt|e]; [|wp_step; by apply (HQ _ _ c1)]. specialize (Hr bt eq_refl). wp_step.
      apply (HQ _ _ c1); [done|done|]. intros sw' [= <-]. cbn.
      assert (Hsm : fileMeta (c_inst c0) (n, fc) = Some m) by (unfold fileMeta; cbn; by rewrite <- (fd_sealed HF), Es).
      destruct (fd_some HF n fc m Hf0 Hsm) as [Hm En].
      assert (Hfc1 : findFile n (c_files c1) = Some fc) by (rewrite <- Hf0; apply Hr; by left).
      apply (sg_row c1 bt n ns _ m (mkRow (First m) (Last m) (Raw m) None (compressedSize (fc_frames fc))) fc); try done.
      split_and!; try done. unfold shaped; cbn. apply Z.ltb_lt. assert (0 < fileChunkMin) by done. lia.
    + by apply Hcopy.
  - by apply Hcopy.
Qed.

Lemma orphanLoop_inv (Q : Result WErr Sweep -> LW -> Prop) c ns sw s :
  Sweeping c0 c (sw_batch sw) ns (sw_corrupt sw) -> Rep c s -> Forall (fun n => is_Some (findFile n (c_files c0))) ns ->
  Round [] Q -> wp (orphanLoop sealed ns sw) Q s.
Proof.
  revert c sw s; induction ns as [|n ns IH]; intros c sw s HS HR Hns HQ; cbn [orphanLoop].
  - wp_step. apply (HQ _ _ c); [done|apply HS|]. by intros sw' [= <-].
  - apply Forall_cons in Hns as [[fc Hfc] Hns]. wp_step. apply (orphanChunk_inv _ c n ns fc); [done|done|done|].
    intros r s1 c1 HR1 HM1 Hr. destruct r as [sw1|e]; [|wp_step; by apply (HQ _ _ c1)].
    apply (IH c1); [by apply Hr|done|done|done].
Qed.

End Sweep.

(** * Removing the directory *)

Lemma moved_files c n : Moved c (dropEmpty n c) -> c_chunk (dropEmpty n c) = c_chunk c.
Proof. done. Qed.

Lemma removeEach_inv (Q : bool -> LW -> Prop) c ns s :
  Rep c s -> Good c -> AI c -> c_chunks c = [] -> Forall (fun n => n < c_chunk c) ns ->
  (forall b c' s', Rep c' s' -> Moved c c' -> c_chunks c' = [] ->
     (forall n, is_Some (findFile n (c_files c')) -> is_Some (findFile n (c_files c)) /\ (b = true -> n ∉ ns)) -> Q b s') ->
  wp (removeEach ns) Q s.
Proof.
  revert Q c s; induction ns as [|n ns IH]; intros Q c s HR HG HA Hc Hns HQ; cbn [removeEach].
  { wp_step. apply (HQ _ c); [done|by apply Moved_refl|done|]. intros n Hn. split; [done|]. intros _. apply not_elem_of_nil. }
  apply Forall_cons in Hns as [Hn Hns]. do 2 wp_step. wp_step.
  set (c1 := if b then dropEmpty n c else c).
  assert (HM1 : Moved c c1).
  { unfold c1. destruct b; [|by apply Moved_refl]. apply dropEmpty_moved; [done|done|done|by rewrite Hc]. }
  assert (Hgo : forall s1, Rep c1 s1 -> wp (let* rest := removeEach ns in ret (b && rest)) Q s1).
  { intros s1 HR1. wp_step. apply (IH _ c1); [done|apply HM1|apply HM1|by unfold c1; destruct b|by unfold c1; destruct b|].
    intros b' c' s' HR' HM' Hc' Hfiles. wp_step. apply (HQ _ c'); [done|exact (Moved_trans _ _ _ HM1 HM')|done|].
    intros k Hk. destruct (Hfiles k Hk) as [H1 H2]. unfold c1 in H1. destruct b; cbn in H1 |- *; [|by split].
    rewrite findFile_remove in H1. destruct (Z.eqb_spec k n) as [->|Hne]; [by destruct H1|]. split; [done|].
    intros E. apply not_elem_of_cons. split; [done|by apply H2]. }
  unfold when. destruct b; [|wp_step; by apply Hgo]. wp_step. apply Hgo.
  destruct HR as (E1 & E2 & E3 & E4). unfold Rep, c1; cbn. by rewrite E1.
Qed.

Lemma inst_nil_moved c : Good c -> AI c -> Moved c (c <| c_inst := [] |>).
Proof.
  intros (HI & Hs & Hm) HA. unfold Moved, Same, Good. split_and!; try done.
  - constructor; try apply HA. constructor; apply HA.
  - constructor; try apply HI; constructor.
Qed.

(** The directory of a swept buffer holds nothing. *)
Definition Gone (s : LW) : Prop := b_dir (lw_buf s) = false /\ b_files (lw_buf s) = [] /\ b_index (lw_buf s) = None.

Lemma no_files (l : list (Z * FileC)) : (forall n, ~ is_Some (findFile n l)) -> l = [].
Proof.
  destruct l as [|[n fc] l]; [done|]. intros Hl. destruct (Hl n). unfold findFile; cbn. rewrite Z.eqb_refl. by eexists.
Qed.

Lemma RemoveAll_inv (Q : bool -> LW -> Prop) c s :
  Rep c s -> Good c -> AI c -> c_chunks c = [] -> (forall n, is_Some (findFile n (c_files c)) -> n < c_chunk c) ->
  (forall b c' s', Rep c' s' -> Moved c c' -> (b = true -> Gone s') -> Q b s') -> wp RemoveAll Q s.
Proof.
  intros HR HG HA Hc Hfiles HQ. unfold RemoveAll. do 3 wp_step.
  apply (removeEach_inv _ c); [done|done|done|done| |].
  { apply Forall_fmap, Forall_forall. intros p Hp. apply Hfiles, findFile_elem, list_elem_of_fmap. exists p. split; [done|].
    by rewrite (proj1 HR). }
  intros gone c1 s1 HR1 HM1 Hc1 Hf1.
  assert (Hall : gone = true -> c_files c1 = []).
  { intros ->. apply no_files. intros n Hn. destruct (Hf1 n Hn) as [Hin Hout]. apply (Hout eq_refl).
    destruct Hin as [fc Hin]. apply findFile_in in Hin. rewrite (proj1 HR) in Hin. apply list_elem_of_fmap. by exists (n, fc). }
  assert (Hend : forall s2 c2 ok, Rep c2 s2 -> Moved c c2 ->
    (ok = true -> b_files (lw_buf s2) = [] /\ b_index (lw_buf s2) = None) ->
    wp (let* dirGone := (if ok then io else ret false) in
        when dirGone (modBuf (fun b => b <| b_dir := false |>)) ;; ret dirGone) Q s2).
  { intros s2 c2 ok HR2 HM2 Hok. assert (Hno : forall s3, Rep c2 s3 -> Q false s3) by (intros s3 HR3; by apply (HQ _ c2)).
    wp_step. destruct ok; [|do 3 wp_step; by apply Hno]. wp_step. unfold when. destruct b; do 3 wp_step; [|by apply Hno].
    apply (HQ _ c2); [done|done|]. intros _. destruct (Hok eq_refl). by split_and!. }
  do 2 wp_step. wp_step. unfold when at 1. destruct b.
  - wp_step. rewrite andb_true_r. apply (Hend _ (c1 <| c_inst := [] |>) gone).
    + destruct HR1 as (E1 & E2 & E3 & E4). by unfold Rep; cbn.
    + apply (Moved_trans _ _ _ HM1). apply inst_nil_moved; apply HM1.
    + intros E. split; [|done]. cbn. rewrite <- (proj1 HR1). by apply Hall.
  - wp_step. rewrite andb_false_r. by apply (Hend _ c1 false).
Qed.

Section Recovery.
Context `{LogEnv}.

(** * The sweep *)

(** The state on disk is a state of the log holding the chunks [g]. *)
Definition OnDisk (g : Z -> list Frame) (s : LW) : Prop :=
  exists c, Rep c s /\ WI c /\ AI c /\ forall n, seg c n = g n.

Lemma left_moved c : WI c -> AI c -> Moved (leftCore c) (leftCore c).
Proof. intros HI HA. apply Moved_refl; [by apply left_AI|by apply left_good]. Qed.

Lemma left_found sealed c : WI c -> (forall n, sealed !! n = metaOf (c_inst c) n) -> Found sealed (leftCore c).
Proof.
  intros HI Hs. constructor; [done|..]; cbn; intros n fc.
  - intros m Hfc Hm. apply findFile_in in Hfc. destruct (fileMeta_ok c HI (n, fc) m Hfc Hm) as (En & _). split; [|done].
    apply (listed_elem c). by exists (n, fc).
  - intros Hfc Hm. apply findFile_in in Hfc. pose proof (listed_meta c HI (n, fc) Hfc) as E. cbn in E. unfold listed in E. by rewrite E.
Qed.

Lemma left_files c n : WI c -> is_Some (findFile n (c_files (leftCore c))) -> n < c_chunk (leftCore c).
Proof.
  intros HI [fc Hfc]. apply findFile_in in Hfc. destruct (proj1 (Forall_forall _ _) (wi_data c HI) _ Hfc) as (Hn & _). cbn in *. lia.
Qed.

Lemma left_sweeping c : WI c -> AI c -> Sweeping (leftCore c) (leftCore c) emptyBatch (fst <$> c_files c) [].
Proof.
  intros HI HA. constructor; cbn [emptyBatch bt_chunks bt_paths bt_moves]; try done.
  - by apply left_moved.
  - intros n. by apply left_files.
  - apply HI.
  - intros m Hm. right; left. apply (listed_elem c) in Hm as (p & Hp & Em). destruct (fileMeta_ok c HI p m Hp Em) as (-> & _).
    by apply list_elem_of_fmap_2.
Qed.

(** What a sweep says when it is done with the buffer. *)
Definition swept (e : option WErr) : bool :=
  match e with None | Some errChunkQuarantined => true | _ => false end.

(** No step before the end reports a quarantine. *)
Definition unswept {A} (r : Result WErr A) (_ : LW) : Prop := forall e, r = Err e -> swept (Some e) = false.

Lemma wp_skip {A B} (m : M A) (k : A -> M B) (Q : B -> LW -> Prop) s : (forall a s', wp (k a) Q s') -> wp (bind m k) Q s.
Proof. intros HQ. apply wp_seq. unfold wp. apply HQ. Qed.

Lemma wp_via {A B} (m : M A) (P : A -> LW -> Prop) (k : A -> M B) (Q : B -> LW -> Prop) s :
  (forall s, wp m P s) -> (forall a s', P a s' -> wp (k a) Q s') -> wp (bind m k) Q s.
Proof. intros Hm HQ. apply wp_seq. apply (wp_conseq _ P); [apply Hm|]. intros a s' Ha. by apply HQ. Qed.

Ltac skip_step :=
  lazymatch goal with
  | |- wp (bind _ _) _ _ => apply wp_skip; intros ? ?
  | |- wp (ret _) _ _ => apply wp_ret; unfold unswept; intros; simplify_eq; done
  | |- wp (match ?x with _ => _ end) _ _ => destruct x
  end.
Ltac skip_go := repeat skip_step.

Lemma placeFiles_unswept l moves s : wp (placeFiles l moves) (fun e _ => e = None \/ swept e = false) s.
Proof. unfold placeFiles. repeat first [skip_step|apply wp_ret; by (left + right)|apply wp_ret; cbv beta; by match goal with |- context [if ?b then _ else _] => destruct b; by (left + right) end]. Qed.

Lemma removePaths_unswept ns s : wp (removePaths ns) (fun e _ => e = None \/ swept e = false) s.
Proof.
  revert s; induction ns as [|n ns IH]; intros s; cbn [removePaths]; [by left|].
  apply wp_skip. intros b s1. destruct (negb b); [by right|]. apply wp_skip. intros _ s2. apply IH.
Qed.

Lemma flush_unswept bt s : wp (flush bt) unswept s.
Proof.
  unfold flush. destruct (bt_chunks bt) as [|p l]; [by apply wp_ret|]. do 3 (apply wp_skip; intros ? ?; destruct (negb _); [by apply wp_ret; intros e [= <-]|]).
  apply (wp_via _ _ _ _ _ (placeFiles_unswept _ _)). intros [e|] s1 He; [apply wp_ret; intros e' [= <-]; by destruct He|].
  apply (wp_via _ _ _ _ _ (removePaths_unswept _)). intros [e|] s2 He2; apply wp_ret; intros e' [= <-]. by destruct He2.
Qed.

Lemma flushIf_unswept full bt s : wp (flushIf full bt) unswept s.
Proof. unfold flushIf. destruct full; [apply flush_unswept|by apply wp_ret]. Qed.

Lemma salvageChunk_unswept n fc sw s : wp (salvageChunk n fc sw) unswept s.
Proof. unfold salvageChunk. skip_go. Qed.

Lemma copyChunk_unswept n size m sw s : wp (copyChunk n size m sw) unswept s.
Proof.
  unfold copyChunk. cbv zeta. apply (wp_via _ _ _ _ _ (flushIf_unswept _ _)). intros [bt|e] s1 He; [|apply wp_ret; intros e' [= <-]; by apply He].
  apply wp_skip. intros b s2. apply wp_skip. intros ok s3. destruct (if ok then _ else _) as [blob|]; [|by apply wp_ret; intros e [= <-]].
  apply (wp_via _ unswept).
  { intros s4. destruct m; [by apply wp_ret|apply salvageChunk_unswept]. }
  intros [[[r|] sw1]|e] s4 He1; [|by apply wp_ret|apply wp_ret; intros e' [= <-]; by apply He1].
  apply (wp_via _ _ _ _ _ (flushIf_unswept _ _)). intros [bt1|e] s5 He2; apply wp_ret; intros e' [= <-]. by apply He2.
Qed.

Lemma orphanChunk_unswept sealed n sw s : wp (orphanChunk sealed n sw) unswept s.
Proof.
  unfold orphanChunk. apply wp_skip. intros b s1. destruct (negb b); [by apply wp_ret; intros e [= <-]|].
  apply wp_skip. intros bf s2. apply wp_skip. intros ok s3. destruct (if ok then _ else _) as [info|]; [|by apply wp_ret; intros e [= <-]].
  cbv zeta. destruct (sealed !! n) as [m|]; [|apply copyChunk_unswept]. destruct (_ <=? _); [|apply copyChunk_unswept].
  apply (wp_via _ _ _ _ _ (flushIf_unswept _ _)). intros [bt1|e] s5 He2; apply wp_ret; intros e' [= <-]. by apply He2.
Qed.

Lemma orphanLoop_unswept sealed ns sw s : wp (orphanLoop sealed ns sw) unswept s.
Proof.
  revert sw s; induction ns as [|n ns IH]; intros sw s; cbn [orphanLoop]; [by apply wp_ret|].
  apply (wp_via _ _ _ _ _ (orphanChunk_unswept _ _ _)). intros [sw1|e] s1 He; [apply IH|apply wp_ret; intros e' [= <-]; by apply He].
Qed.

Lemma readOrphanIndex_unswept s : wp readOrphanIndex unswept s.
Proof. unfold readOrphanIndex. skip_go. Qed.

Lemma wp_and {A} (m : M A) (P Q : A -> LW -> Prop) s : wp m P s -> wp m Q s -> wp m (fun a s' => P a s' /\ Q a s') s.
Proof. by unfold wp. Qed.

(** Both at once. *)
Lemma wp_both {A} (m : M A) (P Q : A -> LW -> Prop) s :
  (forall s, wp m P s) -> wp m (fun a s' => P a s' -> Q a s') s -> wp m Q s.
Proof. intros HP HQ. exact (HQ (HP s)). Qed.

Lemma archiveOrphan_inv (Q : option WErr -> LW -> Prop) c s :
  Rep c s -> WI c -> AI c ->
  (forall e s' c', Rep c' s' -> Moved (leftCore c) c' -> (swept e = true -> Gone s') -> Q e s') ->
  wp archiveOrphan Q s.
Proof.
  intros HR HI HA HQ. pose proof (left_moved c HI HA) as HM0. unfold archiveOrphan. wp_step.
  apply (wp_both _ _ _ _ readOrphanIndex_unswept). apply readOrphanIndex_inv. intros r s1 (Eb & Ed) Hr He.
  assert (Hstop : forall e s' c', Rep c' s' -> Moved (leftCore c) c' -> swept (Some e) = false -> Q (Some e) s').
  { intros e s' c' HR' HM' E. apply (HQ _ _ c'); [done|done|]. by rewrite E. }
  assert (HR1 : Rep (leftCore c) s1).
  { destruct HR as (E1 & E2 & E3 & E4). unfold Rep, installed; cbn. by rewrite Eb, Ed. }
  destruct r as [sealed|e]; [|wp_step; apply (Hstop _ _ (leftCore c)); by auto].
  assert (HF : Found sealed (leftCore c)).
  { apply left_found; [done|]. intros n. rewrite (Hr sealed eq_refl). f_equal. symmetry. apply HR. }
  do 3 wp_step. replace (b_files (lw_buf s1)) with (c_files c) by (rewrite Eb; apply HR).
  apply (wp_both _ _ _ _ (orphanLoop_unswept _ _ _)).
  apply (orphanLoop_inv sealed (leftCore c) HF _ (leftCore c)); [by apply left_sweeping|done| |].
  { apply Forall_forall. intros n Hn. by apply findFile_elem. }
  intros r s2 c2 HR2 HM2 Hsw He2. destruct r as [sw|e]; [|wp_step; apply (Hstop _ _ c2); by auto].
  specialize (Hsw sw eq_refl). wp_step. apply (wp_both _ _ _ _ (flush_unswept _)).
  apply (flush_inv _ (leftCore c) c2 _ [] (sw_corrupt sw)); [done|done|]. intros r s3 c3 HR3 HM3 Hbt He3.
  destruct r as [bt|e]; [|wp_step; apply (Hstop _ _ c3); by auto]. destruct (Hbt bt eq_refl) as [HS3 Hemp].
  case_bool_decide as HK; cbn [negb]; [|wp_step; by apply (Hstop _ _ c3)].
  assert (Hnone : c_chunks c3 = []).
  { destruct (c_chunks c3) as [|m l] eqn:E; [done|]. exfalso.
    destruct (sg_cover _ _ _ _ _ HS3 m) as [Hin|[Hin|Hin]]; [rewrite E; by left| | |].
    - rewrite Hemp in Hin. by apply elem_of_nil in Hin.
    - by apply elem_of_nil in Hin.
    - rewrite HK in Hin. by apply elem_of_nil in Hin. }
  wp_step. apply (RemoveAll_inv _ c3); [done|apply HM3|apply HM3|done|apply HS3|]. intros gone c4 s4 HR4 HM4 Hg.
  pose proof (Moved_trans _ _ _ HM3 HM4) as HM5. destruct gone; cbn [negb]; wp_step; [|by apply (Hstop _ _ c4)].
  apply (HQ _ _ c4); [done|done|]. by intros _; apply Hg.
Qed.

End Recovery.
