(* ===== verification/LogSystemCrash.v ===== *)
(** What a crash of the whole system leaves of a run's log: chunk data that had
    not reached the disk is gone, from the end of a file or with the file
    (ADR-20, "Accepted downside"), and so may be the index.  The state it leaves
    is again a state of the log. *)

From S2P Require Import Prelude GoRuntime LogFrame LogWriter LogArchive LogWriterCore LogWriterInv LogWriterOps LogWriterRun LogArchiveFacts LogWriterFacts LogOrphan LogCrash LogOrphanFacts.
Open Scope Z_scope.
Open Scope lw_scope.

#[local] Instance anyExempt : Exempt | 0 := fun _ => True.

(** * Damage *)

(** What becomes of a chunk file: its first frames are left, with a torn tail or
    without, or the file is gone. *)
Inductive Fate := Kept | Cut (frames : nat) (torn : bool) | Lost.

Definition leftOf (f : Fate) (l : list Frame) : list Frame :=
  match f with Kept => l | Cut k _ => take k l | Lost => [] end.

Definition fileLeft (f : Fate) (c : FileC) : option FileC :=
  match f with Kept => Some c | Cut k torn => Some (mkFile (take k (fc_frames c)) torn) | Lost => None end.

(** The fate of the file of chunk [n]: a chunk with a committed row keeps it. *)
Definition fateOf (rows : list (Z * Row)) (fate : Z -> Fate) (n : Z) : Fate :=
  match findRow n rows with Some _ => Kept | None => fate n end.

Definition filesLeft (rows : list (Z * Row)) (fate : Z -> Fate) (files : list (Z * FileC)) : list (Z * FileC) :=
  omap (fun p => pair (fst p) <$> fileLeft (fateOf rows fate (fst p)) (snd p)) files.

Definition allKept : Z -> Fate := fun _ => Kept.

Lemma filesLeft_kept rows files : filesLeft rows allKept files = files.
Proof.
  unfold filesLeft, fateOf, allKept. induction files as [|[n c] l IH]; [done|]. cbn.
  destruct (findRow n rows); cbn; by rewrite IH.
Qed.

Lemma leftOf_prefix f l : leftOf f l `prefix_of` l.
Proof. destruct f; cbn; [done|apply prefix_take|apply prefix_nil]. Qed.

(** * Damage in two steps *)

(** The files cut, those that go left empty. *)
Definition emptied (f : Fate) (c : FileC) : FileC :=
  match f with Kept => c | Cut k torn => mkFile (take k (fc_frames c)) torn | Lost => mkFile [] false end.

Definition cutFiles (g : Z -> Fate) (files : list (Z * FileC)) : list (Z * FileC) :=
  (fun p => (fst p, emptied (g (fst p)) (snd p))) <$> files.

(** Then those files go. *)
Definition isLost (f : Fate) : bool := match f with Lost => true | _ => false end.
Definition dropLost (g : Z -> Fate) (files : list (Z * FileC)) : list (Z * FileC) :=
  List.filter (fun p => negb (isLost (g (fst p)))) files.

Lemma filesLeft_steps rows fate files :
  filesLeft rows fate files = dropLost (fateOf rows fate) (cutFiles (fateOf rows fate) files).
Proof.
  unfold filesLeft, dropLost, cutFiles. induction files as [|[n c] l IH]; [done|]. cbn.
  destruct (fateOf rows fate n); cbn; by rewrite IH.
Qed.

Lemma emptied_frames f c : fc_frames (emptied f c) = leftOf f (fc_frames c).
Proof. by destruct f. Qed.

Lemma find_cut g files n : findFile n (cutFiles g files) = emptied (g n) <$> findFile n files.
Proof.
  unfold findFile, cutFiles. induction files as [|[k c] l IH]; cbn; [done|].
  destruct (Z.eqb_spec k n) as [->|]; [done|exact IH].
Qed.

Lemma find_drop g files n : findFile n (dropLost g files) = if isLost (g n) then None else findFile n files.
Proof.
  unfold findFile, dropLost. induction files as [|[k c] l IH]; cbn; [by destruct (isLost _)|].
  destruct (isLost (g k)) eqn:Ek; cbn.
  - rewrite IH. destruct (Z.eqb_spec k n) as [->|]; [by rewrite Ek|done].
  - destruct (Z.eqb_spec k n) as [->|]; [by rewrite Ek|exact IH].
Qed.

Lemma framesAt_cut g files n : framesAt (cutFiles g files) n = leftOf (g n) (framesAt files n).
Proof.
  unfold framesAt. rewrite find_cut. destruct (findFile n files) as [c|]; cbn; [apply emptied_frames|].
  destruct (g n); cbn; by rewrite ?take_nil.
Qed.

Lemma cut_keys g files : fst <$> cutFiles g files = fst <$> files.
Proof. unfold cutFiles. by rewrite <-list_fmap_compose. Qed.

Lemma rawBytes_take k l : rawBytes (take k l) <= rawBytes l.
Proof. rewrite <-(take_drop k l) at 2. rewrite rawBytes_app. pose proof (rawBytes_nonneg (drop k l)). lia. Qed.

Lemma leftOf_bounds f l (P : Frame -> Prop) :
  rawBytes (leftOf f l) <= rawBytes l /\ (Forall P l -> Forall P (leftOf f l)) /\
  (StronglySorted Z.lt (Sequence <$> l) -> StronglySorted Z.lt (Sequence <$> leftOf f l)).
Proof.
  pose proof (rawBytes_nonneg l). destruct f as [|k torn|]; cbn; [done| |].
  - split; [apply rawBytes_take|]. split; [by apply Forall_take|].
    rewrite <-(take_drop k l) at 1. rewrite fmap_app. apply sorted_head.
  - split_and!; [done|by constructor|by constructor].
Qed.

Section Damage.
Variables (c : Core) (g : Z -> Fate).
Hypothesis HI : WI c.
Hypothesis HA : AI c.
Hypothesis g_rows : forall n, is_Some (findRow n (c_rows c)) -> g n = Kept.

Definition cutCore : Core := c <| c_files ::= cutFiles g |>.

Lemma cut_seg n : seg cutCore n = leftOf (g n) (seg c n).
Proof.
  unfold seg, rowFrames, cutCore. cbn. destruct (findRow n (c_rows c)) as [r|] eqn:E.
  - rewrite g_rows by done. cbn. destruct (row_Blob r); [done|]. destruct (findFile n (c_arch c)); [done|].
    rewrite framesAt_cut, g_rows by done. done.
  - apply framesAt_cut.
Qed.

Lemma cut_WI : WI cutCore.
Proof.
  constructor; try apply HI; cbn; rewrite ?cut_keys; try apply HI.
  - apply Forall_fmap, (Forall_impl _ _ _ (wi_data c HI)). intros [n fc] (Hn & Hs & Hh). cbn in *.
    destruct (leftOf_bounds (g n) (fc_frames fc) (fun _ => True)) as (_ & _ & Hs').
    unfold file_ok. cbn. rewrite emptied_frames. split; [done|]. split; [by apply Hs'|].
    unfold holds_at in *. cbn. destruct (metaOf (c_chunks c) n) as [m|].
    + destruct Hh as [Hr Hf]. destruct (leftOf_bounds (g n) (fc_frames fc) (fun f => First m <= Sequence f <= Last m)) as (Hr' & Hf' & _).
      split; [lia|by apply Hf'].
    + destruct (n =? c_chunk c).
      * destruct Hh as [Hr Hf]. destruct (leftOf_bounds (g n) (fc_frames fc) (fun f => c_first c <= Sequence f <= c_stored c)) as (Hr' & Hf' & _).
        split; [lia|by apply Hf'].
      * rewrite Hh. destruct (g n); cbn; by rewrite ?take_nil.
  - apply (Forall_impl _ _ _ (wi_placed c HI)). intros m. unfold placed. cbn. by rewrite cut_keys.
  - apply (Forall_impl _ _ _ (wi_inst c HI)). intros m (H1 & H2 & H3). split; [done|]. split; [done|]. cbn.
    rewrite find_cut. intros [x Hx]. apply H3. destruct (findFile (Number m) (c_files c)); [done|]. done.
Qed.

Lemma cut_AI : AI cutCore.
Proof.
  assert (Hseg : forall n r, findRow n (c_rows c) = Some r -> seg cutCore n = seg c n)
    by (intros n r E; rewrite cut_seg, g_rows; [done|by rewrite E]).
  constructor; try apply HA; cbn.
  - intros n a E. destruct (ai_arch c HA n a E) as [E1 E2]. split; [by rewrite find_cut, E1|done].
  - intros n r E. rewrite (Hseg n r E). destruct (ai_same c HA n r E) as [E1|E1]; [left; by rewrite find_cut, E1|right].
    rewrite framesAt_cut, g_rows by (by rewrite E). exact E1.
  - intros m r n _ _ _. by left.
  - apply (Ordered_keep c); [done|done|done|by left|]. intros n r E. left. by apply (Hseg n r).
Qed.

(** The state without a writer, the lost files taken out of it. *)
Definition survived (m : chunkMeta) : bool := negb (isLost (g (Number m))).

Definition lossCore : Core :=
  let l := leftCore cutCore in
  l <| c_files ::= dropLost g |> <| c_chunks ::= List.filter survived |>
    <| c_buffered := rawSum (List.filter survived (c_chunks l)) |>.

Lemma filter_sub {A} (p : A -> bool) (l : list A) x : x ∈ List.filter p l -> x ∈ l /\ p x = true.
Proof. intros H%list_elem_of_In. apply List.filter_In in H as [H1 H2]. split; [by apply list_elem_of_In|done]. Qed.

Lemma filter_sorted {A} (R : A -> A -> Prop) (p : A -> bool) (l : list A) :
  StronglySorted R l -> StronglySorted R (List.filter p l).
Proof.
  induction 1 as [|a l Hs IH Hf]; cbn; [constructor|]. destruct (p a); [|done]. constructor; [done|].
  apply Forall_forall. intros x [Hx _]%filter_sub. by apply (proj1 (Forall_forall _ _) Hf).
Qed.

Lemma filter_keys_sorted (p : Z * FileC -> bool) (l : list (Z * FileC)) :
  StronglySorted Z.lt (fst <$> l) -> StronglySorted Z.lt (fst <$> List.filter p l).
Proof.
  induction l as [|a l IH]; cbn; [done|]. intros [Hs Hf]%StronglySorted_inv. destruct (p a); cbn; [|by apply IH].
  constructor; [by apply IH|]. apply Forall_forall. intros x (q & -> & [Hq _]%filter_sub)%list_elem_of_fmap.
  apply (proj1 (Forall_forall _ _) Hf). by apply list_elem_of_fmap_2.
Qed.

Lemma metaOf_survived l n : isLost (g n) = false -> metaOf (List.filter survived l) n = metaOf l n.
Proof.
  intros Hg. unfold metaOf. induction l as [|m l IH]; cbn; [done|]. unfold survived at 1.
  destruct (Z.eqb_spec (Number m) n) as [E|Hne].
  - rewrite E, Hg. cbn. by rewrite (proj2 (Z.eqb_eq _ _) E).
  - destruct (isLost (g (Number m))); cbn; [done|]. destruct (Z.eqb_spec (Number m) n); [done|exact IH].
Qed.

Lemma loss_WI : WI lossCore.
Proof.
  pose proof (left_WI cutCore cut_WI) as HL. set (l := leftCore cutCore) in *.
  assert (Hnone : metaOf (c_chunks l) (c_chunk l) = None).
  { apply metaOf_none, (Forall_impl _ _ _ (wi_meta l HL)). intros m (H1 & H2 & H3 & H4 & [H5|H5]); [lia|].
    destruct H5 as [H5 H6]. unfold l in *. cbn in *. lia. }
  assert (Hcur : curIndexed lossCore = false).
  { apply curIndexed_false. cbn. apply metaOf_none. apply Forall_forall. intros m [Hm _]%filter_sub.
    by apply (proj1 (Forall_forall _ _) (proj1 (metaOf_none _ _) Hnone)). }
  constructor; rewrite ?Hcur; try (apply HL); try done; cbn -[l leftCore].
  - change (c_raw (leftCore cutCore)) with 0. lia.
  - apply filter_sorted, HL.
  - apply Forall_forall. intros m [Hm _]%filter_sub. exact (proj1 (Forall_forall _ _) (wi_meta l HL) m Hm).
  - apply filter_keys_sorted, HL.
  - apply Forall_forall. intros p [Hp Hk]%filter_sub. destruct (proj1 (Forall_forall _ _) (wi_data l HL) p Hp) as (Hn & Hs & Hh).
    split; [done|]. split; [done|]. unfold holds_at in *. cbn -[l leftCore].
    rewrite metaOf_survived by (by apply negb_true_iff in Hk). exact Hh.
  - apply Forall_forall. intros m [Hm Hk]%filter_sub. left. cbn -[l leftCore].
    destruct (proj1 (Forall_forall _ _) (wi_placed l HL) m Hm) as [Hin|Hin].
    + apply list_elem_of_fmap in Hin as (p & Ep & Hp). apply list_elem_of_fmap. exists p. split; [done|].
      apply list_elem_of_In, List.filter_In. split; [by apply list_elem_of_In|]. rewrite <-Ep. exact Hk.
    + apply findFile_elem in Hin as [a Ha]. destruct (ai_arch _ cut_AI _ _ Ha) as [Hno _].
      apply (listed_elem cutCore) in Hm as (p & Hp & Em). destruct (fileMeta_ok cutCore cut_WI p m Hp Em) as (En & _).
      rewrite En in Hno. destruct (findFile_elem (fst p) (c_files cutCore)) as [x Hx]; [by apply list_elem_of_fmap_2|congruence].
  - apply Forall_forall. intros m Hm. destruct (proj1 (Forall_forall _ _) (wi_inst l HL) m Hm) as (H1 & H2 & H3).
    split; [done|]. split; [done|]. cbn -[l leftCore]. rewrite find_drop. destruct (isLost (g (Number m))) eqn:Eg; [by intros []|].
    intros Hf. apply list_elem_of_In, List.filter_In. split; [by apply list_elem_of_In, H3|]. unfold survived. by rewrite Eg.
Qed.

Lemma loss_seg n : seg lossCore n = leftOf (g n) (seg c n).
Proof.
  rewrite <-cut_seg. unfold seg, rowFrames, framesAt.
  change (c_rows lossCore) with (c_rows c). change (c_rows cutCore) with (c_rows c).
  change (c_files lossCore) with (dropLost g (c_files cutCore)). change (c_arch lossCore) with (c_arch cutCore).
  rewrite find_drop. destruct (findRow n (c_rows c)) as [r|] eqn:E; [by rewrite g_rows|].
  destruct (g n) eqn:Eg; try done. cbn. rewrite find_cut, Eg. by destruct (findFile n (c_files c)).
Qed.

Lemma loss_AI : AI lossCore.
Proof.
  pose proof (left_AI cutCore cut_WI cut_AI) as HL. set (l := leftCore cutCore) in *.
  assert (Hg : forall n r, findRow n (c_rows l) = Some r -> g n = Kept) by (intros n r E; apply g_rows; by exists r).
  assert (Hseg : forall n r, findRow n (c_rows l) = Some r -> seg lossCore n = seg l n).
  { intros n r E. rewrite loss_seg, (Hg n r E). change (seg l n) with (seg cutCore n). by rewrite cut_seg, (Hg n r E). }
  constructor; try apply HL; change (c_files lossCore) with (dropLost g (c_files l));
    change (c_rows lossCore) with (c_rows l); change (c_arch lossCore) with (c_arch l).
  - intros n a E. destruct (ai_arch l HL n a E) as [E1 E2]. split; [|done]. rewrite find_drop, E1. by destruct (isLost _).
  - intros n r E. rewrite (Hseg n r E). unfold framesAt. rewrite find_drop, (Hg n r E). exact (ai_same l HL n r E).
  - intros m r n _ _ _. by left.
  - apply (Ordered_keep l); [done|done|done| |].
    + intros m [Hm _]%filter_sub. by left.
    + intros n r E. left. by apply (Hseg n r).
Qed.

End Damage.

(** What the crash leaves of a log state is a log state. *)
Lemma damaged_holds c fate :
  WI c -> AI c ->
  exists c', WI c' /\ AI c' /\ c_files c' = filesLeft (c_rows c) fate (c_files c) /\ c_rows c' = c_rows c /\
    c_arch c' = c_arch c /\ c_inst c' = c_inst c /\
    forall n, seg c' n = leftOf (fateOf (c_rows c) fate n) (seg c n).
Proof.
  intros HI HA. set (g := fateOf (c_rows c) fate).
  assert (Hg : forall n, is_Some (findRow n (c_rows c)) -> g n = Kept) by (intros n [r E]; unfold g, fateOf; by rewrite E).
  exists (lossCore c g). split_and!; try done.
  - by apply loss_WI.
  - by apply loss_AI.
  - by rewrite filesLeft_steps.
  - intros n. by apply loss_seg.
Qed.
