(* ===== verification/LogRecovery.v ===== *)
(** Crash recovery of a run's log, end to end: the crash, the sweeps that
    follow it, and the log read back. *)

From S2P Require Import Prelude GoRuntime LogFrame LogWriter LogArchive LogWriterCore LogWriterInv LogWriterOps LogWriterRun LogArchiveFacts LogWriterFacts LogHistory LogRead LogReadFacts LogOrphan LogCrash LogOrphanFacts LogSystemCrash.
Open Scope Z_scope.
Open Scope lw_scope.

#[local] Existing Instance allExempt | 0.

(** * A sweep no call of which fails *)

Lemma wp_io_ok (Q : bool -> LW -> Prop) s : lw_io s = [] -> Q true s -> wp io Q s.
Proof. intros E HQ. unfold wp, io. by rewrite E. Qed.

(** It returned a result and the oracle is still exhausted. *)
Definition fine {A} (P : A -> Prop) (a : A) (s : LW) : Prop := P a /\ lw_io s = [].

Ltac fine_step :=
  lazymatch goal with
  | |- wp (bind _ _) _ _ => apply wp_seq
  | |- wp (ret _) _ _ => apply wp_ret
  | |- wp io _ _ => apply wp_io_ok; [first [done|cbn; done]|]; cbn [negb andb]
  | |- wp getBuf _ _ => apply wp_getBuf
  | |- wp getSt _ _ => apply wp_getSt
  | |- wp getDB _ _ => apply wp_getDB
  | |- wp (modBuf _) _ _ => apply wp_modBuf
  | |- wp (modDB _) _ _ => apply wp_modDB
  | |- wp (if true then ?m else _) ?Q ?s => change (wp m Q s)
  | |- wp (if false then _ else ?m) ?Q ?s => change (wp m Q s)
  | |- wp (if negb true then _ else ?m) ?Q ?s => change (wp m Q s)
  | |- wp (when true ?m) ?Q ?s => change (wp m Q s)
  end; cbv beta.

Lemma syncMoves_ok l s : lw_io s = [] -> wp (syncMoves l) (fun b s' => b = true /\ s' = s) s.
Proof.
  intros E. induction l as [|n l IH]; cbn [syncMoves]; [by apply wp_ret|]. do 3 fine_step.
  destruct (existsb _ _); repeat fine_step; (apply (wp_conseq _ _ _ _ IH); intros b s' [-> ->]; by apply wp_ret).
Qed.

Lemma PutChunks_ok l s : lw_io s = [] -> wp (PutChunks l) (fun b s' => b = true /\ lw_io s' = [] /\ lw_buf s' = lw_buf s) s.
Proof. intros E. unfold PutChunks. destruct l; repeat fine_step; done. Qed.

Lemma renameAll_ok l s :
  lw_io s = [] -> NoDup l -> Forall (fun n => is_Some (findFile n (b_files (lw_buf s)))) l ->
  wp (renameAll l) (fun b s' => b = true /\ lw_io s' = []) s.
Proof.
  revert s; induction l as [|n l IH]; intros s E Hnd Hl; cbn [renameAll]; [by apply wp_ret|].
  apply NoDup_cons in Hnd as [Hn Hnd]. apply Forall_cons in Hl as [[fc Hfc] Hl].
  unfold renameMove. do 5 fine_step. rewrite Hfc. repeat fine_step. apply IH; [done|done|].
  apply Forall_forall. intros k Hk. cbn. rewrite findFile_remove. destruct (Z.eqb_spec k n) as [->|]; [done|].
  exact (proj1 (Forall_forall _ _) Hl k Hk).
Qed.

Lemma placeFiles_ok l moves s :
  lw_io s = [] -> NoDup moves -> Forall (fun n => is_Some (findFile n (b_files (lw_buf s)))) moves ->
  wp (placeFiles l moves) (fun e s' => e = None /\ lw_io s' = []) s.
Proof.
  intros E Hnd Hl. unfold placeFiles. destruct moves as [|n mv]; [by apply wp_ret|]. repeat fine_step.
  apply (wp_conseq _ _ _ _ (renameAll_ok _ s E Hnd Hl)). intros b s' [-> E']. repeat fine_step. done.
Qed.

Lemma removePaths_ok l s : lw_io s = [] -> wp (removePaths l) (fun e s' => e = None /\ lw_io s' = []) s.
Proof. revert s; induction l as [|n l IH]; intros s E; cbn [removePaths]; [by apply wp_ret|]. repeat fine_step. by apply IH. Qed.

Lemma removeEach_ok l s : lw_io s = [] -> wp (removeEach l) (fun b s' => b = true /\ lw_io s' = []) s.
Proof.
  revert s; induction l as [|n l IH]; intros s E; cbn [removeEach]; [by apply wp_ret|]. repeat fine_step.
  eapply wp_conseq; [by apply IH|]. intros b s' [-> E']. by apply wp_ret.
Qed.

Lemma RemoveAll_ok s : lw_io s = [] -> wp RemoveAll (fun b s' => b = true /\ lw_io s' = []) s.
Proof.
  intros E. unfold RemoveAll. do 3 fine_step. apply (wp_conseq _ _ _ _ (removeEach_ok _ s E)). intros b s' [-> E'].
  repeat fine_step. done.
Qed.

Lemma preserveCorrupt_ok n fc s : lw_io s = [] -> wp (preserveCorrupt n fc) (fun b s' => b = true /\ lw_io s' = []) s.
Proof. intros E. unfold preserveCorrupt. repeat fine_step. done. Qed.

Section Live.
Context `{LogEnv}.

Definition isOk {A} (r : Result WErr A) : Prop := exists a, r = Ok a.

Lemma file_row_paths l : fst <$> List.filter isFileRow l ⊆ fst <$> l.
Proof. intros n Hn. apply file_rows in Hn as (r & Hp & _). apply list_elem_of_fmap. by exists (n, r). Qed.

Lemma NoDup_filter_fst (l : list (Z * Row)) p : NoDup (fst <$> l) -> NoDup (fst <$> List.filter p l).
Proof.
  induction l as [|x l IH]; cbn; intros Hnd; [constructor|]. apply NoDup_cons in Hnd as [Hx Hnd]. destruct (p x); [|by apply IH].
  cbn. constructor; [|by apply IH]. intros Hin. apply Hx. apply list_elem_of_fmap in Hin as (y & E & Hy).
  apply elem_of_filter_list in Hy as [Hy _]. rewrite E. by apply list_elem_of_fmap_2.
Qed.

Lemma flush_ok c0 c bt ns K s :
  Sweeping c0 c bt ns K -> Rep c s -> lw_io s = [] -> wp (flush bt) (fine isOk) s.
Proof.
  intros HS HR E. unfold flush. destruct (bt_chunks bt) as [|p0 l0] eqn:Ebt; [apply wp_ret; split; [by repeat eexists|done]|].
  rewrite <- Ebt. clear p0 l0 Ebt. repeat fine_step. eapply wp_conseq; [by apply syncMoves_ok|]. intros b s1 [-> ->]. cbn [negb].
  fine_step. eapply wp_conseq; [by apply PutChunks_ok|]. intros b s2 (-> & E2 & Eb). cbn [negb]. fine_step.
  rewrite (sg_moves _ _ _ _ _ HS). eapply wp_conseq; [apply placeFiles_ok; [done| |]|].
  - apply NoDup_filter_fst, (batch_nodup _ _ (sg_is_batch _ _ _ _ _ HS)).
  - rewrite Eb, <- (proj1 HR). apply Forall_forall. intros n Hn. apply file_row_paths, list_elem_of_fmap in Hn as (p & -> & Hp).
    exact (proj1 (Forall_forall _ _) (sg_here _ _ _ _ _ HS) p Hp).
  - intros e s3 [-> E3]. fine_step. eapply wp_conseq; [by apply removePaths_ok|]. intros e s4 [-> E4].
    apply wp_ret. split; [by repeat eexists|done].
Qed.

Lemma flushIf_ok full c0 c bt ns K s :
  Sweeping c0 c bt ns K -> Rep c s -> lw_io s = [] -> wp (flushIf full bt) (fine isOk) s.
Proof.
  intros HS HR E. unfold flushIf. destruct full; [by eapply flush_ok|]. apply wp_ret. split; [by repeat eexists|done].
Qed.

(** Nothing is left behind. *)
Definition sameKept (K : list Z) (r : Result WErr (option Row * Sweep)) : Prop :=
  exists o sw, r = Ok (o, sw) /\ sw_corrupt sw = K.

Lemma salvageChunk_ok n fc sw s : lw_io s = [] -> wp (salvageChunk n fc sw) (fine (sameKept (sw_corrupt sw))) s.
Proof.
  intros E. unfold salvageChunk. cbv zeta. apply wp_seq.
  assert (Hi : forall Q : bool -> LW -> Prop, (forall b, Q b s) -> wp (if fc_torn fc then ret false else io) Q s).
  { intros Q HQ. destruct (fc_torn fc); [by apply wp_ret|by apply wp_io_ok]. }
  apply Hi. intros intact. destruct (fc_frames fc) as [|f fr].
  - destruct intact; [apply wp_ret; split; [by repeat eexists|done]|]. fine_step. eapply wp_conseq; [by apply preserveCorrupt_ok|].
    intros b s1 [-> E1]. cbn [negb]. repeat fine_step. split; [by repeat eexists|done].
  - destruct intact; repeat fine_step; (split; [by repeat eexists|done]).
Qed.

Definition keptOf (K : list Z) (r : Result WErr Sweep) : Prop := exists sw, r = Ok sw /\ sw_corrupt sw = K.

Lemma copyChunk_ok sealed c0 (HF : Found sealed c0) c n ns fc size sw s :
  Sweeping c0 c (sw_batch sw) (n :: ns) (sw_corrupt sw) -> Rep c s -> findFile n (c_files c0) = Some fc -> lw_io s = [] ->
  wp (copyChunk n size (sealed !! n) sw) (fine (keptOf (sw_corrupt sw))) s.
Proof.
  intros HS HR Hf0 E. unfold copyChunk. cbv zeta. apply wp_seq.
  apply (wp_conseq _ _ _ _ (wp_and _ _ _ _ (flushIf_ok _ c0 c _ (n :: ns) (sw_corrupt sw) s HS HR E)
    (flushIf_inv c0 (fun r s' => exists c', Rep c' s' /\ forall bt', r = Ok bt' -> Sweeping c0 c' bt' (n :: ns) (sw_corrupt sw))
       _ c _ (n :: ns) (sw_corrupt sw) s HS HR ltac:(intros r s' c' HR' _ Hr; by exists c')))).
  intros r s1 (([bt ->] & E1) & c1 & HR1 & HS1). specialize (HS1 bt eq_refl). do 4 fine_step.
  assert (Hfc : findFile n (c_files c1) = Some fc) by (rewrite <- Hf0; apply HS1; by left).
  rewrite <- (proj1 HR1), Hfc. fine_step. set (sw1 := sw <| sw_batch := bt |>).
  assert (Hrow : forall row sw2 s2, Rep c1 s2 -> lw_io s2 = [] -> sw_batch sw2 = bt -> sw_corrupt sw2 = sw_corrupt sw ->
    wp (let bt := sw_batch sw2 in
        let* fl := flushIf ((0 <? length (bt_chunks bt))%nat && (bt_size bt + blobBytes row >? archiveBatchBytes)) bt in
        match fl with
        | Err e => ret (Err e)
        | Ok bt => ret (Ok (sw2 <| sw_batch := addChunk n row (blobBytes row) bt |>))
        end) (fine (keptOf (sw_corrupt sw))) s2).
  { intros row sw2 s2 HR2 E2 Eb Ec. cbv zeta. apply wp_seq. rewrite Eb.
    apply (wp_conseq _ _ _ _ (flushIf_ok _ c0 c1 bt (n :: ns) (sw_corrupt sw) s2 HS1 HR2 E2)).
    intros r s3 [[bt3 ->] E3]. apply wp_ret. split; [by repeat eexists|done]. }
  destruct (sealed !! n) as [m|] eqn:Es; [fine_step; by apply Hrow|].
  apply (wp_conseq _ _ _ _ (wp_and _ _ _ _ (salvageChunk_ok n fc sw1 s1 E1)
    (salvageChunk_inv sealed c0 HF (fun r s' => forall row sw', r = Ok (Some row, sw') -> Rep c1 s' /\ sw_batch sw' = sw_batch sw1)
       c1 n ns fc sw1 s1 HS1 HR1 Hfc Es
       ltac:(intros r s' c' HR' _ _ Hr row sw' Er; destruct (Hr row sw' Er) as (-> & ? & _); by split)))).
  intros r s2 (((o & sw2 & -> & Ec) & E2) & Hr). destruct o as [row|].
  - destruct (Hr row sw2 eq_refl) as [HR2 Eb]. by apply Hrow.
  - apply wp_ret. split; [by repeat eexists|done].
Qed.

Lemma orphanChunk_ok sealed c0 (HF : Found sealed c0) c n ns fc sw s :
  Sweeping c0 c (sw_batch sw) (n :: ns) (sw_corrupt sw) -> Rep c s -> findFile n (c_files c0) = Some fc -> lw_io s = [] ->
  wp (orphanChunk sealed n sw) (fine (keptOf (sw_corrupt sw))) s.
Proof.
  intros HS HR Hf0 E. unfold orphanChunk. repeat fine_step.
  assert (Hfc : findFile n (c_files c) = Some fc) by (rewrite <- Hf0; apply HS; by left).
  rewrite <- (proj1 HR), Hfc. cbv zeta.
  pose proof (copyChunk_ok sealed c0 HF c n ns fc (compressedSize (fc_frames fc)) sw s HS HR Hf0 E) as Hcopy.
  destruct (sealed !! n) as [m|]; [|done]. destruct (_ <=? _); [|done]. apply wp_seq.
  apply (wp_conseq _ _ _ _ (flushIf_ok _ c0 c _ (n :: ns) (sw_corrupt sw) s HS HR E)).
  intros r s3 [[bt3 ->] E3]. apply wp_ret. split; [by repeat eexists|done].
Qed.

Lemma orphanLoop_ok sealed c0 (HF : Found sealed c0) c ns sw s :
  Sweeping c0 c (sw_batch sw) ns (sw_corrupt sw) -> Rep c s -> Forall (fun n => is_Some (findFile n (c_files c0))) ns ->
  lw_io s = [] -> wp (orphanLoop sealed ns sw) (fine (keptOf (sw_corrupt sw))) s.
Proof.
  revert c sw s; induction ns as [|n ns IH]; intros c sw s HS HR Hns E; cbn [orphanLoop].
  - apply wp_ret. split; [by repeat eexists|done].
  - apply Forall_cons in Hns as [[fc Hfc] Hns]. apply wp_seq.
    apply (wp_conseq _ _ _ _ (wp_and _ _ _ _ (orphanChunk_ok sealed c0 HF c n ns fc sw s HS HR Hfc E)
      (orphanChunk_inv sealed c0 HF (fun r s' => exists c', Rep c' s' /\ forall sw', r = Ok sw' ->
         Sweeping c0 c' (sw_batch sw') ns (sw_corrupt sw')) c n ns fc sw s HS HR Hfc
         ltac:(intros r s' c' HR' _ Hr; by exists c')))).
    intros r s1 (((sw1 & -> & Ec) & E1) & c1 & HR1 & HS1). rewrite <- Ec. by apply (IH c1); auto.
Qed.

Lemma sealedMap_some l acc :
  StronglySorted before l -> Forall (fun m => validOrphanMeta m = true /\ acc !! Number m = None) l -> is_Some (sealedMap l acc).
Proof.
  revert acc; induction l as [|m t IH]; intros acc Hs Hl; cbn [sealedMap]; [by eexists|].
  apply StronglySorted_inv in Hs as [Hs Hlt]. apply Forall_cons in Hl as [[Hv Ha] Hl]. rewrite Hv, Ha. cbn [negb].
  apply IH; [done|]. apply Forall_forall. intros x Hx. destruct (proj1 (Forall_forall _ _) Hl x Hx) as [Hxv Hxa]. split; [done|].
  destruct (proj1 (Forall_forall _ _) Hlt x Hx) as [Hn _]. rewrite lookup_insert_ne by lia. done.
Qed.

(** The index on disk can be used. *)
Definition indexFit (b : Buffer) : Prop :=
  forall ix, b_index b = Some ix -> ix_Version ix = Version /\ Forall (fun m => 0 <= Bytes m) (ix_Chunks ix).

Lemma readOrphanIndex_ok c s :
  Rep c s -> WI c -> indexFit (lw_buf s) -> lw_io s = [] -> wp readOrphanIndex (fine isOk) s.
Proof.
  intros HR HI Hfit E. unfold readOrphanIndex. repeat fine_step. specialize (Hfit). unfold indexFit in Hfit.
  pose proof (wi_inst c HI) as Hin. pose proof (wi_order c HI) as Hord.
  destruct HR as (_ & _ & _ & Ei). rewrite Ei in Hin, Hord. unfold installed in *.
  destruct (b_index (lw_buf s)) as [ix|]; [|apply wp_ret; split; [by repeat eexists|done]].
  destruct (Hfit ix eq_refl) as [Hv Hb]. repeat fine_step. rewrite Hv, Z.eqb_refl. cbn [negb].
  destruct (sealedMap_some (ix_Chunks ix) ∅ Hord) as [sealed ->]; [|apply wp_ret; split; [by repeat eexists|done]].
  apply Forall_forall. intros m Hm. destruct (proj1 (Forall_forall _ _) Hin m Hm) as ((V1 & V2 & V3) & _).
  pose proof (proj1 (Forall_forall _ _) Hb m Hm) as V4. cbn in V4. split; [|apply lookup_empty]. unfold validOrphanMeta.
  rewrite !(proj2 (Z.ltb_ge _ _)), (proj2 (Z.leb_gt _ _)), (proj2 (Z.eqb_neq _ _)) by lia. done.
Qed.

Lemma archiveOrphan_ok c s :
  Rep c s -> WI c -> AI c -> indexFit (lw_buf s) -> lw_io s = [] -> wp archiveOrphan (fun e _ => swept e = true) s.
Proof.
  intros HR HI HA Hfit E. unfold archiveOrphan. apply wp_seq.
  apply (wp_conseq _ _ _ _ (wp_and _ _ _ _ (readOrphanIndex_ok c s HR HI Hfit E)
    (readOrphanIndex_inv (fun r s' => quiet s s' /\ forall sealed, r = Ok sealed -> forall n, sealed !! n = metaOf (installed (lw_buf s)) n)
       s ltac:(intros r s' Hq Hr; by split)))).
  intros r s1 (([sealed ->] & E1) & (Eb & Ed) & Hr).
  assert (HR1 : Rep (leftCore c) s1).
  { destruct HR as (F1 & F2 & F3 & F4). unfold Rep, installed; cbn. by rewrite Eb, Ed. }
  assert (HF : Found sealed (leftCore c)).
  { apply left_found; [done|]. intros n. rewrite (Hr sealed eq_refl). f_equal. symmetry. apply HR. }
  do 3 fine_step. replace (b_files (lw_buf s1)) with (c_files c) by (rewrite Eb; apply HR).
  assert (Hns : Forall (fun n => is_Some (findFile n (c_files (leftCore c)))) (fst <$> c_files c)).
  { apply Forall_forall. intros n Hn. by apply findFile_elem. }
  apply (wp_conseq _ _ _ _ (wp_and _ _ _ _
    (orphanLoop_ok sealed _ HF _ _ (mkSweep emptyBatch [] []) s1 (left_sweeping c HI HA) HR1 Hns E1)
    (orphanLoop_inv sealed _ HF (fun r s' => exists c', Rep c' s' /\ forall sw', r = Ok sw' ->
         Sweeping (leftCore c) c' (sw_batch sw') [] (sw_corrupt sw')) _ _ (mkSweep emptyBatch [] []) s1 (left_sweeping c HI HA) HR1 Hns
         ltac:(intros r s' c' HR' _ Hr'; by exists c')))).
  intros r s2 (((sw & -> & Ec) & E2) & c2 & HR2 & HS2). specialize (HS2 sw eq_refl). cbn in Ec. fine_step.
  apply (wp_conseq _ _ _ _ (flush_ok _ _ _ _ _ s2 HS2 HR2 E2)). intros r s3 [[bt ->] E3]. rewrite Ec. cbn [bool_decide negb].
  rewrite bool_decide_true by done. cbn [negb]. fine_step.
  apply (wp_conseq _ _ _ _ (RemoveAll_ok s3 E3)). intros b s4 [-> E4]. cbn [negb]. apply wp_ret. by case_bool_decide.
Qed.

End Live.

(** * The index on disk is always fit to be read *)

Section Fit.
Context `{LogEnv}.
Hypothesis size_nonneg : forall l, 0 <= compressedSize l.

Definition sized (l : list chunkMeta) : Prop := Forall (fun m => 0 <= Bytes m) l.
Definition fit (s : LW) : Prop := indexFit (lw_buf s) /\ sized (ix_Chunks (idx (lw_w s))).
Definition keeps {A} (m : M A) : Prop := forall s, fit s -> wp m (fun _ => fit) s.

Lemma keeps_ret {A} (a : A) : keeps (ret a).
Proof. by intros s. Qed.
Lemma keeps_bind {A B} (m : M A) (k : A -> M B) : keeps m -> (forall a, keeps (k a)) -> keeps (bind m k).
Proof. intros Hm Hk s Hs. apply wp_seq. apply (wp_conseq _ _ _ _ (Hm s Hs)). intros a s' Hs'. by apply Hk. Qed.
Lemma keeps_io : keeps io.
Proof. intros s Hs. apply wp_io. by intros. Qed.
Lemma keeps_getW {A} (k : Writer -> M A) : (forall w, sized (ix_Chunks (idx w)) -> keeps (k w)) -> keeps (bind getW k).
Proof. intros Hk s Hs. apply wp_seq, wp_getW. by apply Hk; [apply Hs|]. Qed.
Lemma keeps_getBuf : keeps getBuf.
Proof. by intros s. Qed.
Lemma keeps_getSt : keeps getSt.
Proof. by intros s. Qed.
Lemma keeps_getDB : keeps getDB.
Proof. by intros s. Qed.
Lemma keeps_modW f : (forall w, sized (ix_Chunks (idx w)) -> sized (ix_Chunks (idx (f w)))) -> keeps (modW f).
Proof. intros Hf s [H1 H2]. apply wp_modW. split; [done|]. by apply Hf. Qed.
Lemma keeps_modBuf f : (forall b, b_index (f b) = b_index b) -> keeps (modBuf f).
Proof. intros Hf s [H1 H2]. apply wp_modBuf. split; [|done]. intros ix. cbn. rewrite Hf. apply H1. Qed.
Lemma keeps_modSt f : keeps (modSt f).
Proof. by intros s. Qed.
Lemma keeps_modDB f : keeps (modDB f).
Proof. by intros s. Qed.

Create HintDb keeps.
Hint Resolve keeps_ret keeps_io keeps_getBuf keeps_getSt keeps_getDB keeps_modSt keeps_modDB : keeps.

Ltac keeps_step :=
  lazymatch goal with
  | |- keeps (bind getW _) => apply keeps_getW; intros ? ?
  | |- keeps (bind _ _) => apply keeps_bind; [|intros ?]
  | |- keeps (modW _) => apply keeps_modW; intros ? ?; first [assumption|cbn; by eauto]
  | |- keeps (modBuf _) => apply keeps_modBuf; by intros ?
  | |- keeps (match ?x with _ => _ end) => destruct x
  | |- keeps _ => solve [eauto with keeps]
  end.
Ltac keeps_go := repeat keeps_step.

Lemma writeIndexSync_keeps b : keeps (writeIndexSync b).
Proof.
  intros s [H1 H2]. unfold writeIndexSync, installIndex. wp_go; (split; [|done]); try exact H1; by intros ix [= <-].
Qed.
Hint Resolve writeIndexSync_keeps : keeps.

Lemma addMeta_keeps m : 0 <= Bytes m -> keeps (addMeta m).
Proof. intros Hm. apply keeps_modW. intros w Hw. cbn. apply Forall_app. split; [done|by apply Forall_singleton]. Qed.

Lemma fileSize_nonneg n b : 0 <= fileSize n b.
Proof. unfold fileSize. by destruct (findFile n (b_files b)). Qed.

Lemma finishChunk_keeps : keeps finishChunk.
Proof. unfold finishChunk, writeIndex, setChunkErr, deferSeal, when. keeps_go. apply addMeta_keeps, fileSize_nonneg. Qed.
Hint Resolve finishChunk_keeps : keeps.

Lemma rotate_keeps : keeps rotate.
Proof. unfold rotate, discardFile, signalPressure, when. keeps_go. Qed.
Hint Resolve rotate_keeps : keeps.

Lemma evict_keeps chunks size : sized chunks -> keeps (evict chunks size).
Proof.
  induction chunks as [|m rest IH]; intros Hs; cbn [evict]; [by apply keeps_ret|]. apply Forall_cons in Hs as [_ Hs].
  keeps_go.
Qed.
Hint Resolve evict_keeps : keeps.

Lemma writeLocked_keeps now stream payload flags : keeps (writeLocked now stream payload flags).
Proof. unfold writeLocked, writeRoomed, makeRoom, writeFitted, storeFrame, markTruncated, when. keeps_go. Qed.
Hint Resolve writeLocked_keeps : keeps.

Lemma enterDegraded_keeps now e : keeps (enterDegraded now e).
Proof. unfold enterDegraded, backoff, signalPressure, when. keeps_go. Qed.
Hint Resolve enterDegraded_keeps : keeps.

Lemma recoverLocked_keeps now : keeps (recoverLocked now).
Proof.
  unfold recoverLocked, reopenChunk, clearChunkErr, abandonChunk, indexAbandonedChunk, freshChunk, backoff, writeIndex, when.
  keeps_go. apply addMeta_keeps. cbn. case_match; [apply fileSize_nonneg|done].
Qed.
Hint Resolve recoverLocked_keeps : keeps.

Lemma Sync_keeps : keeps Sync.
Proof. unfold Sync. keeps_go. Qed.
Hint Resolve Sync_keeps : keeps.

Lemma collect_keeps through chunks p m sz : keeps (collect through chunks p m sz).
Proof. revert p m sz; induction chunks as [|x l IH]; intros p m sz; cbn [collect]; keeps_go. Qed.
Lemma syncMoves_keeps l : keeps (syncMoves l).
Proof. induction l; cbn [syncMoves]; keeps_go. Qed.
Lemma PutChunks_keeps l : keeps (PutChunks l).
Proof. unfold PutChunks, when. keeps_go. Qed.
Lemma renameAll_keeps l : keeps (renameAll l).
Proof. induction l; cbn [renameAll]; unfold renameMove; keeps_go. Qed.
Lemma blobsOf_keeps l mv : keeps (blobsOf l mv).
Proof. induction l; cbn [blobsOf]; keeps_go. Qed.
Lemma removeArchived_keeps l : keeps (removeArchived l).
Proof. induction l; cbn [removeArchived]; keeps_go. Qed.
Hint Resolve collect_keeps syncMoves_keeps PutChunks_keeps renameAll_keeps blobsOf_keeps removeArchived_keeps : keeps.

Lemma placeFiles_keeps l mv : keeps (placeFiles l mv).
Proof. unfold placeFiles. keeps_go. Qed.
Hint Resolve placeFiles_keeps : keeps.

Lemma archiveBatch_keeps alive through : keeps (archiveBatch alive through).
Proof.
  unfold archiveBatch, writeIndex. keeps_go. apply keeps_modW. intros w1 Hw1. cbn. by apply Forall_drop.
Qed.
Hint Resolve archiveBatch_keeps : keeps.

Lemma logStep_keeps op : keeps (logStep op).
Proof. destruct op; cbn [logStep]; unfold capture, captureLocked, discard, Write, sealForArchive, Close, when; keeps_go. Qed.
Hint Resolve logStep_keeps : keeps.

Lemma runOps_keeps ops : keeps (runOps ops).
Proof. induction ops; cbn [runOps]; keeps_go. Qed.

(** The sweep leaves the index alone until it removes it. *)
Lemma archiveOrphan_keeps : keeps archiveOrphan.
Proof.
  assert (Hpaths : forall l, keeps (removePaths l)) by (induction l; cbn [removePaths]; keeps_go).
  assert (Hflush : forall bt, keeps (flush bt)) by (intros; unfold flush; keeps_go).
  assert (Hif : forall full bt, keeps (flushIf full bt)) by (intros; unfold flushIf; keeps_go).
  assert (Hpre : forall n c, keeps (preserveCorrupt n c)) by (intros; unfold preserveCorrupt, when; keeps_go).
  assert (Hsal : forall n c sw, keeps (salvageChunk n c sw)) by (intros; unfold salvageChunk; keeps_go).
  assert (Hcopy : forall n size m sw, keeps (copyChunk n size m sw)) by (intros; unfold copyChunk; keeps_go).
  assert (Hloop : forall sealed l sw, keeps (orphanLoop sealed l sw)).
  { intros sealed l. induction l; intros sw; cbn [orphanLoop]; unfold orphanChunk; keeps_go. }
  assert (Heach : forall l, keeps (removeEach l)) by (induction l; cbn [removeEach]; unfold when; keeps_go).
  unfold archiveOrphan, readOrphanIndex, RemoveAll, when. keeps_go. intros s [_ Hs]. split; [by intros ix [=]|done].
Qed.

Lemma runLog_fit st oracle now jobName kindName opt fsync ops :
  fit (snd (runLog st oracle now jobName kindName opt fsync ops)).
Proof.
  assert (Hk : keeps (openWriter now jobName kindName opt fsync ;; runOps ops)).
  { apply keeps_bind; [|intros _; apply runOps_keeps]. unfold openWriter, Open, OpenDegraded. keeps_go; apply keeps_modW; constructor. }
  apply (Hk (newRun st oracle)). split; [done|constructor].
Qed.

End Fit.

(** * Crashes and sweeps *)

(** The process ends: its memory, with the seals it had deferred, is gone.  When
    only the daemon dies the buffer directory stays as it is.  When the system
    goes down, chunk data and an index that were not on the disk yet may be lost:
    [fate] says what is left of each chunk file, [indexLost] whether the index
    is.  A chunk whose row is committed keeps its file. *)
Definition crash (indexLost : bool) (fate : Z -> Fate) (s : LW) : LW :=
  s <| lw_w := freshWriter EmptyString EmptyString (mkOptions 0 0 false) false |>
    <| lw_buf ::= (fun b => b <| b_files := filesLeft (a_rows (lw_db s)) fate (b_files b) |>) |>
    <| lw_buf ::= (fun b => if indexLost then b <| b_index := None |> else b) |>
    <| lw_st ::= (fun x => x <| ss_sealed := [] |>) |>.

(** What is left of the content of chunk [n]. *)
Definition remains (fate : Z -> Fate) (s : LW) (n : Z) : list Frame :=
  leftOf (fateOf (a_rows (lw_db s)) fate n) (seg (core s) n).

Section Sweeps.
Context `{LogEnv}.

(** Sweep after sweep, each under its own failures. *)
Fixpoint sweeps (oracles : list (list bool)) (s : LW) : list (option WErr) * LW :=
  match oracles with
  | [] => ([], s)
  | o :: t =>
      let '(e, s1) := archiveOrphan (s <| lw_io := o |>) in
      let '(es, s2) := sweeps t s1 in
      (e :: es, s2)
  end.

(** What the disk holds of a run: a log state with these chunks. *)
Definition Holds (c : Core) (s : LW) : Prop := Rep c s /\ WI c /\ AI c.

Lemma sweeps_nil t s s' : sweeps t s = ([], s') -> s' = s.
Proof.
  destruct t as [|o t]; cbn; [by intros [= ->]|]. destruct (archiveOrphan _) as [e s1]. by destruct (sweeps t s1).
Qed.

Lemma sweeps_inv oracles c s :
  Holds c s -> let '(es, s') := sweeps oracles s in
  exists c', Holds c' s' /\ (forall n, seg c' n = seg c n) /\ c_seq c' = c_seq c /\ c_chunk c <= c_chunk c' /\
    (noTorn (c_files c) -> noTorn (c_files c')) /\ (fit s -> fit s') /\
    (forall e, list.last es = Some e -> swept e = true -> Gone s').
Proof.
  revert c s; induction oracles as [|o t IH]; intros c s (HR & HI & HA); cbn [sweeps].
  { exists c. split_and!; try done. }
  set (s0 := s <| lw_io := o |>). destruct (archiveOrphan s0) as [e s1] eqn:Ea.
  assert (HW : exists c1, Rep c1 s1 /\ Moved (leftCore c) c1 /\ (swept e = true -> Gone s1)).
  { pose proof (archiveOrphan_inv (fun e s' => exists c', Rep c' s' /\ Moved (leftCore c) c' /\ (swept e = true -> Gone s')) c s0 HR HI HA) as HW.
    unfold wp in HW. rewrite Ea in HW. apply HW. intros e' s' c' H1 H2 H3. by exists c'. }
  assert (Hfit : fit s -> fit s1).
  { intros Hs. pose proof (archiveOrphan_keeps s0 Hs) as Hk. unfold wp in Hk. by rewrite Ea in Hk. }
  destruct HW as (c1 & HR1 & HM1 & Hg1).
  pose proof HM1 as ([Hseg HA1] & (HI1 & _) & E1 & E2 & _ & _ & Hn).
  specialize (IH c1 s1 ltac:(by split_and!)). destruct (sweeps t s1) as [es s2] eqn:Et.
  destruct IH as (c2 & HH2 & Hseg2 & E3 & E4 & Hn2 & Hf2 & Hg2). exists c2. split_and!; try done.
  - intros n. rewrite Hseg2, Hseg. done.
  - rewrite E3, E1. done.
  - rewrite E2 in E4. cbn in E4. lia.
  - intros Ht. apply Hn2, Hn. exact Ht.
  - intros Hs. apply Hf2, (Hfit Hs).
  - intros e' El He. destruct es as [|e2 es]; [|by apply (Hg2 e')]. cbn in El. injection El as <-.
    apply sweeps_nil in Et as ->. by apply Hg1.
Qed.

End Sweeps.

(** * The log read back *)

Lemma consume_blind limit maxB fs p : blind (consume limit maxB fs p).
Proof. revert p; induction fs as [|f t IH]; intros p; cbn [consume]; blind_go. Qed.
#[local] Hint Resolve consume_blind : blind.

Lemma EachChunk_blind limit maxB fuel cursor p : blind (EachChunk limit maxB fuel cursor p).
Proof. revert cursor p; induction fuel as [|k IH]; intros cursor p; cbn [EachChunk]; blind_go. Qed.

Lemma readFiles_blind limit maxB after ix entries p : blind (readFiles limit maxB after ix entries p).
Proof. revert p; induction entries as [|[n c] t IH]; intros p; cbn [readFiles]; blind_go. Qed.
#[local] Hint Resolve EachChunk_blind readFiles_blind : blind.

Lemma readContext_blind after limit maxB : blind (readContext after limit maxB).
Proof. unfold readContext. cbv zeta. blind_go. Qed.

Lemma writeFrames_blind fs after : blind (writeFrames fs after).
Proof. revert after; induction fs as [|f t IH]; intros after; cbn [writeFrames]; blind_go. Qed.
#[local] Hint Resolve readContext_blind writeFrames_blind : blind.

Lemma RawContext_blind : blind RawContext.
Proof.
  assert (Hloop : forall fuel after, blind (rawLoop fuel after)).
  { intros fuel. induction fuel as [|k IH]; intros after; cbn [rawLoop]; blind_go. }
  unfold RawContext. blind_go.
Qed.

Lemma seg_rep c s n : Rep c s -> seg c n = seg (core s) n.
Proof. intros (E1 & E2 & E3 & _). unfold seg, rowFrames. by rewrite E1, E2, E3. Qed.

Lemma readable_rep c s : Rep c s -> readable c = readable (core s).
Proof. intros (E1 & E2 & E3 & _). unfold readable, rowData, fileData, rowFrames. by rewrite E1, E2, E3. Qed.

(** The download of a run without a writer. *)
Lemma download_rep c s io' :
  Rep c s -> WI c -> @AI noneExempt c ->
  exists r, fst (RawContext (s <| lw_io := io' |>)) = Some r /\ (io' = [] -> noErr r) /\
            forall b, r = Ok b -> b = concat (render <$> readable c).
Proof.
  intros HR HI HA. set (s0 := s <| lw_io := io' |>). assert (HR0 : Rep c s0) by exact HR.
  pose proof (core_ghost c s0 HR0) as E.
  apply (wp_ghost RawContext (fun r _ => exists r', r = Some r' /\ (io' = [] -> noErr r') /\
    forall b, r' = Ok b -> b = concat (render <$> readable c)) c s0 RawContext_blind HR0).
  apply RawContext_core; rewrite ?E; [done|done|]. intros r s' _ Hr Hn s2 _ _. by exists r.
Qed.

(** * Theorems *)

Section Theorems.
Context `{LogEnv}.

Lemma crash_rep (lost : bool) fate s c :
  c_files c = filesLeft (a_rows (lw_db s)) fate (b_files (lw_buf s)) -> c_rows c = a_rows (lw_db s) ->
  c_arch c = a_files (lw_db s) -> c_inst c = (if lost then [] else installed (lw_buf s)) -> Rep c (crash lost fate s).
Proof. intros E1 E2 E3 E4. unfold Rep, crash, installed in *. by destruct lost. Qed.

(** The index lost from a log state. *)
Definition unindexed (lost : bool) (c : Core) : Core := if lost then c <| c_inst := [] |> else c.

Lemma unindexed_ok lost c :
  WI c -> @AI noneExempt c -> WI (unindexed lost c) /\ AI (unindexed lost c) /\ forall n, seg (unindexed lost c) n = seg c n.
Proof.
  intros HI HA. pose proof (AI_all _ HA) as HA'. destruct lost; split_and!; try done.
  - constructor; try apply HI; constructor.
  - constructor; try apply HA'. constructor; apply HA'.
Qed.

Lemma crash_holds lost fate s : WI (core s) -> @AI noneExempt (core s) ->
  exists c, Holds c (crash lost fate s) /\ forall n, seg c n = remains fate s n.
Proof.
  intros HI HA. destruct (unindexed_ok lost _ HI HA) as (HI' & HA' & Hseg).
  destruct (damaged_holds _ fate HI' HA') as (c & HI2 & HA2 & E1 & E2 & E3 & E4 & E5). exists c. split; [split_and!; try done|].
  - apply crash_rep; rewrite ?E1, ?E2, ?E3, ?E4; by destruct lost.
  - intros n. rewrite E5, Hseg. unfold remains. by destruct lost.
Qed.

(** The daemon's crash leaves the chunks alone. *)
Lemma daemon_holds lost s : WI (core s) -> @AI noneExempt (core s) ->
  exists c, Holds c (crash lost allKept s) /\ (forall n, seg c n = seg (core s) n) /\ c_seq c = c_seq (core s) /\
            c_chunk c = c_chunk (core s) /\ c_files c = c_files (core s).
Proof.
  intros HI HA. destruct (unindexed_ok lost _ HI HA) as (HI' & HA' & Hseg).
  exists (unindexed lost (core s)). split; [split_and!; try done|by destruct lost].
  apply crash_rep; [rewrite filesLeft_kept|..]; by destruct lost.
Qed.



(** C5: a crash of the daemon loses no acknowledged output.  For every history
    that did not mark the run truncated and in which no direct [Write] was refused
    (its caller was told), after a crash that leaves the chunk files as they were —
    the daemon's, or a system crash that took at most the index — and any sweeps of
    which the last succeeded, the buffer is gone and the raw download of the run is
    every line the callers were told is stored, once and in order. *)
Theorem crash_recovery st oracle now jobName kindName opt fsync ops rs s lost oracles es s' e io' :
  runLog st oracle now jobName kindName opt fsync ops = (rs, s) ->
  writesOk ops rs = true -> truncated (lw_w s) = false ->
  sweeps oracles (crash lost allKept s) = (es, s') -> list.last es = Some e -> swept e = true ->
  Gone s' /\
  exists r, fst (RawContext (s' <| lw_io := io' |>)) = Some r /\ (io' = [] -> noErr r) /\
            forall b, r = Ok b -> b = concat (render <$> accepted 0 ops rs).
Proof.
  intros E Hok Ht Es El He. pose proof (runLog_inv st oracle now jobName kindName opt fsync ops) as HR. rewrite E in HR.
  destruct HR as ((HI & _) & HA & _ & HW). pose proof (HW Hok Ht) as HC.
  destruct (daemon_holds lost s HI HA) as (c & HH & Hseg & Eq & Ec & Ef). pose proof (sweeps_inv oracles c _ HH) as HS. rewrite Es in HS.
  destruct HS as (c' & (HR' & HI' & HA') & Hseg' & Eq' & Ec' & Hn & _ & Hg). pose proof (Hg e El He) as Hgone. split; [exact Hgone|].
  pose proof (AI_none c' HA' (eq_trans (proj1 HR') (proj1 (proj2 Hgone)))) as HA0.
  destruct (wi_seq _ HI) as (_ & _ & Hc0).
  assert (HC' : Clean c' (accepted 0 ops rs)).
  { constructor; [done|apply Hn; rewrite Ef; apply HC|rewrite Eq', Eq; apply HC| |apply HC].
    rewrite <- (cl_total _ _ HC). unfold total. replace (c_chunk c') with (c_chunk (core s) + (c_chunk c' - c_chunk (core s))) by lia.
    rewrite concat_range_app by lia. rewrite (concat_range_nil (seg c') (1 + _)), app_nil_r.
    - apply concat_range_ext. intros n _. by rewrite Hseg', Hseg.
    - intros n Hrange. rewrite Hseg', Hseg. apply (@empty_above noneExempt (core s)); [done|done|lia]. }
  rewrite <- (readable_total _ _ HC' HI'). by apply download_rep.
Qed.

End Theorems.

(** * The run of the demonstration, crashed *)

#[local] Existing Instance demoEnv.

Abbreviation liveOps := [OpCapture zeroTime Stdout [97; 98] 0; OpCapture zeroTime Stderr [99] 0; OpSeal; OpBatch true 1;
  OpWrite zeroTime System [100] 0].
Abbreviation liveRun := (runLog demoStore demoOracle zeroTime EmptyString EmptyString demoOpt false liveOps).

(** The writer dies with a sealed chunk stored twice and an open one; a first
    sweep fails in the database, the second recovers. *)
Abbreviation crashedRun := (sweeps [repeat true 12 ++ [false]; []] (crash true allKept (snd liveRun))).

Example demo_sweeps :
  fst crashedRun = [Some errArchiveDB; None] /\ fst <$> a_rows (lw_db (snd crashedRun)) = [1; 2] /\
  b_files (lw_buf (snd crashedRun)) = [].
Proof. vm_compute. by split_and!. Qed.

(** The system goes down and takes the data of the open chunk. *)
Abbreviation tornOff := (fun n : Z => if n =? 2 then Cut 0 true else Kept).
Abbreviation powerLoss := (sweeps [[]] (crash true tornOff (snd liveRun))).



(** Witness of [crash_recovery]. *)
Lemma crash_recovery_witness :
  writesOk liveOps (fst liveRun) = true /\ truncated (lw_w (snd liveRun)) = false /\
  list.last (fst crashedRun) = Some None /\ swept None = true /\ Gone (snd crashedRun) /\
  exists r, fst (RawContext ((snd crashedRun) <| lw_io := [] |>)) = Some r /\ (@nil bool = [] -> noErr r) /\
            forall b, r = Ok b -> b = concat (render <$> accepted 0 liveOps (fst liveRun)).
Proof.
  assert (H1 : writesOk liveOps (fst liveRun) = true) by (vm_compute; reflexivity).
  assert (H2 : truncated (lw_w (snd liveRun)) = false) by (vm_compute; reflexivity).
  assert (H3 : list.last (fst crashedRun) = Some None) by (vm_compute; reflexivity).
  assert (H4 : swept None = true) by reflexivity.
  split; [exact H1|]. split; [exact H2|]. split; [exact H3|]. split; [exact H4|].
  exact (crash_recovery demoStore demoOracle zeroTime EmptyString EmptyString demoOpt false liveOps _ _ true
           [repeat true 12 ++ [false]; []] _ _ _ [] (surjective_pairing liveRun) H1 H2 (surjective_pairing crashedRun) H3 H4).
Defined.
