(* ===== verification/LogOwner.v ===== *)
(** Ownership of runs, run locks and the background archiver
    (src/internal/logstore/logstore.go, coordination.go; [SweepArchiveFiles] of
    archive.go and [pruneSealed] of budget.go).

    Every goroutine is a program [prog] over operations [op]: an operation is
    one critical section of [Store.mu], one channel or lock operation, or one
    piece of I/O.  [exec] gives each its effect on the shared state, and [step]
    interleaves any number of goroutines.  A goroutine blocked in an operation
    has no step; one that sleeps on the condition variable [released] or has
    announced itself on a read-write lock is recorded in the state.

    The I/O under a run's lock is one operation here, with any outcome: its
    content is the subject of LogWriter, LogArchive, LogOrphan and LogRead, and
    [io_race_free] (LogOwnerFacts) is why it may be one operation.  [Writer.mu] is
    only ever taken inside the run lock or for a few field accesses, and is left
    out; so are the coalesced hint of [signalPressure] and the group sync that
    may follow a write, which takes neither a run lock nor [Store.mu]. *)

From S2P Require Import Prelude LogWriter LogArchive.
Open Scope Z_scope.

Abbreviation RunID := string (only parsing).
Abbreviation Loc := nat (only parsing).
Abbreviation Tid := nat (only parsing).

(** A context that never ends, the archiver's own, and those of callers. *)
Inductive Ctx := Background | ArchiverCtx | CallerCtx (n : nat).

#[global] Instance Ctx_eq : EqDecision Ctx.
Proof. solve_decision. Defined.
#[global] Instance Ctx_countable : Countable Ctx.
Proof.
  refine (inj_countable'
    (fun c => match c with Background => inl true | ArchiverCtx => inl false | CallerCtx n => inr n end)
    (fun x => match x with inl true => Background | inl false => ArchiverCtx | inr n => CallerCtx n end) _).
  by intros [].
Defined.

(** * Operations *)

(** A directory entry: its name and whether it is a directory. *)
Abbreviation Entry := (string * bool)%type (only parsing).

(** I/O on the buffers, the archive directory and the database. *)
Inductive disk : Type -> Type :=
| archiveOrphan (c : Ctx) (id : RunID) : disk (option WErr)
| loadShortRun (id : RunID) : disk (option (Z * Z))
| PutRuns (c : Ctx) (ids : list RunID) : disk (option WErr)
| RemoveAll (id : RunID) : disk (option WErr)
| DeleteRunRows (c : Ctx) (ids : list RunID) : disk (option WErr)
| quarantineRename (id : RunID) : disk (option WErr)
| openBuffer (id : RunID) : disk (option WErr)
| writeBuffer (id : RunID) : disk (option WErr)
| closeBuffer (id : RunID) : disk (option WErr)
| sealBuffer (id : RunID) : disk (Result WErr Z)
| archiveBatchLocked (c : Ctx) (id : RunID) (through : Z) : disk (Result WErr bool)
| readPage (id : RunID) : disk (option WErr)
| removeUnreferenced (c : Ctx) (id : RunID) : disk (option WErr)
| removeBuffer (id : RunID) : disk (Result WErr Z)
| ReadDir : disk (Result WErr (list Entry))
| ReadFilesDir : disk (Result WErr (list Entry))
| EntryInfo (id : RunID) : disk (Result WErr Z).

(** The operations of a goroutine on what it shares with others. *)
Inductive op : Type -> Type :=
| Claim (id : RunID) : op bool
| AfterFunc (c : Ctx) : op unit
| StopFunc : op unit
| ClaimWait (c : Ctx) (id : RunID) : op (option WErr)
| Release (id : RunID) : op bool
| Enqueue (id : RunID) : op bool
| AcquireSlot (c : Ctx) : op (option WErr)
| FreeSlot : op unit
| RefLock (id : RunID) : op Loc
| TryLock (id : RunID) (l : Loc) : op bool
| Lock (id : RunID) (l : Loc) (exclusive : bool) : op unit
| Unlock (id : RunID) (l : Loc) (exclusive : bool) : op unit
| UnrefLock (id : RunID) (l : Loc) : op unit
| Active (id : RunID) : op bool
| Register (id : RunID) : op unit
| Unregister (id : RunID) : op unit
| Writers : op (list RunID)
| TakeBatch : op (list RunID * bool)
| Swept : op unit
| AwaitWake : op bool
| QueueEmpty : op bool
| ClaimBatch (ids : list RunID) : op (list RunID)
| CtxErr (c : Ctx) : op (option WErr)
| RecordResult (id : RunID) (cause : option WErr) : op bool
| AwaitSync (c : Ctx) : op (option WErr)
| StopBegin : op bool
| AwaitWorkers (c : Ctx) : op (option WErr)
| CancelArchiver : op unit
| WorkerDone : op unit
| IO {X} (d : disk X) : op X.

(** Code between operations.  [Loop body k] repeats [body] until it returns. *)
Inductive prog (A : Type) : Type :=
| Ret (a : A)
| Vis {X : Type} (o : op X) (k : X -> prog A)
| Loop {R : Type} (body : prog (option R)) (k : R -> prog A).
Arguments Ret {A} a.
Arguments Vis {A X} o k.
Arguments Loop {A R} body k.

Fixpoint pbind {A B} (p : prog A) (f : A -> prog B) : prog B :=
  match p with
  | Ret a => f a
  | Vis o k => Vis o (fun x => pbind (k x) f)
  | Loop body k => Loop body (fun r => pbind (k r) f)
  end.

Definition do {X} (o : op X) : prog X := Vis o Ret.

Declare Scope prog_scope.
Delimit Scope prog_scope with prog.
Notation "'let*' x := m 'in' k" := (pbind m (fun x => k))
  (at level 10, x name, k at level 200) : prog_scope.
Notation "m ;; k" := (pbind m (fun _ => k)) (at level 100, right associativity) : prog_scope.
Open Scope prog_scope.

(** * The shared state *)

(** A [sync.RWMutex] and its reference count: who holds it, and the goroutines
    that wait for it exclusively, which keep new readers out. *)
Record RunLock := mkRunLock {
  rl_writer : option Tid;
  rl_readers : gset Tid;
  rl_pending : gset Tid;
  rl_refs : Z;
}.
#[global] Instance RunLock_eta : Eta RunLock :=
  fun r => mkRunLock (rl_writer r) (rl_readers r) (rl_pending r) (rl_refs r).

(** [Store], as far as goroutines share it.  [locks] is the heap of lock
    objects, [runLocks] the map from runs to them.  [asleep] are the goroutines
    in [released.Wait], [hooks] the functions registered with
    [context.AfterFunc], [dead] the contexts that ended.  The
    last four fields are history.  [due]: the runs the archiver has accepted by
    name and whose outcome is not recorded yet; [spilled]: those it accepted with
    a full queue, until an orphan sweep for the overflow begins; [refused]: due
    runs that were released with a deferral after the stop, when the queue takes
    nothing any more; [late]: a [StopArchiver] ran out of time before the workers
    were done. *)
Record Shared := mkShared {
  writers : gset RunID;
  owners : gset RunID;
  deferred : gset RunID;
  asleep : gset Tid;
  hooks : gmap Tid Ctx;
  dead : gset Ctx;
  archiveSlots : Z;
  runLocks : gmap RunID Loc;
  locks : gmap Loc RunLock;
  orphanFailures : gmap RunID Z;
  running : bool;
  queue : list RunID;
  queued : gset RunID;
  overflow : bool;
  overflowTotal : Z;
  sweeping : bool;
  wake : bool;
  stopped : bool;
  workers : Z;
  due : gset RunID;
  spilled : gset RunID;
  refused : gset RunID;
  late : bool;
}.
#[global] Instance Shared_eta : Eta Shared := fun s =>
  mkShared (writers s) (owners s) (deferred s) (asleep s) (hooks s) (dead s) (archiveSlots s)
    (runLocks s) (locks s) (orphanFailures s) (running s) (queue s) (queued s) (overflow s)
    (overflowTotal s) (sweeping s) (wake s) (stopped s) (workers s) (due s)
    (spilled s) (refused s) (late s).

(** [New]. *)
Definition New : Shared :=
  mkShared ∅ ∅ ∅ ∅ ∅ ∅ 0 ∅ ∅ ∅ false [] ∅ false 0 false false false 0 ∅ ∅ ∅ false.

Definition archiveWorkers : Z := 2.
Definition maxArchiveQueue : Z := 4096.
Definition archiveRunBatch : nat := 32.
Definition orphanQuarantineAfter : Z := 3.
#[global] Arguments archiveRunBatch : simpl never.

(** * Critical sections *)

(** ** Ownership *)

Definition claim (id : RunID) (s : Shared) : bool * Shared :=
  if decide (id ∈ owners s) then (false, s) else (true, s <| owners ::= union {[id]} |>).

(** [claimWaitContext] with the mutex held, when it does not have to wait. *)
Definition claimWaited (c : Ctx) (id : RunID) (s : Shared) : option WErr * Shared :=
  if decide (c ∈ dead s) then (Some errCanceled, s)
  else (None, s <| owners ::= union {[id]} |>).

(** The first section of [release]: the deferral it picks up is its result. *)
Definition release (id : RunID) (s : Shared) : bool * Shared :=
  (bool_decide (id ∈ deferred s),
   s <| owners ::= fun o => o ∖ {[id]} |> <| deferred ::= fun o => o ∖ {[id]} |> <| asleep := ∅ |>).

(** ** The queue *)

Definition enqueue (id : RunID) (s : Shared) : bool * Shared :=
  if negb (running s) then (false, s <| refused ::= union ({[id]} ∩ due s) |>) else
  let s :=
    if decide (id ∈ queued s) then s <| due ::= union {[id]} |>
    else if maxArchiveQueue <=? Z.of_nat (length (queue s))
    then s <| overflow := true |> <| overflowTotal ::= Z.add 1 |>
           <| due ::= fun o => o ∖ {[id]} |> <| spilled ::= union {[id]} |>
    else s <| queued ::= union {[id]} |> <| queue ::= fun q => q ++ [id] |> <| due ::= union {[id]} |> in
  (true, s <| wake := true |>).

(** The first section of a turn of [archiveLoop]: a batch, or the task of
    sweeping, or nothing. *)
Definition takeBatch (s : Shared) : (list RunID * bool) * Shared :=
  let live := bool_decide (ArchiverCtx ∉ dead s) in
  if (0 <? length (queue s))%nat && live then
    let n := Nat.min (length (queue s)) archiveRunBatch in
    let batch := take n (queue s) in
    ((batch, false),
     s <| queue ::= drop n |> <| queued ::= fun o => o ∖ list_to_set batch |>)
  else if overflow s && negb (sweeping s) && live && running s then
    (([], true), s <| overflow := false |> <| sweeping := true |> <| spilled := ∅ |>)
  else (([], false), s).

(** The first section of [archiveSealedBatch]. *)
Fixpoint claimBatch (ids : list RunID) (s : Shared) : list RunID * Shared :=
  match ids with
  | [] => ([], s)
  | id :: t =>
      if decide (id ∈ owners s) then claimBatch t (s <| deferred ::= union {[id]} |>)
      else let '(owned, s) := claimBatch t (s <| owners ::= union {[id]} |>) in (id :: owned, s)
  end.

(** The section of [recordOrphanResult]: whether to quarantine the buffer. *)
Definition recordResult (id : RunID) (cause : option WErr) (s : Shared) : bool * Shared :=
  let s := s <| due ::= fun o => o ∖ {[id]} |> in
  match cause with
  | Some errCanceled => (false, s)
  | None | Some errArchiveDB | Some errChunkQuarantined => (false, s <| orphanFailures ::= delete id |>)
  | Some _ =>
      let failures := default 0 (orphanFailures s !! id) + 1 in
      let s := s <| orphanFailures ::= <[id := failures]> |> in
      if orphanQuarantineAfter <=? failures
      then (true, s <| orphanFailures ::= delete id |>)
      else (false, s)
  end.

(** ** Run locks *)

Definition refRunLock (id : RunID) (s : Shared) : Loc * Shared :=
  match runLocks s !! id with
  | Some l => (l, s <| locks ::= alter (fun k => k <| rl_refs ::= Z.add 1 |>) l |>)
  | None =>
      let l := fresh (dom (locks s)) in
      (l, s <| runLocks ::= <[id := l]> |> <| locks ::= <[l := mkRunLock None ∅ ∅ 1]> |>)
  end.

(** The section at the end of [unlockRun]. *)
Definition unrefRunLock (id : RunID) (l : Loc) (s : Shared) : Shared :=
  let s := s <| locks ::= alter (fun k => k <| rl_refs ::= fun n => n - 1 |>) l |> in
  match locks s !! l with
  | Some k => if rl_refs k =? 0 then s <| runLocks ::= delete id |> else s
  | None => s
  end.

(** No one holds the lock. *)
Definition lockFree (k : RunLock) : bool :=
  bool_decide (rl_writer k = None) && bool_decide (rl_readers k = ∅).

(** [RWMutex]: whether an acquisition succeeds now, and its effect. *)
Definition canTry (k : RunLock) : bool := lockFree k && bool_decide (rl_pending k = ∅).
Definition canLock (i : Tid) (exclusive : bool) (k : RunLock) : bool :=
  if exclusive then lockFree k && bool_decide (i ∈ rl_pending k)
  else bool_decide (rl_writer k = None) && bool_decide (rl_pending k = ∅).
Definition locked (i : Tid) (exclusive : bool) (k : RunLock) : RunLock :=
  if exclusive then k <| rl_writer := Some i |> <| rl_pending ::= fun o => o ∖ {[i]} |>
  else k <| rl_readers ::= union {[i]} |>.
Definition unlocked (i : Tid) (exclusive : bool) (k : RunLock) : RunLock :=
  if exclusive then k <| rl_writer := None |> else k <| rl_readers ::= fun o => o ∖ {[i]} |>.

(** ** Starting and stopping *)

(** [StartArchiver] up to the [go] statements. *)
Definition startArchiver (db : bool) (s : Shared) : Shared :=
  if running s || negb db then s else
  s <| running := true |> <| queue := [] |> <| queued := ∅ |> <| wake := false |>
    <| stopped := false |> <| workers ::= Z.add archiveWorkers |>.

(** The section of [StopArchiver] that closes [stop]. *)
Definition stopBegin (s : Shared) : bool * Shared :=
  if running s then (true, s <| running := false |> <| stopped := true |>) else (false, s).

(** * Goroutines *)

(** [defer p]: [p] runs when the rest is done. *)
Definition deferring {A} (p : prog unit) (body : prog A) : prog A :=
  let* a := body in p;; Ret a.

(** [for range]: one turn per element, until a turn returns from the loop. *)
Fixpoint forEach {A R} (l : list A) (turn : A -> prog (option R)) : prog (option R) :=
  match l with
  | [] => Ret None
  | x :: t => let* r := turn x in match r with Some r => Ret (Some r) | None => forEach t turn end
  end.

(** One turn per element and no early return. *)
Fixpoint forAll {A} (l : list A) (turn : A -> prog unit) : prog unit :=
  match l with
  | [] => Ret tt
  | x :: t => turn x;; forAll t turn
  end.

(** ** Run locks (coordination.go) *)

Definition lockRun (id : RunID) (exclusive : bool) : prog Loc :=
  let* l := do (RefLock id) in do (Lock id l exclusive);; Ret l.

Definition lockRunTimed (id : RunID) : prog Loc :=
  let* l := do (RefLock id) in
  let* ok := do (TryLock id l) in
  (if ok : bool then Ret tt else do (Lock id l true));; Ret l.

Definition unlockRun (id : RunID) (l : Loc) (exclusive : bool) : prog unit :=
  do (Unlock id l exclusive);; do (UnrefLock id l).

(** [lock := s.lockRun(id, true); defer s.unlockRun(id, lock, true)]. *)
Definition withRun {A} (id : RunID) (exclusive : bool) (body : prog A) : prog A :=
  let* l := lockRun id exclusive in deferring (unlockRun id l exclusive) body.

(** ** Claims *)

Definition claimWaitContext (c : Ctx) (id : RunID) : prog (option WErr) :=
  do (AfterFunc c);; deferring (do StopFunc) (do (ClaimWait c id)).

Definition claimWait (id : RunID) : prog unit := claimWaitContext Background id;; Ret tt.

Definition releaseRun (id : RunID) : prog unit :=
  let* again := do (Release id) in
  if again : bool then do (Enqueue id);; Ret tt else Ret tt.

Section Store.
(** Whether an archive is attached ([s.db != nil]). *)
Variable db : bool.

(** ** Writers and readers *)

Definition Open (id : RunID) : prog (option WErr) :=
  withRun id true (
    let* e := do (IO (openBuffer id)) in
    match e with
    | Some e => Ret (Some e)
    | None => do (Register id);; Ret None
    end).

(** [enterDegraded] only changes the new writer. *)
Definition OpenDegraded (id : RunID) : prog unit := withRun id true (do (Register id)).

Definition Write (id : RunID) : prog (option WErr) :=
  let* l := lockRunTimed id in
  let* e := do (IO (writeBuffer id)) in
  unlockRun id l true;; Ret e.

Definition ReadContext (id : RunID) : prog (option WErr) := withRun id false (do (IO (readPage id))).

Definition writerClose (id : RunID) : prog (option WErr) := withRun id true (do (IO (closeBuffer id))).

(** ** One run's archival *)

Definition archiveOwned (c : Ctx) (id : RunID) : prog (option WErr) :=
  let* e := do (AcquireSlot c) in
  match e with
  | Some e => Ret (Some e)
  | None =>
      deferring (do FreeSlot) (withRun id true (
        let* active := do (Active id) in
        if active : bool then Ret None else do (IO (archiveOrphan c id))))
  end.

Definition recordOrphanResult (id : RunID) (cause : option WErr) : prog unit :=
  let* q := do (RecordResult id cause) in
  if q : bool then withRun id true (do (IO (quarantineRename id)));; Ret tt else Ret tt.

(** [Close] and [Seal]. *)
Definition finalize (id : RunID) (async : bool) : prog (option WErr) :=
  let* active := do (Active id) in
  if negb active then Ret None else
  let* e := writerClose id in
  let* l := lockRun id true in
  do (Unregister id);; unlockRun id l true;;
  if bool_decide (is_Some e) || negb db then Ret e else
  let* queued := (if async then do (Enqueue id) else Ret false) in
  if queued : bool then Ret None else
  claimWait id;; deferring (releaseRun id) (archiveOwned Background id).

(** ** The checkpoint of a live writer *)

Definition sealForArchive (id : RunID) : prog (Result WErr Z) := withRun id true (do (IO (sealBuffer id))).

Definition archiveWriter (c : Ctx) (id : RunID) (through : Z) : prog (option WErr) :=
  Loop (
    let* e := do (AcquireSlot c) in
    match e with
    | Some e => Ret (Some (Some e))
    | None =>
        let* l := lockRun id true in
        let* r := do (IO (archiveBatchLocked c id through)) in
        unlockRun id l true;; do FreeSlot;;
        match r with
        | Err e => Ret (Some (Some e))
        | Ok more => Ret (if more : bool then None else Some None)
        end
    end) Ret.

Definition FlushContext (c : Ctx) (id : RunID) : prog (option WErr) :=
  let* e := claimWaitContext c id in
  match e with
  | Some e => Ret (Some e)
  | None =>
      deferring (releaseRun id) (
        let* r := sealForArchive id in
        match r with
        | Err e => Ret (Some e)
        | Ok through => if (through =? 0) || negb db then Ret None else archiveWriter c id through
        end)
  end.

Definition FlushActiveContext (c : Ctx) : prog (option WErr) :=
  if negb db then Ret None else
  let* ids := do Writers in
  let* r := forEach ids (fun id =>
    let* e := do (CtxErr c) in
    match e with
    | Some e => Ret (Some e)
    | None =>
        let* active := do (Active id) in
        if negb active then Ret None else
        let* e := FlushContext c id in
        match e with
        | Some _ => do (CtxErr c)
        | None => Ret None
        end
    end) in
  Ret r.

(** ** The orphan sweep *)

Definition hidden (name : string) : bool := String.prefix "." name.

Fixpoint sweepEntries (c : Ctx) (l : list Entry) (errs : list WErr) : prog (list WErr) :=
  match l with
  | [] => Ret errs
  | (id, isDir) :: t =>
      let* e := do (CtxErr c) in
      match e with
      | Some e => Ret (errs ++ [e])
      | None =>
          if negb isDir || hidden id then sweepEntries c t errs else
          let* active := do (Active id) in
          let* mine := (if active : bool then Ret false else do (Claim id)) in
          if negb mine then sweepEntries c t errs else
          let* e := archiveOwned c id in
          recordOrphanResult id e;; releaseRun id;;
          sweepEntries c t (errs ++ option_list e)
      end
  end.

Definition ArchiveOrphansContext (c : Ctx) : prog (list WErr) :=
  if negb db then Ret [] else
  let* entries := do (IO ReadDir) in
  match entries with
  | Err e => Ret [e]
  | Ok entries => sweepEntries c entries []
  end.

(** ** Batches of sealed runs *)

(** The loop of [archiveShortRuns] filling its batch: the runs taken with their
    locks, held from here on, and the rest. *)
Fixpoint gatherShort (ids : list RunID) (batch : list (RunID * Loc)) (bytes chunks : Z) (rest : list RunID)
    : prog (list (RunID * Loc) * list RunID) :=
  match ids with
  | [] => Ret (batch, rest)
  | id :: t =>
      let* l := lockRun id true in
      let* active := do (Active id) in
      if active : bool then unlockRun id l true;; gatherShort t batch bytes chunks rest else
      let* r := do (IO (loadShortRun id)) in
      match r with
      | Some (size, n) =>
          if (0 <? length batch)%nat &&
             ((archiveBatchBytes <? bytes + size) || (Z.of_nat archiveBatchChunks <? chunks + n))
          then unlockRun id l true;; gatherShort t batch bytes chunks (rest ++ [id])
          else gatherShort t (batch ++ [(id, l)]) (bytes + size) (chunks + n) rest
      | None => unlockRun id l true;; gatherShort t batch bytes chunks (rest ++ [id])
      end
  end.

Definition unlockBatch (batch : list (RunID * Loc)) : prog unit :=
  forAll batch (fun r => unlockRun r.1 r.2 true).

(** The transaction and the removal of the buffers it stored. *)
Fixpoint removeStored (ids : list RunID) : prog (list (RunID * option WErr)) :=
  match ids with
  | [] => Ret []
  | id :: t =>
      let* e := do (IO (RemoveAll id)) in
      let* rs := removeStored t in
      Ret ((id, e) :: rs)
  end.

(** What [recordOrphanResult] makes of [errArchiveDB] wrapped around [e]: the
    end of the context is looked for first. *)
Definition archiveFailure (e : WErr) : WErr :=
  match e with errCanceled => errCanceled | _ => errArchiveDB end.

(** The results are a map in the code, recorded in any order; here in the order
    of the batch. *)
Definition storeBatch (c : Ctx) (ids : list RunID) : prog (list (RunID * option WErr)) :=
  match ids with
  | [] => Ret []
  | _ =>
      let* e := do (IO (PutRuns c ids)) in
      match e with
      | Some e => Ret ((fun id => (id, Some (archiveFailure e))) <$> ids)
      | None => removeStored ids
      end
  end.

(** The deferred calls run last to first: the run locks, the results, the slot. *)
Definition archiveShortRuns (c : Ctx) (ids : list RunID) : prog (list RunID) :=
  let* e := do (AcquireSlot c) in
  match e with
  | Some _ => Ret ids
  | None =>
      let* gathered := gatherShort ids [] 0 0 [] in
      let '(batch, rest) := gathered in
      let* results := storeBatch c batch.*1 in
      unlockBatch batch;;
      forAll results (fun r => recordOrphanResult r.1 r.2);;
      do FreeSlot;; Ret rest
  end.

Definition archiveSealedBatch (c : Ctx) (ids : list RunID) : prog unit :=
  let* owned := do (ClaimBatch ids) in
  let* rest := (if (1 <? length owned)%nat then archiveShortRuns c owned else Ret owned) in
  forAll rest (fun id => let* e := archiveOwned c id in recordOrphanResult id e);;
  forAll owned releaseRun.

(** ** The background workers *)

Definition archiveTurn : prog (option unit) :=
  let* task := do TakeBatch in
  let '(batch, sweep) := task in
  if sweep : bool then ArchiveOrphansContext ArchiverCtx;; do Swept;; Ret None else
  match batch with
  | [] =>
      let* woken := do AwaitWake in
      if woken : bool then Ret None else
      let* empty := do QueueEmpty in
      if empty : bool then Ret (Some tt) else
      let* e := do (CtxErr ArchiverCtx) in
      Ret (if e is Some _ then Some tt else None)
  | _ => archiveSealedBatch ArchiverCtx batch;; Ret None
  end.

Definition archiveLoop : prog unit := Loop archiveTurn (fun _ => do WorkerDone).

(** The group sync runs on a goroutine of its own, which [StopArchiver] abandons
    when its context ends. *)
Definition StopArchiver (c : Ctx) : prog (option WErr) :=
  let* syncErr := do (AwaitSync c) in
  let* was := do StopBegin in
  if negb was then Ret syncErr else
  let* e := do (AwaitWorkers c) in
  do CancelArchiver;;
  match e with
  | None => Ret syncErr
  | Some e => do (AwaitWorkers Background);; Ret (Some e)
  end.

(** ** Deletion *)

Inductive DelErr :=
| beingArchived (id : RunID)
| activeWriter (id : RunID)
| batchDeletion (e : WErr)
| runDeletion (id : RunID) (e : WErr)
| ctxEnded (e : WErr).

Definition DeleteContext (c : Ctx) (id : RunID) : prog (option DelErr) :=
  let* e := claimWaitContext c id in
  match e with
  | Some e => Ret (Some (ctxEnded e))
  | None =>
      deferring (releaseRun id) (withRun id true (
        let* active := do (Active id) in
        if active : bool then Ret (Some (activeWriter id)) else
        let* e := (if db then do (IO (DeleteRunRows c [id])) else Ret None) in
        match e with
        | Some e => Ret (Some (runDeletion id e))
        | None => let* e := do (IO (RemoveAll id)) in Ret (runDeletion id <$> e)
        end))
  end.

(** The first loop of [DeleteRunsContext]: the runs it holds with their locks. *)
Fixpoint holdRuns (c : Ctx) (ids : list RunID) (seen : gset RunID) (held : list (RunID * Loc)) (errs : list DelErr)
    : prog (list (RunID * Loc) * list DelErr) :=
  match ids with
  | [] => Ret (held, errs)
  | id :: t =>
      if decide (id ∈ seen) then holdRuns c t seen held errs else
      let* e := do (CtxErr c) in
      match e with
      | Some e => Ret (held, errs ++ [ctxEnded e])
      | None =>
          let* mine := do (Claim id) in
          if negb mine then holdRuns c t ({[id]} ∪ seen) held (errs ++ [beingArchived id]) else
          let* l := lockRun id true in
          let* active := do (Active id) in
          if active : bool
          then unlockRun id l true;; releaseRun id;;
               holdRuns c t ({[id]} ∪ seen) held (errs ++ [activeWriter id])
          else holdRuns c t ({[id]} ∪ seen) (held ++ [(id, l)]) errs
      end
  end.

(** The last loop: the buffers, and after a failed batch also the rows. *)
Fixpoint deleteHeld (c : Ctx) (batchFailed : bool) (ids : list RunID) (errs : list DelErr)
    : prog (list RunID * list DelErr) :=
  match ids with
  | [] => Ret ([], errs)
  | id :: t =>
      let* ce := (if batchFailed then do (CtxErr c) else Ret None) in
      match ce with
      | Some e => Ret ([], errs ++ [ctxEnded e])
      | None =>
          let* e := (if batchFailed then do (IO (DeleteRunRows c [id])) else Ret None) in
          match e with
          | Some e => deleteHeld c batchFailed t (errs ++ [runDeletion id e])
          | None =>
              let* e := do (IO (RemoveAll id)) in
              match e with
              | Some e => deleteHeld c batchFailed t (errs ++ [runDeletion id e])
              | None => let* r := deleteHeld c batchFailed t errs in Ret (id :: r.1, r.2)
              end
          end
      end
  end.

Definition DeleteRunsContext (c : Ctx) (ids : list RunID) : prog (list RunID * list DelErr) :=
  let* h := holdRuns c ids ∅ [] [] in
  let '(held, errs) := h in
  let* e := (if db && (0 <? length held)%nat then do (IO (DeleteRunRows c held.*1)) else Ret None) in
  let* r := deleteHeld c (bool_decide (is_Some e)) held.*1 (errs ++ option_list (batchDeletion <$> e)) in
  forAll (rev held) (fun h => unlockRun h.1 h.2 true;; releaseRun h.1);;
  Ret r.

(** ** Archived files without rows *)

Fixpoint sweepFileEntries (c : Ctx) (l : list Entry) (errs : list WErr) : prog (list WErr) :=
  match l with
  | [] => Ret errs
  | (id, isDir) :: t =>
      let* e := do (CtxErr c) in
      match e with
      | Some e => Ret (errs ++ [e])
      | None =>
          let* active := (if isDir : bool then do (Active id) else Ret true) in
          let* mine := (if active : bool then Ret false else do (Claim id)) in
          if negb mine then sweepFileEntries c t errs else
          let* e := withRun id true (do (IO (removeUnreferenced c id))) in
          releaseRun id;;
          sweepFileEntries c t (errs ++ option_list e)
      end
  end.

Definition SweepArchiveFiles (c : Ctx) : prog (list WErr) :=
  if negb db then Ret [] else
  let* entries := do (IO ReadFilesDir) in
  match entries with
  | Err e => Ret [e]
  | Ok entries => sweepFileEntries c entries []
  end.

(** ** Disk pressure on sealed buffers *)

Definition removeSealed (id : RunID) : prog (Result WErr Z) :=
  withRun id true (
    let* active := do (Active id) in
    if active : bool then Ret (Ok (-1)) else do (IO (removeBuffer id))).

(** The buffers of inactive runs with their modification times. *)
Fixpoint pruneList (l : list Entry) (candidates : list (RunID * Z)) : prog (list (RunID * Z)) :=
  match l with
  | [] => Ret candidates
  | (id, isDir) :: t =>
      if negb isDir || hidden id then pruneList t candidates else
      let* active := do (Active id) in
      if active : bool then pruneList t candidates else
      let* info := do (IO (EntryInfo id)) in
      match info with
      | Err _ => pruneList t candidates
      | Ok modTime => pruneList t (candidates ++ [(id, modTime)])
      end
  end.

Definition older (a b : RunID * Z) : bool :=
  (a.2 <? b.2) || ((a.2 =? b.2) && String.leb a.1 b.1).

(** The loop of [pruneSealed] over its candidates, oldest first. *)
Fixpoint pruneCandidates (c : Ctx) (want : Z) (l : list RunID) (runs freed : Z) (errs : list WErr)
    : prog (Z * Z * list WErr) :=
  match l with
  | [] => Ret (runs, freed, errs)
  | id :: t =>
      if want <=? freed then Ret (runs, freed, errs) else
      let* e := do (CtxErr c) in
      match e with
      | Some e => Ret (runs, freed, errs ++ [e])
      | None =>
          let* mine := do (Claim id) in
          if negb mine then pruneCandidates c want t runs freed errs else
          let* r := removeSealed id in
          releaseRun id;;
          match r with
          | Err e => pruneCandidates c want t runs freed (errs ++ [e])
          | Ok size =>
              if 0 <=? size then pruneCandidates c want t (runs + 1) (freed + size) errs
              else pruneCandidates c want t runs freed errs
          end
      end
  end.

Definition pruneSealed (c : Ctx) (want : Z) : prog (Z * Z * list WErr) :=
  let* entries := do (IO ReadDir) in
  match entries with
  | Err e => Ret (0, 0, [e])
  | Ok entries =>
      let* candidates := pruneList entries [] in
      pruneCandidates c want (merge_sort older candidates).*1 0 0 []
  end.
End Store.

(** * Steps *)

(** The result [x] and the new state of an operation of goroutine [i] that does
    not block.  What the environment decides - the outcome of I/O, the order of
    a map iteration, the case a [select] takes - is any allowed value. *)
Definition exec (i : Tid) {X} (o : op X) (s : Shared) : X -> Shared -> Prop :=
  match o in op X return X -> Shared -> Prop with
  | Claim id => fun x s' => (x, s') = claim id s
  | AfterFunc c => fun _ s' => s' = s <| hooks ::= <[i := c]> |>
  | StopFunc => fun _ s' => s' = s <| hooks ::= delete i |>
  | ClaimWait c id => fun x s' =>
      (i ∉ asleep s) /\ (id ∉ owners s \/ c ∈ dead s) /\ (x, s') = claimWaited c id s
  | Release id => fun x s' => (x, s') = release id s
  | Enqueue id => fun x s' => (x, s') = enqueue id s
  | AcquireSlot c => fun x s' =>
      (archiveSlots s < archiveWorkers /\ x = None /\ s' = s <| archiveSlots ::= Z.add 1 |>) \/
      (c ∈ dead s /\ x = Some errCanceled /\ s' = s)
  | FreeSlot => fun _ s' => s' = s <| archiveSlots ::= fun n => n - 1 |>
  | RefLock id => fun x s' => (x, s') = refRunLock id s
  | TryLock id l => fun x s' =>
      exists k, locks s !! l = Some k /\ x = canTry k /\
        s' = (if canTry k then s <| locks ::= <[l := locked i true k]> |> else s)
  | Lock id l e => fun _ s' =>
      exists k, locks s !! l = Some k /\ canLock i e k = true /\ s' = s <| locks ::= <[l := locked i e k]> |>
  | Unlock id l e => fun _ s' =>
      exists k, locks s !! l = Some k /\ s' = s <| locks ::= <[l := unlocked i e k]> |>
  | UnrefLock id l => fun _ s' => s' = unrefRunLock id l s
  | Active id => fun x s' =>
      x = bool_decide (id ∈ writers s) /\
      s' = (if x then s <| due ::= fun o => o ∖ {[id]} |> else s)
  | Register id => fun _ s' => s' = s <| writers ::= union {[id]} |>
  | Unregister id => fun _ s' => s' = s <| writers ::= fun o => o ∖ {[id]} |>
  | Writers => fun x s' => x ≡ₚ elements (writers s) /\ s' = s
  | TakeBatch => fun x s' => (x, s') = takeBatch s
  | Swept => fun _ s' => s' = s <| sweeping := false |>
  | AwaitWake => fun x s' =>
      (wake s = true /\ x = true /\ s' = s <| wake := false |>) \/
      (stopped s = true /\ x = false /\ s' = s)
  | QueueEmpty => fun x s' => x = bool_decide (queue s = []) /\ s' = s
  | ClaimBatch ids => fun x s' => (x, s') = claimBatch ids s
  | CtxErr c => fun x s' => x = (if decide (c ∈ dead s) then Some errCanceled else None) /\ s' = s
  | RecordResult id cause => fun x s' => (x, s') = recordResult id cause s
  | StopBegin => fun x s' => (x, s') = stopBegin s
  | AwaitSync c => fun x s' => s' = s /\ (x = None \/ (c ∈ dead s /\ x = Some errCanceled))
  | AwaitWorkers c => fun x s' =>
      (workers s = 0 /\ x = None /\ s' = s) \/ (c ∈ dead s /\ x = Some errCanceled /\ s' = s <| late := true |>)
  | CancelArchiver => fun _ s' => s' = s <| dead ::= union {[ArchiverCtx]} |>
  | WorkerDone => fun _ s' => s' = s <| workers ::= fun n => n - 1 |>
  | IO _ => fun _ s' => s' = s
  end.

(** What a goroutine does before it waits: it goes to sleep on [released], or
    announces itself on a lock. *)
Definition waits (i : Tid) {A} (p : prog A) (s : Shared) : option Shared :=
  match p with
  | Vis (ClaimWait c id) _ =>
      if decide ((i ∉ asleep s) /\ id ∈ owners s /\ c ∉ dead s) then Some (s <| asleep ::= union {[i]} |>) else None
  | Vis (Lock id l true) _ =>
      match locks s !! l with
      | Some k =>
          if decide (i ∈ rl_pending k) then None
          else Some (s <| locks ::= <[l := k <| rl_pending ::= union {[i]} |>]> |>)
      | None => None
      end
  | _ => None
  end.

Definition unroll {A R} (body : prog (option R)) (k : R -> prog A) : prog A :=
  let* r := body in match r with Some r => k r | None => Loop body k end.

Record Conf := mkConf { shared : Shared; pool : gmap Tid (prog unit) }.

(** A step of one goroutine, or of a function [context.AfterFunc] runs. *)
Inductive step : Conf -> Conf -> Prop :=
| step_op i s P {X} (o : op X) k x s' :
    P !! i = Some (Vis o k) -> exec i o s x s' ->
    step (mkConf s P) (mkConf s' (<[i := k x]> P))
| step_loop i s P {R} (body : prog (option R)) k :
    P !! i = Some (Loop body k) ->
    step (mkConf s P) (mkConf s (<[i := unroll body k]> P))
| step_wait i s P p s' :
    P !! i = Some p -> waits i p s = Some s' ->
    step (mkConf s P) (mkConf s' P)
| step_hook i s P c :
    hooks s !! i = Some c -> c ∈ dead s ->
    step (mkConf s P) (mkConf (s <| hooks ::= delete i |> <| asleep := ∅ |>) P).

(** What the daemon calls, on a goroutine of its own. *)
Inductive Call :=
| cOpen (id : RunID)
| cOpenDegraded (id : RunID)
| cWrite (id : RunID)
| cRead (id : RunID)
| cClose (id : RunID)
| cSeal (id : RunID)
| cFlush (c : Ctx) (id : RunID)
| cFlushActive (c : Ctx)
| cArchiveOrphans (c : Ctx)
| cDelete (c : Ctx) (id : RunID)
| cDeleteRuns (c : Ctx) (ids : list RunID)
| cSweepFiles (c : Ctx)
| cPrune (c : Ctx) (want : Z)
| cStopArchiver (c : Ctx).

Definition discard {A} (p : prog A) : prog unit := p;; Ret tt.

Definition runCall (db : bool) (call : Call) : prog unit :=
  match call with
  | cOpen id => discard (Open id)
  | cOpenDegraded id => OpenDegraded id
  | cWrite id => discard (Write id)
  | cRead id => discard (ReadContext id)
  | cClose id => discard (finalize db id false)
  | cSeal id => discard (finalize db id true)
  | cFlush c id => discard (FlushContext db c id)
  | cFlushActive c => discard (FlushActiveContext db c)
  | cArchiveOrphans c => discard (ArchiveOrphansContext db c)
  | cDelete c id => discard (DeleteContext db c id)
  | cDeleteRuns c ids => discard (DeleteRunsContext db c ids)
  | cSweepFiles c => discard (SweepArchiveFiles db c)
  | cPrune c want => discard (pruneSealed c want)
  | cStopArchiver c => discard (StopArchiver c)
  end.

(** The environment: a call on a new goroutine, and the end of a caller's
    context. *)
Inductive env (db : bool) : Conf -> Conf -> Prop :=
| env_call i s P call :
    P !! i = None -> env db (mkConf s P) (mkConf s (<[i := runCall db call]> P))
| env_cancel n s P :
    env db (mkConf s P) (mkConf (s <| dead ::= union {[CallerCtx n]} |>) P).

(** The daemon attaches the archive and starts the archiver before anything
    else uses the store; goroutines [0] and [1] are the workers. *)
Definition initial (db : bool) : Conf :=
  mkConf (startArchiver db New) (if db then {[0%nat := archiveLoop db; 1%nat := archiveLoop db]} else ∅).

Inductive reachable (db : bool) : Conf -> Prop :=
| reach_init : reachable db (initial db)
| reach_step c c' : reachable db c -> step c c' -> reachable db c'
| reach_env c c' : reachable db c -> env db c c' -> reachable db c'.
