(* ===== verification/LogOwnerSafe.v ===== *)
(** The discipline of the archive's goroutines: what each may hold when it
    performs an operation, and that every program of LogOwner obeys it.

    [Held] is what a goroutine holds; [pre] is what an operation asks of it,
    [after] what it holds next.  [pre] contains the lock order of
    coordination.go - run ownership, an archive slot, the run lock - for the
    operations that block.  [safe h p Q] says that [p], started with [h], obeys
    the discipline whatever its operations return, and ends as [Q] says. *)

From S2P Require Import Prelude LogWriter LogArchive LogOwner.
Open Scope prog_scope.

(** * What a goroutine holds *)

(** A reference to a run lock: only counted, or with the lock held. *)
Inductive Mode := Counted | SharedHeld | ExclHeld.

#[global] Instance Mode_eq : EqDecision Mode.
Proof. solve_decision. Defined.

Definition modeOf (exclusive : bool) : Mode := if exclusive then ExclHeld else SharedHeld.

(** [h_carried], [h_todo] and [h_again] are runs of the archiver: taken from the
    queue, claimed and without a recorded outcome, released with a deferral to
    queue again.  [h_inactive] are runs seen without a writer under their
    exclusive lock.  [h_awake]: will look at the queue before it waits for the
    next wake-up.  [h_stop]: knows that [stop] is closed.  [h_drained]: a worker
    that has since seen an empty queue or the end of the archiver's context.
    [h_waited]: has waited for the workers. *)
Record Held := mkHeld {
  h_owned : gset RunID;
  h_refs : gmap RunID (Loc * Mode);
  h_slot : bool;
  h_inactive : gset RunID;
  h_carried : gset RunID;
  h_todo : gset RunID;
  h_again : gset RunID;
  h_sweep : bool;
  h_awake : bool;
  h_worker : bool;
  h_stop : bool;
  h_drained : bool;
  h_waited : bool;
  h_hook : option Ctx;
}.
#[global] Instance Held_eta : Eta Held := fun h =>
  mkHeld (h_owned h) (h_refs h) (h_slot h) (h_inactive h) (h_carried h) (h_todo h) (h_again h)
    (h_sweep h) (h_awake h) (h_worker h) (h_stop h) (h_drained h) (h_waited h) (h_hook h).

Definition nothing : Held := mkHeld ∅ ∅ false ∅ ∅ ∅ ∅ false false false false false false None.

(** Nothing that another goroutine could be waiting for. *)
Definition unburdened (h : Held) : Prop :=
  h_owned h = ∅ /\ h_refs h = ∅ /\ h_slot h = false.

(** None of the archiver's runs, and not sweeping. *)
Definition settled (h : Held) : Prop :=
  h_carried h = ∅ /\ h_todo h = ∅ /\ h_again h = ∅ /\ h_sweep h = false.

(** What is left when a goroutine returns. *)
Definition finished (h : Held) : Prop :=
  unburdened h /\ settled h /\ h_awake h = false /\ h_worker h = false.

Definition holdsExcl (h : Held) (id : RunID) : Prop := exists l, h_refs h !! id = Some (l, ExclHeld).
Definition holdsSome (h : Held) (id : RunID) : Prop :=
  exists l m, h_refs h !! id = Some (l, m) /\ m <> Counted.

(** * What operations ask for *)

(** The runs whose files or rows an I/O operation reads or changes, how, and
    whether the run has to be owned, or seen without a writer.  Listing the log
    directory and a [stat] of a buffer directory read no content; the code makes
    them without a lock and rechecks under it. *)
Definition touched {X} (d : disk X) : list RunID :=
  match d with
  | archiveOrphan _ id | loadShortRun id | RemoveAll id | quarantineRename id | openBuffer id
  | writeBuffer id | closeBuffer id | sealBuffer id | archiveBatchLocked _ id _ | readPage id
  | removeUnreferenced _ id | removeBuffer id => [id]
  | PutRuns _ ids | DeleteRunRows _ ids => ids
  | ReadDir | ReadFilesDir | EntryInfo _ => []
  end.

Definition readOnly {X} (d : disk X) : bool := match d with readPage _ => true | _ => false end.

Definition transfers {X} (d : disk X) : bool :=
  match d with
  | archiveOrphan _ _ | loadShortRun _ | PutRuns _ _ | RemoveAll _ | DeleteRunRows _ _ | quarantineRename _
  | sealBuffer _ | archiveBatchLocked _ _ _ | removeUnreferenced _ _ | removeBuffer _ => true
  | _ => false
  end.

Definition onInactive {X} (d : disk X) : bool :=
  match d with
  | archiveOrphan _ _ | loadShortRun _ | PutRuns _ _ | RemoveAll _ | DeleteRunRows _ _ | removeBuffer _ => true
  | _ => false
  end.

Definition preIO {X} (d : disk X) (h : Held) : Prop :=
  forall id, id ∈ touched d ->
    (if readOnly d then holdsSome h id else holdsExcl h id) /\
    (transfers d = true -> id ∈ h_owned h) /\
    (onInactive d = true -> id ∈ h_inactive h).

Definition pre {X} (o : op X) (h : Held) : Prop :=
  match o with
  | AfterFunc _ => h_hook h = None
  | ClaimWait c _ => unburdened h /\ h_hook h = Some c
  | Release id => id ∈ h_owned h /\ id ∉ h_todo h
  | AcquireSlot _ => h_slot h = false /\ h_refs h = ∅
  | FreeSlot => h_slot h = true
  | RefLock id => h_refs h !! id = None
  | TryLock id l | UnrefLock id l => h_refs h !! id = Some (l, Counted)
  | Lock id l e =>
      (id ∈ h_owned h /\ e = true /\ h_refs h !! id = Some (l, Counted) /\ dom (h_refs h) ⊆ h_owned h) \/
      (h_owned h = ∅ /\ h_slot h = false /\ h_refs h = {[id := (l, Counted)]})
  | Unlock id l e => h_refs h !! id = Some (l, modeOf e)
  | Register id => holdsExcl h id
  | TakeBatch => unburdened h /\ settled h /\ h_worker h = true
  | Swept => h_sweep h = true
  | AwaitWake => unburdened h /\ settled h /\ h_worker h = true /\ h_awake h = false
  | ClaimBatch ids => h_owned h = ∅ /\ h_carried h ⊆ list_to_set ids
  | AwaitWorkers _ => unburdened h /\ settled h /\ h_worker h = false /\ h_stop h = true
  | CancelArchiver => h_stop h = true /\ h_waited h = true
  | WorkerDone => unburdened h /\ settled h /\ h_worker h = true /\ h_stop h = true /\ h_drained h = true
  | IO d => preIO d h
  | _ => True
  end.

(** What is known of the result. *)
Definition resp {X} (o : op X) (h : Held) : X -> Prop :=
  match o in op X return X -> Prop with
  | Claim id => fun x => x = true -> id ∉ h_owned h
  | ClaimWait c _ => fun x => c = Background -> x = None
  | CtxErr c | AwaitWorkers c => fun x => c = Background -> x = None
  | AcquireSlot c => fun x => c = Background -> x = None
  | TakeBatch => fun x => (x.2 = true -> x.1 = [])
  | ClaimBatch ids => fun x => NoDup x /\ x ⊆ ids
  | _ => fun _ => True
  end.

Definition after {X} (o : op X) (h : Held) : X -> Held :=
  match o in op X return X -> Held with
  | Claim id => fun x => if x then h <| h_owned ::= union {[id]} |> else h
  | AfterFunc c => fun _ => h <| h_hook := Some c |>
  | StopFunc => fun _ => h <| h_hook := None |>
  | ClaimWait _ id => fun x => match x with None => h <| h_owned ::= union {[id]} |> | Some _ => h end
  | Release id => fun x =>
      h <| h_owned ::= fun o => o ∖ {[id]} |> <| h_again ::= fun a => if x : bool then {[id]} ∪ a else a |>
  | Enqueue id => fun _ => h <| h_again ::= fun o => o ∖ {[id]} |>
  | AcquireSlot _ => fun x => match x with None => h <| h_slot := true |> | Some _ => h end
  | FreeSlot => fun _ => h <| h_slot := false |>
  | RefLock id => fun l => h <| h_refs ::= <[id := (l, Counted)]> |>
  | TryLock id l => fun x => if x then h <| h_refs ::= <[id := (l, ExclHeld)]> |> else h
  | Lock id l e => fun _ => h <| h_refs ::= <[id := (l, modeOf e)]> |>
  | Unlock id l _ => fun _ =>
      h <| h_refs ::= <[id := (l, Counted)]> |> <| h_inactive ::= fun o => o ∖ {[id]} |>
  | UnrefLock id _ => fun _ => h <| h_refs ::= delete id |>
  | Active id => fun x =>
      h <| h_todo ::= fun t => if x : bool then t ∖ {[id]} else t |>
        <| h_inactive ::= fun a =>
             match x : bool, h_refs h !! id with false, Some (_, ExclHeld) => {[id]} ∪ a | _, _ => a end |>
  | Register id => fun _ => h <| h_inactive ::= fun o => o ∖ {[id]} |>
  | TakeBatch => fun x =>
      h <| h_carried := list_to_set x.1 |> <| h_sweep := x.2 |>
        <| h_awake := (0 <? length x.1)%nat || x.2 |>
  | Swept => fun _ => h <| h_sweep := false |>
  | AwaitWake => fun x =>
      let h := h <| h_awake := true |> in if x then h else h <| h_stop := true |>
  | QueueEmpty => fun x => h <| h_drained ::= orb (x && h_stop h) |>
  | CtxErr c => fun x =>
      h <| h_drained ::= orb (match c, x with ArchiverCtx, Some _ => h_worker h && h_stop h | _, _ => false end) |>
  | ClaimBatch _ => fun x =>
      h <| h_carried := ∅ |> <| h_owned := list_to_set x |> <| h_todo ::= union (list_to_set x) |>
  | RecordResult id _ => fun _ => h <| h_todo ::= fun o => o ∖ {[id]} |>
  | StopBegin => fun x => if x then h <| h_stop := true |> else h
  | AwaitWorkers _ => fun _ => h <| h_waited := true |>
  | WorkerDone => fun _ => h <| h_worker := false |> <| h_awake := false |>
  | _ => fun _ => h
  end.

(** * Obedience *)

Fixpoint safe {A} (h : Held) (p : prog A) (Q : A -> Held -> Prop) {struct p} : Prop :=
  match p with
  | Ret a => Q a h
  | Vis o k => pre o h /\ forall x, resp o h x -> safe (after o h x) (k x) Q
  | Loop body k =>
      exists I : Held -> Prop, I h /\ forall h, I h ->
        safe h body (fun r h' => match r with Some r => safe h' (k r) Q | None => I h' end)
  end.

Lemma safe_mono {A} (p : prog A) h (Q Q' : A -> Held -> Prop) :
  (forall a h', Q a h' -> Q' a h') -> safe h p Q -> safe h p Q'.
Proof.
  revert h Q Q'. induction p as [A a|A X o k IH|A R body IHb k IHk]; intros h Q Q' HQ; cbn.
  - apply HQ.
  - intros [Hpre Hk]. split; [done|]. intros x Hx. eapply IH, Hk, Hx. apply HQ.
  - intros (I & HI & Hb). exists I. split; [done|]. intros h0 H0. eapply IHb, Hb, H0.
    intros [r|] h' Hr; [|done]. by eapply IHk.
Qed.

Lemma safe_bind {A B} (p : prog A) (f : A -> prog B) h (Q : B -> Held -> Prop) :
  safe h p (fun a h' => safe h' (f a) Q) -> safe h (pbind p f) Q.
Proof.
  revert h Q. induction p as [A a|A X o k IH|A R body IHb k IHk]; intros h Q; cbn.
  - done.
  - intros [Hpre Hk]. split; [done|]. intros x Hx. apply IH, Hk, Hx.
  - intros (I & HI & Hb). exists I. split; [done|]. intros h0 H0. eapply safe_mono, Hb, H0.
    intros [r|] h' Hr; [|done]. by apply IHk.
Qed.

(** A round of a loop is as safe as the loop. *)
Lemma safe_unroll {A R} (body : prog (option R)) (k : R -> prog A) h (Q : A -> Held -> Prop) :
  safe h (Loop body k) Q -> safe h (unroll body k) Q.
Proof.
  intros (I & HI & Hb). apply safe_bind. eapply safe_mono, Hb, HI.
  intros [r|] h' Hr; [done|]. exists I. by split.
Qed.

(** * Programs that leave what their goroutine holds as it was *)

Record keeps (h h' : Held) : Prop := {
  k_owned : h_owned h' = h_owned h;
  k_refs : h_refs h' = h_refs h;
  k_slot : h_slot h' = h_slot h;
  k_carried : h_carried h' = h_carried h;
  k_todo : h_todo h' ⊆ h_todo h;
  k_again : h_again h' = h_again h;
  k_sweep : h_sweep h' = h_sweep h;
  k_awake : h_awake h' = h_awake h;
  k_worker : h_worker h' = h_worker h;
  k_stop : h_stop h' = h_stop h;
  k_hook : h_hook h' = h_hook h;
}.

#[global] Instance keeps_preorder : PreOrder keeps.
Proof.
  split.
  - intros h. by constructor.
  - intros h1 h2 h3 [] []. constructor; (etrans; eassumption) || congruence.
Qed.

(** Between two operations of the archive: nothing held, nothing to do. *)
Record calm (h : Held) : Prop := {
  c_owned : h_owned h = ∅;
  c_refs : h_refs h = ∅;
  c_slot : h_slot h = false;
  c_todo : h_todo h = ∅;
  c_again : h_again h = ∅;
  c_hook : h_hook h = None;
}.

Lemma keeps_calm h h' : calm h -> keeps h h' -> calm h'.
Proof. intros [] []. constructor; try congruence. set_solver. Qed.

Ltac keeps_tac := constructor; cbn; first [done | set_solver | congruence].

(** The two ways to wait for a run's lock: as its owner, or holding nothing. *)
Definition lockable (h : Held) (id : RunID) (exclusive : bool) : Prop :=
  h_refs h !! id = None /\
  ((id ∈ h_owned h /\ exclusive = true /\ dom (h_refs h) ⊆ h_owned h) \/
   (h_owned h = ∅ /\ h_slot h = false /\ h_refs h = ∅)).

Lemma lockable_owner h id : h_refs h = ∅ -> id ∈ h_owned h -> lockable h id true.
Proof. intros Hr Ho. split; [by rewrite Hr|]. left. rewrite Hr. set_solver. Qed.

Lemma lockable_calm h id e : calm h -> lockable h id e.
Proof. intros []. split; [by rewrite c_refs0|]. right. done. Qed.

#[local] Arguments lockRun : simpl never.
#[local] Arguments unlockRun : simpl never.
#[local] Arguments withRun : simpl never.
#[local] Arguments releaseRun : simpl never.
#[local] Arguments claimWaitContext : simpl never.
#[local] Arguments archiveOwned : simpl never.
#[local] Arguments recordOrphanResult : simpl never.
#[local] Arguments FlushContext : simpl never.
#[local] Arguments ArchiveOrphansContext : simpl never.
#[local] Arguments archiveSealedBatch : simpl never.
#[local] Arguments archiveShortRuns : simpl never.

Lemma lockRun_safe h id e (Q : Loc -> Held -> Prop) :
  lockable h id e ->
  (forall l, Q l (h <| h_refs ::= <[id := (l, modeOf e)]> |>)) ->
  safe h (lockRun id e) Q.
Proof.
  intros [Hn Hl] HQ. unfold lockRun. cbn. split; [done|]. intros l _. split.
  - rewrite lookup_insert_eq. destruct Hl as [(Ho & -> & Hd)|(Ho & Hs & Hr)]; [left|right].
    + split_and!; try done. rewrite dom_insert_L. set_solver.
    + by rewrite Hr.
  - intros _ _. specialize (HQ l). cbn in HQ. by rewrite insert_insert_eq.
Qed.

Lemma unlockRun_safe h id l e (Q : unit -> Held -> Prop) :
  h_refs h !! id = Some (l, modeOf e) ->
  Q tt (h <| h_refs ::= delete id |> <| h_inactive ::= fun o => o ∖ {[id]} |>) ->
  safe h (unlockRun id l e) Q.
Proof.
  intros Hl HQ. unfold unlockRun. cbn. split; [done|]. intros _ _. split; [by rewrite lookup_insert_eq|].
  intros [] _. by rewrite delete_insert_eq.
Qed.

Lemma withRun_safe {A} h id e (body : prog A) (Q : A -> Held -> Prop) :
  lockable h id e ->
  (forall l, safe (h <| h_refs ::= <[id := (l, modeOf e)]> |>) body
     (fun a h' => h_refs h' = <[id := (l, modeOf e)]> (h_refs h) /\
                  Q a (h' <| h_refs := h_refs h |> <| h_inactive ::= fun o => o ∖ {[id]} |>))) ->
  safe h (withRun id e body) Q.
Proof.
  intros Hl Hb. apply safe_bind, lockRun_safe; [done|]. intros l. apply safe_bind.
  eapply safe_mono, Hb. intros a h' [Hr HQ]. apply safe_bind. apply unlockRun_safe.
  - by rewrite Hr, lookup_insert_eq.
  - cbn in *. rewrite Hr, delete_insert_id by apply Hl. done.
Qed.

Lemma claimWaitContext_safe h c id (Q : option WErr -> Held -> Prop) :
  calm h -> (forall e, c <> Background -> Q (Some e) h) -> Q None (h <| h_owned := {[id]} |>) ->
  safe h (claimWaitContext c id) Q.
Proof.
  intros Hc Herr HQ. destruct h, Hc; unfold claimWaitContext; cbn in *; subst. split; [done|]. intros _ _.
  split; [done|]. intros [e|] He.
  - split; [done|]. intros _ _. apply Herr. intros ->. discriminate (He eq_refl).
  - split; [done|]. intros _ _. cbn in *. by rewrite union_empty_r_L.
Qed.

Lemma releaseRun_safe h id (Q : unit -> Held -> Prop) :
  id ∈ h_owned h -> id ∉ h_todo h -> h_again h = ∅ ->
  Q tt (h <| h_owned ::= fun o => o ∖ {[id]} |>) ->
  safe h (releaseRun id) Q.
Proof.
  intros Ho Ht Ha HQ. unfold releaseRun. cbn. split; [done|]. intros [] _; cbn; [|done].
  split; [done|]. intros x _. cbn in *. destruct h; cbn in *; subst.
  by replace ((({[id]} ∪ ∅) ∖ {[id]} : gset string)) with (∅ : gset string) by set_solver.
Qed.

(** I/O on one run under its exclusive lock. *)
Lemma preIO_one {X} (d : disk X) h id :
  touched d = [id] -> readOnly d = false -> holdsExcl h id ->
  (transfers d = true -> id ∈ h_owned h) -> (onInactive d = true -> id ∈ h_inactive h) -> preIO d h.
Proof.
  intros Ht Hr He Ho Hi id' Hid. rewrite Ht in Hid. apply list_elem_of_singleton in Hid as ->.
  by rewrite Hr.
Qed.

Lemma holdsExcl_insert h id l : holdsExcl (h <| h_refs ::= <[id := (l, ExclHeld)]> |>) id.
Proof. exists l. cbn. apply lookup_insert_eq. Qed.
#[local] Hint Resolve holdsExcl_insert : core.

Lemma archiveOwned_safe h c id :
  h_slot h = false -> h_refs h = ∅ -> id ∈ h_owned h ->
  safe h (archiveOwned c id) (fun _ h' => keeps h h').
Proof.
  intros Hs Hr Ho. unfold archiveOwned. cbn. split; [done|]. intros [e|] _; [cbn; reflexivity|].
  apply safe_bind. apply withRun_safe; [by apply lockable_owner|]. intros l. cbn.
  split; [done|]. intros [] _.
  - cbn. split; [done|]. split; [done|]. intros [] _. keeps_tac.
  - cbn. rewrite lookup_insert_eq. cbn. split.
    + apply preIO_one with id; try done; [exists l; apply lookup_insert_eq|cbn; set_solver].
    + intros x _. split; [done|]. split; [done|]. intros [] _. keeps_tac.
Qed.

Lemma recordOrphanResult_safe h id e :
  h_refs h = ∅ -> id ∈ h_owned h ->
  safe h (recordOrphanResult id e) (fun _ h' => keeps h h' /\ id ∉ h_todo h').
Proof.
  intros Hr Ho. unfold recordOrphanResult. cbn. split; [done|]. intros [] _; cbn; [|split; [keeps_tac|set_solver]].
  apply safe_bind. apply withRun_safe; [by apply lockable_owner|]. intros l. cbn. split.
  - apply preIO_one with id; try done. exists l. apply lookup_insert_eq.
  - intros x _. split; [done|]. split; [keeps_tac|]. cbn. set_solver.
Qed.

(** Sequence a program whose specification is known. *)
Ltac sseq lem := apply safe_bind; eapply safe_mono; [cbn beta|apply lem].
Ltac sdone := first [reflexivity | keeps_tac | done].

(** Use the run's lock while holding nothing else, for one piece of I/O. *)
Lemma withRun_calm {A} h id e (body : prog A) :
  calm h ->
  (forall l, safe (h <| h_refs ::= <[id := (l, modeOf e)]> |>) body
     (fun _ h' => keeps (h <| h_refs ::= <[id := (l, modeOf e)]> |>) h')) ->
  safe h (withRun id e body) (fun _ h' => keeps h h').
Proof.
  intros Hc Hb. apply withRun_safe; [by apply lockable_calm|]. intros l.
  eapply safe_mono, Hb. intros a h' [] . cbn in *. split; [done|]. by constructor.
Qed.

Section Calls.
Variable db : bool.

Lemma Open_safe h id : calm h -> safe h (Open id) (fun _ h' => keeps h h').
Proof.
  intros Hc. apply withRun_calm; [done|]. intros l. cbn. split.
  - apply preIO_one with id; try done. exists l. apply lookup_insert_eq.
  - intros [e|] _; cbn; [reflexivity|]. split; [exists l; apply lookup_insert_eq|]. intros _ _. keeps_tac.
Qed.

Lemma OpenDegraded_safe h id : calm h -> safe h (OpenDegraded id) (fun _ h' => keeps h h').
Proof.
  intros Hc. apply withRun_calm; [done|]. intros l. cbn.
  split; [exists l; apply lookup_insert_eq|]. intros _ _. keeps_tac.
Qed.

Lemma lockRunTimed_safe h id (Q : Loc -> Held -> Prop) :
  calm h -> (forall l, Q l (h <| h_refs := {[id := (l, ExclHeld)]} |>)) -> safe h (lockRunTimed id) Q.
Proof.
  intros [] HQ. unfold lockRunTimed. cbn. split; [by rewrite c_refs0|]. intros l _.
  split; [apply lookup_insert_eq|]. rewrite c_refs0.
  intros [] _; cbn; rewrite ?insert_insert_eq; [apply HQ|].
  split; [by right|]. intros _ _. rewrite ?insert_insert_eq. apply HQ.
Qed.

Lemma Write_safe h id : calm h -> safe h (Write id) (fun _ h' => keeps h h').
Proof.
  intros Hc. apply safe_bind, lockRunTimed_safe; [done|]. intros l. cbn. split.
  - apply preIO_one with id; try done. exists l. apply lookup_insert_eq.
  - intros x _. apply safe_bind, unlockRun_safe; [apply lookup_insert_eq|]. destruct Hc.
    constructor; cbn; try done. by rewrite delete_singleton_eq.
Qed.

Lemma ReadContext_safe h id : calm h -> safe h (ReadContext id) (fun _ h' => keeps h h').
Proof.
  intros Hc. apply withRun_calm; [done|]. intros l. cbn. split; [|intros x _; reflexivity].
  intros id' Hid. apply list_elem_of_singleton in Hid as ->. split_and!; try done.
  exists l, SharedHeld. split; [apply lookup_insert_eq|done].
Qed.

Lemma writerClose_safe h id : calm h -> safe h (writerClose id) (fun _ h' => keeps h h').
Proof.
  intros Hc. apply withRun_calm; [done|]. intros l. cbn. split; [|intros x _; reflexivity].
  apply preIO_one with id; try done. exists l. apply lookup_insert_eq.
Qed.

(** Claim a run, do something that needs no more than owning it, release it. *)
Lemma owning_safe {A} h id (body : prog A) :
  calm h ->
  (forall h1, h1 = h <| h_owned := {[id]} |> -> safe h1 body (fun _ h' => keeps h1 h')) ->
  safe (h <| h_owned := {[id]} |>) (deferring (releaseRun id) body) (fun _ h' => keeps h h').
Proof.
  intros Hc Hb. apply safe_bind. eapply safe_mono, Hb; [|done]. intros a h' []. destruct Hc. cbn in *.
  rewrite c_todo0 in *. apply safe_bind, releaseRun_safe; [set_solver|set_solver|congruence|].
  constructor; cbn; first [congruence|set_solver].
Qed.

(** Asking for a run's writer without its lock. *)
Lemma Active_safe h id (Q : bool -> Held -> Prop) :
  calm h -> Q true h -> Q false h -> safe h (do (Active id)) Q.
Proof.
  intros Hc Ht Hf. cbn. split; [done|]. destruct h, Hc; cbn in *; subst.
  intros [] _; [|by rewrite lookup_empty].
  by replace (∅ ∖ {[id]} : gset string) with (∅ : gset string) by set_solver.
Qed.

Lemma Enqueue_safe h id (Q : bool -> Held -> Prop) :
  calm h -> (forall x, Q x h) -> safe h (do (Enqueue id)) Q.
Proof.
  intros Hc HQ. cbn. split; [done|]. destruct h, Hc; cbn in *; subst. intros x _.
  by replace (∅ ∖ {[id]} : gset string) with (∅ : gset string) by set_solver.
Qed.

Lemma finalize_safe h id async : calm h -> safe h (finalize db id async) (fun _ h' => keeps h h').
Proof.
  intros Hc. unfold finalize. apply safe_bind, Active_safe; [done| |cbn; reflexivity]. cbn.
  sseq writerClose_safe; [|done]. intros e h1 H1. pose proof (keeps_calm _ _ Hc H1) as Hc1.
  apply safe_bind, lockRun_safe; [by apply lockable_calm|]. intros l. cbn. split; [done|]. intros _ _.
  apply safe_bind, unlockRun_safe; [apply lookup_insert_eq|]. cbn.
  set (h2 := mkHeld _ _ _ _ _ _ _ _ _ _ _ _ _ _).
  assert (H2 : keeps h h2).
  { etrans; [exact H1|]. destruct Hc1. constructor; cbn; try done. by rewrite delete_insert_eq, c_refs0. }
  clearbody h2. pose proof (keeps_calm _ _ Hc H2) as Hc2. case_match; [done|].
  assert (Hrest : forall (queued : bool) h3, calm h3 -> keeps h h3 ->
    safe h3 (if queued then Ret None else
      claimWait id;; deferring (releaseRun id) (archiveOwned Background id)) (fun _ h' => keeps h h')).
  { intros [] h3 Hc3 H3; [done|]. unfold claimWait.
    apply (safe_mono _ _ (fun _ h' => keeps h3 h')); [intros ? ? ?; by etrans|].
    apply safe_bind, safe_bind, claimWaitContext_safe; [done|done|].
    apply owning_safe; [done|]. intros h4 ->. destruct Hc3. apply archiveOwned_safe; cbn; set_solver. }
  destruct async; [|exact (Hrest false h2 Hc2 H2)].
  apply safe_bind, Enqueue_safe; [done|]. intros x. exact (Hrest x h2 Hc2 H2).
Qed.

(** The lock of a run the goroutine owns, while it holds no other. *)
Lemma withRun_owned {A} h id (body : prog A) :
  h_refs h = ∅ -> id ∈ h_owned h ->
  (forall l, safe (h <| h_refs ::= <[id := (l, ExclHeld)]> |>) body
     (fun _ h' => keeps (h <| h_refs ::= <[id := (l, ExclHeld)]> |>) h')) ->
  safe h (withRun id true body) (fun _ h' => keeps h h').
Proof.
  intros Hr Ho Hb. apply withRun_safe; [by apply lockable_owner|]. intros l.
  eapply safe_mono, Hb. intros a h' []. cbn in *. split; [done|]. by constructor.
Qed.

Lemma archiveWriter_safe h c id through :
  h_slot h = false -> h_refs h = ∅ -> id ∈ h_owned h ->
  safe h (archiveWriter c id through) (fun _ h' => keeps h h').
Proof.
  intros Hs Hr Ho. exists (keeps h). split; [reflexivity|]. intros h1 H1. destruct H1. cbn.
  split; [split; congruence|]. intros [e|] _; cbn; [by constructor|].
  apply safe_bind, lockRun_safe; [apply lockable_owner; cbn; congruence|]. intros l. cbn. split.
  { apply preIO_one with id; try done; [exists l; apply lookup_insert_eq|cbn; congruence]. }
  intros r _. apply safe_bind, unlockRun_safe; [apply lookup_insert_eq|]. cbn. split; [done|]. intros _ _.
  assert (Hd : forall v, delete id (<[id := v]> (h_refs h1)) = h_refs h)
    by (intros v; rewrite k_refs0, Hr; by rewrite delete_insert_eq, delete_empty).
  destruct r as [[]|e]; cbn; constructor; cbn; rewrite ?Hd; congruence || done.
Qed.

Lemma FlushContext_safe h c id : calm h -> safe h (FlushContext db c id) (fun _ h' => keeps h h').
Proof.
  intros Hc. unfold FlushContext. apply safe_bind, claimWaitContext_safe; [done| |].
  { intros e _. cbn. reflexivity. }
  apply owning_safe; [done|]. intros h1 Heq.
  assert (Hh : h_slot h1 = false /\ h_refs h1 = ∅ /\ id ∈ h_owned h1)
    by (subst h1; destruct Hc; cbn; set_solver).
  clear Heq. destruct Hh as (Hs & Hr & Ho). apply safe_bind. eapply safe_mono; [|apply withRun_owned].
  - intros [through|e] h2 H2; cbn; [|done]. case_match; [done|].
    eapply safe_mono; [|apply archiveWriter_safe; destruct H2; congruence]. intros x h3 H3. by etrans.
  - done.
  - done.
  - intros l. cbn. split; [|intros x _; reflexivity].
    apply preIO_one with id; try done; [exists l; apply lookup_insert_eq].
Qed.

(** Looking at a context. *)
Lemma CtxErr_calm {A} h c (f : option WErr -> prog A) :
  calm h -> (forall e h1, calm h1 -> safe h1 (f e) (fun _ h' => keeps h1 h')) ->
  safe h (let* e := do (CtxErr c) in f e) (fun _ h' => keeps h h').
Proof.
  intros Hc Hf. cbn. split; [done|]. intros e _. eapply safe_mono; [|apply Hf; by destruct Hc].
  intros a h' []. by constructor.
Qed.

(** A loop whose turns keep what is held. *)
Lemma forEach_safe {A R} h (l : list A) (turn : A -> prog (option R)) :
  calm h -> (forall x h1, calm h1 -> safe h1 (turn x) (fun _ h' => keeps h1 h')) ->
  safe h (forEach l turn) (fun _ h' => keeps h h').
Proof.
  intros Hc Ht. revert h Hc. induction l as [|x l IH]; intros h Hc; [cbn; reflexivity|]. cbn [forEach].
  sseq Ht; [|done]. intros [r|] h1 H1; cbn; [done|].
  eapply safe_mono; [|by apply IH; eapply keeps_calm]. intros a h2 H2. by etrans.
Qed.

Lemma FlushActiveContext_safe h c : calm h -> safe h (FlushActiveContext db c) (fun _ h' => keeps h h').
Proof.
  intros Hc. unfold FlushActiveContext. case_match; [cbn; reflexivity|]. cbn. split; [done|]. intros ids _.
  apply safe_bind, (safe_mono _ _ (fun _ h' => keeps h h')); [done|]. apply forEach_safe; [done|].
  intros id h1 Hc1. apply CtxErr_calm; [done|]. clear h1 Hc1. intros [e|] h1 Hc1; [cbn; reflexivity|].
  apply (safe_bind (do (Active id))), Active_safe; [done| |cbn; reflexivity]. cbn.
  sseq FlushContext_safe; [|done]. intros [e|] h2 H2; [|done]. cbn. split; [done|]. intros e' _.
  destruct H2. by constructor.
Qed.
(** Claiming without waiting, and giving the run back. *)
Lemma Claim_safe h id (Q : bool -> Held -> Prop) :
  calm h -> Q false h -> Q true (h <| h_owned := {[id]} |>) -> safe h (do (Claim id)) Q.
Proof.
  intros [] Hf Ht. cbn. split; [done|]. intros [] _; [|done].
  cbn in *. by rewrite c_owned0, union_empty_r_L.
Qed.

Lemma releaseRun_back h h1 id (Q : unit -> Held -> Prop) :
  calm h -> keeps (h <| h_owned := {[id]} |>) h1 -> (forall h2, keeps h h2 -> Q tt h2) ->
  safe h1 (releaseRun id) Q.
Proof.
  intros [] [] HQ. cbn in *. rewrite c_todo0 in *. apply releaseRun_safe; [set_solver|set_solver|congruence|].
  apply HQ. constructor; cbn; first [congruence|set_solver].
Qed.

Lemma sweepEntries_safe h c l errs : calm h -> safe h (sweepEntries c l errs) (fun _ h' => keeps h h').
Proof.
  revert h errs. induction l as [|[id isDir] l IH]; intros h errs Hc; [cbn; reflexivity|].
  cbn [sweepEntries]. apply CtxErr_calm; [done|]. clear h Hc. intros [e|] h Hc; [cbn; reflexivity|].
  case_match; [by apply IH|]. apply safe_bind, Active_safe; [done|by apply IH|].
  apply safe_bind, Claim_safe; [done|by apply IH|]. cbn [negb].
  assert (Ho : h_slot (h <| h_owned := {[id]} |>) = false /\ h_refs (h <| h_owned := {[id]} |>) = ∅ /\
    id ∈ h_owned (h <| h_owned := {[id]} |>)) by (destruct Hc; cbn; set_solver).
  destruct Ho as (Hs & Hr & Ho).
  sseq archiveOwned_safe; [|done|done|done]. intros e h1 H1.
  sseq recordOrphanResult_safe; [|destruct H1; congruence|destruct H1; congruence]. intros [] h2 [H2 _].
  apply safe_bind, (releaseRun_back h); [done|exact (transitivity H1 H2)|]. intros h3 H3.
  eapply safe_mono; [|apply IH; by eapply keeps_calm]. intros a h4 H4. by etrans.
Qed.

Lemma ArchiveOrphansContext_safe h c : calm h -> safe h (ArchiveOrphansContext db c) (fun _ h' => keeps h h').
Proof.
  intros Hc. unfold ArchiveOrphansContext. case_match; [cbn; reflexivity|]. cbn. split.
  - intros id Hid. by apply elem_of_nil in Hid.
  - intros [l|e] _; [by apply sweepEntries_safe|cbn; reflexivity].
Qed.

Lemma sweepFileEntries_safe h c l errs : calm h -> safe h (sweepFileEntries c l errs) (fun _ h' => keeps h h').
Proof.
  revert h errs. induction l as [|[id isDir] l IH]; intros h errs Hc; [cbn; reflexivity|].
  cbn [sweepFileEntries]. apply CtxErr_calm; [done|]. clear h Hc. intros [e|] h Hc; [cbn; reflexivity|].
  destruct isDir; [|by apply IH]. apply safe_bind, Active_safe; [done|by apply IH|].
  apply safe_bind, Claim_safe; [done|by apply IH|]. cbn [negb].
  apply safe_bind. eapply safe_mono; [|apply withRun_owned].
  - intros e h1 H1. apply safe_bind, (releaseRun_back h); [done|done|]. intros h3 H3.
    eapply safe_mono; [|apply IH; by eapply keeps_calm]. intros a h4 H4. by etrans.
  - apply Hc.
  - cbn. set_solver.
  - intros k. cbn. split; [|intros x _; reflexivity].
    apply preIO_one with id; try done; [exists k; apply lookup_insert_eq|cbn; set_solver].
Qed.

Lemma SweepArchiveFiles_safe h c : calm h -> safe h (SweepArchiveFiles db c) (fun _ h' => keeps h h').
Proof.
  intros Hc. unfold SweepArchiveFiles. case_match; [cbn; reflexivity|]. cbn. split.
  - intros id Hid. by apply elem_of_nil in Hid.
  - intros [l|e] _; [by apply sweepFileEntries_safe|cbn; reflexivity].
Qed.

Lemma removeSealed_safe h id :
  h_refs h = ∅ -> id ∈ h_owned h -> id ∉ h_todo h -> safe h (removeSealed id) (fun _ h' => keeps h h').
Proof.
  intros Hr Ho Ht. apply withRun_owned; [done|done|]. intros l. cbn. split; [done|]. intros [] _; cbn.
  - keeps_tac.
  - rewrite lookup_insert_eq. cbn. split; [|intros x _; keeps_tac].
    apply preIO_one with id; try done; [exists l; apply lookup_insert_eq|cbn; set_solver].
Qed.

Lemma pruneCandidates_safe h c want l runs freed errs :
  calm h -> safe h (pruneCandidates c want l runs freed errs) (fun _ h' => keeps h h').
Proof.
  revert h runs freed errs. induction l as [|id l IH]; intros h runs freed errs Hc; [cbn; reflexivity|].
  cbn [pruneCandidates]. case_match; [cbn; reflexivity|].
  apply CtxErr_calm; [done|]. clear h Hc. intros [e|] h Hc; [cbn; reflexivity|].
  apply safe_bind, Claim_safe; [done|by apply IH|]. cbn [negb].
  sseq removeSealed_safe; [|apply Hc|cbn; set_solver|destruct Hc; cbn; set_solver]. intros r h1 H1.
  apply safe_bind, (releaseRun_back h); [done|done|]. intros h3 H3.
  assert (Hnext : forall a b e, safe h3 (pruneCandidates c want l a b e) (fun _ h' => keeps h h')).
  { intros a b e. eapply safe_mono; [|apply IH; by eapply keeps_calm]. intros x h4 H4. by etrans. }
  destruct r; [case_match|]; apply Hnext.
Qed.

Lemma pruneList_safe h l acc : calm h -> safe h (pruneList l acc) (fun _ h' => h' = h).
Proof.
  revert acc. induction l as [|[id isDir] l IH]; intros acc Hc; [done|]. cbn [pruneList].
  case_match; [by apply IH|]. apply safe_bind, Active_safe; [done|by apply IH|]. cbn. split.
  - intros x Hx. by apply elem_of_nil in Hx.
  - intros [t|e] _; by apply IH.
Qed.

Lemma pruneSealed_safe h c want : calm h -> safe h (pruneSealed c want) (fun _ h' => keeps h h').
Proof.
  intros Hc. unfold pruneSealed. cbn. split; [intros x Hx; by apply elem_of_nil in Hx|].
  intros [l|e] _; [|cbn; reflexivity]. sseq pruneList_safe; [|done]. intros cs h' ->.
  by apply pruneCandidates_safe.
Qed.

Lemma DeleteContext_safe h c id : calm h -> safe h (DeleteContext db c id) (fun _ h' => keeps h h').
Proof.
  intros Hc. apply safe_bind, claimWaitContext_safe; [done|intros; cbn; reflexivity|].
  apply owning_safe; [done|]. intros h1 ->. destruct Hc.
  apply withRun_owned; [done|cbn; set_solver|]. intros l. cbn. split; [done|]. intros [] _; cbn; [keeps_tac|].
  rewrite lookup_insert_eq. cbn. destruct db; cbn.
  - split.
    { intros x Hx. apply list_elem_of_singleton in Hx as ->. split_and!; cbn; [exists l; apply lookup_insert_eq|set_solver..]. }
    intros [e|] _; cbn; [keeps_tac|]. split; [|intros x _; keeps_tac].
    apply preIO_one with id; try done; [exists l; apply lookup_insert_eq|cbn; set_solver..].
  - split; [|intros x _; keeps_tac].
    apply preIO_one with id; try done; [exists l; apply lookup_insert_eq|cbn; set_solver..].
Qed.
End Calls.

(** * Programs that hold several runs *)

Lemma forAll_safe {A} (P : list A -> Held -> Prop) (turn : A -> prog unit) l h (Q : unit -> Held -> Prop) :
  P l h ->
  (forall x t h, P (x :: t) h -> safe h (turn x) (fun _ h' => P t h')) ->
  (forall h', P [] h' -> Q tt h') ->
  safe h (forAll l turn) Q.
Proof.
  intros HP Ht HQ. revert h HP. induction l as [|x l IH]; intros h HP; [by apply HQ|].
  apply safe_bind. eapply safe_mono; [|by apply Ht]. intros a h' Hh. by apply IH.
Qed.

(** The locks of a batch, all held. *)
Definition refsOf (batch : list (RunID * Loc)) : gmap RunID (Loc * Mode) :=
  list_to_map ((fun r => (r.1, (r.2, ExclHeld))) <$> batch).

Lemma fst_refs (batch : list (RunID * Loc)) :
  ((fun r => (r.1, (r.2, ExclHeld))) <$> batch).*1 = batch.*1.
Proof. rewrite <- list_fmap_compose. by apply list_fmap_ext. Qed.

Lemma refsOf_dom batch : dom (refsOf batch) = list_to_set batch.*1.
Proof. unfold refsOf. by rewrite dom_list_to_map_L, fst_refs. Qed.

Lemma refsOf_None batch id : id ∉ batch.*1 -> refsOf batch !! id = None.
Proof. intros H. apply not_elem_of_list_to_map_1. by rewrite fst_refs. Qed.

Lemma refsOf_Some batch id l : NoDup batch.*1 -> (id, l) ∈ batch -> refsOf batch !! id = Some (l, ExclHeld).
Proof.
  intros Hn Hin. apply elem_of_list_to_map_1; [by rewrite fst_refs|].
  apply list_elem_of_fmap. by exists (id, l).
Qed.

Lemma refsOf_perm b b' : NoDup b.*1 -> b ≡ₚ b' -> refsOf b = refsOf b'.
Proof. intros Hn Hp. apply list_to_map_proper; [by rewrite fst_refs|by apply fmap_Permutation]. Qed.

Lemma refsOf_snoc batch id l : id ∉ batch.*1 -> NoDup batch.*1 ->
  refsOf (batch ++ [(id, l)]) = <[id := (l, ExclHeld)]> (refsOf batch).
Proof.
  intros Hid Hn. rewrite (refsOf_perm _ ((id, l) :: batch)); [done| |by rewrite Permutation_app_comm].
  rewrite fmap_app. apply NoDup_app. split_and!; [done| |apply NoDup_singleton].
  intros x Hx Hx'. apply list_elem_of_singleton in Hx' as ->. done.
Qed.

(** [batch] is locked and known to be inactive; the goroutine owns [owned]. *)
Record locksBatch (owned : gset RunID) (h0 : Held) (batch : list (RunID * Loc)) (h : Held) : Prop := {
  lb_keeps : keeps (h0 <| h_owned := owned |> <| h_refs := refsOf batch |>) h;
  lb_inactive : list_to_set batch.*1 ⊆ h_inactive h;
  lb_owned : list_to_set batch.*1 ⊆ owned;
  lb_nodup : NoDup batch.*1;
}.

(** Take the lock of one more run and look whether it has a writer. *)
Lemma lockOneMore owned h0 batch h id (k : Loc -> bool -> Held -> Prop) :
  locksBatch owned h0 batch h -> id ∈ owned -> id ∉ batch.*1 ->
  (forall l h', keeps (h <| h_refs ::= <[id := (l, ExclHeld)]> |>) h' -> h_inactive h' = h_inactive h ->
     id ∉ h_todo h' -> k l true h') ->
  (forall l h', locksBatch owned h0 (batch ++ [(id, l)]) h' ->
     keeps (h <| h_refs ::= <[id := (l, ExclHeld)]> |>) h' -> h_inactive h ⊆ h_inactive h' -> k l false h') ->
  safe h (lockRun id true) (fun l h' => safe h' (do (Active id)) (fun x => k l x)).
Proof.
  intros [Hk Hi Ho Hn] Hid Hnin Htrue Hfalse.
  assert (Hr : h_refs h = refsOf batch) by (by rewrite (k_refs _ _ Hk)).
  assert (Hw : h_owned h = owned) by (by rewrite (k_owned _ _ Hk)).
  apply lockRun_safe.
  { split; [rewrite Hr; by apply refsOf_None|]. left. rewrite Hr, Hw, refsOf_dom. done. }
  intros l. cbn. split; [done|]. intros [] _.
  - apply Htrue; [keeps_tac|done|]. cbn. set_solver.
  - rewrite lookup_insert_eq. cbn. apply Hfalse; [|keeps_tac|cbn; set_solver]. split.
    + destruct Hk. cbn in *. constructor; cbn; try done. rewrite Hr. by rewrite refsOf_snoc.
    + cbn. rewrite fmap_app. cbn. set_solver.
    + rewrite fmap_app. cbn. set_solver.
    + rewrite fmap_app. apply NoDup_app. split_and!; [done| |apply NoDup_singleton].
      intros x Hx Hx'. apply list_elem_of_singleton in Hx' as ->. done.
Qed.

(** Give up the lock of a run that does not join the batch. *)
Lemma unlockOne owned h0 batch h h1 id l (Q : unit -> Held -> Prop) :
  locksBatch owned h0 batch h -> id ∉ batch.*1 ->
  keeps (h <| h_refs ::= <[id := (l, ExclHeld)]> |>) h1 -> h_inactive h ⊆ h_inactive h1 ->
  (forall h2, locksBatch owned h0 batch h2 -> keeps h h2 -> h_todo h2 = h_todo h1 -> Q tt h2) ->
  safe h1 (unlockRun id l true) Q.
Proof.
  intros [Hk Hi Ho Hn] Hnin Hk1 Hi1 HQ.
  assert (Hr : h_refs h = refsOf batch) by (by rewrite (k_refs _ _ Hk)).
  assert (Hr1 : h_refs h1 = <[id := (l, ExclHeld)]> (h_refs h)) by (by rewrite (k_refs _ _ Hk1)).
  assert (Hd : delete id (h_refs h1) = h_refs h).
  { rewrite Hr1, delete_insert_eq, delete_id; [done|]. rewrite Hr. by apply refsOf_None. }
  apply unlockRun_safe; [rewrite Hr1; apply lookup_insert_eq|].
  set (h2 := h1 <| h_refs ::= delete id |> <| h_inactive ::= fun o => o ∖ {[id]} |>).
  assert (H2 : keeps h h2) by (destruct Hk1; constructor; cbn in *; try done).
  apply HQ; [|done|done]. split; [by etrans| |done|done]. cbn.
  assert (id ∉ (list_to_set batch.*1 : gset string)) by (by rewrite elem_of_list_to_set). set_solver.
Qed.

Lemma unlockBatch_safe h batch :
  h_refs h = refsOf batch -> NoDup batch.*1 ->
  safe h (unlockBatch batch) (fun _ h' => keeps (h <| h_refs := ∅ |>) h').
Proof.
  intros Hr Hn. eapply (forAll_safe (fun b h' => h_refs h' = refsOf b /\ NoDup b.*1 /\
    keeps (h <| h_refs := ∅ |>) (h' <| h_refs := ∅ |>))).
  - split_and!; [done|done|reflexivity].
  - intros [id l] t h1 (Hr1 & Hn1 & Hk1). apply NoDup_cons in Hn1 as [Hid Hn1].
    apply unlockRun_safe; [rewrite Hr1; apply lookup_insert_eq|]. cbn. split_and!; [|done|].
    + rewrite Hr1. cbn. rewrite delete_insert_id; [done|]. by apply refsOf_None.
    + destruct Hk1. by constructor.
  - intros h1 (Hr1 & _ & Hk1). destruct Hk1. by constructor.
Qed.

Lemma locksBatch_holds owned h0 batch h id :
  locksBatch owned h0 batch h -> id ∈ batch.*1 ->
  holdsExcl h id /\ id ∈ h_owned h /\ id ∈ h_inactive h.
Proof.
  intros [Hk Hi Ho Hn] Hid. split_and!.
  - apply list_elem_of_fmap in Hid as ([i l] & -> & Hin). exists l.
    rewrite (k_refs _ _ Hk). by apply refsOf_Some.
  - rewrite (k_owned _ _ Hk). apply Ho. by rewrite elem_of_list_to_set.
  - apply Hi. by rewrite elem_of_list_to_set.
Qed.

(** What filling the batch did with the runs [ids]. *)
Definition gathered owned h0 h (batch : list (RunID * Loc)) (rest ids : list RunID)
    (r : list (RunID * Loc) * list RunID) (h' : Held) : Prop :=
  locksBatch owned h0 r.1 h' /\ h_todo h' ⊆ h_todo h /\
  (forall id, id ∈ batch.*1 -> id ∈ r.1.*1) /\ (forall id, id ∈ rest -> id ∈ r.2) /\
  (forall id, id ∈ r.2 -> id ∈ rest \/ id ∈ ids) /\
  (forall id, id ∈ ids -> id ∈ r.1.*1 \/ id ∈ r.2 \/ id ∉ h_todo h').

(** One run decided, the others follow. *)
Lemma gathered_cons owned h0 h h1 batch batch1 rest rest1 id ids r h2 :
  gathered owned h0 h1 batch1 rest1 ids r h2 -> h_todo h1 ⊆ h_todo h ->
  (forall x, x ∈ batch.*1 -> x ∈ batch1.*1) ->
  (forall x, x ∈ rest -> x ∈ rest1) -> (forall x, x ∈ rest1 -> x ∈ rest \/ x = id) ->
  (id ∈ batch1.*1 \/ id ∈ rest1 \/ id ∉ h_todo h1) ->
  gathered owned h0 h batch rest (id :: ids) r h2.
Proof.
  intros (Hl & Ht & Hb & Hr & Hr' & Hall) Ht1 Hb1 Hr1 Hr2 Hid. split_and!; [done|set_solver|naive_solver..| |].
  - intros x Hx. destruct (Hr' x Hx) as [Hx'|Hx']; [destruct (Hr2 x Hx') as [| ->]|]; set_solver.
  - intros x [->|Hx]%elem_of_cons; [|by apply Hall]. destruct Hid as [Hid|[Hid|Hid]]; [auto..|set_solver].
Qed.

Lemma gatherShort_safe owned h0 ids batch bytes chunks rest h :
  locksBatch owned h0 batch h -> NoDup ids -> list_to_set ids ⊆ owned ->
  (forall id, id ∈ ids -> id ∉ batch.*1) ->
  safe h (gatherShort ids batch bytes chunks rest) (gathered owned h0 h batch rest ids).
Proof.
  revert batch bytes chunks rest h.
  induction ids as [|id ids IH]; intros batch bytes chunks rest h Hb Hn Ho Hd.
  { cbn. split_and!; try done; [by left|]. intros id Hid. by apply elem_of_nil in Hid. }
  apply NoDup_cons in Hn as [Hid Hn].
  assert (Hnb : id ∉ batch.*1) by (apply Hd; by left).
  assert (Hio : id ∈ owned) by (apply Ho; cbn; set_solver).
  assert (Hnext : forall batch1 bytes1 chunks1 rest1 h1, locksBatch owned h0 batch1 h1 -> h_todo h1 ⊆ h_todo h ->
    (forall x, x ∈ batch.*1 -> x ∈ batch1.*1) -> (forall x, x ∈ batch1.*1 -> x ∈ batch.*1 \/ x = id) ->
    (forall x, x ∈ rest -> x ∈ rest1) -> (forall x, x ∈ rest1 -> x ∈ rest \/ x = id) ->
    (id ∈ batch1.*1 \/ id ∈ rest1 \/ id ∉ h_todo h1) ->
    safe h1 (gatherShort ids batch1 bytes1 chunks1 rest1) (gathered owned h0 h batch rest (id :: ids))).
  { intros batch1 bytes1 chunks1 rest1 h1 Hb1 Ht1 Hin1 Hin2 Hr1 Hr2 Hdec.
    eapply safe_mono; [|apply IH; try done; [cbn in Ho; set_solver|]].
    - intros r h2 H2. by eapply gathered_cons.
    - intros x Hx Hx1. destruct (Hin2 x Hx1) as [Hx2| ->]; [|done]. apply (Hd x); [by right|done]. }
  cbn [gatherShort]. apply safe_bind. eapply safe_mono; [intros l h' Hs; apply safe_bind, Hs|].
  eapply (lockOneMore owned h0 batch h id); [done|done|done| |].
  - intros l h1 H1 Hi1 Ht1. cbn. apply safe_bind, (unlockOne owned h0 batch h); [done|done|done|by rewrite Hi1|].
    intros h2 Hb2 Hk2 Ht2. apply Hnext; try done; [apply Hk2|naive_solver..|]. right; right. by rewrite Ht2.
  - intros l h1 Hb1 Hk1 Hi1. cbn.
    assert (Hgiveup : safe h1 (unlockRun id l true;; gatherShort ids batch bytes chunks (rest ++ [id]))
      (gathered owned h0 h batch rest (id :: ids))).
    { apply safe_bind, (unlockOne owned h0 batch h); [done|done|done|done|].
      intros h2 Hb2 Hk2 Ht2. apply Hnext; try done; [apply Hk2|naive_solver|set_solver|set_solver|].
      right; left. set_solver. }
    destruct (locksBatch_holds _ _ _ _ id Hb1) as (He & Hw & Hin); [rewrite fmap_app; set_solver|].
    split; [by apply preIO_one with id|]. intros [[size n]|] _; [case_match|]; [exact Hgiveup| |exact Hgiveup].
    apply Hnext; try done; [apply Hk1|rewrite fmap_app; set_solver|rewrite fmap_app; cbn; set_solver|naive_solver|].
    left. rewrite fmap_app. set_solver.
Qed.

Lemma removeStored_safe h ids :
  (forall id, id ∈ ids -> holdsExcl h id /\ id ∈ h_owned h /\ id ∈ h_inactive h) ->
  safe h (removeStored ids) (fun rs h' => h' = h /\ rs.*1 = ids).
Proof.
  induction ids as [|id ids IH]; intros Hh; [done|]. cbn. split.
  - destruct (Hh id) as (? & ? & ?); [by left|]. by apply preIO_one with id.
  - intros e _. sseq IH; [|intros x Hx; apply Hh; by right]. by intros rs h' [-> <-].
Qed.

Lemma storeBatch_safe h c ids :
  (forall id, id ∈ ids -> holdsExcl h id /\ id ∈ h_owned h /\ id ∈ h_inactive h) ->
  safe h (storeBatch c ids) (fun rs h' => h' = h /\ rs.*1 = ids).
Proof.
  intros Hh. destruct ids as [|id ids]; [done|]. unfold storeBatch. cbn. split.
  - intros x Hx. destruct (Hh x Hx) as (? & ? & ?). by split_and!.
  - intros [e|] _.
    + split; [done|]. cbn. f_equal. rewrite <- list_fmap_compose. apply list_fmap_id.
    + by apply (removeStored_safe h (id :: ids)).
Qed.

Lemma archiveShortRuns_safe h c ids :
  h_refs h = ∅ -> h_slot h = false -> NoDup ids -> list_to_set ids ⊆ h_owned h ->
  safe h (archiveShortRuns c ids) (fun rest h' =>
    keeps h h' /\ (forall id, id ∈ rest -> id ∈ ids) /\
    (forall id, id ∈ ids -> id ∈ rest \/ id ∉ h_todo h')).
Proof.
  intros Hr Hs Hn Ho. unfold archiveShortRuns. cbn. split; [done|]. intros [e|] _.
  { split_and!; [reflexivity|done|by left]. }
  set (h1 := mkHeld _ _ true _ _ _ _ _ _ _ _ _ _ _).
  sseq (gatherShort_safe (h_owned h) h1); [|split; [|set_solver..|constructor]|done|done|].
  2:{ constructor; cbn; by rewrite ?Hr. }
  2:{ intros id _ Hid. by apply elem_of_nil in Hid. }
  intros [batch rest] h2 (Hb & Ht & _ & _ & Hrest & Hall). cbn in *.
  sseq storeBatch_safe; [|intros id Hid; by eapply locksBatch_holds].
  intros results h' [-> Hres]. destruct Hb as [Hk Hi Hbo Hbn].
  sseq unlockBatch_safe; [|by rewrite (k_refs _ _ Hk)|done]. intros [] h3 H3.
  assert (Hk3 : keeps (h <| h_slot := true |>) h3).
  { destruct Hk, H3. cbn in *. constructor; cbn; first [congruence|set_solver]. }
  apply safe_bind. eapply (forAll_safe (fun l h' => keeps (h <| h_slot := true |>) h' /\ h_todo h' ⊆ h_todo h3 /\
    l.*1 ⊆ batch.*1 /\ forall id, id ∈ batch.*1 -> id ∈ l.*1 \/ id ∉ h_todo h')).
  - split_and!; [done|done|by rewrite Hres|]. rewrite Hres. by left.
  - intros [id e] l h4 (Hk4 & Ht4 & Hl4 & Hd4). cbn in *.
    assert (id ∈ h_owned h).
    { apply Hbo. rewrite elem_of_list_to_set. apply Hl4. by left. }
    eapply safe_mono; [|apply recordOrphanResult_safe; [by rewrite (k_refs _ _ Hk4)|by rewrite (k_owned _ _ Hk4)]].
    intros [] h5 [Hk5 Hid5]. pose proof (k_todo _ _ Hk5). split_and!; [by etrans|set_solver|set_solver|].
    intros x Hx. destruct (Hd4 x Hx) as [[->|Hx']%elem_of_cons|Hx']; [by right|by left|right; set_solver].
  - intros h4 (Hk4 & Ht4 & _ & Hd4). cbn. split; [by rewrite (k_slot _ _ Hk4)|]. intros _ _.
    destruct Hk4. cbn in *. split_and!.
    + constructor; cbn; congruence || done.
    + intros id Hid. by destruct (Hrest id Hid) as [Hx%elem_of_nil|].
    + intros id Hid. destruct (Hall id Hid) as [Hb|[|Hx]]; [|by left|].
      * destruct (Hd4 id Hb) as [Hx%elem_of_nil|]; [done|by right].
      * right. pose proof (k_todo _ _ H3). cbn in *. set_solver.
Qed.

(** A worker between two batches, which has just taken [ids]. *)
Lemma archiveSealedBatch_safe h c ids :
  calm (h <| h_carried := ∅ |>) -> h_carried h ⊆ list_to_set ids ->
  safe h (archiveSealedBatch c ids) (fun _ h' => keeps (h <| h_carried := ∅ |>) h').
Proof.
  intros [] Hcar. cbn in *. unfold archiveSealedBatch. cbn. split; [done|]. intros owned [Hn Hsub].
  set (h1 := mkHeld _ _ _ _ _ _ _ _ _ _ _ _ _ _).
  assert (H1 : safe h1 (if (1 <? length owned)%nat then archiveShortRuns c owned else Ret owned) (fun rest h' =>
    keeps h1 h' /\ (forall id, id ∈ rest -> id ∈ owned) /\ forall id, id ∈ owned -> id ∈ rest \/ id ∉ h_todo h')).
  { case_match; [by apply archiveShortRuns_safe|]. cbn. split_and!; [reflexivity|done|by left]. }
  apply safe_bind. eapply safe_mono, H1. intros rest h2 (Hk2 & Hrest & Hall).
  apply safe_bind. eapply (forAll_safe (fun l h' => keeps h1 h' /\ (forall id, id ∈ l -> id ∈ owned) /\
    h_todo h' ⊆ list_to_set l)).
  - split_and!; [done|done|]. intros x Hx. rewrite elem_of_list_to_set.
    assert (Hxo : x ∈ h_todo h1) by by apply (k_todo _ _ Hk2).
    cbn in Hxo. rewrite c_todo0 in Hxo. destruct (Hall x) as [|]; [set_solver|done..].
  - intros id l h3 (Hk3 & Hl3 & Ht3). cbn in *.
    assert (id ∈ owned) by (apply Hl3; by left).
    assert (Hw : id ∈ h_owned h3) by (rewrite (k_owned _ _ Hk3); cbn; by rewrite elem_of_list_to_set).
    assert (Hr : h_refs h3 = ∅) by (by rewrite (k_refs _ _ Hk3)).
    sseq archiveOwned_safe; [|by rewrite (k_slot _ _ Hk3)|done|done]. cbn beta. intros e h4 Hk4.
    eapply safe_mono; [|apply recordOrphanResult_safe; [by rewrite (k_refs _ _ Hk4)|by rewrite (k_owned _ _ Hk4)]].
    intros [] h5 [Hk5 Hid]. split_and!.
    + exact (transitivity Hk3 (transitivity Hk4 Hk5)).
    + intros x Hx. apply Hl3. by right.
    + pose proof (k_todo _ _ Hk4). pose proof (k_todo _ _ Hk5). set_solver.
  - intros h3 (Hk3 & _ & Ht3). cbn in Ht3.
    eapply (forAll_safe (fun l h' => keeps (h1 <| h_owned := list_to_set l |> <| h_todo := ∅ |>) h' /\ NoDup l)).
    + split; [|done]. destruct Hk3. constructor; cbn; try done; set_solver.
    + intros id l h4 [Hk4 Hn4]. apply NoDup_cons in Hn4 as [Hid Hn4]. destruct Hk4. cbn in *. apply releaseRun_safe; [set_solver..|congruence|].
      split; [|done]. constructor; cbn; first [congruence|set_solver].
    + intros h4 [Hk4 _]. destruct Hk4. cbn in *. constructor; cbn; first [congruence|set_solver].
Qed.

(** A worker at the top of its loop. *)
Definition atTop (h : Held) : Prop :=
  calm h /\ h_carried h = ∅ /\ h_sweep h = false /\ h_awake h = true /\ h_worker h = true.

Lemma archiveTurn_safe db h :
  atTop h -> safe h (archiveTurn db) (fun r h' =>
    match r with
    | None => atTop h'
    | Some _ => calm h' /\ h_carried h' = ∅ /\ h_sweep h' = false /\ h_worker h' = true /\
        h_stop h' = true /\ h_drained h' = true
    end).
Proof.
  intros (Hc & Hcar & Hsw & Haw & Hw). unfold archiveTurn. cbn. split.
  { destruct Hc. by split_and!. }
  intros [batch sweep] Hx. cbn in Hx. destruct sweep.
  - rewrite Hx by done. sseq ArchiveOrphansContext_safe; [|destruct Hc; by constructor].
    intros ? h1 H1. cbn beta in H1. cbn. assert (Hc1 : calm h1) by (eapply keeps_calm, H1; destruct Hc; by constructor).
    destruct H1. cbn in *. split; [congruence|]. intros _ _. split_and!; cbn; try congruence. destruct Hc1. by constructor.
  - destruct batch as [|id batch].
    + cbn. split; [destruct Hc; by split_and!|]. intros [] _; cbn.
      * split_and!; cbn; try done. destruct Hc; by constructor.
      * split; [done|]. intros [] _; cbn; [split_and!; cbn; try done; destruct Hc; by constructor|].
        split; [done|]. intros [e|] _; cbn; split_and!; cbn; try done; rewrite ?Hw; try done; destruct Hc; by constructor.
    + sseq archiveSealedBatch_safe; [|destruct Hc; by constructor|cbn; set_solver].
      intros ? h1 H1. cbn beta in H1. cbn. assert (Hc1 : calm h1) by (eapply keeps_calm, H1; destruct Hc; by constructor).
      destruct H1. cbn in *. split_and!; congruence || done.
Qed.

Lemma archiveLoop_safe db h : atTop h -> safe h (archiveLoop db) (fun _ => finished).
Proof.
  intros Ht. exists atTop. split; [done|]. intros h1 H1. eapply safe_mono, archiveTurn_safe, H1.
  intros [[]|] h2 H2; [|done]. destruct H2 as ([] & ? & ? & ? & ? & ?). cbn. split; [by split_and!|].
  intros [] _. by split_and!.
Qed.

Lemma StopArchiver_safe h c :
  calm h -> settled h -> h_worker h = false ->
  safe h (StopArchiver c) (fun _ h' => keeps (h <| h_stop := h_stop h' |>) h').
Proof.
  intros [] Hs Hw. cbn. split; [done|]. intros e _. split; [done|].
  intros [] _; cbn; [|by destruct h]. split; [by split_and!|]. intros [e'|] _; cbn.
  - split; [done|]. intros _ _. split; [by split_and!|]. intros x _. by constructor.
  - split; [done|]. intros _ _. by constructor.
Qed.

(** ** Deletion of a page of runs *)

Definition owning (batch : list (RunID * Loc)) : gset RunID := list_to_set batch.*1.

(** A batch of owned and locked runs, and nothing else owned. *)
Definition holding (h0 : Held) (batch : list (RunID * Loc)) (h : Held) : Prop :=
  locksBatch (owning batch) h0 batch h.

Lemma holdRuns_safe c ids seen batch errs h0 h :
  calm h0 -> holding h0 batch h -> list_to_set batch.*1 ⊆ seen ->
  safe h (holdRuns c ids seen batch errs) (fun r h' => holding h0 r.1 h').
Proof.
  intros Hc. revert seen batch errs h. induction ids as [|id ids IH]; intros seen batch errs h Hb Hseen; [done|].
  cbn [holdRuns]. case_decide as Hid; [by apply IH|]. cbn. split; [done|]. intros e _.
  set (hc := mkHeld _ _ _ _ _ _ _ _ _ _ _ _ _ _).
  assert (Hb' : holding h0 batch hc) by (destruct Hb as [[] ? ? ?]; split; [by constructor|done..]).
  clearbody hc. clear h Hb. rename hc into h, Hb' into Hb. destruct e as [e|]; cbn; [done|].
  assert (Hnb : id ∉ batch.*1) by (rewrite <- (elem_of_list_to_set (C:=gset string)); set_solver).
  split; [done|]. intros [] _; [|apply IH; [done|set_solver]].
  pose proof (lb_keeps _ _ _ _ Hb) as Hk. cbn.
  set (h1 := mkHeld _ _ _ _ _ _ _ _ _ _ _ _ _ _).
  assert (Hb1 : locksBatch ({[id]} ∪ owning batch) h0 batch h1).
  { destruct Hb as [Hk' Hi Ho Hn]. split; [|done|set_solver|done].
    destruct Hk'. cbn in *. constructor; cbn; try done. by rewrite k_owned0. }
  apply safe_bind. eapply safe_mono; [intros l h' Hs; apply (safe_bind (do (Active id))), Hs|].
  eapply (lockOneMore ({[id]} ∪ owning batch) h0 batch h1 id); [done|set_solver|done| |].
  - intros l h2 H2 Hi2 Ht2. apply safe_bind, (unlockOne ({[id]} ∪ owning batch) h0 batch h1); [done|done|done|by rewrite Hi2|].
    intros h3 Hb3 Hk3 Ht3. pose proof (lb_keeps _ _ _ _ Hb3) as Hk4. destruct Hb3 as [_ Hi3 _ Hn3].
    apply safe_bind, releaseRun_safe.
    + rewrite (k_owned _ _ Hk4). cbn. set_solver.
    + by rewrite Ht3.
    + rewrite (k_again _ _ Hk4). apply Hc.
    + apply IH; [|set_solver]. split; [|done|done|done]. destruct Hk4. cbn in *. constructor; cbn; try done.
      rewrite k_owned0. unfold owning. set_solver.
  - intros l h2 Hb2 Hk2 Hi2. apply IH; [|rewrite fmap_app; cbn; set_solver].
    destruct Hb2 as [Hk3 Hi3 Ho3 Hn3]. split; [|done|done|done]. destruct Hk3. cbn in *. constructor; cbn; try done.
    rewrite k_owned0. unfold owning. rewrite fmap_app. cbn. set_solver.
Qed.

Lemma deleteHeld_safe c failed ids errs h :
  (forall id, id ∈ ids -> holdsExcl h id /\ id ∈ h_owned h /\ id ∈ h_inactive h) ->
  safe h (deleteHeld c failed ids errs) (fun _ h' => keeps h h').
Proof.
  revert errs h. induction ids as [|id ids IH]; intros errs h Hh; [cbn; reflexivity|].
  assert (Hid : forall h (X : Type) (d : disk X),
    (forall x, x ∈ id :: ids -> holdsExcl h x /\ x ∈ h_owned h /\ x ∈ h_inactive h) ->
    touched d = [id] -> readOnly d = false -> preIO d h).
  { intros h0 X d Hh0 Ht Hr. destruct (Hh0 id) as (? & ? & ?); [by left|]. by apply preIO_one with id. }
  assert (Hrm : forall h, (forall x, x ∈ id :: ids -> holdsExcl h x /\ x ∈ h_owned h /\ x ∈ h_inactive h) ->
    safe h (let* e := do (IO (RemoveAll id)) in
      match e with
      | Some e => deleteHeld c failed ids (errs ++ [runDeletion id e])
      | None => let* r := deleteHeld c failed ids errs in Ret (id :: r.1, r.2)
      end) (fun _ h' => keeps h h')).
  { intros h0 Hh0. assert (Ht : forall x, x ∈ ids -> holdsExcl h0 x /\ x ∈ h_owned h0 /\ x ∈ h_inactive h0)
      by (intros x Hx; apply Hh0; by right).
    cbn. split; [by apply Hid|]. intros [e|] _; [by apply IH|]. by sseq IH. }
  cbn [deleteHeld]. destruct failed; [|by apply Hrm]. cbn. split; [done|]. intros e _.
  set (h1 := mkHeld _ _ _ _ _ _ _ _ _ _ _ _ _ _).
  assert (Hh1 : forall x, x ∈ id :: ids -> holdsExcl h1 x /\ x ∈ h_owned h1 /\ x ∈ h_inactive h1) by exact Hh.
  apply (safe_mono _ _ (fun _ h' => keeps h1 h')); [by intros a h' []; constructor|]. clearbody h1.
  destruct e as [e|]; cbn; [reflexivity|]. split; [by apply Hid|]. intros [e|] _; [|by apply Hrm].
  apply IH. intros x Hx. apply Hh1. by right.
Qed.

Lemma DeleteRunsContext_safe db h c ids :
  calm h -> safe h (DeleteRunsContext db c ids) (fun _ h' => keeps h h').
Proof.
  intros Hc. unfold DeleteRunsContext. sseq (holdRuns_safe c ids ∅ [] [] h h Hc); [|split; [|set_solver..|constructor]|set_solver].
  2:{ destruct Hc. constructor; cbn; try done. }
  intros [held errs] h1 Hb. cbn in Hb. pose proof Hb as [Hk Hi Ho Hn].
  assert (Hh : forall id, id ∈ held.*1 -> holdsExcl h1 id /\ id ∈ h_owned h1 /\ id ∈ h_inactive h1)
    by (intros id Hid; by eapply locksBatch_holds).
  apply safe_bind. apply (safe_mono _ _ (fun _ h' => h' = h1)).
  2:{ case_match; [|done]. cbn. split; [|done]. intros id Hid. destruct (Hh id Hid) as (? & ? & ?). by split_and!. }
  intros e h2 ->. sseq deleteHeld_safe; [|done]. intros r h2 Hk2. apply safe_bind.
  eapply (forAll_safe (fun l h' => NoDup l.*1 /\
    keeps (h <| h_owned := list_to_set l.*1 |> <| h_refs := refsOf l |>) h')).
  - assert (Hp : rev held ≡ₚ held) by (by rewrite rev_alt, <- Permutation_rev || (symmetry; apply Permutation_rev)).
    split; [by rewrite Hp|]. rewrite (refsOf_perm (rev held) held); [|by rewrite Hp|done].
    assert (Hk' := transitivity Hk Hk2). destruct Hk'. cbn in *. constructor; cbn; try done.
    rewrite k_owned0. unfold owning. by rewrite Hp.
  - clear h2 Hk2. intros [id l] t h2 [Hn2 Hk2]. apply NoDup_cons in Hn2 as [Hid Hn2]. cbn in *.
    destruct Hc, Hk2. cbn in *. apply safe_bind, unlockRun_safe; [rewrite k_refs0; apply lookup_insert_eq|].
    apply releaseRun_safe; cbn; [set_solver|set_solver|congruence|]. split; [done|].
    constructor; cbn; try done.
    + rewrite k_owned0. assert (id ∉ (list_to_set t.*1 : gset string)) by (by rewrite elem_of_list_to_set). set_solver.
    + rewrite k_refs0. cbn. rewrite delete_insert_id; [done|]. by apply refsOf_None.
  - clear h2 Hk2. intros h2 [_ Hk2]. cbn. destruct Hk2, Hc. cbn in *. constructor; cbn; congruence || set_solver.
Qed.

(** * Every call obeys the discipline *)

Lemma nothing_calm : calm nothing.
Proof. by constructor. Qed.

Lemma keeps_finished h : keeps (nothing <| h_stop := h_stop h |>) h -> finished h.
Proof. intros []. cbn in *. unfold finished, unburdened, settled. split_and!; first [done|set_solver]. Qed.

Lemma discard_safe {A} h (p : prog A) (Q : Held -> Prop) :
  safe h p (fun _ h' => Q h') -> safe h (discard p) (fun _ h' => Q h').
Proof. intros Hp. apply safe_bind. eapply safe_mono, Hp. by intros. Qed.

Theorem runCall_safe db call : safe nothing (runCall db call) (fun _ h => finished h).
Proof.
  pose proof nothing_calm as Hc.
  assert (Hk : forall (p : prog unit), safe nothing p (fun _ h' => keeps nothing h') -> safe nothing p (fun _ h => finished h)).
  { intros p Hp. eapply safe_mono, Hp. intros a h H. apply keeps_finished. destruct H; by constructor. }
  destruct call; cbn [runCall];
    try (apply Hk; try apply discard_safe; by first
      [ apply Open_safe | apply OpenDegraded_safe | apply Write_safe | apply ReadContext_safe | apply finalize_safe
      | apply FlushContext_safe | apply FlushActiveContext_safe | apply ArchiveOrphansContext_safe
      | apply DeleteContext_safe | apply DeleteRunsContext_safe | apply SweepArchiveFiles_safe | apply pruneSealed_safe ]).
  apply discard_safe. eapply safe_mono; [|by apply StopArchiver_safe]. intros a h H. by apply keeps_finished.
Qed.
