(* ===== verification/LogOwnerInv.v ===== *)
(** The invariant of the archive's goroutines: the shared state is the sum of
    what the goroutines hold ([Held], LogOwnerSafe).

    Each section below is one part of it - ownership, slots, run locks, the
    queue, wake-ups, sleepers - with its preservation under every operation that
    obeys the discipline. *)

From S2P Require Import Prelude LogWriter LogArchive LogOwner LogOwnerSafe.

Abbreviation Threads := (gmap Tid Held) (only parsing).

(** * Results of the critical sections *)

Lemma claimBatch_spec ids s x s' :
  (x, s') = claimBatch ids s ->
  s' = s <| owners := list_to_set x ∪ owners s |> <| deferred := deferred s' |> /\
  NoDup x /\ x ⊆ ids /\ (forall id, id ∈ x -> id ∉ owners s) /\
  deferred s ⊆ deferred s' /\ deferred s' ⊆ deferred s ∪ (list_to_set x ∪ owners s) /\
  (forall id, id ∈ ids -> id ∈ x \/ id ∈ deferred s').
Proof.
  revert s x s'. induction ids as [|id ids IH]; intros s x s'; cbn [claimBatch].
  { intros [= -> ->]. cbn. rewrite union_empty_l_L. destruct s. split_and!; try done; [constructor|set_solver..]. }
  case_decide as Hid.
  - intros H. apply IH in H as (Hs & Hn & Hx & Ho & Hd & Hd' & Hall). cbn in *. split_and!; try done.
    + set_solver.
    + set_solver.
    + set_solver.
    + intros y [->|Hy]%elem_of_cons; [right; set_solver|by apply Hall].
  - destruct (claimBatch ids _) as [x1 s1] eqn:E. intros [= -> ->]. symmetry in E.
    apply IH in E as (Hs & Hn & Hx & Ho & Hd & Hd' & Hall). cbn in *. split_and!.
    + rewrite Hs. cbn. by replace ({[id]} ∪ list_to_set x1 ∪ owners s) with (list_to_set x1 ∪ ({[id]} ∪ owners s)) by set_solver.
    + constructor; [|done]. intros Hin. apply (Ho id Hin). set_solver.
    + set_solver.
    + intros y [->|Hy]%elem_of_cons; [done|]. specialize (Ho y Hy). set_solver.
    + done.
    + set_solver.
    + intros y [->|Hy]%elem_of_cons; [left; by left|]. destruct (Hall y Hy); [left; by right|by right].
Qed.

(** Reduce an operation to the new state it gives. *)
Ltac exec_simpl H :=
  cbn in H;
  repeat match type of H with
  | _ = claimBatch _ _ => fail 1
  | _ \/ _ => destruct H as [H|H]
  | _ /\ _ => let H' := fresh "He" in destruct H as [H' H]
  | exists _, _ => let k := fresh "k" in destruct H as [k H]
  | _ => progress unfold claim, claimWaited, release, enqueue, takeBatch, recordResult, stopBegin, refRunLock, unrefRunLock in H
  | context [match ?x with _ => _ end] => destruct x eqn:?
  | _ => progress simplify_eq
  end; simplify_eq; cbn.

(** * Ownership *)

Record ownInv (os : gset RunID) (hs : Threads) : Prop := {
  own_sub : forall i h, hs !! i = Some h -> h_owned h ⊆ os;
  own_by : forall id, id ∈ os -> exists i h, hs !! i = Some h /\ id ∈ h_owned h;
  own_one : forall i j h h' id, hs !! i = Some h -> hs !! j = Some h' ->
    id ∈ h_owned h -> id ∈ h_owned h' -> i = j;
}.

(** Split a lookup in the map of goroutines after one of them moved. *)
Ltac at_insert :=
  repeat match goal with
  | H : <[_ := _]> _ !! _ = Some _ |- _ => apply lookup_insert_Some in H as [[? ?]|[? H]]; simplify_eq
  | H : <[_ := _]> _ !! _ = None |- _ => apply lookup_insert_None in H as [H ?]
  end.

(** Some goroutine has [P], and still after [i] moved, unless it was [i]. *)
Lemma some_insert {A} (P : A -> Prop) (hs : gmap Tid A) i h' :
  (forall h, hs !! i = Some h -> P h -> P h') ->
  (exists j h, hs !! j = Some h /\ P h) -> exists j h, <[i := h']> hs !! j = Some h /\ P h.
Proof.
  intros Hi (j & h & Hj & HP). destruct (decide (j = i)) as [->|].
  - exists i, h'. rewrite lookup_insert_eq. eauto.
  - exists j, h. by rewrite lookup_insert_ne.
Qed.

Lemma own_grow os hs i h h' X :
  ownInv os hs -> hs !! i = Some h -> X ## os -> h_owned h' = X ∪ h_owned h ->
  ownInv (X ∪ os) (<[i := h']> hs).
Proof.
  intros [Hs Hb Ho] Hi HX Hh'. split.
  - intros j g Hj. at_insert; [rewrite Hh'; specialize (Hs _ _ Hi); set_solver|].
    specialize (Hs _ _ Hj). set_solver.
  - intros id [Hid|Hid]%elem_of_union.
    + exists i, h'. rewrite lookup_insert_eq, Hh'. set_solver.
    + apply some_insert; [|by apply Hb]. intros g Hg Hin. simplify_eq. rewrite Hh'. set_solver.
  - assert (Hsub : forall x, x ∈ h_owned h' -> x ∈ os -> x ∈ h_owned h) by set_solver.
    intros j k g g' id Hj Hk Hg Hg'. at_insert; [done|..].
    + pose proof (Hs _ _ Hj) as HH1. eauto.
    + pose proof (Hs _ _ Hk) as HH1. eauto.
    + eauto.
Qed.

Lemma own_same os hs i h h' :
  ownInv os hs -> hs !! i = Some h -> h_owned h' = h_owned h -> ownInv os (<[i := h']> hs).
Proof.
  intros Ho Hi Hh. rewrite <- (union_empty_l_L os). eapply own_grow; [done|done|set_solver|].
  by rewrite union_empty_l_L.
Qed.

Lemma own_shrink os hs i h h' id :
  ownInv os hs -> hs !! i = Some h -> id ∈ h_owned h -> h_owned h' = h_owned h ∖ {[id]} ->
  ownInv (os ∖ {[id]}) (<[i := h']> hs).
Proof.
  intros [Hs Hb Ho] Hi Hid Hh'. split.
  - intros j g Hj. at_insert; [rewrite Hh'; specialize (Hs _ _ Hi); set_solver|].
    assert (id ∉ h_owned g) by (intros Hg; eauto). specialize (Hs _ _ Hj). set_solver.
  - intros x Hx. apply some_insert; [|apply Hb; set_solver]. intros g Hg Hin. simplify_eq. rewrite Hh'. set_solver.
  - assert (Hsub : h_owned h' ⊆ h_owned h) by set_solver.
    intros j k g g' x Hj Hk Hg Hg'. at_insert; [done|eauto..].
Qed.

Lemma own_exec {X} i (o : op X) h x s s' hs :
  hs !! i = Some h -> pre o h -> exec i o s x s' ->
  ownInv (owners s) hs -> ownInv (owners s') (<[i := after o h x]> hs).
Proof.
  intros Hi Hp Hx Ho. destruct o; exec_simpl Hx;
    try (eapply own_same; [exact Ho|exact Hi|done]).
  - eapply own_grow; [done|done|set_solver|done].
  - eapply own_grow; [done|done| |done]. destruct_or!; set_solver.
  - cbn in Hp. eapply own_shrink; [done|done|apply Hp|done].
  - apply claimBatch_spec in Hx as (-> & Hn & Hsub & Hnew & _). cbn.
    eapply own_grow; [done|done|set_solver|]. cbn. destruct Hp as [-> _]. by rewrite union_empty_r_L.
Qed.

(** * Slots and workers are counted *)

Definition slots (hs : Threads) : Z := msum (fun h => if h_slot h then 1 else 0)%Z hs.
Definition live (hs : Threads) : Z := msum (fun h => if h_worker h then 1 else 0)%Z hs.

Lemma slots_exec {X} i (o : op X) h x s s' hs :
  hs !! i = Some h -> pre o h -> exec i o s x s' ->
  (archiveSlots s = slots hs /\ archiveSlots s <= archiveWorkers)%Z ->
  (archiveSlots s' = slots (<[i := after o h x]> hs) /\ archiveSlots s' <= archiveWorkers)%Z.
Proof.
  intros Hi Hp Hx Hs. unfold slots in *. rewrite (msum_update _ _ _ _ _ Hi).
  destruct o; exec_simpl Hx; try (repeat case_match; cbn; lia).
  - destruct Hp as [-> _]. cbn. lia.
  - rewrite Hp. lia.
  - apply claimBatch_spec in Hx as [-> _]. cbn. lia.
Qed.

Lemma live_exec {X} i (o : op X) h x s s' hs :
  hs !! i = Some h -> pre o h -> exec i o s x s' ->
  workers s = live hs -> workers s' = live (<[i := after o h x]> hs).
Proof.
  intros Hi Hp Hx Hs. unfold live in *. rewrite (msum_update _ _ _ _ _ Hi).
  destruct o; exec_simpl Hx; try (repeat case_match; cbn; lia).
  - apply claimBatch_spec in Hx as [-> _]. cbn. lia.
  - destruct Hp as (_ & _ & -> & _). lia.
Qed.

(** * Run locks *)

Definition refCount (id : RunID) (hs : Threads) : Z :=
  msum (fun h => if h_refs h !! id is Some _ then 1 else 0)%Z hs.

(** The exclusive acquisition a goroutine is about to make. *)
Definition locksAt {A} (p : prog A) : option (RunID * Loc) :=
  match p with Vis (Lock id l true) _ => Some (id, l) | _ => None end.

Record lockInv (rl : gmap RunID Loc) (ls : gmap Loc RunLock) (P : gmap Tid (prog unit)) (hs : Threads) : Prop := {
  l_ref : forall i h id l m, hs !! i = Some h -> h_refs h !! id = Some (l, m) -> rl !! id = Some l;
  l_count : forall id l, rl !! id = Some l ->
    exists k, ls !! l = Some k /\ rl_refs k = refCount id hs /\ (0 < refCount id hs)%Z;
  l_inj : forall id id' l, rl !! id = Some l -> rl !! id' = Some l -> id = id';
  l_writer : forall l k i, ls !! l = Some k -> rl_writer k = Some i ->
    exists h id, hs !! i = Some h /\ h_refs h !! id = Some (l, ExclHeld);
  l_reader : forall l k i, ls !! l = Some k -> i ∈ rl_readers k ->
    exists h id, hs !! i = Some h /\ h_refs h !! id = Some (l, SharedHeld);
  l_excl : forall i h id l k, hs !! i = Some h -> h_refs h !! id = Some (l, ExclHeld) -> ls !! l = Some k ->
    rl_writer k = Some i /\ rl_readers k = ∅;
  l_shared : forall i h id l k, hs !! i = Some h -> h_refs h !! id = Some (l, SharedHeld) -> ls !! l = Some k ->
    i ∈ rl_readers k;
  l_pend : forall l k i, ls !! l = Some k -> i ∈ rl_pending k ->
    exists p id, P !! i = Some p /\ locksAt p = Some (id, l);
}.

Lemma refCount_pos id hs i h v : hs !! i = Some h -> h_refs h !! id = Some v -> (1 <= refCount id hs)%Z.
Proof.
  intros Hi Hv. unfold refCount.
  pose proof (msum_elem (fun h => if h_refs h !! id is Some _ then 1 else 0)%Z hs i h) as H.
  cbn in H. rewrite Hv in H. apply H; [|done]. intros j g _. by case_match.
Qed.

Lemma refCount_zero id hs :
  (forall i h, hs !! i = Some h -> h_refs h !! id = None) -> refCount id hs = 0%Z.
Proof.
  intros H. unfold refCount. apply Z.le_antisymm.
  - etrans; [apply (msum_le _ (fun _ => 0%Z))|by rewrite msum_zero]. intros i h Hi. by rewrite (H i h Hi).
  - apply msum_nonneg. intros i h _. by case_match.
Qed.

Lemma refCount_update id hs i h h' : hs !! i = Some h ->
  refCount id (<[i := h']> hs) =
  (refCount id hs - (if h_refs h !! id is Some _ then 1 else 0) + (if h_refs h' !! id is Some _ then 1 else 0))%Z.
Proof. intros Hi. unfold refCount. by rewrite (msum_update _ _ _ _ _ Hi). Qed.

(** The goroutine moves on without touching its references. *)
Lemma lock_same rl ls P hs i h h' p p' :
  lockInv rl ls P hs -> hs !! i = Some h -> P !! i = Some p -> locksAt p = None ->
  h_refs h' = h_refs h -> lockInv rl ls (<[i := p']> P) (<[i := h']> hs).
Proof.
  intros [Hr Hc Hj Hw Hrd He Hs Hp] Hi HP Hat Hh. split.
  - intros j g id l m Hg Hl. at_insert; [rewrite Hh in Hl|]; eauto.
  - intros id l Hl. destruct (Hc id l Hl) as (k & Hk & Hn & Hpos). exists k.
    rewrite (refCount_update _ _ _ _ _ Hi), Hh. split_and!; [done|case_match; lia..].
  - done.
  - intros l k j Hk Hkw. destruct (Hw l k j Hk Hkw) as (g & id & Hg & Hgl). destruct (decide (j = i)) as [->|].
    + exists h', id. rewrite lookup_insert_eq, Hh. by simplify_eq.
    + exists g, id. by rewrite lookup_insert_ne.
  - intros l k j Hk Hkw. destruct (Hrd l k j Hk Hkw) as (g & id & Hg & Hgl). destruct (decide (j = i)) as [->|].
    + exists h', id. rewrite lookup_insert_eq, Hh. by simplify_eq.
    + exists g, id. by rewrite lookup_insert_ne.
  - intros j g id l k Hg Hl Hk. at_insert; [rewrite Hh in Hl|]; eauto.
  - intros j g id l k Hg Hl Hk. at_insert; [rewrite Hh in Hl|]; eauto.
  - intros l k j Hk Hkp. destruct (Hp l k j Hk Hkp) as (q & id & Hq & Hql). exists q, id.
    rewrite lookup_insert_ne; [done|]. intros ->. congruence.
Qed.

Section one_ref.
(** Goroutine [i] changes its reference to the lock of run [id], no other. *)
Context (hs : Threads) (i : Tid) (h h' : Held) (id : RunID).
Context (Hi : hs !! i = Some h).
Context (Helse : forall x, x <> id -> h_refs h' !! x = h_refs h !! x).

Lemma refs_elsewhere j g x v :
  <[i := h']> hs !! j = Some g -> h_refs g !! x = Some v ->
  (j = i /\ x = id /\ h_refs h' !! id = Some v) \/
  (exists g0, hs !! j = Some g0 /\ h_refs g0 !! x = Some v /\ (j <> i \/ x <> id)).
Proof.
  intros Hj Hx. apply lookup_insert_Some in Hj as [[<- <-]|[Hne Hj]]; [|right; eauto].
  destruct (decide (x = id)) as [->|Hne]; [by left|]. right. exists h. rewrite <- Helse by done. auto.
Qed.

Lemma refs_survive j x v :
  (j <> i \/ x <> id) -> (exists g, hs !! j = Some g /\ h_refs g !! x = Some v) ->
  exists g, <[i := h']> hs !! j = Some g /\ h_refs g !! x = Some v.
Proof.
  intros Hne (g & Hj & Hx). destruct (decide (j = i)) as [->|].
  - exists h'. rewrite lookup_insert_eq. simplify_eq. split; [done|]. rewrite Helse; [done|]. by destruct Hne.
  - exists g. by rewrite lookup_insert_ne.
Qed.
End one_ref.

Section lock_ops.
Context (rl : gmap RunID Loc) (ls : gmap Loc RunLock) (P : gmap Tid (prog unit)) (hs : Threads).
Context (I : lockInv rl ls P hs).
Context (i : Tid) (h h' : Held) (p p' : prog unit) (id : RunID) (l : Loc).
Context (Hi : hs !! i = Some h) (HP : P !! i = Some p).

(** A goroutine's reference to a lock is a reference to the run's lock. *)
Lemma same_run j g x m m' :
  h_refs h !! id = Some (l, m') -> hs !! j = Some g -> h_refs g !! x = Some (l, m) -> x = id.
Proof. intros Hid Hj Hx. eapply (l_inj _ _ _ _ I); [exact (l_ref _ _ _ _ I _ _ _ _ _ Hj Hx)|exact (l_ref _ _ _ _ I _ _ _ _ _ Hi Hid)]. Qed.

Lemma pend_stays k' (Hpk : forall k j, ls !! l = Some k -> j ∈ rl_pending k' -> j ∈ rl_pending k) :
  is_Some (ls !! l) -> (locksAt p = None \/ (locksAt p = Some (id, l) /\ i ∉ rl_pending k')) ->
  forall l0 k j, <[l := k']> ls !! l0 = Some k -> j ∈ rl_pending k ->
  exists q x, <[i := p']> P !! j = Some q /\ locksAt q = Some (x, l0).
Proof.
  intros [k0 Hk0] Hat l0 k j Hk Hj. apply lookup_insert_Some in Hk as [[<- <-]|[Hne Hk]].
  - destruct (l_pend _ _ _ _ I _ _ j Hk0) as (q & x & Hq & Hx); [eauto|]. exists q, x.
    rewrite lookup_insert_ne; [done|]. intros ->. simplify_eq. destruct Hat as [|[]]; congruence.
  - destruct (l_pend _ _ _ _ I _ _ j Hk) as (q & x & Hq & Hx); [eauto|]. exists q, x.
    rewrite lookup_insert_ne; [done|]. intros ->. simplify_eq. destruct Hat as [|[]]; congruence.
Qed.

Lemma lock_take k e :
  locksAt p = None \/ (locksAt p = Some (id, l) /\ e = true) ->
  h_refs h !! id = Some (l, Counted) -> ls !! l = Some k ->
  rl_writer k = None -> (e = true -> rl_readers k = ∅) ->
  h_refs h' = <[id := (l, modeOf e)]> (h_refs h) ->
  lockInv rl (<[l := locked i e k]> ls) (<[i := p']> P) (<[i := h']> hs).
Proof.
  intros Hat Hid Hk Hw Hr Hh'. pose proof I as [Iref Icount Iinj Iwr Ird Iex Ish Ip].
  assert (Helse : forall x, x <> id -> h_refs h' !! x = h_refs h !! x)
    by (intros x Hx; rewrite Hh'; by rewrite lookup_insert_ne).
  assert (Hsame : forall j g x m, hs !! j = Some g -> h_refs g !! x = Some (l, m) -> x = id)
    by (intros; by eapply same_run).
  assert (Hlk : forall l0 k0, <[l := locked i e k]> ls !! l0 = Some k0 ->
    (l0 = l /\ k0 = locked i e k) \/ (l0 <> l /\ ls !! l0 = Some k0)).
  { intros l0 k0 Hl0. apply lookup_insert_Some in Hl0 as [[<- <-]|[? ?]]; [by left|by right]. }
  split.
  - intros j g x l0 m Hj Hx. destruct (refs_elsewhere hs i h h' id Hi Helse _ _ _ _ Hj Hx) as [(-> & -> & Hv)|(g0 & Hg0 & Hv & _)]; [|eauto].
    rewrite Hh', lookup_insert_eq in Hv. simplify_eq. eauto.
  - intros x l0 Hx. destruct (Icount x l0 Hx) as (k0 & Hk0 & Hc & Hpos).
    assert (Heq : refCount x (<[i := h']> hs) = refCount x hs).
    { rewrite (refCount_update _ _ _ _ _ Hi), Hh'. destruct (decide (x = id)) as [->|].
      - rewrite Hid, lookup_insert_eq. lia.
      - rewrite lookup_insert_ne by done. case_match; lia. }
    rewrite Heq. destruct (decide (l0 = l)) as [->|].
    + exists (locked i e k). rewrite lookup_insert_eq. simplify_eq. destruct e; done.
    + exists k0. by rewrite lookup_insert_ne.
  - done.
  - intros l0 k0 j Hk0 Hj. destruct (Hlk _ _ Hk0) as [[-> ->]|[Hne Hk0']].
    + destruct e; cbn in Hj; [simplify_eq|congruence]. exists h', id. by rewrite lookup_insert_eq, Hh', lookup_insert_eq.
    + destruct (Iwr _ _ _ Hk0' Hj) as (g & x & Hg & Hx).
      destruct (refs_survive hs i h h' id Hi Helse j x (l0, ExclHeld)) as (g' & Hg' & Hx'); [|eauto..].
      destruct (decide (j = i)) as [->|]; [right; intros ->; simplify_eq|by left].
  - intros l0 k0 j Hk0 Hj. destruct (Hlk _ _ Hk0) as [[-> ->]|[Hne Hk0']].
    + destruct e; cbn in Hj; [rewrite Hr in Hj by done; set_solver|].
      apply elem_of_union in Hj as [->%elem_of_singleton|Hj].
      * exists h', id. by rewrite lookup_insert_eq, Hh', lookup_insert_eq.
      * destruct (Ird _ _ _ Hk Hj) as (g & x & Hg & Hx).
        destruct (refs_survive hs i h h' id Hi Helse j x (l, SharedHeld)) as (g' & Hg' & Hx'); [|eauto..].
        destruct (decide (j = i)) as [->|]; [right; intros ->; simplify_eq|by left].
    + destruct (Ird _ _ _ Hk0' Hj) as (g & x & Hg & Hx).
      destruct (refs_survive hs i h h' id Hi Helse j x (l0, SharedHeld)) as (g' & Hg' & Hx'); [|eauto..].
      destruct (decide (j = i)) as [->|]; [right; intros ->; simplify_eq|by left].
  - intros j g x l0 k0 Hj Hx Hk0. destruct (refs_elsewhere hs i h h' id Hi Helse _ _ _ _ Hj Hx) as [(-> & -> & Hv)|(g0 & Hg0 & Hv & Hne)].
    + rewrite Hh', lookup_insert_eq in Hv. destruct e; simplify_eq. rewrite lookup_insert_eq in Hk0. simplify_eq. cbn. auto.
    + destruct (Hlk _ _ Hk0) as [[-> ->]|[Hl0 Hk0']]; [|eauto].
      destruct (Iex _ _ _ _ _ Hg0 Hv Hk). congruence.
  - intros j g x l0 k0 Hj Hx Hk0. destruct (refs_elsewhere hs i h h' id Hi Helse _ _ _ _ Hj Hx) as [(-> & -> & Hv)|(g0 & Hg0 & Hv & Hne)].
    + rewrite Hh', lookup_insert_eq in Hv. destruct e; simplify_eq. rewrite lookup_insert_eq in Hk0. simplify_eq. cbn. set_solver.
    + destruct (Hlk _ _ Hk0) as [[-> ->]|[Hl0 Hk0']]; [|eauto].
      pose proof (Ish _ _ _ _ _ Hg0 Hv Hk) as Hin. destruct e; cbn; [rewrite Hr in Hin by done; set_solver|set_solver].
  - apply pend_stays; [|eauto|destruct e, Hat as [|[? ?]]; cbn; auto; try done; right; split; [done|set_solver]].
    intros k0 j Hk0 Hj. simplify_eq. destruct e; cbn in Hj; [set_solver|done].
Qed.
Lemma lock_give k e :
  locksAt p = None ->
  h_refs h !! id = Some (l, modeOf e) -> ls !! l = Some k ->
  h_refs h' = <[id := (l, Counted)]> (h_refs h) ->
  lockInv rl (<[l := unlocked i e k]> ls) (<[i := p']> P) (<[i := h']> hs).
Proof.
  intros Hat Hid Hk Hh'. pose proof I as [Iref Icount Iinj Iwr Ird Iex Ish Ip].
  assert (Helse : forall x, x <> id -> h_refs h' !! x = h_refs h !! x)
    by (intros x Hx; rewrite Hh'; by rewrite lookup_insert_ne).
  assert (Hsame : forall j g x m, hs !! j = Some g -> h_refs g !! x = Some (l, m) -> x = id)
    by (intros; by eapply same_run).
  assert (Hlk : forall l0 k0, <[l := unlocked i e k]> ls !! l0 = Some k0 ->
    (l0 = l /\ k0 = unlocked i e k) \/ (l0 <> l /\ ls !! l0 = Some k0)).
  { intros l0 k0 Hl0. apply lookup_insert_Some in Hl0 as [[<- <-]|[? ?]]; [by left|by right]. }
  assert (Hmine : if e then rl_writer k = Some i /\ rl_readers k = ∅ else i ∈ rl_readers k)
    by (destruct e; eauto).
  split.
  - intros j g x l0 m Hj Hx. destruct (refs_elsewhere hs i h h' id Hi Helse _ _ _ _ Hj Hx) as [(-> & -> & Hv)|(g0 & Hg0 & Hv & _)]; [|eauto].
    rewrite Hh', lookup_insert_eq in Hv. simplify_eq. eauto.
  - intros x l0 Hx. destruct (Icount x l0 Hx) as (k0 & Hk0 & Hc & Hpos).
    assert (Heq : refCount x (<[i := h']> hs) = refCount x hs).
    { rewrite (refCount_update _ _ _ _ _ Hi), Hh'. destruct (decide (x = id)) as [->|].
      - rewrite Hid, lookup_insert_eq. lia.
      - rewrite lookup_insert_ne by done. case_match; lia. }
    rewrite Heq. destruct (decide (l0 = l)) as [->|].
    + exists (unlocked i e k). rewrite lookup_insert_eq. simplify_eq. destruct e; done.
    + exists k0. by rewrite lookup_insert_ne.
  - done.
  - intros l0 k0 j Hk0 Hj.
    assert (Hold : exists k1, ls !! l0 = Some k1 /\ rl_writer k1 = Some j /\ (l0 = l -> e = false)).
    { destruct (Hlk _ _ Hk0) as [[-> ->]|[Hne Hk0']]; [destruct e; cbn in Hj; [done|eauto]|eauto]. naive_solver. }
    destruct Hold as (k1 & Hk1 & Hw1 & He). destruct (Iwr _ _ _ Hk1 Hw1) as (g & x & Hg & Hx).
    destruct (refs_survive hs i h h' id Hi Helse j x (l0, ExclHeld)) as (g' & Hg' & Hx'); [|eauto..].
    destruct (decide (j = i)) as [->|]; [right; intros ->; simplify_eq|by left].
    destruct e; [discriminate (He eq_refl)|done].
  - intros l0 k0 j Hk0 Hj.
    assert (Hold : exists k1, ls !! l0 = Some k1 /\ j ∈ rl_readers k1 /\ (l0 = l -> j <> i)).
    { destruct (Hlk _ _ Hk0) as [[-> ->]|[Hne Hk0']]; [|exists k0; naive_solver].
      exists k. destruct e; cbn in Hj; [|set_solver]. destruct Hmine as [_ Hm]. rewrite Hm in Hj. set_solver. }
    destruct Hold as (k1 & Hk1 & Hw1 & He). destruct (Ird _ _ _ Hk1 Hw1) as (g & x & Hg & Hx).
    destruct (refs_survive hs i h h' id Hi Helse j x (l0, SharedHeld)) as (g' & Hg' & Hx'); [|eauto..].
    destruct (decide (j = i)) as [->|]; [right; intros ->; simplify_eq|by left].
    by apply He.
  - intros j g x l0 k0 Hj Hx Hk0. destruct (refs_elsewhere hs i h h' id Hi Helse _ _ _ _ Hj Hx) as [(-> & -> & Hv)|(g0 & Hg0 & Hv & Hne)].
    + rewrite Hh', lookup_insert_eq in Hv. simplify_eq.
    + destruct (Hlk _ _ Hk0) as [[-> ->]|[Hl0 Hk0']]; [|eauto].
      destruct (Iex _ _ _ _ _ Hg0 Hv Hk) as [Hw Hr].
      assert (Hji : j <> i) by (intros ->; simplify_eq; destruct Hne as [|Hne]; [done|apply Hne; eauto]).
      destruct e; [destruct Hmine; congruence|]. rewrite Hr in Hmine. set_solver.
  - intros j g x l0 k0 Hj Hx Hk0. destruct (refs_elsewhere hs i h h' id Hi Helse _ _ _ _ Hj Hx) as [(-> & -> & Hv)|(g0 & Hg0 & Hv & Hne)].
    + rewrite Hh', lookup_insert_eq in Hv. simplify_eq.
    + destruct (Hlk _ _ Hk0) as [[-> ->]|[Hl0 Hk0']]; [|eauto].
      pose proof (Ish _ _ _ _ _ Hg0 Hv Hk) as Hin.
      assert (Hji : j <> i) by (intros ->; simplify_eq; destruct Hne as [|Hne]; [done|apply Hne; eauto]).
      destruct e; cbn; set_solver.
  - apply pend_stays; [|eauto|by left]. intros k0 j Hk0 Hj. simplify_eq. by destruct e.
Qed.

(** Give up a counted reference; the last one removes the lock from the map. *)
Lemma lock_unref k :
  locksAt p = None -> h_refs h !! id = Some (l, Counted) -> ls !! l = Some k ->
  h_refs h' = delete id (h_refs h) ->
  lockInv (if rl_refs k - 1 =? 0 then delete id rl else rl)%Z
    (<[l := k <| rl_refs ::= fun n => (n - 1)%Z |>]> ls) (<[i := p']> P) (<[i := h']> hs).
Proof.
  intros Hat Hid Hk Hh'. pose proof I as [Iref Icount Iinj Iwr Ird Iex Ish Ip].
  assert (Helse : forall x, x <> id -> h_refs h' !! x = h_refs h !! x)
    by (intros x Hx; rewrite Hh'; by rewrite lookup_delete_ne).
  pose proof (Iref _ _ _ _ _ Hi Hid) as Hrl. destruct (Icount _ _ Hrl) as (k1 & Hk1 & Hc1 & Hpos1).
  rewrite Hk in Hk1. apply (inj Some) in Hk1 as <-.
  assert (Hcount : refCount id (<[i := h']> hs) = (refCount id hs - 1)%Z).
  { rewrite (refCount_update _ _ _ _ _ Hi), Hh', Hid, lookup_delete_eq. lia. }
  assert (Hcount' : forall x, x <> id -> refCount x (<[i := h']> hs) = refCount x hs).
  { intros x Hx. rewrite (refCount_update _ _ _ _ _ Hi), Helse by done. case_match; lia. }
  assert (Hlk : forall l0 k0, <[l := k <| rl_refs ::= fun n => (n - 1)%Z |>]> ls !! l0 = Some k0 ->
    exists k2, ls !! l0 = Some k2 /\ rl_writer k0 = rl_writer k2 /\ rl_readers k0 = rl_readers k2).
  { intros l0 k0 Hl0. apply lookup_insert_Some in Hl0 as [[<- <-]|[? ?]]; eauto. }
  assert (Hnew : forall j g x v, <[i := h']> hs !! j = Some g -> h_refs g !! x = Some v ->
    exists g0, hs !! j = Some g0 /\ h_refs g0 !! x = Some v /\ (j <> i \/ x <> id)).
  { intros j g x v Hj Hx. destruct (refs_elsewhere hs i h h' id Hi Helse _ _ _ _ Hj Hx) as [(-> & -> & Hv)|]; [|done].
    rewrite Hh', lookup_delete_eq in Hv. done. }
  assert (Hother : rl_refs k = 1%Z -> forall j g v, hs !! j = Some g -> h_refs g !! id = Some v -> j = i).
  { intros H1 j g v Hj Hv. destruct (decide (j = i)); [done|].
    assert (1 <= refCount id (<[i := h']> hs))%Z; [|lia].
    eapply (refCount_pos id _ j); [by rewrite lookup_insert_ne|done]. }
  assert (Hsub : forall x l0, (if rl_refs k - 1 =? 0 then delete id rl else rl)%Z !! x = Some l0 ->
    rl !! x = Some l0 /\ (rl_refs k = 1%Z -> x <> id)).
  { intros x l0 Hx. destruct (rl_refs k - 1 =? 0)%Z eqn:E; [apply lookup_delete_Some in Hx as [? ?]|split; [done|lia]]. auto. }
  split.
  - intros j g x l0 m Hj Hx. destruct (Hnew _ _ _ _ Hj Hx) as (g0 & Hg0 & Hv & Hne).
    pose proof (Iref _ _ _ _ _ Hg0 Hv) as Hx0. case_match; [|done]. rewrite lookup_delete_ne; [done|].
    intros <-. destruct Hne as [Hne|]; [|done]. apply Hne. eapply Hother; [lia|done..].
  - intros x l0 Hx. destruct (Hsub _ _ Hx) as [Hx0 Hne]. destruct (Icount _ _ Hx0) as (k2 & Hk2 & Hc2 & Hpos2).
    destruct (decide (x = id)) as [->|Hxi].
    + rewrite Hrl in Hx0. simplify_eq. exists (k <| rl_refs ::= fun n => (n - 1)%Z |>).
      rewrite lookup_insert_eq, Hcount. cbn. split_and!; [done|lia|].
      destruct (decide (rl_refs k = 1%Z)); [by destruct Hne|lia].
    + rewrite Hcount' by done. exists k2. rewrite lookup_insert_ne; [done|]. intros ->. apply Hxi. eauto.
  - intros x y l0 Hx Hy. destruct (Hsub _ _ Hx), (Hsub _ _ Hy). eauto.
  - intros l0 k0 j Hk0 Hj. destruct (Hlk _ _ Hk0) as (k2 & Hk2 & Hw & _). rewrite Hw in Hj.
    destruct (Iwr _ _ _ Hk2 Hj) as (g & x & Hg & Hx).
    destruct (refs_survive hs i h h' id Hi Helse j x (l0, ExclHeld)) as (g' & Hg' & Hx'); [|eauto..].
    destruct (decide (j = i)) as [->|]; [right; intros ->; simplify_eq|by left].
  - intros l0 k0 j Hk0 Hj. destruct (Hlk _ _ Hk0) as (k2 & Hk2 & _ & Hr). rewrite Hr in Hj.
    destruct (Ird _ _ _ Hk2 Hj) as (g & x & Hg & Hx).
    destruct (refs_survive hs i h h' id Hi Helse j x (l0, SharedHeld)) as (g' & Hg' & Hx'); [|eauto..].
    destruct (decide (j = i)) as [->|]; [right; intros ->; simplify_eq|by left].
  - intros j g x l0 k0 Hj Hx Hk0. destruct (Hnew _ _ _ _ Hj Hx) as (g0 & Hg0 & Hv & _).
    destruct (Hlk _ _ Hk0) as (k2 & Hk2 & -> & ->). eauto.
  - intros j g x l0 k0 Hj Hx Hk0. destruct (Hnew _ _ _ _ Hj Hx) as (g0 & Hg0 & Hv & _).
    destruct (Hlk _ _ Hk0) as (k2 & Hk2 & _ & ->). eauto.
  - apply pend_stays; [|eauto|by left]. intros k2 j Hk2 Hj. by simplify_eq.
Qed.
(** Counting a new reference changes neither holders nor waiters. *)
Lemma lock_recount rl' ls' :
  locksAt p = None -> h_refs h !! id = None -> h_refs h' = <[id := (l, Counted)]> (h_refs h) ->
  (forall l0 k0, ls' !! l0 = Some k0 ->
     (rl_writer k0 = None /\ rl_readers k0 = ∅ /\ rl_pending k0 = ∅ /\ ls !! l0 = None) \/
     (exists k2, ls !! l0 = Some k2 /\ rl_writer k0 = rl_writer k2 /\ rl_readers k0 = rl_readers k2 /\
        rl_pending k0 = rl_pending k2)) ->
  (forall x l0, rl !! x = Some l0 -> rl' !! x = Some l0) -> rl' !! id = Some l ->
  (forall x l0, rl' !! x = Some l0 -> exists k, ls' !! l0 = Some k /\
     rl_refs k = refCount x (<[i := h']> hs) /\ 0 < refCount x (<[i := h']> hs))%Z ->
  (forall x y l0, rl' !! x = Some l0 -> rl' !! y = Some l0 -> x = y) ->
  lockInv rl' ls' (<[i := p']> P) (<[i := h']> hs).
Proof.
  intros Hat Hid Hh' Hls Hrl Hidl Hcount Hinj. pose proof I as [Iref Icount Iinj Iwr Ird Iex Ish Ip].
  assert (Helse : forall x, x <> id -> h_refs h' !! x = h_refs h !! x)
    by (intros x Hx; rewrite Hh'; by rewrite lookup_insert_ne).
  assert (Hne : forall j x v, (exists g, hs !! j = Some g /\ h_refs g !! x = Some v) -> j <> i \/ x <> id).
  { intros j x v (g & Hg & Hv). destruct (decide (j = i)) as [->|]; [|by left]. right. intros ->. simplify_eq. }
  assert (Hheld : forall j g x l0 m, <[i := h']> hs !! j = Some g -> h_refs g !! x = Some (l0, m) -> m <> Counted ->
    exists g0, hs !! j = Some g0 /\ h_refs g0 !! x = Some (l0, m)).
  { intros j g x l0 m Hj Hx Hm. destruct (refs_elsewhere hs i h h' id Hi Helse _ _ _ _ Hj Hx) as [(-> & -> & Hv)|(g0 & ? & ? & _)]; [|eauto].
    rewrite Hh', lookup_insert_eq in Hv. by simplify_eq. }
  split; [| done | done | | | | |].
  - intros j g x l0 m Hj Hx. destruct (refs_elsewhere hs i h h' id Hi Helse _ _ _ _ Hj Hx) as [(-> & -> & Hv)|(g0 & Hg0 & Hv & _)]; [|eauto].
    rewrite Hh', lookup_insert_eq in Hv. by simplify_eq.
  - intros l0 k0 j Hk0 Hj. destruct (Hls _ _ Hk0) as [(? & _)|(k2 & Hk2 & Hw & _)]; [congruence|]. rewrite Hw in Hj.
    destruct (Iwr _ _ _ Hk2 Hj) as (g & x & Hg & Hx).
    destruct (refs_survive hs i h h' id Hi Helse j x (l0, ExclHeld)) as (g' & Hg' & Hx'); eauto.
  - intros l0 k0 j Hk0 Hj. destruct (Hls _ _ Hk0) as [(_ & Hr & _)|(k2 & Hk2 & _ & Hr & _)]; rewrite Hr in Hj; [set_solver|].
    destruct (Ird _ _ _ Hk2 Hj) as (g & x & Hg & Hx).
    destruct (refs_survive hs i h h' id Hi Helse j x (l0, SharedHeld)) as (g' & Hg' & Hx'); eauto.
  - intros j g x l0 k0 Hj Hx Hk0. destruct (Hheld _ _ _ _ _ Hj Hx) as (g0 & Hg0 & Hv); [done|].
    destruct (Icount _ _ (Iref _ _ _ _ _ Hg0 Hv)) as (k3 & Hk3 & _).
    destruct (Hls _ _ Hk0) as [(_ & _ & _ & Hn)|(k2 & Hk2 & -> & -> & _)]; [congruence|eauto].
  - intros j g x l0 k0 Hj Hx Hk0. destruct (Hheld _ _ _ _ _ Hj Hx) as (g0 & Hg0 & Hv); [done|].
    destruct (Icount _ _ (Iref _ _ _ _ _ Hg0 Hv)) as (k3 & Hk3 & _).
    destruct (Hls _ _ Hk0) as [(_ & _ & _ & Hn)|(k2 & Hk2 & _ & -> & _)]; [congruence|eauto].
  - intros l0 k0 j Hk0 Hj. destruct (Hls _ _ Hk0) as [(_ & _ & Hr & _)|(k2 & Hk2 & _ & _ & Hr)]; rewrite Hr in Hj; [set_solver|].
    destruct (Ip _ _ _ Hk2 Hj) as (q & x & Hq & Hx). exists q, x. rewrite lookup_insert_ne; [done|]. intros ->. congruence.
Qed.

Lemma refCount_other x :
  x <> id -> h_refs h' = <[id := (l, Counted)]> (h_refs h) -> refCount x (<[i := h']> hs) = refCount x hs.
Proof.
  intros Hx Hh'. rewrite (refCount_update _ _ _ _ _ Hi), Hh', lookup_insert_ne by done. case_match; lia.
Qed.

Lemma refCount_more :
  h_refs h !! id = None -> h_refs h' = <[id := (l, Counted)]> (h_refs h) ->
  refCount id (<[i := h']> hs) = (1 + refCount id hs)%Z.
Proof. intros Hid Hh'. rewrite (refCount_update _ _ _ _ _ Hi), Hh', Hid, lookup_insert_eq. lia. Qed.

Lemma lock_ref_old :
  locksAt p = None -> h_refs h !! id = None -> h_refs h' = <[id := (l, Counted)]> (h_refs h) ->
  rl !! id = Some l ->
  lockInv rl (alter (fun k => k <| rl_refs ::= Z.add 1 |>) l ls) (<[i := p']> P) (<[i := h']> hs).
Proof.
  intros Hat Hid Hh' Hl. apply lock_recount; try done; [| |apply I].
  - intros l0 k0 Hk0. right. apply lookup_alter_Some in Hk0 as [(-> & k & Hk & ->)|[_ Hk0]]; eauto.
  - intros x l0 Hx. destruct (l_count _ _ _ _ I _ _ Hx) as (k & Hk & Hc & Hpos). destruct (decide (x = id)) as [->|Hxi].
    + exists (k <| rl_refs ::= Z.add 1 |>). simplify_eq. rewrite lookup_alter_eq, Hk, refCount_more by done. cbn.
      split_and!; [done|lia..].
    + exists k. rewrite lookup_alter_ne, refCount_other; [done|done|done|]. intros ->.
      apply Hxi. eapply (l_inj _ _ _ _ I); eauto.
Qed.

Lemma lock_ref_new :
  locksAt p = None -> h_refs h !! id = None -> h_refs h' = <[id := (l, Counted)]> (h_refs h) ->
  rl !! id = None -> ls !! l = None ->
  lockInv (<[id := l]> rl) (<[l := mkRunLock None ∅ ∅ 1]> ls) (<[i := p']> P) (<[i := h']> hs).
Proof.
  intros Hat Hid Hh' Hn Hl.
  assert (Hfresh : forall x, rl !! x <> Some l).
  { intros x Hx. destruct (l_count _ _ _ _ I _ _ Hx) as (k & Hk & _). congruence. }
  assert (Hzero : refCount id hs = 0%Z).
  { apply refCount_zero. intros j g Hg. destruct (h_refs g !! id) as [[l0 m]|] eqn:E; [|done].
    pose proof (l_ref _ _ _ _ I _ _ _ _ _ Hg E). congruence. }
  apply lock_recount; try done.
  - intros l0 k0 Hk0. apply lookup_insert_Some in Hk0 as [[<- <-]|[_ Hk0]]; [by left|right; eauto].
  - intros x l0 Hx. rewrite lookup_insert_ne; [done|]. intros <-. congruence.
  - apply lookup_insert_eq.
  - intros x l0 Hx. apply lookup_insert_Some in Hx as [[<- <-]|[Hne Hx]].
    + exists (mkRunLock None ∅ ∅ 1). rewrite lookup_insert_eq, refCount_more, Hzero by done. done.
    + destruct (l_count _ _ _ _ I _ _ Hx) as (k & Hk & Hc & Hpos). exists k.
      rewrite lookup_insert_ne, refCount_other; [done|done|done|]. intros ->. by eapply Hfresh.
  - intros x y l0 Hx Hy. apply lookup_insert_Some in Hx as [[? ?]|[_ Hx]];
      apply lookup_insert_Some in Hy as [[? ?]|[_ Hy]]; subst;
      [done|by destruct (Hfresh y)|by destruct (Hfresh x)|by eapply (l_inj _ _ _ _ I)].
Qed.
End lock_ops.

(** Announcing an exclusive acquisition. *)
Lemma lock_announce rl ls P hs i p id l k :
  lockInv rl ls P hs -> P !! i = Some p -> locksAt p = Some (id, l) -> ls !! l = Some k ->
  lockInv rl (<[l := k <| rl_pending ::= union {[i]} |>]> ls) P hs.
Proof.
  intros [Iref Icount Iinj Iwr Ird Iex Ish Ip] HP Hat Hk.
  assert (Hlk : forall l0 k0, <[l := k <| rl_pending ::= union {[i]} |>]> ls !! l0 = Some k0 ->
    exists k2, ls !! l0 = Some k2 /\ rl_writer k0 = rl_writer k2 /\ rl_readers k0 = rl_readers k2 /\
      rl_refs k0 = rl_refs k2).
  { intros l0 k0 Hl0. apply lookup_insert_Some in Hl0 as [[<- <-]|[? ?]]; eauto. }
  split; try done.
  - intros x l0 Hx. destruct (Icount _ _ Hx) as (k2 & Hk2 & Hc & Hpos). destruct (decide (l0 = l)) as [->|].
    + exists (k <| rl_pending ::= union {[i]} |>). rewrite lookup_insert_eq. by simplify_eq.
    + exists k2. by rewrite lookup_insert_ne.
  - intros l0 k0 j Hk0 Hj. destruct (Hlk _ _ Hk0) as (k2 & Hk2 & Hw & Hr & _). rewrite Hw in Hj. eauto.
  - intros l0 k0 j Hk0 Hj. destruct (Hlk _ _ Hk0) as (k2 & Hk2 & Hw & Hr & _). rewrite Hr in Hj. eauto.
  - intros j g x l0 k0 Hj Hx Hk0. destruct (Hlk _ _ Hk0) as (k2 & Hk2 & -> & -> & _). eauto.
  - intros j g x l0 k0 Hj Hx Hk0. destruct (Hlk _ _ Hk0) as (k2 & Hk2 & _ & -> & _). eauto.
  - intros l0 k0 j Hk0 Hj. apply lookup_insert_Some in Hk0 as [[<- <-]|[_ Hk0]]; [|eauto].
    cbn in Hj. apply elem_of_union in Hj as [->%elem_of_singleton|Hj]; eauto.
Qed.

Lemma unref_fields id l s k :
  locks s !! l = Some k ->
  runLocks (unrefRunLock id l s) = (if rl_refs k - 1 =? 0 then delete id (runLocks s) else runLocks s)%Z /\
  locks (unrefRunLock id l s) = <[l := k <| rl_refs ::= fun n => (n - 1)%Z |>]> (locks s).
Proof.
  intros Hk. unfold unrefRunLock. cbn. rewrite lookup_alter_eq, Hk. cbn.
  assert (Ha : alter (fun k => k <| rl_refs ::= fun n => (n - 1)%Z |>) l (locks s) =
    <[l := k <| rl_refs ::= fun n => (n - 1)%Z |>]> (locks s)).
  { apply map_eq. intros x. destruct (decide (x = l)) as [->|].
    - by rewrite lookup_alter_eq, Hk, lookup_insert_eq.
    - by rewrite lookup_alter_ne, lookup_insert_ne. }
  cbn in Ha. case_match; cbn; by rewrite Ha.
Qed.

Lemma locks_exec {X} i (o : op X) k h x s s' P hs :
  hs !! i = Some h -> P !! i = Some (Vis o k) -> pre o h -> exec i o s x s' ->
  lockInv (runLocks s) (locks s) P hs ->
  lockInv (runLocks s') (locks s') (<[i := k x]> P) (<[i := after o h x]> hs).
Proof.
  intros Hi HP Hp Hx I.
  destruct o; try (exec_simpl Hx; (eapply lock_same; [exact I|exact Hi|exact HP|done|done])).
  - cbn in Hx, Hp. unfold refRunLock in Hx. destruct (runLocks s !! id) as [l|] eqn:E; simplify_eq; cbn.
    + by eapply lock_ref_old.
    + eapply lock_ref_new; try done. apply not_elem_of_dom. apply is_fresh.
  - cbn in Hx, Hp. destruct Hx as (k0 & Hk0 & -> & ->). destruct (canTry k0) eqn:E; cbn.
    + unfold canTry, lockFree in E. bools.
      eapply (lock_take _ _ _ _ I i h _ (Vis (TryLock id l) k) _ id l Hi HP k0 true); try done. by left.
    + by eapply lock_same.
  - cbn in Hx. destruct Hx as (k0 & Hk0 & Hc & ->). cbn.
    assert (Hid : h_refs h !! id = Some (l, Counted)).
    { destruct Hp as [(_ & _ & Hr & _)|(_ & _ & Hr)]; [done|]. rewrite Hr. apply lookup_insert_eq. }
    eapply (lock_take _ _ _ _ I i h _ (Vis (Lock id l exclusive) k) _ id l Hi HP k0 exclusive); try done.
    + destruct exclusive; [right|left]; done.
    + destruct exclusive; unfold canLock, lockFree in Hc; by bools.
    + intros ->. unfold canLock, lockFree in Hc. by bools.
  - cbn in Hx, Hp. destruct Hx as (k0 & Hk0 & ->). cbn.
    by eapply (lock_give _ _ _ _ I i h _ (Vis (Unlock id l exclusive) k)).
  - cbn in Hx, Hp. subst s'.
    destruct (l_count _ _ _ _ I _ _ (l_ref _ _ _ _ I _ _ _ _ _ Hi Hp)) as (k0 & Hk0 & _).
    destruct (unref_fields id l s k0 Hk0) as [-> ->].
    by eapply (lock_unref _ _ _ _ I i h _ (Vis (UnrefLock id l) k)).
  - cbn in Hx. apply claimBatch_spec in Hx as [-> _]. cbn. by eapply lock_same.
Qed.

(** Two goroutines never both hold the lock of one run, unless both only read. *)
Lemma holders_compatible rl ls P hs i j h g id l m l' m' :
  lockInv rl ls P hs -> hs !! i = Some h -> hs !! j = Some g ->
  h_refs h !! id = Some (l, m) -> h_refs g !! id = Some (l', m') ->
  m = ExclHeld -> m' <> Counted -> i = j.
Proof.
  intros I Hi Hj Hl Hl' -> Hm'.
  pose proof (l_ref _ _ _ _ I _ _ _ _ _ Hi Hl) as Hrl. pose proof (l_ref _ _ _ _ I _ _ _ _ _ Hj Hl') as Hrl'.
  rewrite Hrl in Hrl'. apply (inj Some) in Hrl' as <-. destruct (l_count _ _ _ _ I id l) as (k & Hk & _); [done|].
  destruct (l_excl _ _ _ _ I _ _ _ _ _ Hi Hl Hk) as [Hw Hr]. destruct m'; [done| |].
  - pose proof (l_shared _ _ _ _ I _ _ _ _ _ Hj Hl' Hk) as Hin. rewrite Hr in Hin. set_solver.
  - destruct (l_excl _ _ _ _ I _ _ _ _ _ Hj Hl' Hk). congruence.
Qed.

(** A lock object somebody refers to is the one in the map. *)
Definition mappedInv (rl : gmap RunID Loc) (ls : gmap Loc RunLock) : Prop :=
  forall l k, ls !! l = Some k -> rl_refs k = 0%Z \/ exists id, rl !! id = Some l.

Lemma mapped_same rl ls l k k' :
  mappedInv rl ls -> ls !! l = Some k -> rl_refs k' = rl_refs k -> mappedInv rl (<[l := k']> ls).
Proof. intros I Hk Hr l0 k0 [[<- <-]|[_ Hk0]]%lookup_insert_Some; [rewrite Hr|]; eauto. Qed.

Lemma mapped_exec {X} i (o : op X) h x s s' P hs :
  hs !! i = Some h -> pre o h -> exec i o s x s' -> lockInv (runLocks s) (locks s) P hs ->
  mappedInv (runLocks s) (locks s) -> mappedInv (runLocks s') (locks s').
Proof.
  intros Hi Hp Hx L I. destruct o; try (exec_simpl Hx; done).
  - cbn in Hx. unfold refRunLock in Hx. destruct (runLocks s !! id) as [l|] eqn:E; simplify_eq; cbn; intros l0 k0 Hk0.
    + destruct (decide (l0 = l)) as [->|]; [right; by exists id|]. rewrite lookup_alter_ne in Hk0 by done. by apply I.
    + apply lookup_insert_Some in Hk0 as [[<- <-]|[Hne Hk0]]; [right; exists id; apply lookup_insert_eq|].
      destruct (I _ _ Hk0) as [|[id' Hid']]; [by left|]. right. exists id'. rewrite lookup_insert_ne; [done|congruence].
  - cbn in Hx. destruct Hx as (k0 & Hk0 & -> & ->). destruct (canTry k0); cbn; [|done]. by eapply mapped_same.
  - cbn in Hx. destruct Hx as (k0 & Hk0 & Hc & ->). cbn. eapply mapped_same; [done..|by destruct exclusive].
  - cbn in Hx. destruct Hx as (k0 & Hk0 & ->). cbn. eapply mapped_same; [done..|by destruct exclusive].
  - cbn in Hx, Hp. subst s'. pose proof (l_ref _ _ _ _ L _ _ _ _ _ Hi Hp) as Hid.
    destruct (l_count _ _ _ _ L _ _ Hid) as (k0 & Hk0 & _). destruct (unref_fields id l s k0 Hk0) as [-> ->].
    intros l0 k1 [[<- <-]|[Hne Hk1]]%lookup_insert_Some; cbn.
    + destruct (rl_refs k0 - 1 =? 0)%Z eqn:E; [left; lia|right; by exists id].
    + destruct (I _ _ Hk1) as [|[id' Hid']]; [by left|]. right. exists id'.
      case_match; [|done]. rewrite lookup_delete_ne; [done|congruence].
  - cbn in Hx. apply claimBatch_spec in Hx as [-> _]. done.
Qed.

(** * The queue *)

Record queueInv (s : Shared) : Prop := {
  q_set : queued s = list_to_set (queue s);
  q_nodup : NoDup (queue s);
  q_bound : (Z.of_nat (length (queue s)) <= maxArchiveQueue)%Z;
  q_deferred : deferred s ⊆ owners s;
}.

Lemma queue_take s n : queueInv s ->
  queueInv (s <| queue ::= drop n |> <| queued ::= fun o => o ∖ list_to_set (take n (queue s)) |>).
Proof.
  intros [Hs Hn Hb Hd]. pose proof Hn as Hn'. rewrite <- (take_drop n (queue s)) in Hn'.
  apply NoDup_app in Hn' as (_ & Hdis & Hnd). split; cbn; [|done| |done].
  - rewrite Hs. apply set_eq. intros x. rewrite elem_of_difference, !elem_of_list_to_set.
    rewrite <- (take_drop n (queue s)) at 1. rewrite elem_of_app. naive_solver.
  - rewrite length_drop. lia.
Qed.

Lemma queue_exec {X} i (o : op X) s x s' : exec i o s x s' -> queueInv s -> queueInv s'.
Proof.
  intros Hx I. destruct o; try (exec_simpl Hx; destruct I; split; cbn; first [done | set_solver]).
  - cbn in Hx. unfold enqueue in Hx. destruct (running s); [|simplify_eq/=; by destruct I].
    cbn [negb] in Hx. destruct (decide (id ∈ queued s)) as [Hid|Hid]; [simplify_eq/=; by destruct I|].
    destruct (maxArchiveQueue <=? Z.of_nat (length (queue s)))%Z eqn:E; simplify_eq/=; [by destruct I|].
    apply Z.leb_gt in E. destruct I as [Hs Hn Hb Hd]. split; cbn; [| | |done].
    + rewrite Hs, list_to_set_app_L. cbn. set_solver.
    + apply NoDup_app. split_and!; [done| |apply NoDup_singleton]. intros y Hy Hy'.
      apply list_elem_of_singleton in Hy' as ->. apply Hid. rewrite Hs. by apply elem_of_list_to_set.
    + rewrite length_app. cbn. lia.
  - cbn in Hx. unfold takeBatch in Hx. destruct (_ && _); simplify_eq; [by apply queue_take|].
    destruct (_ && _); simplify_eq; by destruct I.
  - cbn in Hx. apply claimBatch_spec in Hx as (-> & _ & _ & _ & _ & Hd & _). destruct I. split; cbn; try done. set_solver.
Qed.

(** * Accepted runs *)

Definition charged (h : Held) : gset RunID := h_carried h ∪ h_todo h ∪ h_again h.

Definition dueInv (s : Shared) (hs : Threads) : Prop :=
  forall id, id ∈ due s ->
  (id ∈ queue s \/ id ∈ refused s) \/ id ∈ deferred s \/ exists i h, hs !! i = Some h /\ id ∈ charged h.

(** Where a due run is while [i] is charged with [h]. *)
Definition kept (s : Shared) (h : Held) (id : RunID) : Prop :=
  (id ∈ queue s \/ id ∈ refused s) \/ id ∈ deferred s \/ id ∈ charged h.

(** Nothing that was due is forgotten if [i] keeps what it is charged with. *)
Lemma due_keep s s' hs i h h' :
  dueInv s hs -> hs !! i = Some h ->
  (forall id, id ∈ due s' -> kept s' h' id \/ (id ∈ due s /\ (kept s h id -> kept s' h' id))) ->
  dueInv s' (<[i := h']> hs).
Proof.
  intros I Hi Hdue id Hid.
  assert (Hmine : kept s' h' id ->
    (id ∈ queue s' \/ id ∈ refused s') \/ id ∈ deferred s' \/ exists j g, <[i := h']> hs !! j = Some g /\ id ∈ charged g).
  { intros [?|[?|?]]; auto. right; right. exists i, h'. by rewrite lookup_insert_eq. }
  destruct (Hdue id Hid) as [?|[Hd Hk]]; [auto|].
  destruct (I id Hd) as [Hq|[Hq|(j & g & Hj & Hg)]]; [unfold kept in *; auto..|].
  destruct (decide (j = i)) as [->|]; [simplify_eq; unfold kept in *; auto|].
  right; right. exists j, g. by rewrite lookup_insert_ne.
Qed.

Lemma due_exec {X} i (o : op X) h x s s' hs :
  hs !! i = Some h -> pre o h -> exec i o s x s' -> queueInv s ->
  dueInv s hs -> dueInv s' (<[i := after o h x]> hs).
Proof.
  intros Hi Hp Hx Q I. eapply due_keep; [exact I|exact Hi|].
  - unfold kept, charged. destruct o; try (exec_simpl Hx; intros y Hy; right; set_solver).
    + cbn in Hx. unfold release in Hx. simplify_eq/=. intros y Hy. right. split; [done|].
      case_bool_decide; destruct (decide (y = id)) as [->|]; set_solver.
    + cbn in Hx. unfold enqueue in Hx. destruct (running s).
      2:{ simplify_eq/=. intros y Hy. destruct (decide (y = id)) as [->|]; [left; left; right; set_solver|].
          right. split; [done|]. set_solver. }
      cbn [negb] in Hx. pose proof (q_set _ Q) as Hq.
      destruct (decide (id ∈ queued s)) as [Hid|Hid].
      { rewrite Hq, elem_of_list_to_set in Hid. simplify_eq/=. intros y Hy.
        destruct (decide (y = id)) as [->|]; [by left; left; left|right; set_solver]. }
      destruct (maxArchiveQueue <=? Z.of_nat (length (queue s)))%Z; simplify_eq/=; intros y Hy.
      * right. set_solver.
      * destruct (decide (y = id)) as [->|]; [left; left; left; set_solver|right; set_solver].
    + cbn in Hx, Hp. destruct Hp as (_ & (Hc & Ht & Ha & _) & _). rewrite Hc, Ht, Ha. clear Hi.
      unfold takeBatch in Hx. destruct (_ && _).
      * simplify_eq/=. intros y Hy. right. split; [done|]. intros [[Hin|]|[|]]; [|auto..|set_solver].
        rewrite <- (take_drop (length (queue s) `min` archiveRunBatch) (queue s)), elem_of_app in Hin.
        destruct Hin as [Hin|]; [|by left; left]. right; right. set_solver.
      * destruct (_ && _); simplify_eq/=; intros y Hy; right; set_solver.
    + cbn in Hx, Hp. apply claimBatch_spec in Hx as (-> & _ & _ & _ & Hd & _ & Hall). cbn.
      intros y Hy. right. split; [done|]. intros [|[|Hin]]; [by left|right; left; by apply Hd|].
      destruct Hp as [_ Hc]. destruct (decide (y ∈ h_carried h)) as [Hyc|]; [|set_solver].
      destruct (Hall y) as [Hyx|]; [apply Hc, elem_of_list_to_set in Hyc; done| |by right; left].
      right; right. set_solver.
Qed.

(** Runs left to an orphan sweep, and runs refused after the stop. *)
Record restInv (s : Shared) : Prop := {
  r_spilled : spilled s <> ∅ -> overflow s = true;
  r_refused : running s = true -> refused s = ∅;
}.

Lemma rest_exec {X} i (o : op X) x s s' : exec i o s x s' -> restInv s -> restInv s'.
Proof.
  intros Hx I. destruct o; try (exec_simpl Hx; destruct I; split; cbn; by auto).
  - cbn in Hx. unfold enqueue in Hx. destruct (running s) eqn:Er; cbn [negb] in Hx.
    + destruct (decide (id ∈ queued s)); [|destruct (maxArchiveQueue <=? Z.of_nat (length (queue s)))%Z];
        simplify_eq/=; destruct I; split; cbn; auto.
    + simplify_eq/=. destruct I. split; cbn; [done|congruence].
  - cbn in Hx. apply claimBatch_spec in Hx as [-> _]. destruct I; by split.
Qed.

(** * Starting and stopping *)

Record stopInv (db : bool) (s : Shared) (hs : Threads) : Prop := {
  s_known : forall i h, hs !! i = Some h -> h_stop h = true -> stopped s = true;
  s_running : running s = db && negb (stopped s);
  s_ctx : running s = true -> ArchiverCtx ∉ dead s;
  s_background : Background ∉ dead s;
  s_worker : forall i h, hs !! i = Some h -> h_worker h = true -> db = true;
}.

Lemma stop_known db s hs i h : stopInv db s hs -> hs !! i = Some h -> h_stop h = true -> running s = false.
Proof. intros I Hi Hs. rewrite (s_running _ _ _ I), (s_known _ _ _ I i h Hi Hs). apply andb_false_r. Qed.

Lemma stop_exec {X} db i (o : op X) h x s s' hs :
  hs !! i = Some h -> pre o h -> exec i o s x s' ->
  stopInv db s hs -> stopInv db s' (<[i := after o h x]> hs).
Proof.
  intros Hi Hp Hx I. pose proof (stop_known db s hs i h I Hi) as Hstop. destruct I as [Hk Hr Hc Hb Hw].
  assert (Hframe : forall s1 h1, stopped s1 = stopped s -> running s1 = running s -> dead s1 = dead s ->
    (h_stop h1 = true -> h_stop h = true \/ stopped s = true) -> (h_worker h1 = true -> h_worker h = true) ->
    stopInv db s1 (<[i := h1]> hs)).
  { intros s1 h1 Hs1 Hr1 Hd1 Hh1 Hw1. split; rewrite ?Hs1, ?Hr1, ?Hd1; try done.
    - intros j g Hj Hg. at_insert; [destruct (Hh1 Hg); eauto|eauto].
    - intros j g Hj Hg. at_insert; eauto. }
  destruct o; try (exec_simpl Hx; apply Hframe; cbn; by auto).
  - cbn in Hx. by apply claimBatch_spec in Hx as [-> _]; apply Hframe; auto.
  - cbn in Hx. unfold stopBegin in Hx. destruct (running s) eqn:E; simplify_eq/=; [|by apply Hframe; auto].
    split; cbn; try done.
    + by rewrite andb_false_r.
    + intros j g Hj Hg. at_insert; eauto.
  - cbn in Hx, Hp. subst s'. split; cbn; try done.
    + intros j g Hj Hg. at_insert; eauto.
    + intros Hr'. rewrite Hstop in Hr' by apply Hp. done.
    + set_solver.
    + intros j g Hj Hg. at_insert; eauto.
Qed.

(** * Wake-ups *)

(** Work for a worker is announced, or some worker will look at the queue
    before it waits; the sweep in progress has a sweeper. *)
Record wakeInv (s : Shared) (hs : Threads) : Prop := {
  w_wake : running s = true -> queue s <> [] \/ overflow s = true ->
    wake s = true \/ exists i h, hs !! i = Some h /\ h_awake h = true;
  w_sweep : sweeping s = true -> exists i h, hs !! i = Some h /\ (h_sweep h = true /\ h_awake h = true);
}.

(** Goroutine [i] is going to look at the queue. *)
Lemma wake_mine s hs i h :
  h_awake h = true -> (sweeping s = true -> exists j g, <[i := h]> hs !! j = Some g /\ (h_sweep g = true /\ h_awake g = true)) ->
  wakeInv s (<[i := h]> hs).
Proof. intros Ha Hs. split; [|done]. intros _ _. right. exists i, h. by rewrite lookup_insert_eq. Qed.

Lemma wake_exec {X} db i (o : op X) h x s s' hs :
  hs !! i = Some h -> pre o h -> exec i o s x s' -> stopInv db s hs ->
  wakeInv s hs -> wakeInv s' (<[i := after o h x]> hs).
Proof.
  intros Hi Hp Hx St [Hw Hsw].
  assert (Hframe : forall s1 h1, running s1 = running s -> queue s1 = queue s -> overflow s1 = overflow s ->
    wake s1 = wake s -> (sweeping s1 = true -> sweeping s = true) ->
    h_awake h1 = h_awake h -> (h_sweep h1 = h_sweep h \/ sweeping s1 = false) -> wakeInv s1 (<[i := h1]> hs)).
  { intros s1 h1 Hr Hq Ho Hwk Hs Ha Hsh. split; rewrite ?Hr, ?Hq, ?Ho, ?Hwk.
    - intros Hrun Hq'. destruct (Hw Hrun Hq') as [|He]; [by left|]. right. apply some_insert; [|done].
      intros g Hg. simplify_eq. congruence.
    - intros Hs1. apply some_insert; [|by auto]. intros g Hg [? ?]. simplify_eq. destruct Hsh; split; congruence. }
  (* the sweeper is another goroutine *)
  assert (Hother : h_sweep h = false -> sweeping s = true -> forall h1,
    exists j g, <[i := h1]> hs !! j = Some g /\ (h_sweep g = true /\ h_awake g = true)).
  { intros Hn Hs h1. destruct (Hsw Hs) as (j & g & Hj & Hg1 & Hg2). exists j, g. rewrite lookup_insert_ne; [done|].
    intros <-. simplify_eq. congruence. }
  destruct o; try (exec_simpl Hx; apply Hframe; cbn; by auto).
  - cbn in Hx. unfold enqueue in Hx. destruct (running s) eqn:Er; [|simplify_eq/=; apply Hframe; cbn; by auto].
    assert (Hawake : forall s1, sweeping s1 = sweeping s -> wake s1 = true ->
      wakeInv s1 (<[i := h <| h_again ::= fun o => o ∖ {[id]} |>]> hs)).
    { intros s1 Hs1 Hw1. split; [by left|]. rewrite Hs1. intros Hs. apply some_insert; [|by auto].
      intros g Hg [? ?]. by simplify_eq. }
    cbn [negb] in Hx. destruct (decide (id ∈ queued s)); [simplify_eq/=; by apply Hawake|].
    destruct (maxArchiveQueue <=? Z.of_nat (length (queue s)))%Z; simplify_eq/=; by apply Hawake.
  - cbn in Hx, Hp. destruct Hp as (_ & (_ & _ & _ & Hns) & Hwk). unfold takeBatch in Hx.
    destruct ((0 <? length (queue s))%nat && _) eqn:E1; simplify_eq/=.
    + apply wake_mine; [|by intros; apply Hother]. cbn. rewrite length_take.
      apply andb_true_iff in E1 as [E1 _]. apply Nat.ltb_lt in E1.
      destruct (_ `min` _)%nat eqn:E; [unfold archiveRunBatch in E; lia|done].
    + destruct (overflow s && negb (sweeping s) && _ && running s) eqn:E2; simplify_eq/=.
      * apply wake_mine; [done|]. intros _. eexists i, _. by rewrite lookup_insert_eq.
      * split; [|by intros; apply Hother]. cbn. intros Hr Hq. right.
        assert (Hl : bool_decide (ArchiverCtx ∉ dead s) = true)
          by (apply bool_decide_eq_true_2; by apply (s_ctx _ _ _ St)).
        rewrite Hl, Hr, !andb_true_r in *. apply Nat.ltb_ge in E1. destruct (queue s); [|cbn in E1; lia].
        destruct Hq as [?|Hov]; [done|]. rewrite Hov in E2. cbn in E2. apply negb_false_iff in E2.
        destruct (Hother Hns E2 (h <| h_carried := ∅ |> <| h_sweep := false |> <| h_awake := false |>)) as (j & g & Hj & _ & Hg).
        by exists j, g.
  - cbn in Hx, Hp. destruct Hp as (_ & (_ & _ & _ & Hns) & _). exec_simpl Hx; apply wake_mine; try done; by intros; apply Hother.
  - cbn in Hx. apply claimBatch_spec in Hx as [-> _]. apply Hframe; cbn; by auto.
  - cbn in Hx. unfold stopBegin in Hx. destruct (running s) eqn:E; simplify_eq/=; [|apply Hframe; by auto].
    split; [done|]. intros Hs. apply some_insert; [|by auto]. intros g Hg [? ?]. by simplify_eq.
  - cbn in Hx, Hp. destruct Hp as (_ & (_ & _ & _ & Hns) & _ & Hst & _). subst s'. split; cbn.
    + intros Hr. rewrite (stop_known _ _ _ _ _ St Hi Hst) in Hr. done.
    + intros Hs. by apply Hother.
Qed.

(** * Draining *)

(** Once a worker has seen the queue empty after [stop], or has exited, the
    queue stays empty, unless a stop ran out of time.  The archiver's context
    ends only after a stop has waited for the workers. *)
Record drainInv (s : Shared) (hs : Threads) : Prop := {
  d_known : forall i h, hs !! i = Some h -> h_drained h = true ->
    running s = false /\ (queue s = [] \/ late s = true);
  d_exited : (workers s < archiveWorkers)%Z -> running s = false /\ (queue s = [] \/ late s = true);
  d_waited : forall i h, hs !! i = Some h -> h_waited h = true -> workers s = 0%Z \/ late s = true;
  d_ctx : ArchiverCtx ∈ dead s -> workers s = 0%Z \/ late s = true;
}.

(** A worker that runs is counted. *)
Lemma worker_counted hs i h : hs !! i = Some h -> h_worker h = true -> (0 < live hs)%Z.
Proof.
  intros Hi Hw. rewrite <- (insert_delete_id hs i h Hi). unfold live.
  rewrite msum_new by apply lookup_delete_eq. rewrite Hw.
  assert (Hn : (0 <= msum (fun h : Held => if h_worker h then 1 else 0) (delete i hs))%Z); [|lia].
  apply msum_nonneg. intros j g _. by case_match.
Qed.

Lemma drain_exec {X} db i (o : op X) h x s s' hs :
  hs !! i = Some h -> pre o h -> exec i o s x s' -> stopInv db s hs -> workers s = live hs ->
  drainInv s hs -> drainInv s' (<[i := after o h x]> hs).
Proof.
  intros Hi Hp Hx St Hlive [Hk He Hwt Hct].
  assert (Hframe : forall s1 h1, (running s = false -> running s1 = false) ->
    (running s = false -> queue s = [] -> queue s1 = []) -> (late s = true -> late s1 = true) -> workers s1 = workers s ->
    (h_drained h1 = true -> h_drained h = true \/ (running s = false /\ (queue s = [] \/ late s = true))) ->
    (h_waited h1 = true -> h_waited h = true \/ workers s = 0%Z \/ late s1 = true) ->
    (ArchiverCtx ∈ dead s1 -> ArchiverCtx ∈ dead s \/ h_waited h = true) ->
    drainInv s1 (<[i := h1]> hs)).
  { intros s1 h1 Hr Hq Hd Hw Hh Hh2 Hc.
    assert (Hst : running s = false /\ (queue s = [] \/ late s = true) ->
      running s1 = false /\ (queue s1 = [] \/ late s1 = true)).
    { intros [Hr1 [Hq1|Hd1]]; (split; [auto|]); [left; auto|right; by apply Hd]. }
    assert (Hst2 : workers s = 0%Z \/ late s = true -> workers s1 = 0%Z \/ late s1 = true)
      by (rewrite Hw; intros []; auto).
    split.
    - intros j g Hj Hg. at_insert; [|eauto]. destruct (Hh Hg); eauto.
    - rewrite Hw. auto.
    - intros j g Hj Hg. at_insert; [|eauto]. destruct (Hh2 Hg) as [|[|]]; [by eauto|rewrite Hw; by left|by right].
    - intros H. destruct (Hc H) as [|]; eauto. }
  destruct o; try (exec_simpl Hx; apply Hframe; cbn; by first [auto | set_solver]).
  - cbn in Hx. unfold enqueue in Hx. destruct (running s) eqn:Er; cbn [negb] in Hx; [|simplify_eq/=; apply Hframe; cbn; auto].
    destruct (decide (id ∈ queued s)); [|destruct (maxArchiveQueue <=? Z.of_nat (length (queue s)))%Z];
      simplify_eq/=; apply Hframe; cbn; auto; done.
  - cbn in Hx. unfold takeBatch in Hx. destruct (_ && _); [|destruct (_ && _)]; simplify_eq; apply Hframe; cbn; auto.
    intros _ ->. by rewrite drop_nil.
  - cbn in Hx. destruct Hx as [-> ->]. apply Hframe; cbn; auto. intros Hd. apply orb_true_iff in Hd as [Hd|]; [|by left].
    right. bools. split; [by eapply stop_known|by left].
  - cbn in Hx. apply claimBatch_spec in Hx as [-> _]. apply Hframe; cbn; auto.
  - cbn in Hx. destruct Hx as [-> ->]. apply Hframe; cbn; auto. intros Hd. apply orb_true_iff in Hd as [Hd|]; [|by left].
    right. case_decide as Hc; destruct c; try done. apply andb_true_iff in Hd as [Hwk Hst]. split; [by eapply stop_known|].
    right. destruct (Hct Hc) as [Hz|]; [|done]. pose proof (worker_counted _ _ _ Hi Hwk). lia.
  - cbn in Hx, Hp. subst s'. apply Hframe; cbn; auto. intros [Hc|]%elem_of_union; [|by left]. right. apply Hp.
  - cbn in Hx, Hp. destruct Hp as (_ & _ & Hwk & Hst & Hdr). subst s'. destruct (Hk _ _ Hi Hdr) as [Hr Hq].
    assert (Hz : workers s = 0%Z \/ late s = true -> late s = true).
    { intros [Hz|]; [|done]. pose proof (worker_counted _ _ _ Hi Hwk). lia. }
    split; cbn; [|by auto| |by auto].
    + intros j g Hj Hg. at_insert; eauto.
    + intros j g Hj Hg. right. apply Hz. at_insert; eauto.
Qed.

(** * Sleepers *)

Definition sleepsAt {A} (p : prog A) : option (Ctx * RunID) :=
  match p with Vis (ClaimWait c id) _ => Some (c, id) | _ => None end.

Record sleepInv (s : Shared) (P : gmap Tid (prog unit)) (hs : Threads) : Prop := {
  z_hook : forall i h c, hs !! i = Some h -> h_hook h = Some c -> hooks s !! i = Some c \/ c ∈ dead s;
  z_sleep : forall i, i ∈ asleep s -> exists p c id,
    P !! i = Some p /\ sleepsAt p = Some (c, id) /\ id ∈ owners s /\ hooks s !! i = Some c;
}.

Lemma sleep_exec {X} i (o : op X) k h x s s' P hs :
  hs !! i = Some h -> P !! i = Some (Vis o k) -> pre o h -> exec i o s x s' ->
  sleepInv s P hs -> sleepInv s' (<[i := k x]> P) (<[i := after o h x]> hs).
Proof.
  intros Hi HP Hp Hx [Hh Hz].
  assert (Hawake : i ∉ asleep s).
  { intros Hin. destruct (Hz i Hin) as (p & c & id & Hpi & Hs & _). simplify_eq.
    destruct o; try done. cbn in Hx. by destruct Hx. }
  assert (Hframe : forall s1 h1, dead s ⊆ dead s1 -> owners s ⊆ owners s1 -> asleep s1 = asleep s ->
    hooks s1 = hooks s -> h_hook h1 = h_hook h -> sleepInv s1 (<[i := k x]> P) (<[i := h1]> hs)).
  { intros s1 h1 Hd Ho Ha Hk Hhk. split; rewrite ?Ha, ?Hk.
    - intros j g c Hj Hg. at_insert; [rewrite Hhk in Hg; destruct (Hh _ _ _ Hi Hg)|destruct (Hh _ _ _ Hj Hg)]; auto.
    - intros j Hj. destruct (Hz j Hj) as (p & c & id & Hpj & Hs & Hid & Hc). exists p, c, id.
      rewrite lookup_insert_ne by (intros ->; done). auto. }
  assert (Hhooks : forall v h1, (h_hook h1 = None \/ (exists c, v = Some c /\ h_hook h1 = Some c)) ->
    sleepInv (s <| hooks ::= partial_alter (fun _ => v) i |>) (<[i := k x]> P) (<[i := h1]> hs)).
  { intros v h1 Hv. split; cbn.
    - intros j g c Hj Hg. at_insert.
      + destruct Hv as [|(c' & -> & Hc')]; [congruence|]. left. rewrite lookup_partial_alter_eq. congruence.
      + rewrite lookup_partial_alter_ne by done. eauto.
    - intros j Hj. destruct (Hz j Hj) as (p & c & id & Hpj & Hs & Hid & Hc). exists p, c, id.
      rewrite lookup_insert_ne, lookup_partial_alter_ne by (intros ->; done). auto. }
  destruct o; try (exec_simpl Hx; apply Hframe; cbn; first [reflexivity | apply union_subseteq_r]).
  - cbn in Hx. subst s'. cbn. apply (Hhooks (Some c)). right. by exists c.
  - cbn in Hx. subst s'. cbn. apply (Hhooks None). by left.
  - cbn in Hx. unfold release in Hx. simplify_eq/=. split; cbn; [|set_solver].
    intros j g c Hj Hg. at_insert; eauto.
  - cbn in Hx. apply claimBatch_spec in Hx as [-> _]. apply Hframe; cbn; first [reflexivity | apply union_subseteq_r].
Qed.

(** * Runs known to be inactive *)

Definition inactiveInv (s : Shared) (hs : Threads) : Prop :=
  forall i h id, hs !! i = Some h -> id ∈ h_inactive h -> (id ∉ writers s) /\ holdsExcl h id.

Lemma inactive_exec {X} i (o : op X) h x s s' P hs :
  hs !! i = Some h -> pre o h -> exec i o s x s' -> lockInv (runLocks s) (locks s) P hs ->
  inactiveInv s hs -> inactiveInv s' (<[i := after o h x]> hs).
Proof.
  intros Hi Hp Hx L I.
  assert (Hframe : forall s1 h1, writers s1 ⊆ writers s ->
    (forall id, id ∈ h_inactive h1 -> (id ∈ h_inactive h /\ (holdsExcl h id -> holdsExcl h1 id)) \/
      ((id ∉ writers s) /\ holdsExcl h1 id)) ->
    inactiveInv s1 (<[i := h1]> hs)).
  { intros s1 h1 Hw Hin j g id Hj Hid. at_insert.
    - destruct (Hin id Hid) as [[Hid' He]|[? ?]]; [|split; [set_solver|done]].
      destruct (I _ _ _ Hi Hid') as [? ?]. split; [set_solver|auto].
    - destruct (I _ _ _ Hj Hid). split; [set_solver|done]. }
  assert (Hne : forall id l, h_refs h !! id = None \/ h_refs h !! id = Some (l, Counted) -> id ∉ h_inactive h).
  { intros id l Hn Hid. destruct (I _ _ _ Hi Hid) as [_ (l' & Hl')]. destruct Hn; congruence. }
  assert (Hrefs : forall id v h1 s1, writers s1 = writers s -> h_inactive h1 ⊆ h_inactive h -> id ∉ h_inactive h1 ->
    h_refs h1 = partial_alter (fun _ => v) id (h_refs h) -> inactiveInv s1 (<[i := h1]> hs)).
  { intros id v h1 s1 Hw Hin Hid Hr. apply Hframe; [by rewrite Hw|]. intros y Hy. left. split; [by apply Hin|].
    intros (l & Hl). exists l. rewrite Hr, lookup_partial_alter_ne; [done|]. intros ->. done. }
  destruct o; try (exec_simpl Hx; (apply Hframe; cbn; [done|by auto])).
  - cbn in Hp. eapply (Hrefs id (Some (x, Counted))); [exec_simpl Hx; done|done|by eapply (Hne id 0%nat); left|done].
  - cbn in Hp, Hx. destruct Hx as (k0 & Hk0 & -> & ->). destruct (canTry k0).
    + by eapply (Hrefs id (Some (l, ExclHeld))); [done|done|eapply Hne; right|].
    + apply Hframe; [done|]. auto.
  - cbn in Hx. destruct Hx as (k0 & Hk0 & Hc & ->).
    eapply (Hrefs id (Some (l, modeOf exclusive))); [done|done| |done]. cbn. apply (Hne id l). right.
    destruct Hp as [(_ & _ & Hr & _)|(_ & _ & Hr)]; [done|]. rewrite Hr. apply lookup_insert_eq.
  - cbn in Hx. destruct Hx as (k0 & Hk0 & ->).
    eapply (Hrefs id (Some (l, Counted))); [done|cbn; set_solver|cbn; set_solver|done].
  - cbn in Hp. eapply (Hrefs id None); [exec_simpl Hx; done|done| |done]. cbn. apply (Hne id l). by right.
  - cbn in Hx. destruct Hx as (-> & ->). apply Hframe; [by case_match|]. cbn. intros y Hy.
    case_bool_decide; [by left|]. destruct (h_refs h !! id) as [[l []]|] eqn:E; try by left.
    apply elem_of_union in Hy as [->%elem_of_singleton|]; [right; split; [done|by exists l]|by left].
  - cbn in Hx, Hp. subst s'. destruct Hp as (l & Hl). intros j g y Hj Hy. cbn. at_insert.
    + cbn in Hy. destruct (I _ _ y Hi) as [? ?]; [set_solver|]. split; [set_solver|done].
    + destruct (I _ _ _ Hj Hy) as [? (l' & Hl')]. split; [|by exists l'].
      intros [->%elem_of_singleton|]%elem_of_union; [|done].
      by assert (i = j) by (by eapply holders_compatible).
  - cbn in Hx. subst s'. apply Hframe; cbn; [set_solver|by auto].
  - cbn in Hx. apply claimBatch_spec in Hx as [-> _]. apply Hframe; cbn; [done|by auto].
Qed.
