(* ===== verification/LogOwnerFacts.v ===== *)
(** What the ownership protocol and the archiver guarantee in every execution:
    the invariant of LogOwnerInv holds in every reachable state, so I/O on a run
    is free of races and never touches the buffer of a live writer, and when no
    goroutine can move any more, nothing is left undone. *)

From S2P Require Import Prelude LogWriter LogArchive LogOwner LogOwnerSafe LogOwnerInv.

(** * The invariant *)

Record Inv (db : bool) (s : Shared) (P : gmap Tid (prog unit)) (hs : gmap Tid Held) : Prop := {
  i_dom : forall i, P !! i = None <-> hs !! i = None;
  i_safe : forall i p h, P !! i = Some p -> hs !! i = Some h -> safe h p (fun _ => finished);
  i_own : ownInv (owners s) hs;
  i_slots : (archiveSlots s = slots hs /\ archiveSlots s <= archiveWorkers)%Z;
  i_live : workers s = live hs;
  i_workers : running s = true -> workers s = archiveWorkers;
  i_locks : lockInv (runLocks s) (locks s) P hs;
  i_mapped : mappedInv (runLocks s) (locks s);
  i_queue : queueInv s;
  i_rest : restInv s;
  i_due : dueInv s hs;
  i_stop : stopInv db s hs;
  i_drain : drainInv s hs;
  i_wake : wakeInv s hs;
  i_sleep : sleepInv s P hs;
  i_inactive : inactiveInv s hs;
}.

Lemma inv_held db s P hs i p :
  Inv db s P hs -> P !! i = Some p -> exists h, hs !! i = Some h /\ safe h p (fun _ => finished).
Proof.
  intros I Hp. destruct (hs !! i) as [h|] eqn:E.
  - exists h. split; [done|]. by eapply (i_safe _ _ _ _ I).
  - apply (i_dom _ _ _ _ I) in E. congruence.
Qed.

Lemma inv_prog db s P hs i h : Inv db s P hs -> hs !! i = Some h -> exists p, P !! i = Some p.
Proof.
  intros I Hh. destruct (P !! i) as [p|] eqn:E; [by exists p|]. apply (i_dom _ _ _ _ I) in E. congruence.
Qed.

(** What the discipline assumes of results. *)
Lemma exec_resp {X} db s P hs i (o : op X) h x s' :
  Inv db s P hs -> hs !! i = Some h -> exec i o s x s' -> resp o h x.
Proof.
  intros I Hi Hx. pose proof (s_background _ _ _ (i_stop _ _ _ _ I)) as Hb.
  destruct o; try done; cbn in Hx |- *.
  - unfold claim in Hx. case_decide; simplify_eq; [done|]. intros _ Hid. by apply (own_sub _ _ (i_own _ _ _ _ I) _ _ Hi) in Hid.
  - intros ->. destruct Hx as (_ & _ & Hx). unfold claimWaited in Hx. by case_decide; simplify_eq.
  - intros ->. by destruct Hx as [(_ & -> & _)|(? & _)].
  - unfold takeBatch in Hx. destruct (_ && _); simplify_eq/=; [done|]. by destruct (_ && _); simplify_eq.
  - apply claimBatch_spec in Hx as (_ & ? & ? & _). done.
  - intros ->. destruct Hx as [-> _]. by case_decide.
  - intros ->. by destruct Hx as [(_ & -> & _)|(? & _)].
Qed.

Lemma workers_exec {X} db s hs i (o : op X) h x s' :
  hs !! i = Some h -> pre o h -> exec i o s x s' -> stopInv db s hs ->
  (running s = true -> workers s = archiveWorkers) -> running s' = true -> workers s' = archiveWorkers.
Proof.
  intros Hi Hp Hx St Hw. destruct o; try (exec_simpl Hx; first [done | congruence]).
  - cbn in Hx. by apply claimBatch_spec in Hx as [-> _].
  - cbn in Hx, Hp. destruct Hp as (_ & _ & _ & Hst & _). subst s'. cbn. intros Hr.
    by rewrite (stop_known _ _ _ _ _ St Hi Hst) in Hr.
Qed.

Lemma exec_inv {X} db s P hs i (o : op X) k x s' :
  Inv db s P hs -> P !! i = Some (Vis o k) -> exec i o s x s' ->
  exists h', Inv db s' (<[i := k x]> P) (<[i := h']> hs).
Proof.
  intros I HP Hx. destruct (inv_held _ _ _ _ _ _ I HP) as (h & Hi & [Hp Hk]).
  pose proof (exec_resp _ _ _ _ _ _ _ _ _ I Hi Hx) as Hr. exists (after o h x). destruct I.
  split; eauto using own_exec, slots_exec, live_exec, workers_exec, locks_exec, mapped_exec, queue_exec, due_exec, rest_exec,
    stop_exec, drain_exec, wake_exec, sleep_exec, inactive_exec.
  - intros j. rewrite !lookup_insert_None. naive_solver.
  - intros j p g Hj Hg. apply lookup_insert_Some in Hj as [[<- <-]|[Hne Hj]].
    + rewrite lookup_insert_eq in Hg. simplify_eq. by apply Hk.
    + rewrite lookup_insert_ne in Hg by done. eauto.
Qed.

(** Entering the next round of a loop. *)
Lemma loop_inv {R} db s P hs i (body : prog (option R)) k :
  Inv db s P hs -> P !! i = Some (Loop body k) -> Inv db s (<[i := unroll body k]> P) hs.
Proof.
  intros I HP. destruct (inv_held _ _ _ _ _ _ I HP) as (h & Hi & Hs). pose proof (insert_id hs i h Hi) as Hid. destruct I.
  split; try done.
  - intros j. rewrite lookup_insert_None. naive_solver.
  - intros j p g Hj Hg. apply lookup_insert_Some in Hj as [[<- <-]|[Hne Hj]]; [|eauto].
    simplify_eq. by apply safe_unroll.
  - rewrite <- Hid. by eapply lock_same.
  - destruct i_sleep0 as [Hh Hz]. split; [done|]. intros j Hj.
    destruct (Hz j Hj) as (p & c & id & Hpj & Hsl & ?). exists p, c, id. rewrite lookup_insert_ne; [done|].
    intros ->. simplify_eq.
Qed.

Lemma wait_inv db s P hs i p s' :
  Inv db s P hs -> P !! i = Some p -> waits i p s = Some s' -> Inv db s' P hs.
Proof.
  intros I HP Hw. destruct (inv_held _ _ _ _ _ _ I HP) as (h & Hi & Hs).
  destruct p as [|X o k|]; [done| |done]. destruct o; try done; cbn in Hw.
  - case_decide as Hd; [|done]. simplify_eq. destruct Hd as (Ha & Hid & Hc). destruct I.
    split; try done; [by destruct i_queue0|by destruct i_rest0|by destruct i_stop0|by destruct i_drain0|by destruct i_wake0|].
    destruct i_sleep0 as [Hh Hz]. split; cbn; [done|]. intros j [->%elem_of_singleton|Hj]%elem_of_union; [|by apply Hz].
    exists (Vis (ClaimWait c id) k), c, id. split_and!; try done.
    destruct Hs as [[_ Hhk] _]. by destruct (Hh _ _ _ Hi Hhk).
  - destruct exclusive; [|done]. destruct (locks s !! l) as [k0|] eqn:E; [|done]. case_decide; [done|]. simplify_eq.
    destruct I. split; try done; [| |by destruct i_queue0|by destruct i_rest0|by destruct i_stop0|by destruct i_drain0|by destruct i_wake0|by destruct i_sleep0].
    + by eapply lock_announce.
    + by eapply mapped_same.
Qed.

Lemma hook_inv db s P hs i c :
  Inv db s P hs -> hooks s !! i = Some c -> c ∈ dead s ->
  Inv db (s <| hooks ::= delete i |> <| asleep := ∅ |>) P hs.
Proof.
  intros [] Hc Hd. split; try done; [by destruct i_queue0|by destruct i_rest0|by destruct i_stop0|by destruct i_drain0|by destruct i_wake0|].
  destruct i_sleep0 as [Hh Hz]. split; cbn; [|set_solver]. intros j h c' Hj Hg.
  destruct (decide (j = i)) as [->|]; [|rewrite lookup_delete_ne by done; eauto].
  right. destruct (Hh _ _ _ Hj Hg); [congruence|done].
Qed.

(** ** The environment *)

Lemma some_new {A} (Q : A -> Prop) (hs : gmap Tid A) i h :
  hs !! i = None -> (exists j g, hs !! j = Some g /\ Q g) -> exists j g, <[i := h]> hs !! j = Some g /\ Q g.
Proof. intros Hi (j & g & Hj & Hg). exists j, g. rewrite lookup_insert_ne; [done|]. intros ->. congruence. Qed.

Lemma call_inv db s P hs i call :
  Inv db s P hs -> P !! i = None -> Inv db s (<[i := runCall db call]> P) (<[i := nothing]> hs).
Proof.
  intros I HP. pose proof HP as Hi. apply (i_dom _ _ _ _ I) in Hi. destruct I. split; try done.
  - intros j. rewrite !lookup_insert_None. naive_solver.
  - intros j p g Hj Hg. apply lookup_insert_Some in Hj as [[<- <-]|[Hne Hj]].
    + rewrite lookup_insert_eq in Hg. simplify_eq. apply runCall_safe.
    + rewrite lookup_insert_ne in Hg by done. eauto.
  - destruct i_own0 as [Hs Hb Ho]. split.
    + intros j g Hj. at_insert; [cbn; set_solver|eauto].
    + intros id Hid. apply some_new; [done|by apply Hb].
    + intros j k g g' id Hj Hk Hg Hg'. at_insert; try done; cbn in *; [set_solver..|eauto].
  - unfold slots. by rewrite msum_new.
  - unfold live. by rewrite msum_new.
  - destruct i_locks0 as [Hr Hc Hj Hw Hrd He Hs Hp]. split; try done.
    + intros j g id l m Hg Hl. at_insert; eauto.
    + intros id l Hl. unfold refCount. rewrite msum_new by done. cbn. by apply Hc.
    + intros l k j Hk Hkw. destruct (Hw l k j Hk Hkw) as (g & id & Hg & Hgl). exists g, id.
      rewrite lookup_insert_ne; [done|]. intros ->. congruence.
    + intros l k j Hk Hkw. destruct (Hrd l k j Hk Hkw) as (g & id & Hg & Hgl). exists g, id.
      rewrite lookup_insert_ne; [done|]. intros ->. congruence.
    + intros j g id l k Hg Hl Hk. at_insert; eauto.
    + intros j g id l k Hg Hl Hk. at_insert; eauto.
    + intros l k j Hk Hkp. destruct (Hp l k j Hk Hkp) as (q & id & Hq & Hql). exists q, id.
      rewrite lookup_insert_ne; [done|]. intros ->. congruence.
  - intros id Hid. destruct (i_due0 id Hid) as [|[|He]]; [auto..|]. right; right. by apply some_new.
  - destruct i_stop0 as [H1 H2 H3 H4 H5]. split; try done.
    + intros j g Hj Hg. at_insert; eauto.
    + intros j g Hj Hg. at_insert; eauto.
  - destruct i_drain0 as [H1 H2 H3 H4]. split; try done; intros j g Hj Hg; at_insert; eauto.
  - destruct i_wake0 as [H1 H2]. split.
    + intros Hr Hq. destruct (H1 Hr Hq); [by left|]. right. by apply some_new.
    + intros Hr. apply some_new; auto.
  - destruct i_sleep0 as [H1 H2]. split.
    + intros j g c Hj Hg. at_insert; eauto.
    + intros j Hj. destruct (H2 j Hj) as (p & c & id & Hp & ?). exists p, c, id.
      rewrite lookup_insert_ne; [done|]. intros ->. congruence.
  - intros j g id Hj Hid. at_insert; [cbn in Hid; set_solver|eauto].
Qed.

Lemma cancel_inv db s P hs n :
  Inv db s P hs -> Inv db (s <| dead ::= union {[CallerCtx n]} |>) P hs.
Proof.
  intros []. split; try done; [by destruct i_queue0|by destruct i_rest0| | |by destruct i_wake0|].
  - destruct i_stop0 as [H1 H2 H3 H4 H5]. split; cbn; try done; [|set_solver]. intros Hr. specialize (H3 Hr). set_solver.
  - destruct i_drain0 as [H1 H2 H3 H4]. split; cbn; try done. intros Hc. apply H4. set_solver.
  - destruct i_sleep0 as [Hh Hz]. split; cbn; [|done]. intros j h c Hj Hg. destruct (Hh _ _ _ Hj Hg); set_solver.
Qed.

(** ** Reachable states *)

Definition workerHeld : Held := nothing <| h_awake := true |> <| h_worker := true |>.

Lemma init_inv db :
  Inv db (shared (initial db)) (pool (initial db))
    (if db then {[0%nat := workerHeld; 1%nat := workerHeld]} else ∅).
Proof.
  assert (Hall : forall (j : nat) g, (if db then {[0%nat := workerHeld; 1%nat := workerHeld]} else ∅ : gmap Tid Held) !! j = Some g ->
    g = workerHeld /\ db = true).
  { intros j g Hj. destruct db; [|by rewrite lookup_empty in Hj].
    apply lookup_insert_Some in Hj as [[? <-]|[_ Hj]]; [done|]. by apply lookup_singleton_Some in Hj as [_ <-]. }
  split.
  - intros i. destruct db; cbn; [|done]. by rewrite !lookup_insert_None, !lookup_singleton_None.
  - intros i p h Hp Hh. destruct (Hall i h Hh) as [-> ->]. cbn in Hp.
    assert (p = archiveLoop true) as ->.
    { apply lookup_insert_Some in Hp as [[? <-]|[_ Hp]]; [done|]. by apply lookup_singleton_Some in Hp as [_ <-]. }
    apply archiveLoop_safe. split_and!; try done.
  - split.
    + intros i h Hh. destruct (Hall i h Hh) as [-> ->]. cbn. set_solver.
    + intros id Hid. destruct db; cbn in Hid; set_solver.
    + intros i j h h' id Hh _ Hid. destruct (Hall i h Hh) as [-> ->]. cbn in Hid. set_solver.
  - destruct db; vm_compute; done.
  - destruct db; vm_compute; done.
  - destruct db; done.
  - split.
    + intros i h id l m Hh Hl. destruct (Hall i h Hh) as [-> ->]. cbn in Hl. by rewrite lookup_empty in Hl.
    + intros id l Hl. destruct db; cbn in Hl; by rewrite lookup_empty in Hl.
    + intros id id' l Hl. destruct db; cbn in Hl; by rewrite lookup_empty in Hl.
    + intros l k i Hl. destruct db; cbn in Hl; by rewrite lookup_empty in Hl.
    + intros l k i Hl. destruct db; cbn in Hl; by rewrite lookup_empty in Hl.
    + intros i h id l k Hh Hl. destruct (Hall i h Hh) as [-> ->]. cbn in Hl. by rewrite lookup_empty in Hl.
    + intros i h id l k Hh Hl. destruct (Hall i h Hh) as [-> ->]. cbn in Hl. by rewrite lookup_empty in Hl.
    + intros l k i Hl. destruct db; cbn in Hl; by rewrite lookup_empty in Hl.
  - intros l k Hl. destruct db; cbn in Hl; by rewrite lookup_empty in Hl.
  - destruct db; split; cbn; try done; constructor.
  - destruct db; split; cbn; done.
  - intros id Hid. destruct db; cbn in Hid; set_solver.
  - split.
    + intros i h Hh Hs. destruct (Hall i h Hh) as [-> ->]. done.
    + by destruct db.
    + destruct db; cbn; set_solver.
    + destruct db; cbn; set_solver.
    + intros i h Hh _. by destruct (Hall i h Hh).
  - split.
    + intros i h Hh Hs. destruct (Hall i h Hh) as [-> ->]. done.
    + destruct db; cbn; [done|auto].
    + intros i h Hh Hs. destruct (Hall i h Hh) as [-> ->]. done.
    + destruct db; cbn; set_solver.
  - split.
    + intros _ Hq. destruct db; cbn in Hq; by destruct Hq.
    + intros Hs. by destruct db.
  - split.
    + intros i h c Hh Hs. destruct (Hall i h Hh) as [-> ->]. done.
    + intros i Hi. destruct db; cbn in Hi; set_solver.
  - intros i h id Hh Hid. destruct (Hall i h Hh) as [-> ->]. cbn in Hid. set_solver.
Qed.

Theorem reachable_inv db c : reachable db c -> exists hs, Inv db (shared c) (pool c) hs.
Proof.
  induction 1 as [|c c' _ [hs I] Hst|c c' _ [hs I] He].
  - eexists. apply init_inv.
  - destruct Hst; cbn in *.
    + destruct (exec_inv _ _ _ _ _ _ _ _ _ I H H0) as [h' I']. eauto.
    + exists hs. by apply loop_inv.
    + exists hs. by eapply wait_inv.
    + exists hs. by eapply hook_inv.
  - destruct He; cbn in *.
    + eexists. by apply call_inv.
    + exists hs. by apply cancel_inv.
Qed.

(** * Safety *)

(** The pending I/O of a goroutine, and what the discipline says of it. *)
Lemma pending_io {X} db s P hs i (d : disk X) k :
  Inv db s P hs -> P !! i = Some (Vis (IO d) k) -> exists h, hs !! i = Some h /\ preIO d h.
Proof. intros I HP. destruct (inv_held _ _ _ _ _ _ I HP) as (h & Hi & [Hp _]). by exists h. Qed.

(** C12: in every execution - any number of goroutines writing, reading,
    sealing, flushing, archiving, sweeping, deleting, pruning and stopping,
    interleaved in any way - two goroutines are never about to touch the files
    or rows of the same run, unless both only read a page of its log.  ([touched]
    says what each I/O operation reads or changes; the group sync, which flushes
    written files to disk, changes nothing and is not among them.) *)
Theorem io_race_free db c i j X Y (d : disk X) (d' : disk Y) k k' id :
  reachable db c -> i <> j ->
  pool c !! i = Some (Vis (IO d) k) -> pool c !! j = Some (Vis (IO d') k') ->
  id ∈ touched d -> id ∈ touched d' ->
  readOnly d = true /\ readOnly d' = true.
Proof.
  intros [hs I]%reachable_inv Hne Hi Hj Hd Hd'.
  destruct (pending_io _ _ _ _ _ _ _ I Hi) as (h & Hh & Hp). destruct (pending_io _ _ _ _ _ _ _ I Hj) as (h' & Hh' & Hp').
  destruct (Hp id Hd) as [Ha _], (Hp' id Hd') as [Ha' _]. pose proof (i_locks _ _ _ _ I) as L.
  assert (Hsome : forall X (d : disk X) h, (if readOnly d then holdsSome h id else holdsExcl h id) -> holdsSome h id).
  { intros X0 d0 h0. destruct (readOnly d0); [done|]. intros [l Hl]. by exists l, ExclHeld. }
  destruct (Hsome _ _ _ Ha) as (l & m & Hl & Hm), (Hsome _ _ _ Ha') as (l' & m' & Hl' & Hm').
  destruct (readOnly d).
  - destruct (readOnly d'); [done|]. destruct Ha' as [l2 Hl2]. destruct Hne. symmetry.
    exact (holders_compatible _ _ _ _ _ _ _ _ _ _ _ _ _ L Hh' Hh Hl2 Hl eq_refl Hm).
  - destruct Ha as [l2 Hl2]. destruct Hne.
    exact (holders_compatible _ _ _ _ _ _ _ _ _ _ _ _ _ L Hh Hh' Hl2 Hl' eq_refl Hm').
Qed.

(** C13: in every execution, when a goroutine is about to archive, load, store,
    delete or remove a run's whole buffer or its rows, the run has no writer:
    the log of a run that is still being written is never archived as a whole
    or deleted. *)
Theorem live_buffers_kept db c i X (d : disk X) k id :
  reachable db c -> pool c !! i = Some (Vis (IO d) k) ->
  onInactive d = true -> id ∈ touched d -> id ∉ writers (shared c).
Proof.
  intros [hs I]%reachable_inv Hi Hd Hid. destruct (pending_io _ _ _ _ _ _ _ I Hi) as (h & Hh & Hp).
  destruct (Hp id Hid) as (_ & _ & Hin). exact (proj1 (i_inactive _ _ _ _ I _ _ _ Hh (Hin Hd))).
Qed.

(** C28: in every execution the archiver's queue holds each run at most once and
    never more than [maxArchiveQueue], the set [queued] says exactly what is in
    it, every deferred run has an owner whose release will queue it again, and at
    most [archiveWorkers] archive slots are taken.  A run's lock is in the map
    exactly as long as it is referenced: a lock in the map has a positive count,
    a lock with another count than zero is in the map, and no two runs share
    one.  So all who ask for a run's lock while somebody uses it get the same. *)
Theorem archiver_bounds db c :
  reachable db c ->
  let s := shared c in
  queued s = list_to_set (queue s) /\ NoDup (queue s) /\
  (Z.of_nat (length (queue s)) <= maxArchiveQueue)%Z /\
  deferred s ⊆ owners s /\ (0 <= archiveSlots s <= archiveWorkers)%Z /\
  (forall id l, runLocks s !! id = Some l -> exists k, locks s !! l = Some k /\ (0 < rl_refs k)%Z) /\
  (forall l k, locks s !! l = Some k -> rl_refs k <> 0%Z -> exists id, runLocks s !! id = Some l) /\
  (forall id id' l, runLocks s !! id = Some l -> runLocks s !! id' = Some l -> id = id').
Proof.
  intros [hs I]%reachable_inv s. subst s. destruct (i_queue _ _ _ _ I), (i_slots _ _ _ _ I) as [Hs Hle].
  split_and!; try done.
  - rewrite Hs. apply msum_nonneg. intros j h _. by case_match.
  - intros id l Hl. destruct (l_count _ _ _ _ (i_locks _ _ _ _ I) id l Hl) as (k & Hk & Hc & Hpos).
    exists k. split; [done|]. by rewrite Hc.
  - intros l k Hk Hn. by destruct (i_mapped _ _ _ _ I l k Hk).
  - exact (l_inj _ _ _ _ (i_locks _ _ _ _ I)).
Qed.

(** * Progress *)

(** The operations that may have to wait for another goroutine. *)
Definition blocking {X} (o : op X) : bool :=
  match o with
  | ClaimWait _ _ | AcquireSlot _ | Lock _ _ _ | AwaitWake | AwaitWorkers _ => true
  | _ => false
  end.

(** Every I/O operation has some outcome. *)
Definition disk_result {X} (d : disk X) : Inhabited X.
Proof. destruct d; apply populate; first [exact None | exact (Err errStore)]. Defined.

(** No goroutine has a step, and no end of a context is unnoticed. *)
Definition quiet (c : Conf) : Prop := forall c', ~ step c c'.

Section Quiet.
Context (db : bool) (s : Shared) (P : gmap Tid (prog unit)) (hs : gmap Tid Held).
Context (I : Inv db s P hs) (Q : quiet (mkConf s P)).

Lemma no_exec {X} i (o : op X) k x s' : P !! i = Some (Vis o k) -> exec i o s x s' -> False.
Proof. intros HP Hx. eapply Q. by econstructor. Qed.

Lemma lock_exists i h id l m :
  hs !! i = Some h -> h_refs h !! id = Some (l, m) -> exists k, locks s !! l = Some k.
Proof.
  intros Hi Hl. pose proof (i_locks _ _ _ _ I) as L.
  destruct (l_count _ _ _ _ L id l) as (k & Hk & _); [by eapply l_ref|]. by exists k.
Qed.

(** A goroutine has returned, or waits in a blocking operation. *)
Lemma quiet_shape i p :
  P !! i = Some p -> p = Ret tt \/ exists X (o : op X) k, p = Vis o k /\ blocking o = true.
Proof.
  intros HP. destruct (inv_held _ _ _ _ _ _ I HP) as (h & Hi & Hs).
  destruct p as [[]|X o k|R body k]; [by left| |].
  - right. exists X, o, k. split; [done|]. destruct (blocking o) eqn:Hb; [done|]. exfalso. destruct Hs as [Hp _].
    destruct o; try done; cbn in Hp;
      try (eapply no_exec; [exact HP|cbn; symmetry; apply surjective_pairing]);
      try (eapply (no_exec _ _ _ tt); [exact HP|cbn; reflexivity]).
    + destruct (lock_exists _ _ _ _ _ Hi Hp) as [k0 Hk0]. eapply no_exec; [exact HP|]. cbn. by exists k0.
    + destruct (lock_exists _ _ _ _ _ Hi Hp) as [k0 Hk0]. eapply (no_exec _ _ _ tt); [exact HP|]. cbn. by exists k0.
    + eapply (no_exec _ _ _ (bool_decide (id ∈ writers s))); [exact HP|]. cbn. by split.
    + eapply (no_exec _ _ _ (elements (writers s))); [exact HP|]. cbn. by split.
    + eapply no_exec; [exact HP|]. cbn. by split.
    + eapply no_exec; [exact HP|]. cbn. by split.
    + eapply (no_exec _ _ _ None); [exact HP|]. cbn. split; [done|by left].
    + eapply (no_exec _ _ _ (@inhabitant _ (disk_result d))); [exact HP|]. cbn. done.
  - exfalso. eapply Q. by apply (step_loop i s P body k).
Qed.

(** Who holds a run's lock and waits, owns the run and waits for the lock of
    another run it owns. *)
Lemma quiet_holder j h id l m :
  hs !! j = Some h -> h_refs h !! id = Some (l, m) -> m <> Counted ->
  id ∈ h_owned h /\ exists id' l' k, P !! j = Some (Vis (Lock id' l' true) k) /\ id' ∈ h_owned h /\
    h_refs h !! id' = Some (l', Counted).
Proof.
  intros Hj Hl Hm. destruct (inv_prog _ _ _ _ _ _ I Hj) as [p Hp]. pose proof (i_safe _ _ _ _ I _ _ _ Hp Hj) as Hs.
  destruct (quiet_shape _ _ Hp) as [->|(X & o & k & -> & Hb)].
  { destruct Hs as [(_ & Hr & _) _]. rewrite Hr, lookup_empty in Hl. done. }
  destruct Hs as [Hpre _]. destruct o; try done; cbn in Hpre.
  - destruct Hpre as [(_ & Hr & _) _]. by rewrite Hr, lookup_empty in Hl.
  - destruct Hpre as [_ Hr]. by rewrite Hr, lookup_empty in Hl.
  - destruct Hpre as [(Ho & -> & Hr & Hd)|(_ & _ & Hr)].
    + split; [|by exists id0, l0, k]. apply Hd. by apply elem_of_dom_2 in Hl.
    + rewrite Hr in Hl. apply lookup_singleton_Some in Hl as [_ Hl]. congruence.
  - destruct Hpre as [(_ & Hr & _) _]. by rewrite Hr, lookup_empty in Hl.
  - destruct Hpre as [(_ & Hr & _) _]. by rewrite Hr, lookup_empty in Hl.
Qed.

(** A lock nobody holds can be taken. *)
Lemma free_lock_steps i id l k k0 :
  P !! i = Some (Vis (Lock id l true) k) -> locks s !! l = Some k0 -> lockFree k0 = true -> False.
Proof.
  intros HP Hk Hf. destruct (decide (i ∈ rl_pending k0)) as [Hin|Hin].
  - eapply (no_exec _ _ _ tt); [exact HP|]. cbn. exists k0. split_and!; [done| |done].
    unfold canLock. by rewrite Hf, bool_decide_eq_true_2.
  - eapply Q. eapply (step_wait i s P); [exact HP|]. cbn. rewrite Hk. by rewrite decide_False.
Qed.

(** The lock of a run is held by nobody but goroutines that hold it. *)
Lemma held_lock l k : locks s !! l = Some k -> lockFree k = false ->
  exists j h id m, hs !! j = Some h /\ h_refs h !! id = Some (l, m) /\ m <> Counted.
Proof.
  intros Hk Hf. unfold lockFree in Hf. apply andb_false_iff in Hf. pose proof (i_locks _ _ _ _ I) as L.
  destruct (rl_writer k) as [j|] eqn:Ew.
  - destruct (l_writer _ _ _ _ L _ _ _ Hk Ew) as (h & id & Hh & Hl). by exists j, h, id, ExclHeld.
  - destruct Hf as [Hf|Hf]; [done|]. apply bool_decide_eq_false_1 in Hf.
    apply set_choose_L in Hf as [j Hj]. destruct (l_reader _ _ _ _ L _ _ _ Hk Hj) as (h & id & Hh & Hl).
    by exists j, h, id, SharedHeld.
Qed.

(** The owner of a run never waits for its lock in vain. *)
Lemma owner_locks j h id l k :
  P !! j = Some (Vis (Lock id l true) k) -> hs !! j = Some h -> id ∈ h_owned h ->
  h_refs h !! id = Some (l, Counted) -> False.
Proof.
  intros HP Hj Ho Hr. destruct (lock_exists _ _ _ _ _ Hj Hr) as [k0 Hk0].
  destruct (lockFree k0) eqn:Ef; [by eapply free_lock_steps|].
  destruct (held_lock _ _ Hk0 Ef) as (i & g & id' & m & Hi & Hl & Hm).
  pose proof (i_locks _ _ _ _ I) as L.
  assert (id' = id) as ->.
  { eapply (l_inj _ _ _ _ L); [exact (l_ref _ _ _ _ L _ _ _ _ _ Hi Hl)|exact (l_ref _ _ _ _ L _ _ _ _ _ Hj Hr)]. }
  destruct (quiet_holder _ _ _ _ _ Hi Hl Hm) as [Ho' _].
  assert (i = j) as -> by (eapply (own_one _ _ (i_own _ _ _ _ I)); eauto). simplify_eq.
Qed.

Lemma nobody_holds j h id l m : hs !! j = Some h -> h_refs h !! id = Some (l, m) -> m = Counted.
Proof.
  intros Hj Hl. destruct (decide (m = Counted)) as [|Hm]; [done|]. exfalso.
  destruct (quiet_holder _ _ _ _ _ Hj Hl Hm) as (_ & id' & l' & k & HP & Ho & Hr). by eapply owner_locks.
Qed.

Lemma all_locks_free l k : locks s !! l = Some k -> lockFree k = true.
Proof.
  intros Hk. destruct (lockFree k) eqn:Ef; [done|].
  destruct (held_lock _ _ Hk Ef) as (i & g & id' & m & Hi & Hl & Hm). by destruct Hm; eapply nobody_holds.
Qed.

Lemma no_lock_waits i id l e k : P !! i = Some (Vis (Lock id l e) k) -> False.
Proof.
  intros HP. destruct (inv_held _ _ _ _ _ _ I HP) as (h & Hi & [Hpre _]).
  assert (Hr : h_refs h !! id = Some (l, Counted)).
  { destruct Hpre as [(_ & _ & Hr & _)|(_ & _ & Hr)]; [done|]. rewrite Hr. apply lookup_insert_eq. }
  destruct (lock_exists _ _ _ _ _ Hi Hr) as [k0 Hk0]. pose proof (all_locks_free _ _ Hk0) as Hf.
  destruct e; [by eapply free_lock_steps|]. unfold lockFree in Hf. bools.
  destruct (decide (rl_pending k0 = ∅)) as [Hp|Hp].
  - eapply (no_exec _ _ _ tt); [exact HP|]. cbn. exists k0. split_and!; [done| |done].
    unfold canLock. by rewrite !bool_decide_eq_true_2.
  - apply set_choose_L in Hp as [j Hj].
    destruct (l_pend _ _ _ _ (i_locks _ _ _ _ I) _ _ _ Hk0 Hj) as (q & x & Hq & Hx).
    destruct q as [|X o kq|]; try done. destruct o as [| | | | | | | | | |id' l' []| | | | | | | | | | | | | | | | | | |]; try done.
    cbn in Hx. simplify_eq. eapply free_lock_steps; [exact Hq|exact Hk0|].
    unfold lockFree. by rewrite !bool_decide_eq_true_2.
Qed.

Lemma no_slot_waits i c k : P !! i = Some (Vis (AcquireSlot c) k) -> False.
Proof.
  intros HP. destruct (i_slots _ _ _ _ I) as [Hs Hle].
  destruct (decide (archiveSlots s < archiveWorkers)%Z).
  { eapply (no_exec _ _ _ None); [exact HP|]. cbn. left. by split_and!. }
  assert (Hpos : (0 < slots hs)%Z) by (unfold archiveWorkers in *; lia).
  apply msum_pos in Hpos as (j & h & Hj & Hh). destruct (inv_prog _ _ _ _ _ _ I Hj) as [p Hp].
  pose proof (i_safe _ _ _ _ I _ _ _ Hp Hj) as Hsafe.
  assert (Hslot : h_slot h = true) by (by case_match).
  destruct (quiet_shape _ _ Hp) as [->|(X & o & k' & -> & Hb)].
  { destruct Hsafe as [(_ & _ & Hn) _]. congruence. }
  destruct Hsafe as [Hpre _]. destruct o; try done; cbn in Hpre.
  - destruct Hpre as [(_ & _ & Hn) _]. congruence.
  - destruct Hpre. congruence.
  - by eapply no_lock_waits.
  - destruct Hpre as [(_ & _ & Hn) _]. congruence.
  - destruct Hpre as [(_ & _ & Hn) _]. congruence.
Qed.

Lemma nobody_owns i h : hs !! i = Some h -> h_owned h = ∅ /\ h_refs h = ∅ /\ h_slot h = false.
Proof.
  intros Hi. destruct (inv_prog _ _ _ _ _ _ I Hi) as [p Hp]. pose proof (i_safe _ _ _ _ I _ _ _ Hp Hi) as Hs.
  destruct (quiet_shape _ _ Hp) as [->|(X & o & k & -> & Hb)]; [by destruct Hs|].
  destruct Hs as [Hpre _]. destruct o; try done; cbn in Hpre.
  - by destruct Hpre.
  - by edestruct no_slot_waits.
  - by edestruct no_lock_waits.
  - by destruct Hpre.
  - by destruct Hpre.
Qed.

Lemma owners_empty : owners s = ∅.
Proof.
  apply elem_of_equiv_empty_L. intros id Hid.
  destruct (own_by _ _ (i_own _ _ _ _ I) id Hid) as (i & h & Hi & Ho).
  destruct (nobody_owns _ _ Hi) as [Hn _]. rewrite Hn in Ho. set_solver.
Qed.

Lemma no_claim_waits i c id k : P !! i = Some (Vis (ClaimWait c id) k) -> False.
Proof.
  intros HP. destruct (decide (i ∈ asleep s)) as [Ha|Ha].
  - destruct (z_sleep _ _ _ (i_sleep _ _ _ _ I) i Ha) as (p & c' & id' & _ & _ & Hid & _).
    rewrite owners_empty in Hid. set_solver.
  - destruct (claimWaited c id s) as [x s'] eqn:E. eapply (no_exec _ _ _ x s'); [exact HP|]. cbn.
    split_and!; [done| |done]. left. rewrite owners_empty. set_solver.
Qed.

(** What is left: returned, or a worker waiting for the next wake-up. *)
Lemma quiet_final i p :
  P !! i = Some p -> p = Ret tt \/
  exists k, p = Vis AwaitWake k /\ running s = true /\ wake s = false.
Proof.
  intros HP. destruct (inv_held _ _ _ _ _ _ I HP) as (h & Hi & Hs).
  assert (Hpark : forall j k, P !! j = Some (Vis AwaitWake k) -> running s = true /\ wake s = false).
  { intros j k Hj. destruct (inv_held _ _ _ _ _ _ I Hj) as (g & Hg & [Hpre _]).
    destruct (wake s) eqn:Ew; [exfalso; eapply (no_exec _ _ _ true); [exact Hj|]; cbn; by left|].
    destruct (stopped s) eqn:Es; [exfalso; eapply (no_exec _ _ _ false); [exact Hj|]; cbn; by right|].
    split; [|done]. rewrite (s_running _ _ _ (i_stop _ _ _ _ I)), Es, andb_true_r.
    eapply (s_worker _ _ _ (i_stop _ _ _ _ I)); [exact Hg|apply Hpre]. }
  destruct (quiet_shape _ _ HP) as [->|(X & o & k & -> & Hb)]; [by left|]. right.
  destruct o; try done.
  - by edestruct no_claim_waits.
  - by edestruct no_slot_waits.
  - by edestruct no_lock_waits.
  - exists k. split; [done|]. by eapply Hpark.
  - exfalso. destruct Hs as [Hpre _]. cbn in Hpre. destruct Hpre as (_ & _ & _ & Hst).
    destruct (decide (workers s = 0)%Z) as [Hz|Hz].
    { eapply (no_exec _ _ _ None); [exact HP|]. cbn. by left. }
    pose proof (i_live _ _ _ _ I) as Hl.
    assert (Hpos : (0 < live hs)%Z).
    { assert (0 <= live hs)%Z; [|lia]. apply msum_nonneg. intros j g _. by case_match. }
    apply msum_pos in Hpos as (j & g & Hj & Hg). assert (Hw : h_worker g = true) by (by case_match).
    destruct (inv_prog _ _ _ _ _ _ I Hj) as [p Hp]. pose proof (i_safe _ _ _ _ I _ _ _ Hp Hj) as Hsg.
    destruct (quiet_shape _ _ Hp) as [->|(X' & o & k' & -> & Hb')].
    { destruct Hsg as (_ & _ & _ & Hn). congruence. }
    destruct o; try done; cbn in Hsg.
    + by edestruct no_claim_waits.
    + by edestruct no_slot_waits.
    + by edestruct no_lock_waits.
    + destruct (Hpark _ _ Hp) as [Hr _]. by rewrite (stop_known _ _ _ _ _ (i_stop _ _ _ _ I) Hi Hst) in Hr.
    + destruct Hsg as [(_ & _ & Hn & _) _]. congruence.
Qed.
End Quiet.


(** C27: stopping the archiver drains its queue.  In every execution, as soon as
    one worker has exited the archiver accepts nothing more, and its queue is
    empty unless a [StopArchiver] ran out of time while it waited for the
    workers.  The archiver's context, whose end makes workers give up, ends only
    when all workers have exited or a stop ran out of time, and that is so when
    [StopArchiver] is about to cancel it. *)
Theorem stop_drains db c :
  reachable db c ->
  let s := shared c in
  ((workers s < archiveWorkers)%Z -> running s = false /\ (queue s = [] \/ late s = true)) /\
  (ArchiverCtx ∈ dead s -> workers s = 0%Z \/ late s = true) /\
  (forall i k, pool c !! i = Some (Vis CancelArchiver k) -> workers s = 0%Z \/ late s = true).
Proof.
  intros [hs I]%reachable_inv s. destruct (i_drain _ _ _ _ I) as [_ He Hw Hc]. split_and!; [done|done|].
  intros i k Hi. destruct (inv_held _ _ _ _ _ _ I Hi) as (h & Hh & [[_ Hp] _]). eauto.
Qed.
