(* ===== verification/LogOwnerDelete.v ===== *)
(** What single operations of the archive promise their callers: the report of
    [DeleteRunsContext] and the quarantine rule of [recordOrphanResult]. *)

From S2P Require Import Prelude LogWriter LogArchive LogOwner.
Open Scope prog_scope.

(** * Histories *)

(** An operation and its result. *)
Inductive Ev := | ev {X : Type} (o : op X) (x : X).

(** [paths p tr Q]: whatever its operations return, [p], called after the
    operations [tr], ends with a result and a history that satisfy [Q]. *)
Fixpoint paths {A} (p : prog A) (tr : list Ev) (Q : A -> list Ev -> Prop) {struct p} : Prop :=
  match p with
  | Ret a => Q a tr
  | Vis o k => forall x, paths (k x) (tr ++ [ev o x]) Q
  | Loop body k =>
      exists J : list Ev -> Prop, J tr /\ forall tr, J tr ->
        paths body tr (fun r tr' => match r with Some r => paths (k r) tr' Q | None => J tr' end)
  end.

Lemma paths_mono {A} (p : prog A) tr (Q Q' : A -> list Ev -> Prop) :
  (forall a tr', Q a tr' -> Q' a tr') -> paths p tr Q -> paths p tr Q'.
Proof.
  revert tr Q Q'. induction p as [A a|A X o k IH|A R body IHb k IHk]; intros tr Q Q' HQ; cbn.
  - apply HQ.
  - intros Hk x. eapply IH, Hk. apply HQ.
  - intros (J & HJ & Hb). exists J. split; [done|]. intros tr0 H0. eapply IHb, Hb, H0.
    intros [r|] tr' Hr; [|done]. by eapply IHk.
Qed.

Lemma paths_bind {A B} (p : prog A) (f : A -> prog B) tr (Q : B -> list Ev -> Prop) :
  paths p tr (fun a tr' => paths (f a) tr' Q) -> paths (pbind p f) tr Q.
Proof.
  revert tr Q. induction p as [A a|A X o k IH|A R body IHb k IHk]; intros tr Q; cbn; [done| |].
  - intros Hk x. apply IH, Hk.
  - intros (J & HJ & Hb). exists J. split; [done|]. intros tr0 H0. eapply paths_mono, Hb, H0.
    intros [r|] tr' Hr; [|done]. by apply IHk.
Qed.

(** A history only grows. *)
Definition grows (tr : list Ev) {A} (a : A) (tr' : list Ev) : Prop := tr ⊆ tr'.

Lemma forAll_grows {A} (l : list A) (turn : A -> prog unit) tr :
  (forall x tr, paths (turn x) tr (grows tr)) -> paths (forAll l turn) tr (grows tr).
Proof.
  intros Ht. revert tr. induction l as [|x l IH]; intros tr; cbn; [by unfold grows|].
  apply paths_bind. eapply paths_mono, Ht. intros a tr1 H1. eapply paths_mono, IH. intros b tr2 H2.
  unfold grows in *. by etrans.
Qed.

Lemma sub_snoc {A} (l k : list A) x : l ⊆ k -> l ⊆ k ++ [x].
Proof. intros H y Hy. apply elem_of_app. left. by apply H. Qed.

Lemma in_snoc {A} (l : list A) x : x ∈ l ++ [x].
Proof. apply elem_of_app. right. by left. Qed.

#[local] Hint Resolve sub_snoc in_snoc : core.

(** * Deleting a page of runs *)

(** The rows of [id] were deleted; its buffer was removed. *)
Definition rowsDeleted (tr : list Ev) (id : RunID) : Prop :=
  exists c ids, ev (IO (DeleteRunRows c ids)) None ∈ tr /\ id ∈ ids.
Definition removed (tr : list Ev) (id : RunID) : Prop := ev (IO (RemoveAll id)) None ∈ tr.

(** A run that was not deleted and is named in the errors, or the context ended. *)
Definition reported (errs : list DelErr) (id : RunID) : Prop :=
  beingArchived id ∈ errs \/ activeWriter id ∈ errs \/ (exists e, runDeletion id e ∈ errs) \/
  (exists e, ctxEnded e ∈ errs).

Lemma reported_mono errs errs' id : errs ⊆ errs' -> reported errs id -> reported errs' id.
Proof. intros Hs [?|[?|[[e ?]|[e ?]]]]; unfold reported; naive_solver. Qed.

Lemma unlockRun_grows id l e tr : paths (unlockRun id l e) tr (grows tr).
Proof. intros x y. unfold grows. set_solver. Qed.

Lemma releaseRun_grows id tr : paths (releaseRun id) tr (grows tr).
Proof. intros [] ; cbn; [intros x|]; unfold grows; set_solver. Qed.

(** Every run asked for is held afterwards, or reported. *)
Lemma holdRuns_paths c ids seen held errs tr :
  (forall id, id ∈ seen -> id ∈ held.*1 \/ reported errs id) ->
  paths (holdRuns c ids seen held errs) tr (fun r tr' =>
    tr ⊆ tr' /\ held ⊆ r.1 /\ errs ⊆ r.2 /\ (forall id, id ∈ r.1.*1 -> id ∈ held.*1 \/ id ∈ ids) /\
    forall id, id ∈ seen \/ id ∈ ids -> id ∈ r.1.*1 \/ reported r.2 id).
Proof.
  revert seen held errs tr. induction ids as [|id ids IH]; intros seen held errs tr Hseen.
  { cbn. split_and!; try done; [by left|]. intros x [|Hx%elem_of_nil]; [by apply Hseen|done]. }
  cbn [holdRuns]. case_decide as Hid.
  { eapply paths_mono, IH, Hseen. intros r tr' (H1 & H2 & H3 & H4 & H5). split_and!; try done; [naive_solver by set_solver|].
    intros x [Hx|[->|Hx]%elem_of_cons]; apply H5; auto. }
  assert (Hstep : forall held1 errs1 tr1, tr ⊆ tr1 -> held ⊆ held1 -> errs ⊆ errs1 ->
    (forall x, x ∈ held1.*1 -> x ∈ held.*1 \/ x = id) -> (id ∈ held1.*1 \/ reported errs1 id) ->
    paths (holdRuns c ids ({[id]} ∪ seen) held1 errs1) tr1 (fun r tr' =>
      tr ⊆ tr' /\ held ⊆ r.1 /\ errs ⊆ r.2 /\ (forall x, x ∈ r.1.*1 -> x ∈ held.*1 \/ x ∈ id :: ids) /\
      forall x, x ∈ seen \/ x ∈ id :: ids -> x ∈ r.1.*1 \/ reported r.2 x)).
  { intros held1 errs1 tr1 Ht Hh He Hh1 Hdone. eapply paths_mono; [|apply IH].
    - intros r tr' (H1 & H2 & H3 & H4 & H5). split_and!; [by etrans..| |].
      + intros x Hx. destruct (H4 x Hx) as [Hx'|]; [destruct (Hh1 x Hx'); set_solver|set_solver].
      + intros x Hx. apply H5. set_solver.
    - intros x [->%elem_of_singleton|Hx]%elem_of_union; [done|].
      destruct (Hseen x Hx) as [Hx'|Hx']; [left; set_solver|right; by eapply reported_mono]. }
  cbn. intros [e|]; cbn.
  { split_and!; [set_solver|done|set_solver|by left|]. intros x _. right. right; right; right. exists e. set_solver. }
  intros []; cbn.
  - intros l u active. destruct active.
    + intros u1 u2 []; [intros x|]; (apply Hstep; [set_solver|done|set_solver|by left|right; right; left; set_solver]).
    + apply Hstep; [set_solver|set_solver|done| |left; rewrite fmap_app; set_solver].
      intros x. rewrite fmap_app. cbn. set_solver.
  - apply Hstep; [set_solver|done|set_solver|by left|right; left; set_solver].
Qed.

Lemma rowsDeleted_mono tr tr' id : tr ⊆ tr' -> rowsDeleted tr id -> rowsDeleted tr' id.
Proof. intros Hs (c & ids & Hin & Hid). exists c, ids. auto. Qed.

(** The runs the last loop returns lost their rows and then their buffers, and
    the others are reported. *)
Lemma deleteHeld_paths db c failed ids errs tr :
  (forall id, id ∈ ids -> failed = false -> db = true -> rowsDeleted tr id) ->
  paths (deleteHeld c failed ids errs) tr (fun r tr' =>
    tr ⊆ tr' /\ errs ⊆ r.2 /\
    (forall id, id ∈ r.1 -> id ∈ ids /\ removed tr' id /\ (db = true -> rowsDeleted tr' id)) /\
    forall id, id ∈ ids -> id ∈ r.1 \/ reported r.2 id).
Proof.
  revert errs tr. induction ids as [|id ids IH]; intros errs tr Hrows.
  { cbn. split_and!; [done|done|intros x Hx; by apply elem_of_nil in Hx|intros x Hx; by apply elem_of_nil in Hx]. }
  (* the run is reported *)
  assert (Hskip : forall errs1 tr1, tr ⊆ tr1 -> errs ⊆ errs1 -> reported errs1 id ->
    paths (deleteHeld c failed ids errs1) tr1 (fun r tr' =>
      tr ⊆ tr' /\ errs ⊆ r.2 /\
      (forall x, x ∈ r.1 -> x ∈ id :: ids /\ removed tr' x /\ (db = true -> rowsDeleted tr' x)) /\
      forall x, x ∈ id :: ids -> x ∈ r.1 \/ reported r.2 x)).
  { intros errs1 tr1 Ht He Hr. eapply paths_mono; [|apply IH].
    - intros r tr' (H1 & H2 & H3 & H4). split_and!; [by etrans|by etrans| |].
      + intros x Hx. destruct (H3 x Hx) as [? ?]. split; [by right|done].
      + intros x [->|Hx]%elem_of_cons; [right; by eapply reported_mono|auto].
    - intros x Hx Hf Hdb. eapply rowsDeleted_mono; [exact Ht|]. apply Hrows; [by right|done..]. }
  (* its rows are gone: remove the buffer *)
  assert (Hrm : forall tr1, tr ⊆ tr1 -> (db = true -> rowsDeleted tr1 id) ->
    paths (let* e := do (IO (RemoveAll id)) in
      match e with
      | Some e => deleteHeld c failed ids (errs ++ [runDeletion id e])
      | None => let* r := deleteHeld c failed ids errs in Ret (id :: r.1, r.2)
      end) tr1 (fun r tr' =>
      tr ⊆ tr' /\ errs ⊆ r.2 /\
      (forall x, x ∈ r.1 -> x ∈ id :: ids /\ removed tr' x /\ (db = true -> rowsDeleted tr' x)) /\
      forall x, x ∈ id :: ids -> x ∈ r.1 \/ reported r.2 x)).
  { intros tr1 Ht Hdel. cbn. intros [e|].
    - apply Hskip; [auto|auto|]. right; right; left. exists e. auto.
    - apply paths_bind. eapply paths_mono; [|apply IH].
      + intros r tr' (H1 & H2 & H3 & H4). cbn. split_and!; [by etrans; [|exact H1]; auto|done| |].
        * intros x [->|Hx]%elem_of_cons; [|destruct (H3 x Hx); split; [by right|done]].
          split_and!; [by left|apply H1; auto|]. intros Hdb. eapply rowsDeleted_mono, Hdel, Hdb. etrans; [|exact H1]. auto.
        * intros x [->|Hx]%elem_of_cons; [left; by left|]. destruct (H4 x Hx); [left; by right|by right].
      + intros x Hx Hf Hdb. eapply rowsDeleted_mono; [|apply Hrows; [by right|done..]]. auto. }
  cbn [deleteHeld]. destruct failed.
  - cbn. intros [e|]; cbn.
    + split_and!; [auto|auto|intros x Hx; by apply elem_of_nil in Hx|].
      intros x _. right. right; right; right. exists e. auto.
    + intros [e|].
      * apply Hskip; [auto|auto|]. right; right; left. exists e. auto.
      * apply Hrm; [auto|]. intros _. exists c, [id]. split; [auto|by left].
  - apply Hrm; [done|]. intros Hdb. apply Hrows; [by left|done..].
Qed.

(** C26: the report of [DeleteRunsContext] is exact, whatever the database and
    the file system answer and however other goroutines hold the runs: every run
    it returns was asked for, its rows were deleted and its buffer was removed;
    every other run asked for is named in the returned errors, unless the context
    ended, which the errors then say. *)
Theorem deleteRuns_reports db c ids :
  paths (DeleteRunsContext db c ids) [] (fun r tr =>
    (forall id, id ∈ r.1 -> id ∈ ids /\ removed tr id /\ (db = true -> rowsDeleted tr id)) /\
    (forall id, id ∈ ids -> id ∈ r.1 \/ reported r.2 id)).
Proof.
  unfold DeleteRunsContext. apply paths_bind.
  eapply paths_mono; [|apply (holdRuns_paths c ids ∅ [] [] []); set_solver].
  intros [held errs] tr (_ & _ & _ & Hheld & Hall). cbn in Hheld, Hall. apply paths_bind.
  apply (paths_mono _ _ (fun e tr1 => tr ⊆ tr1 /\
    forall id, id ∈ held.*1 -> bool_decide (is_Some e) = false -> db = true -> rowsDeleted tr1 id)).
  2:{ destruct db; cbn [andb]; [|by cbn]. destruct held as [|r held]; [cbn; split; set_solver|].
      cbn. intros e. split; [set_solver|]. intros id Hid He _. destruct e; [by rewrite bool_decide_eq_true_2 in He by eauto|].
      exists c, (r :: held).*1. set_solver. }
  intros e tr1 [Ht1 Hrows]. apply paths_bind.
  eapply paths_mono; [|by apply (deleteHeld_paths db)].
  intros r tr2 (Ht2 & He & Hdel & Hrest). apply paths_bind.
  eapply paths_mono; [|apply forAll_grows].
  - intros ? tr3 Ht3. unfold grows in Ht3. cbn. split.
    + intros id Hid. destruct (Hdel id Hid) as (Hin & Hrm & Hro). split_and!.
      * destruct (Hheld id Hin) as [Hx%elem_of_nil|]; done.
      * by apply Ht3.
      * intros Hdb. eapply rowsDeleted_mono; [exact Ht3|auto].
    + intros id Hid. destruct (Hall id) as [Hh|Hr]; [by right|auto|].
      right. eapply reported_mono; [|exact Hr]. set_solver.
  - intros x tr3. apply paths_bind. eapply paths_mono; [|apply unlockRun_grows]. intros u tr4 H4.
    eapply paths_mono; [|apply releaseRun_grows]. intros u' tr5 H5. unfold grows in *. by etrans.
Qed.

(** * Quarantine *)

(** How [recordOrphanResult] reads an outcome. *)
Inductive Outcome := Ignored | Cleared | Failed.

Definition outcomeOf (cause : option WErr) : Outcome :=
  match cause with
  | Some errCanceled => Ignored
  | None | Some errArchiveDB | Some errChunkQuarantined => Cleared
  | Some _ => Failed
  end.

(** Consecutive failures, interruptions apart. *)
Definition streak (cs : list (option WErr)) : Z :=
  fold_left (fun n c => match outcomeOf c with Ignored => n | Cleared => 0 | Failed => n + 1 end)%Z cs 0%Z.

(** The state after the outcomes [cs] of run [id]. *)
Definition recorded (id : RunID) (cs : list (option WErr)) (s : Shared) : Shared :=
  fold_left (fun s c => (recordResult id c s).2) cs s.

Lemma streak_snoc cs c :
  streak (cs ++ [c]) = (match outcomeOf c with Ignored => streak cs | Cleared => 0 | Failed => streak cs + 1 end)%Z.
Proof. unfold streak. by rewrite fold_left_app. Qed.

Lemma streak_nonneg cs : (0 <= streak cs)%Z.
Proof. induction cs as [|c cs IH] using rev_ind; [done|]. rewrite streak_snoc. case_match; lia. Qed.

(** What one outcome does to the counter. *)
Lemma recordResult_counter id c s :
  let n := default 0%Z (orphanFailures s !! id) in
  let r := recordResult id c s in
  match outcomeOf c with
  | Ignored => r.1 = false /\ default 0%Z (orphanFailures r.2 !! id) = n
  | Cleared => r.1 = false /\ default 0%Z (orphanFailures r.2 !! id) = 0%Z
  | Failed => r.1 = (orphanQuarantineAfter <=? n + 1)%Z /\
      default 0%Z (orphanFailures r.2 !! id) = (if orphanQuarantineAfter <=? n + 1 then 0 else n + 1)%Z
  end.
Proof.
  unfold recordResult. destruct c as [[]|]; cbn;
    repeat match goal with |- context [(?a <=? ?b)%Z] => destruct (a <=? b)%Z end; cbn;
    rewrite ?lookup_delete_eq, ?lookup_insert_eq; done.
Qed.

Lemma recorded_counter id cs s :
  orphanFailures s !! id = None ->
  default 0%Z (orphanFailures (recorded id cs s) !! id) = (streak cs mod orphanQuarantineAfter)%Z.
Proof.
  intros Hs. induction cs as [|c cs IH] using rev_ind; [cbn; by rewrite Hs|].
  unfold recorded in *. rewrite fold_left_app, streak_snoc. cbn.
  pose proof (recordResult_counter id c (fold_left (fun s c => (recordResult id c s).2) cs s)) as Hr.
  pose proof (streak_nonneg cs) as Hn. pose proof (Z.mod_pos_bound (streak cs) 3) as Hb.
  unfold orphanQuarantineAfter in *. cbn in Hr. rewrite IH in Hr.
  destruct (outcomeOf c); destruct Hr as [_ ->]; [done|done|].
  destruct (Z.leb_spec 3 (streak cs mod 3 + 1)); Z.div_mod_to_equations; lia.
Qed.

(** A buffer is quarantined exactly on every third consecutive failure that
    its own contents cause.  Interrupted attempts do not count, and a success, a
    database failure or a chunk set aside starts the count again. *)
Theorem quarantine_third id cs c s :
  orphanFailures s !! id = None ->
  (recordResult id c (recorded id cs s)).1 = true <->
  outcomeOf c = Failed /\ (streak (cs ++ [c]) mod orphanQuarantineAfter = 0)%Z.
Proof.
  intros Hs. pose proof (recorded_counter id cs s Hs) as Hc. rewrite streak_snoc.
  pose proof (recordResult_counter id c (recorded id cs s)) as Hr. rewrite Hc in Hr.
  pose proof (streak_nonneg cs) as Hn. pose proof (Z.mod_pos_bound (streak cs) 3) as Hb.
  unfold orphanQuarantineAfter in *. destruct (outcomeOf c); destruct Hr as [-> _]; [naive_solver..|].
  rewrite Z.leb_le. split; [intros H; split; [done|]|intros [_ H]]; Z.div_mod_to_equations; lia.
Qed.
