(* ===== verification/LogOwnerDemo.v ===== *)
(** Executions of the archive's goroutines, computed: a scheduler that runs the
    model of LogOwner with given outcomes of I/O, and the scenarios that show
    the hypotheses of the theorems of LogOwnerFacts can hold. *)

From S2P Require Import Prelude LogWriter LogArchive LogOwner LogOwnerSafe LogOwnerInv LogOwnerFacts LogOwnerDelete.
Open Scope Z_scope.
Open Scope prog_scope.

(** * A scheduler *)

(** I/O that succeeds; the log directory holds the buffers [ids]. *)
Definition smooth (ids : list RunID) {X} (d : disk X) : X :=
  match d in disk X return X with
  | loadShortRun _ => Some (100, 1)
  | ReadDir | ReadFilesDir => Ok ((fun id => (id, true)) <$> ids)
  | EntryInfo _ => Ok 0
  | sealBuffer _ => Ok 1
  | archiveBatchLocked _ _ _ => Ok false
  | removeBuffer _ => Ok 100
  | archiveOrphan _ _ | PutRuns _ _ | RemoveAll _ | DeleteRunRows _ _ | quarantineRename _ | openBuffer _
  | writeBuffer _ | closeBuffer _ | readPage _ | removeUnreferenced _ _ => None
  end.

(** The result of an operation that can proceed. *)
Definition exec1 (ids : list RunID) (i : Tid) {X} (o : op X) (s : Shared) : option (X * Shared) :=
  match o in op X return option (X * Shared) with
  | Claim id => Some (claim id s)
  | AfterFunc c => Some (tt, s <| hooks ::= <[i := c]> |>)
  | StopFunc => Some (tt, s <| hooks ::= delete i |>)
  | ClaimWait c id =>
      if decide ((i ∉ asleep s) /\ (id ∉ owners s \/ c ∈ dead s)) then Some (claimWaited c id s) else None
  | Release id => Some (release id s)
  | Enqueue id => Some (enqueue id s)
  | AcquireSlot c =>
      if archiveSlots s <? archiveWorkers then Some (None, s <| archiveSlots ::= Z.add 1 |>) else None
  | FreeSlot => Some (tt, s <| archiveSlots ::= fun n => n - 1 |>)
  | RefLock id => Some (refRunLock id s)
  | TryLock id l =>
      match locks s !! l with
      | Some k => Some (canTry k, if canTry k then s <| locks ::= <[l := locked i true k]> |> else s)
      | None => None
      end
  | Lock id l e =>
      match locks s !! l with
      | Some k => if canLock i e k then Some (tt, s <| locks ::= <[l := locked i e k]> |>) else None
      | None => None
      end
  | Unlock id l e =>
      match locks s !! l with
      | Some k => Some (tt, s <| locks ::= <[l := unlocked i e k]> |>)
      | None => None
      end
  | UnrefLock id l => Some (tt, unrefRunLock id l s)
  | Active id =>
      let x := bool_decide (id ∈ writers s) in
      Some (x, if x then s <| due ::= fun o => o ∖ {[id]} |> else s)
  | Register id => Some (tt, s <| writers ::= union {[id]} |>)
  | Unregister id => Some (tt, s <| writers ::= fun o => o ∖ {[id]} |>)
  | Writers => Some (elements (writers s), s)
  | TakeBatch => Some (takeBatch s)
  | Swept => Some (tt, s <| sweeping := false |>)
  | AwaitWake =>
      if wake s then Some (true, s <| wake := false |>) else if stopped s then Some (false, s) else None
  | QueueEmpty => Some (bool_decide (queue s = []), s)
  | ClaimBatch ids => Some (claimBatch ids s)
  | CtxErr c => Some (if decide (c ∈ dead s) then Some errCanceled else None, s)
  | RecordResult id cause => Some (recordResult id cause s)
  | AwaitSync _ => Some (None, s)
  | StopBegin => Some (stopBegin s)
  | AwaitWorkers c => if workers s =? 0 then Some (None, s) else None
  | CancelArchiver => Some (tt, s <| dead ::= union {[ArchiverCtx]} |>)
  | WorkerDone => Some (tt, s <| workers ::= fun n => n - 1 |>)
  | IO d => Some (smooth ids d, s)
  end.

Lemma exec1_sound ids i {X} (o : op X) s x s' : exec1 ids i o s = Some (x, s') -> exec i o s x s'.
Proof.
  destruct o; cbn; try (by intros [= -> ->] || by intros [= <- <-]); try (intros [= H]; by rewrite H).
  - case_decide as Hd; [|done]. intros [= H]. rewrite H. by destruct Hd.
  - case_match eqn:E; [|done]. intros [= <- <-]. left. apply Z.ltb_lt in E. done.
  - case_match eqn:E; [|done]. intros [= <- <-]. by eexists.
  - case_match eqn:E; [|done]. destruct (canLock i exclusive _) eqn:Ec; [|done]. intros [= <-]. by eexists.
  - case_match eqn:E; [|done]. intros [= <-]. by eexists.
  - destruct (wake s) eqn:Ew; [intros [= <- <-]; by left|]. destruct (stopped s) eqn:Es; [|done].
    intros [= <- <-]. by right.
  - intros [= <- <-]. auto.
  - case_match eqn:E; [|done]. intros [= <- <-]. apply Z.eqb_eq in E. auto.
Qed.

(** One step of goroutine [i], if it has one. *)
Definition step1 (ids : list RunID) (i : Tid) (c : Conf) : Conf :=
  match pool c !! i with
  | Some (Vis o k) =>
      match exec1 ids i o (shared c) with
      | Some (x, s') => mkConf s' (<[i := k x]> (pool c))
      | None =>
          match waits i (Vis o k) (shared c) with
          | Some s' => mkConf s' (pool c)
          | None => c
          end
      end
  | Some (Loop body k) => mkConf (shared c) (<[i := unroll body k]> (pool c))
  | _ => c
  end.

(** Directions: let goroutine [i] take [n] steps, or make a call on it. *)
Inductive Direction := dRun (i : Tid) (n : nat) | dCall (i : Tid) (call : Call).

Definition direct (db : bool) (ids : list RunID) (d : Direction) (c : Conf) : Conf :=
  match d with
  | dRun i n => Nat.iter n (step1 ids i) c
  | dCall i call =>
      match pool c !! i with
      | None => mkConf (shared c) (<[i := runCall db call]> (pool c))
      | Some _ => c
      end
  end.

Definition play (db : bool) (ids : list RunID) (ds : list Direction) : Conf :=
  fold_left (fun c d => direct db ids d c) ds (initial db).

#[local] Arguments waits : simpl never.
#[local] Arguments exec1 : simpl never.

Lemma step1_reachable db ids i c : reachable db c -> reachable db (step1 ids i c).
Proof.
  intros Hc. unfold step1. destruct c as [s P]. cbn. destruct (P !! i) as [[a|X o k|R body k]|] eqn:E; try done.
  - destruct (exec1 ids i o s) as [[x s']|] eqn:Ex.
    + eapply reach_step; [exact Hc|]. eapply step_op; [exact E|by eapply exec1_sound].
    + destruct (waits i (Vis o k) s) as [s'|] eqn:Ew; [|done].
      eapply reach_step; [exact Hc|]. by eapply step_wait.
  - eapply reach_step; [exact Hc|]. by apply step_loop.
Qed.

Lemma play_reachable db ids ds : reachable db (play db ids ds).
Proof.
  unfold play. assert (Hg : forall c, reachable db c -> reachable db (fold_left (fun c d => direct db ids d c) ds c));
    [|apply Hg, reach_init].
  induction ds as [|d ds IH]; intros c Hc; [done|]. apply IH. destruct d as [i n|i call]; cbn.
  - induction n as [|n IHn]; [done|]. by apply step1_reachable.
  - destruct (pool c !! i) eqn:E; [done|]. destruct c. eapply reach_env; [exact Hc|]. by apply env_call.
Qed.

(** Every goroutine has returned or waits for a wake-up that did not come. *)
Definition parkedIn {A} (s : Shared) (p : prog A) : bool :=
  match p with
  | Ret _ => true
  | Vis AwaitWake _ => negb (wake s) && negb (stopped s)
  | _ => false
  end.

Definition parked (c : Conf) : bool :=
  bool_decide (hooks (shared c) = ∅) &&
  forallb (fun ip => parkedIn (shared c) ip.2) (map_to_list (pool c)).

Lemma parked_quiet c : parked c = true -> quiet c.
Proof.
  intros [Hh Hp]%andb_true_iff c' Hst. apply bool_decide_eq_true_1 in Hh.
  assert (Hall : forall i p, pool c !! i = Some p -> parkedIn (shared c) p = true).
  { intros i p Hi. rewrite forallb_forall in Hp. apply (Hp (i, p)). by apply list_elem_of_In, elem_of_map_to_list. }
  destruct Hst as [i s P X o k x s' Hi Hx|i s P R body k Hi|i s P p s' Hi Hw|i s P c Hi _]; cbn in *.
  - specialize (Hall _ _ Hi). destruct o; try done. cbn in Hall, Hx. bools.
    destruct Hx as [(Hx & _)|(Hx & _)]; congruence.
  - by specialize (Hall _ _ Hi).
  - specialize (Hall _ _ Hi). destruct p as [|X o k|]; try done. by destruct o.
  - by rewrite Hh, lookup_empty in Hi.
Qed.

(** * Scenarios *)

(** Two runs are opened, written and sealed while both workers wait; the first
    worker takes both in one batch, the second finds nothing. *)
Definition twoRuns : list Direction :=
  [ dRun 0 10; dRun 1 10;
    dCall 2 (cOpen "a"); dRun 2 40; dCall 3 (cOpen "b"); dRun 3 40;
    dCall 4 (cWrite "a"); dRun 4 40;
    dCall 5 (cSeal "a"); dRun 5 60; dCall 6 (cSeal "b"); dRun 6 60 ].

Example twoRuns_queued :
  let s := shared (play true ["a"; "b"] twoRuns) in
  queue s = ["a"; "b"] /\ due s = {["a"; "b"]} /\ wake s = true /\ writers s = ∅.
Proof. vm_compute. done. Qed.

(** The workers finish both. *)
Definition settledRuns : Conf := play true ["a"; "b"] (twoRuns ++ [dRun 0 200; dRun 1 200]).


(** Two readers of one log, both about to read. *)
Definition twoReaders : Conf :=
  play true [] [dCall 2 (cRead "a"); dRun 2 2; dCall 3 (cRead "a"); dRun 3 2].

Lemma io_race_free_witness :
  exists k k', pool twoReaders !! 2%nat = Some (Vis (IO (readPage "a")) k) /\
    pool twoReaders !! 3%nat = Some (Vis (IO (readPage "a")) k') /\
    (readOnly (readPage "a") = true /\ readOnly (readPage "a") = true).
Proof.
  eexists _, _. split; [vm_compute; reflexivity|]. split; [vm_compute; reflexivity|].
  eapply (io_race_free true twoReaders 2 3 _ _ (readPage "a") (readPage "a") _ _ "a");
    [apply play_reachable|done|vm_compute; reflexivity|vm_compute; reflexivity|by left|by left].
Defined.

(** A worker about to archive a sealed run. *)
Definition archiving : Conf :=
  play true ["a"]
    [dCall 2 (cOpen "a"); dRun 2 40; dCall 3 (cSeal "a"); dRun 3 60; dRun 0 8].

Lemma live_buffers_kept_witness :
  exists k, pool archiving !! 0%nat = Some (Vis (IO (archiveOrphan ArchiverCtx "a")) k) /\
    "a" ∉ writers (shared archiving).
Proof.
  eexists. split; [vm_compute; reflexivity|].
  eapply (live_buffers_kept true archiving 0 _ (archiveOrphan ArchiverCtx "a") _ "a");
    [apply play_reachable|vm_compute; reflexivity|reflexivity|by left].
Defined.

Lemma archiver_bounds_witness :
  reachable true (play true ["a"; "b"] twoRuns) /\
  (Z.of_nat (length (queue (shared (play true ["a"; "b"] twoRuns)))) <= maxArchiveQueue)%Z.
Proof.
  split; [apply play_reachable|].
  destruct (archiver_bounds true (play true ["a"; "b"] twoRuns) (play_reachable _ _ _)) as (_ & _ & H & _). exact H.
Defined.

(** The archiver is stopped with two runs in its queue. *)
Definition stoppedRuns : Conf :=
  play true ["a"; "b"] (twoRuns ++ [dCall 7 (cStopArchiver (CallerCtx 0)); dRun 7 10; dRun 0 200; dRun 1 200; dRun 7 20]).

Lemma stop_drains_witness :
  reachable true stoppedRuns /\ (workers (shared stoppedRuns) < archiveWorkers)%Z /\
  late (shared stoppedRuns) = false /\ queue (shared stoppedRuns) = [].
Proof.
  assert (Hw : (workers (shared stoppedRuns) < archiveWorkers)%Z) by (vm_compute; reflexivity).
  assert (Hl : late (shared stoppedRuns) = false) by (vm_compute; reflexivity).
  split; [apply play_reachable|]. split; [exact Hw|]. split; [exact Hl|].
  destruct (stop_drains true stoppedRuns (play_reachable _ _ _)) as [H _]. destruct (H Hw) as [_ [Hq|Hq]]; congruence.
Defined.

(** Every run was archived, and every goroutine has returned. *)
Example stopped_clean :
  let c := stoppedRuns in
  queue (shared c) = [] /\ due (shared c) = ∅ /\ workers (shared c) = 0 /\
  forallb (fun ip => match ip.2 with Ret _ => true | _ => false end) (map_to_list (pool c)) = true.
Proof. vm_compute. done. Qed.

Lemma quarantine_third_witness :
  orphanFailures New !! "a" = None /\
  ((recordResult "a" (Some errRemove) (recorded "a" [Some errRemove; Some errCanceled; Some errRemove] New)).1 = true <->
   outcomeOf (Some errRemove) = Failed /\
   (streak ([Some errRemove; Some errCanceled; Some errRemove] ++ [Some errRemove]) mod orphanQuarantineAfter = 0)%Z).
Proof. split; [reflexivity|]. apply (quarantine_third "a" _ _ New). reflexivity. Defined.
